(* ===== verification/_CoqProject ===== *)
-Q . S2P
Prelude.v
GoStrings.v
GoText.v
Json.v
JsonEncode.v
JsonShape.v
JsonIndent.v
GoURL.v
GoMux.v
GoTime.v
GoParse.v
GoFlag.v
Domain.v
GoJson.v
Matcher.v
Bus.v
Storage.v
Sbom.v
SbomNpm.v
SbomCargo.v
SbomGomod.v
SbomPypi.v
SbomMaven.v
MemoryStore.v
Wire.v
ApiBodies.v
Engine.v
Samples.v
Conformance.v
Detector.v
MaintainerDrift.v
OidcRegression.v
VersionJump.v
Matching.v
IocForward.v
Orchestrator.v
Handlers.v
EngineInvariant.v
HandlerSpecs.v
System.v
ApiTypes.v
Stream.v
SlackNotifier.v
Router.v
Auth.v
HttpApi.v
Native.v
Httpx.v
NpmIngestor.v
GithubIngestor.v
PgColumns.v
PgDecode.v
StreamEvents.v
ApiJson.v
Postgres.v
PgLogic.v
PgView.v
PgReads.v
PgFilter.v
PgWrites.v
PostgresLaws.v
PgSamples.v
ApiAnswers.v
Lockfiles.v
LockfileFixture.v
LoadCorpus.v
StoreScripts.v
PgPublishers.v
PgRefinement.v
Backends.v
PgBehaviours.v
PostgresEngine.v
PgPool.v
Scheduler.v
Monitoring.v
Config.v
Cli.v
App.v
Precommit.v
