(* ===== verification/Prelude.v ===== *)
(** * rampart: a verification development

    rampart watches the dependencies of an organisation's components for
    compromised packages. Its engine (src/engine, Go) keeps a catalogue of
    components, the SBOMs parsed from their lockfiles, the indicators of
    compromise (IoCs) published against packages, and the incidents opened
    where an IoC meets an SBOM; it serves them over a REST API, announces
    what happens on an in-process event bus, and stores everything behind a
    [Storage] interface. This library models that engine as executable
    functions and proves what makes it correct.

    ** The parts and the files that model them

    - Prelude.v (this file): the Go runtime as the code relies on it. Errors
      with wrapping and [errors.Is], results, 64-bit wrap-around, times
      as nanoseconds with 0 for the zero time, and [GoRuntime]: the order in
      which a map is ranged over and the permutation an unstable sort
      chooses, both arbitrary, handed in per call.
    - GoStrings.v: package strings and net/url as far as used. ASCII case
      mapping is computed, the rest of Unicode is the class [UnicodeCase].
    - Domain.v: src/engine/internal/domain. Records and constants with the
      code's names, [ParseComponentRef], [CanonicalPURL], the validators,
      the incident state machine ([CanTransitionTo], [Transition]), the
      domain events.
    - Matcher.v: internal/matcher. [Evaluate] of an IoC on an SBOM, over the
      class [Semver] that stands for the third-party semver package.
    - Bus.v: internal/events. Buffered channels, [Subscribe], cancel
      functions, [Publish] with its eviction of slow consumers; [bus_step]
      interleaves them.
    - Storage.v: internal/storage. The class [Storage] has the interface's
      28 methods; [StorageLaws] is the contract: an abstract [View] of the
      stored records, an invariant, and for each method what it returns and
      how it changes the view, up to what the backend keeps of a value (the
      class [Keeping]).
    - MemoryStore.v: internal/storage/memory. The maps and methods of the
      in-memory store and the instance of the contract.
    - Wire.v: the records of api/gen/api.gen.go and the conversions of the
      handlers (toGen..., fromGen...).
    - Engine.v: the monad the handlers run in: a [World] of store, published
      events and a counter of effects; the environment [Env] supplies, per
      effect, the clock, the storage outcome, map orders and ULIDs. [wp] is
      the weakest precondition the proofs compute with.
    - Matching.v: internal/api/matching.go. Which components an IoC affects,
      and the deduplicating opening of incidents.
    - IocForward.v: internal/iocforward. The same for the anomaly path.
    - Handlers.v: internal/api/handlers_*.go, the handlers of server.go and
      engine/ingestion. From a decoded request to a response.
    - EngineInvariant.v: all requests as one type, their service in sequence,
      and the invariants of the whole engine.
    - HandlerSpecs.v: what single endpoints do.
    - Samples.v: concrete environment, store and records for the witnesses.
    - GoText.v: runes, white space, searching from the right and the line
      scanner; Json.v: [json.Unmarshal], a byte-wise scanner with the
      package's nesting limit and the storing of values in structs and maps;
      JsonEncode.v, JsonIndent.v: [json.Marshal] and the indenting encoder,
      with their round trips through the scanner; JsonShape.v: what it means
      for a document to describe a value, whatever the order of its members; GoTime.v: RFC 3339 times;
      GoParse.v: [fmt.Sscanf] of an integer and [time.ParseDuration];
      GoFlag.v: the flag package and file paths; GoURL.v, GoMux.v: URLs,
      clean paths and [http.ServeMux]; GoJson.v: the decoding of the types
      the API and the database columns use.
    - Sbom.v, SbomNpm.v, SbomCargo.v, SbomGomod.v, SbomPypi.v, SbomMaven.v:
      the lockfile parsers of src/engine/sbom, one file each, and what they
      share. The npm parser is the one the HTTP server uses; it discharges
      the parser law of EngineInvariant.v.
    - Detector.v, MaintainerDrift.v, OidcRegression.v, VersionJump.v: the
      anomaly detectors of src/engine/anomaly; Orchestrator.v: the tick that
      runs them, saves what they find and submits it through IocForward.
    - System.v: requests and ticks interleaved; the invariants of the whole.
    - PgColumns.v, PgDecode.v, Postgres.v: internal/storage/postgres. Every
      method of the backend over the tables of the seven migrations, each
      statement written out from its SQL text; it may be executed, fail, be
      refused, or lose its answer. PgLogic.v has the rules for statements,
      PgView.v the tables as a [View] and their invariant, PgReads.v,
      PgFilter.v and PgWrites.v the methods, PostgresLaws.v the instance of
      the contract, PgSamples.v a concrete database.
    - StoreScripts.v, PgRefinement.v, Backends.v: scripts of writes, on any
      backend, on Postgres and on both; PgBehaviours.v, PgPublishers.v: what
      Postgres does otherwise; PostgresEngine.v: the engine on Postgres;
      PgPool.v: concurrent listings and the connection pool.
    - Conformance.v: internal/storage/storagetest, the suite of contract
      tests.
    - ApiBodies.v, Router.v, HttpApi.v: the request bodies of api.gen.go, its
      routes and wrappers, and [Server.Handler] as a whole; ApiJson.v,
      ApiAnswers.v: what [writeJSON] writes and what a client reads;
      StreamEvents.v: the event union of api.gen.go.
    - ApiTypes.v: the handlers' responses against schemas/openapi.yaml.
    - Stream.v: internal/api/sse.go, events as frames on a connection that
      may break; SlackNotifier.v: src/integrations/slack-notifier, the reader
      at the other end, and the messages it posts.
    - Auth.v: internal/api/middleware and handlers_auth.go. The middlewares
      as functions on handlers, token issuance, and the class [JWT].
    - Native.v: internal/ingestion/native, the client of the parser sidecar,
      and the sidecar's half of the protocol (src/native, Rust).
    - Httpx.v, NpmIngestor.v, GithubIngestor.v, Scheduler.v: src/engine/
      publisher. The retrying HTTP client as a trace of requests and pauses,
      the two ingestors, the class [IngestorLaws] they satisfy, and the
      scheduler, which is proved against that class and [StorageLaws].
    - Monitoring.v: requests, refresh ticks and anomaly ticks together.
    - Config.v: internal/config. The environment as a map.
    - Cli.v: src/cli. The scan command and its three formats.
    - App.v: internal/app. What the process builds from its environment, the
      parse-sbom command, and what [Run] starts and stops; Precommit.v: the
      pre-commit hook.
    - Lockfiles.v, LockfileFixture.v, LoadCorpus.v: the two generators of
      synthetic data, cmd/gen-lockfile-fixture and src/test/load.

    A handler calls Matching, which calls Matcher and Storage and publishes
    events; Handlers and Matching are written and proved against the class
    [Storage] with its laws, and MemoryStore.v and PostgresLaws.v discharge
    them. A request passes Auth, Router and ApiBodies before its handler
    (HttpApi.v), and its answer leaves through ApiJson.

    ** What the theorems show

    - Whole engine: whatever requests are served and whenever the
      orchestrator ticks, in whatever order, no affected component is left
      without an incident, and no IoC and component have two actionable
      incidents.
    - Matching: opening incidents is exact and idempotent; the indexed lookup
      finds what a scan of every SBOM would find; both forward matchers
      agree; the matcher is sound and complete for its predicate and degrades
      to no match on what it cannot interpret.
    - State machine: [Transition] refines the documented lifecycle, less the
      dismissal of an incident under remediation, which it refuses;
      lifecycles are finite, terminal states absorb.
    - Storage: the in-memory store refines the abstract view along every
      sequence of writes; listings do not depend on map order.
    - Bus: in-order gap-free delivery, no panics, eviction of exactly the
      full subscribers, for every interleaving.
    - Endpoints: transition, remediation, blast radius and incident listing
      return and store what they should; queries are pure; a rejected request
      leaves no trace.
    - Wire: conversions lose nothing, except the anomaly body of an IoC.
    - Postgres: every method satisfies its law of the contract, so the
      theorems about the engine hold on it; histories of all nine writes,
      failing calls included, have the effects of their writes, but for a
      remediation that reuses an id and a profile written by half; both
      backends answer alike after scripts of values that Postgres keeps,
      which leave out those two; publisher profiles are read back; a listing
      deadlocks exactly when every connection of the pool waits.
    - HTTP: a request that reaches an operation had a token or asked for an
      exempt path; a request built for an operation from plain path
      segments is routed to it, its parameters unescaped; every answer that
      marshals is read back by a strict client, but for the listing of SBOMs,
      an object where the API description has an array; stream payloads are
      the generated types' JSON to the byte; the in-memory store passes the
      conformance suite.
    - Generators: the API and the npm parser take what they write, package by
      package, but for the anomaly IoCs of the load test.
    - Detectors: each reports exactly its pattern, with the right evidence
      and confidence.
    - Parsers: the npm and go.sum parsers list exactly the packages of the
      lockfile; a Gradle lockfile survives printing and parsing; the name
      normalisation of the Python parser computes PEP 503; without duplicate
      copies the npm result does not depend on map order.
    - Types: whatever storage does, a response has a status of its operation,
      the body its description gives on success (that listing apart) and an
      error with a code otherwise.
    - Stream and notifier: over connections that break at any byte, the
      notifier reads a prefix of the events sent, in order and intact, and
      posts exactly the opened incidents among them, as long as ids are
      single lines.
    - Access: the environment alone decides who reaches a handler, through
      configuration, wiring and both middlewares; CORS lets in exactly the
      configured origins; token lifetimes are bounded.
    - Sidecar: no answer makes the client panic, requests arrive as meant,
      and parsing through the sidecar is the sidecar's parser; parse-sbom
      prints the same with either backend.
    - Publishers: the HTTP client is bounded in requests and pauses, and its
      result is a function of the exchanges; the ingestors ask for exactly
      the package named and are faithful to the registry's document, whatever
      its layout; the scheduler refreshes every package that is due and can
      be fetched, within the number of ticks the batch size allows.
    - Configuration and command line: no environment yields an unusable
      number; what scan prints as JSON reads back as what was parsed.
    - The remaining theorems pin down behaviour that differs from what the
      code or its documentation intends: dismissal of an incident under
      remediation, IoCs without an ecosystem, two read-modify-write races,
      the order of duplicate npm packages, spaced extras in requirements,
      anomalies of one tick sharing an IoC, packages beyond the batch,
      publisher monitoring that never starts and can be starved, a token
      endpoint open to all, scopes that restrict nothing, ids that forge
      stream events, two durations that overflow.

    ** Parameters, bounds and fuel

    Code outside the repository is a class whose laws are hypotheses of the
    theorems that need them: the semver package, the TOML and XML decoders,
    RSA keys and Unicode case mapping (no laws), ULID generation (injective
    in the effect counter), the JWT package ([JWTLaws]), serde_json in the
    sidecar (writes the object of the fields), the binding of parameters
    ([ParamRuntimeLaws]), the random generators ([Rand]: a draw is in its
    range); of Postgres the jsonb type ([JsonbLaws]), the text of floats
    ([FloatText]), a collation (an order) and what the server refuses
    ([Refusals]). A witness instantiates each.
    "Storage answers" is the hypothesis that no call returns an error,
    [answered]; theorems without it hold under any failures.

    Loops range over lists and recurse structurally, or over the number of
    attempts the client allows; the JSON scanner consumes one byte per step.
    The duration parser of GoParse.v takes the length of its text as fuel,
    which is proved to be enough. Loops that wait (the two tickers, the stream, the
    notifier's reconnecting) take what happens to them as a list. Lengths and
    counters that the code keeps as int are unbounded here, except where
    overflow can occur: the bus's subscription counter, the version-jump
    detector, durations computed from numbers of seconds, the 32-bit
    lengths of the sidecar protocol, and the INT columns.

    Go's mutable maps and slices are values here: the store copies records in
    and out. One request or tick runs at a time in System.v; the
    interleavings inside a handler that do harm are the subject of two
    theorems of HandlerSpecs.v, and those of the bus of all of Bus.v.

    ** Not modelled

    The demonstration programs (cmd/sse-demo, the mock registry of
    src/integrations): the first prints a stream that Stream.v models, the
    second serves embedded files. Of the application: opening the listener,
    logging, the two-second wait of a stop. Of the database: concurrent
    statements, other than those of PgPool.v. Of api.gen.go: the error types
    no operation uses and the embedded description. Not
    under src/, so parameters: the TOML and XML decoders behind the cargo,
    Python and Maven parsers, the rate limiter, the JWT package, the binding
    of parameters, the merging of JSON texts, Postgres and pgx; so are
    the parsers of the sidecar, which are Rust: only its protocol is modelled. What is left is
    the interleaving of requests inside the handlers: System.v serves them
    one at a time. *)

From Stdlib Require Export Ascii.
From stdpp Require Export base tactics list gmap strings sorting pretty.
From stdpp Require Import options.

(** Goals are focused one at a time by default; proofs name their goals. *)
Set Default Goal Selector "1".

(** ** Scopes and notations *)

Declare Scope go_scope.
Delimit Scope go_scope with go.

(** [a <$? b] is Go's byte-wise [a < b] on strings. *)
Infix "<$?" := String.ltb (at level 70, no associativity) : go_scope.

(** ** Hint databases

    [go_order] proves that the comparison functions handed to the sort
    package are strict weak orders; [go_lists] holds the membership
    lemmas of the runtime and of the de-duplicating loops. *)
Create HintDb go_order.
Create HintDb go_lists.

(** ** Tactics *)

(** Case analysis on every boolean test and decidable test in sight. *)
Ltac go_case :=
  repeat (case_match || case_decide || case_bool_decide); simplify_eq/=.

(** Turn boolean connectives and [bool_decide] hypotheses into
    propositions. *)
Ltac go_bool :=
  repeat match goal with
  | H : _ && _ = true |- _ => apply andb_true_iff in H as [? ?]
  | H : _ || _ = false |- _ => apply orb_false_iff in H as [? ?]
  | H : negb _ = true |- _ => apply negb_true_iff in H
  | H : negb _ = false |- _ => apply negb_false_iff in H
  | H : bool_decide _ = true |- _ => apply bool_decide_eq_true in H
  | H : bool_decide _ = false |- _ => apply bool_decide_eq_false in H
  end.

(** ** Errors

    A Go error is a sentinel (a package-level [errors.New] value, compared
    by identity), an ad-hoc text, or a [fmt.Errorf] wrapper: the format,
    the arguments other than the wrapped errors, and what [%w] wraps. *)

Inductive sentinel :=
  | ErrNotFound
  | pgx_ErrNoRows
  | ErrCanceled
  | ErrDeadlineExceeded
  | ErrInvalidComponentRef
  | ErrInvalidIoC
  | ErrInvalidTransition
  | ErrUnknownState
  | ErrInvalidRemediationKind
  | npm_ErrMalformedLockfile
  | npm_ErrUnsupportedLockfileVersion
  | npm_ErrEmptyLockfile
  | npm_ErrNativeUnconfigured
  | cargo_ErrMalformedLockfile
  | cargo_ErrEmptyLockfile
  | gomod_ErrMalformedLockfile
  | pypi_ErrMalformedLockfile
  | maven_ErrMalformedLockfile
  | native_ErrNativeUnavailable
  | native_ErrMalformedResponse
  | native_ErrRemoteError
  | native_ErrMalformedLockfile
  | native_ErrUnsupportedLockfileVersion
  | native_ErrEmptyLockfile
  | httpx_ErrNotFound
  | httpx_ErrRateLimited
  | httpx_ErrServerFailure.

#[global] Instance sentinel_eq_dec : EqDecision sentinel.
Proof. solve_decision. Defined.

Inductive error :=
  | ESentinel (s : sentinel)
  | EText (format : string) (args : list string)
  | EWrap (format : string) (args : list string) (inner : error)
  | EWrap2 (format : string) (args : list string) (first second : error).

#[global] Instance error_eq_dec : EqDecision error.
Proof. solve_decision. Defined.

(** [errors.Is]: walk the tree of [%w]. *)
Fixpoint errors_Is (e : error) (target : sentinel) : bool :=
  match e with
  | ESentinel s => bool_decide (s = target)
  | EText _ _ => false
  | EWrap _ _ e' => errors_Is e' target
  | EWrap2 _ _ e1 e2 => errors_Is e1 target || errors_Is e2 target
  end.

(** What [%v] shows of an error here: its format. *)
Definition error_text (e : error) : string :=
  match e with ESentinel _ => "" | EText f _ | EWrap f _ _ | EWrap2 f _ _ _ => f end.

(** A Go function that returns [(value, error)], of which one is set. *)
Inductive result (A : Type) :=
  | Ok (a : A)
  | Err (e : error).
Arguments Ok {_} _.
Arguments Err {_} _.

Definition result_value {A} (r : result A) : option A :=
  match r with Ok a => Some a | Err _ => None end.

Definition result_error {A} (r : result A) : option error :=
  match r with Ok _ => None | Err e => Some e end.

(** ** Dynamic values

    The values the code stores under [any]: what [encoding/json] decodes
    into and what the detectors put in their evidence. A float keeps its
    source text, or is the [Hours] of a duration; an object keeps its
    members in order. *)
Inductive any :=
  | ANil
  | ABool (b : bool)
  | AInt (z : Z)
  | AFloat (text : string)
  | AHours (nanoseconds : Z)
  | AString (s : string)
  | AStrings (l : list string)
  | AList (l : list any)
  | AObject (members : list (string * any)).

(** ** Machine integers *)

Definition MaxInt64 : Z := 2 ^ 63 - 1.
Definition MinInt64 : Z := - 2 ^ 63.

(** Two's complement wrap-around of a 64-bit signed integer. *)
Definition wrap64 (z : Z) : Z := (z + 2 ^ 63) mod 2 ^ 64 - 2 ^ 63.

Lemma wrap64_id z : (MinInt64 ≤ z ≤ MaxInt64)%Z → wrap64 z = z.
Proof.
  unfold wrap64, MinInt64, MaxInt64; intros.
  rewrite Z.mod_small by lia. lia.
Qed.

Lemma wrap64_range z : (MinInt64 ≤ wrap64 z ≤ MaxInt64)%Z.
Proof.
  unfold wrap64, MinInt64, MaxInt64.
  pose proof (Z.mod_pos_bound (z + 2 ^ 63) (2 ^ 64) ltac:(lia)). lia.
Qed.

(** ** Time

    A [time.Time] is its instant, in nanoseconds since Go's zero time
    (1 January of year 1, UTC). [UTC] changes the location and drops the
    monotonic reading, not the instant. A [time.Duration] is an int64
    count of nanoseconds. *)
Definition Time := Z.
Definition Duration := Z.
Bind Scope Z_scope with Time.
Bind Scope Z_scope with Duration.

Definition IsZero (t : Time) : bool := bool_decide (t = 0%Z).
Definition Before (t u : Time) : bool := bool_decide (t < u)%Z.
Definition After (t u : Time) : bool := bool_decide (u < t)%Z.
Definition UTC (t : Time) : Time := t.

(** [Time.Sub] saturates at the ends of the int64 range. *)
Definition Sub (t u : Time) : Duration :=
  Z.max MinInt64 (Z.min MaxInt64 (t - u)).
Definition Add (t : Time) (d : Duration) : Time := (t + d)%Z.

Definition Second : Duration := 1000000000%Z.
Definition Minute : Duration := (60 * Second)%Z.
Definition Hour : Duration := (60 * Minute)%Z.

(** ** The parts of the Go runtime the language leaves open

    The order in which [range] visits a map is unspecified and differs
    from run to run, and [sort.Slice] is not stable. A [GoRuntime] is any
    resolution of the two; theorems are proved for every one of them, so
    for every order a real execution may see. *)

Class StrictWeakOrder {A} (less : A → A → bool) := {
  swo_asym x y : less x y = true → less y x = false;
  swo_negtrans x y z : less y x = false → less z y = false → less z x = false;
}.
#[global] Hint Mode StrictWeakOrder - ! : typeclass_instances.

(** What [sort.Slice] leaves behind: no element is less than one before. *)
Definition SortedBy {A} (less : A → A → bool) : list A → Prop :=
  Sorted (λ x y, less y x = false).

Class GoRuntime := {
  map_range : ∀ {K} `{Countable K} {V}, gmap K V → list (K * V);
  map_range_perm : ∀ {K} `{Countable K} {V} (m : gmap K V),
    map_range m ≡ₚ map_to_list m;
  sort_slice : ∀ {A}, (A → A → bool) → list A → list A;
  sort_slice_perm : ∀ {A} (less : A → A → bool) l, sort_slice less l ≡ₚ l;
  sort_slice_sorted : ∀ {A} (less : A → A → bool) l,
    StrictWeakOrder less → SortedBy less (sort_slice less l);
}.

(** One such runtime, executable: insertion order of the map's trie and a
    merge sort. It is what the witnesses evaluate. *)
Section reference_runtime.
Context {A : Type} (less : A → A → bool).

Definition not_greater (x y : A) : Prop := less y x = false.

#[local] Instance not_greater_dec x y : Decision (not_greater x y) :=
  bool_eq_dec (less y x) false.

Definition merge_sort_by (l : list A) : list A := merge_sort not_greater l.

Lemma merge_sort_by_perm l : merge_sort_by l ≡ₚ l.
Proof. apply merge_sort_Permutation. Qed.

Lemma merge_sort_by_sorted l :
  StrictWeakOrder less → SortedBy less (merge_sort_by l).
Proof.
  intros Hswo.
  assert (Total not_greater) as Htotal.
  { intros x y. unfold not_greater.
    destruct (less y x) eqn:E; [right; by apply swo_asym | by left]. }
  apply (Sorted_merge_sort not_greater).
Qed.
End reference_runtime.

Definition reference_runtime : GoRuntime := {|
  map_range K _ _ V m := map_to_list m;
  map_range_perm K _ _ V m := reflexivity _;
  sort_slice A less l := merge_sort_by less l;
  sort_slice_perm A less l := merge_sort_by_perm less l;
  sort_slice_sorted A less l H := merge_sort_by_sorted less l H;
|}.

(** Another one, which ranges over maps the other way round. *)
Definition reversed_runtime : GoRuntime.
Proof.
  refine {|
    map_range K _ _ V m := reverse (map_to_list m);
    sort_slice A less l := merge_sort_by less l;
    sort_slice_perm A less l := merge_sort_by_perm less l;
    sort_slice_sorted A less l H := merge_sort_by_sorted less l H;
  |}.
  intros. apply reverse_Permutation.
Defined.

(** *** Consequences of the laws *)
Section runtime_lemmas.
Context `{rt : GoRuntime}.

Lemma elem_of_map_range `{Countable K} {V} (m : gmap K V) k v :
  (k, v) ∈ map_range m ↔ m !! k = Some v.
Proof. by rewrite map_range_perm, elem_of_map_to_list. Qed.

Lemma map_range_NoDup_keys `{Countable K} {V} (m : gmap K V) :
  NoDup (map_range m).*1.
Proof. rewrite map_range_perm. apply NoDup_fst_map_to_list. Qed.

Lemma elem_of_map_range_keys `{Countable K} {V} (m : gmap K V) k :
  k ∈ (map_range m).*1 ↔ is_Some (m !! k).
Proof.
  rewrite list_elem_of_fmap. split.
  - intros ([k' v] & -> & Hin%elem_of_map_range). by exists v.
  - intros [v Hv]. exists (k, v). by rewrite elem_of_map_range.
Qed.

Lemma elem_of_range_values `{Countable K} {V} (m : gmap K V) v :
  v ∈ (map_range m).*2 ↔ ∃ k, m !! k = Some v.
Proof.
  rewrite list_elem_of_fmap. split.
  - intros ([k v'] & -> & Hin). exists k. by apply elem_of_map_range.
  - intros [k Hk]. exists (k, v). by rewrite elem_of_map_range.
Qed.

Lemma elem_of_sort_slice {A} (less : A → A → bool) l x :
  x ∈ sort_slice less l ↔ x ∈ l.
Proof. by rewrite sort_slice_perm. Qed.

Lemma sort_slice_length {A} (less : A → A → bool) l :
  length (sort_slice less l) = length l.
Proof. by rewrite sort_slice_perm. Qed.

Lemma sort_slice_NoDup {A} (less : A → A → bool) l :
  NoDup (sort_slice less l) ↔ NoDup l.
Proof. by rewrite sort_slice_perm. Qed.

(** A sorted slice is determined by its elements when ties are equal
    elements, whatever algorithm sorted it. *)
Lemma SortedBy_unique {A} (less : A → A → bool) `{!StrictWeakOrder less} l1 l2 :
  (∀ x y, x ∈ l1 → y ∈ l1 → less x y = false → less y x = false → x = y) →
  SortedBy less l1 → SortedBy less l2 → l1 ≡ₚ l2 → l1 = l2.
Proof.
  intros Hties Hs1 Hs2 Hperm.
  assert (Transitive (λ x y, less y x = false)) as Htrans.
  { intros x y z. apply swo_negtrans. }
  apply (Sorted_unique_strong (λ x y, less y x = false)); [|done..].
  intros x y Hx Hy Hxy Hyx. rewrite <- Hperm in Hy. eauto.
Qed.
Lemma SortedBy_sublist {A} (less : A → A → bool) `{!StrictWeakOrder less} l k :
  SortedBy less l → k `sublist_of` l → SortedBy less k.
Proof.
  assert (Transitive (λ x y, less y x = false)) as Htr by (intros x y z; apply swo_negtrans).
  intros Hl%Sorted_StronglySorted Hsub; [|done]. apply StronglySorted_Sorted.
  induction Hsub as [|x l1 l2 Hsub IH|x l1 l2 Hsub IH]; [constructor| |].
  - inversion_clear Hl as [|? ? Hss Hall]. constructor; [auto|].
    rewrite Forall_forall in *. intros y Hy. apply Hall. eapply sublist_subseteq; eauto.
  - inversion_clear Hl. auto.
Qed.
End runtime_lemmas.
#[export] Hint Resolve map_range_NoDup_keys : go_lists.

(** *** The orders the code sorts by *)

Lemma str_ltb_irrefl s : String.ltb s s = false.
Proof.
  unfold String.ltb. pose proof (String.compare_antisym s s) as H.
  by destruct (s ?= s)%string.
Qed.

Lemma str_ltb_leb s t : String.ltb s t = false ↔ (t ≤ s)%string.
Proof.
  unfold String.le, String.ltb, String.leb.
  rewrite (String.compare_antisym t s).
  by destruct (s ?= t)%string; simpl; split.
Qed.

(** Comparing a string key: [sort.Strings], [out[i].Ref < out[j].Ref]. *)
Lemma less_by_string_swo {A} (f : A → string) :
  StrictWeakOrder (λ x y, String.ltb (f x) (f y)).
Proof.
  split.
  - intros x y H. apply str_ltb_leb.
    destruct (total String.le (f x) (f y)) as [|Hle]; [done|].
    apply str_ltb_leb in Hle. congruence.
  - intros x y z ?%str_ltb_leb ?%str_ltb_leb. apply str_ltb_leb. by etrans.
Qed.

(** Comparing an integer key upwards: [Time.Before]. *)
Lemma less_by_Z_swo {A} (f : A → Z) :
  StrictWeakOrder (λ x y, bool_decide (f x < f y)%Z).
Proof. split; intros *; rewrite ?bool_decide_eq_true, ?bool_decide_eq_false; lia. Qed.

(** Comparing an integer key downwards: [Time.After]. *)
Lemma greater_by_Z_swo {A} (f : A → Z) :
  StrictWeakOrder (λ x y, bool_decide (f y < f x)%Z).
Proof. split; intros *; rewrite ?bool_decide_eq_true, ?bool_decide_eq_false; lia. Qed.

(** Comparing a string key and then a second one:
    [if a.X != b.X { return a.X < b.X }; return a.Y < b.Y]. *)
Lemma less_by_strings_swo {A} (f g : A → string) :
  StrictWeakOrder (λ x y,
    if bool_decide (f x = f y) then String.ltb (g x) (g y)
    else String.ltb (f x) (f y)).
Proof.
  pose proof (less_by_string_swo f) as Hf. pose proof (less_by_string_swo g) as Hg.
  split.
  - intros x y. repeat case_bool_decide; try congruence.
    + apply (@swo_asym _ _ Hg).
    + apply (@swo_asym _ _ Hf).
  - intros x y z Hxy Hyz.
    assert (f x = f y ∨ f y = f z ∨ f x ≠ f y ∧ f y ≠ f z) as [E|[E|[E1 E2]]] by
      (destruct (decide (f x = f y)), (decide (f y = f z)); auto).
    + rewrite E in *. rewrite bool_decide_true in Hxy by done.
      case_bool_decide; [|done]. by apply (@swo_negtrans _ _ Hg x y z).
    + rewrite <- E in *. rewrite bool_decide_true in Hyz by done.
      case_bool_decide; [|done]. by apply (@swo_negtrans _ _ Hg x y z).
    + rewrite bool_decide_false in Hxy, Hyz by done.
      pose proof (@swo_negtrans _ _ Hf x y z Hxy Hyz).
      case_bool_decide as E; [|done]. rewrite E in Hyz.
      destruct E1. apply (anti_symm String.le); by apply str_ltb_leb.
Qed.

#[export] Hint Resolve less_by_string_swo less_by_Z_swo greater_by_Z_swo
  less_by_strings_swo : go_order.

(** ** Lists *)

Lemma filter_none {A} (P : A → Prop) `{!∀ x, Decision (P x)} l :
  (∀ x, x ∈ l → ¬ P x) → filter P l = [].
Proof.
  induction l as [|x l IH]; [done|]. intros HP.
  rewrite filter_cons_False by (apply HP; left).
  apply IH. intros y Hy. apply HP. by right.
Qed.
