(* ===== verification/GoStrings.v ===== *)
(** * The [strings] package

    Go strings are byte sequences; a Rocq [string] is one too. This file
    defines the functions of package [strings] (and [net/url]) that the
    engine calls, byte for byte, and the lemmas about them that the
    components share: what [Cut] and [Split] find, and that [Join] inverts
    [Split]. *)

From S2P Require Import Prelude.
From stdpp Require Import options.

(** ** Slicing: [s[:n]] and [s[n:]] for [n] in range. *)
Fixpoint str_take (n : nat) (s : string) : string :=
  match n, s with
  | S n', String a s' => String a (str_take n' s')
  | _, _ => ""
  end.

Fixpoint str_drop (n : nat) (s : string) : string :=
  match n, s with
  | S n', String _ s' => str_drop n' s'
  | _, _ => s
  end.

(** ** Searching *)

Fixpoint HasPrefix (s prefix : string) {struct prefix} : bool :=
  match prefix, s with
  | "", _ => true
  | String a p', String b s' => bool_decide (a = b) && HasPrefix s' p'
  | String _ _, "" => false
  end.

Fixpoint index (s substr : string) : option nat :=
  if HasPrefix s substr then Some 0
  else match s with
       | "" => None
       | String _ s' => S <$> index s' substr
       end.

(** [strings.Index], -1 when there is no occurrence. *)
Definition Index (s substr : string) : Z :=
  match index s substr with Some i => Z.of_nat i | None => (-1)%Z end.

Definition Contains (s substr : string) : bool :=
  bool_decide (is_Some (index s substr)).

(** [strings.Cut]: the text around the first separator. *)
Definition Cut (s sep : string) : string * string * bool :=
  match index s sep with
  | Some i => (str_take i s, str_drop (i + String.length sep) s, true)
  | None => (s, "", false)
  end.

(** [strings.CutPrefix]. *)
Definition CutPrefix (s prefix : string) : string * bool :=
  if HasPrefix s prefix then (str_drop (String.length prefix) s, true)
  else (s, false).

(** ** Splitting and joining

    [Split s sep] for a one-byte separator, the only kind the code uses. *)
Fixpoint Split (s : string) (sep : ascii) : list string :=
  match s with
  | "" => [""]
  | String a s' =>
      if bool_decide (a = sep) then "" :: Split s' sep
      else match Split s' sep with
           | [] => [String a ""]
           | h :: t => String a h :: t
           end
  end.

Fixpoint Join (elems : list string) (sep : string) : string :=
  match elems with
  | [] => ""
  | [e] => e
  | e :: elems' => e +:+ sep +:+ Join elems' sep
  end.

(** ** Case

    [strings.ToLower] maps ASCII letters byte by byte; a string with a
    byte above 127 goes through the Unicode tables, which are a
    parameter. *)
Class UnicodeCase := { lower_unicode : string → string }.

Definition is_ascii (a : ascii) : bool := bool_decide (N_of_ascii a < 128)%N.

Definition lower_byte (a : ascii) : ascii :=
  let n := N_of_ascii a in
  if (65 <=? n)%N && (n <=? 90)%N then ascii_of_N (n + 32) else a.

Fixpoint str_map (f : ascii → ascii) (s : string) : string :=
  match s with "" => "" | String a s' => String (f a) (str_map f s') end.

Fixpoint str_forallb (p : ascii → bool) (s : string) : bool :=
  match s with "" => true | String a s' => p a && str_forallb p s' end.

Definition ToLower `{UnicodeCase} (s : string) : string :=
  if str_forallb is_ascii s then str_map lower_byte s else lower_unicode s.

(** ** [url.QueryEscape]

    Letters, digits and [-_.~] stay, a space becomes [+], every other byte
    becomes its percent encoding. *)
Definition hex_digit (n : N) : ascii :=
  if (n <? 10)%N then ascii_of_N (48 + n) else ascii_of_N (55 + n).

Definition unreserved (a : ascii) : bool :=
  let n := N_of_ascii a in
  ((48 <=? n) && (n <=? 57) || (65 <=? n) && (n <=? 90)
   || (97 <=? n) && (n <=? 122)
   || (n =? 45) || (n =? 95) || (n =? 46) || (n =? 126))%N.

Fixpoint QueryEscape (s : string) : string :=
  match s with
  | "" => ""
  | String a s' =>
      if bool_decide (a = " "%char) then String "+"%char (QueryEscape s')
      else if unreserved a then String a (QueryEscape s')
      else let n := N_of_ascii a in
           String "%"%char
             (String (hex_digit (n / 16)%N)
                (String (hex_digit (n mod 16)%N) (QueryEscape s')))
  end.

(** ** Lemmas *)

Definition byte_in (c : ascii) (s : string) : bool :=
  negb (str_forallb (λ a, bool_decide (a ≠ c)) s).

Lemma string_app_cons a (s t : string) : String a s +:+ t = String a (s +:+ t).
Proof. done. Qed.

Lemma str_app_assoc (s t u : string) : (s +:+ t) +:+ u = s +:+ (t +:+ u).
Proof. induction s as [|a s IH]; [done|]. by rewrite !string_app_cons, IH. Qed.

Lemma str_app_inj_l (s t u : string) : s +:+ t = s +:+ u → t = u.
Proof. induction s as [|a s IH]; [done|]. rewrite !string_app_cons. intros [= ?]. auto. Qed.

Lemma str_app_nil_r (s : string) : s +:+ "" = s.
Proof. induction s as [|a s IH]; [done|]. by rewrite string_app_cons, IH. Qed.

Lemma byte_in_cons c a s : byte_in c (String a s) = bool_decide (a = c) || byte_in c s.
Proof.
  unfold byte_in; simpl. rewrite negb_andb. f_equal.
  by repeat case_bool_decide.
Qed.

Lemma byte_in_app c s t : byte_in c (s +:+ t) = byte_in c s || byte_in c t.
Proof.
  induction s as [|a s IH]; [done|].
  by rewrite string_app_cons, !byte_in_cons, IH, orb_assoc.
Qed.

Lemma str_take_drop n s : str_take n s +:+ str_drop n s = s.
Proof.
  revert s. induction n as [|n IH]; intros [|a s]; simpl; try done.
  by rewrite string_app_cons, IH.
Qed.

Lemma str_drop_app s t : str_drop (String.length s) (s +:+ t) = t.
Proof. induction s as [|a s IH]; [by destruct t|]. done. Qed.

Lemma str_take_app s t : str_take (String.length s) (s +:+ t) = s.
Proof.
  induction s as [|a s IH]; [by destruct t|].
  rewrite string_app_cons. simpl. by rewrite IH.
Qed.

Lemma str_length_app (s t : string) :
  String.length (s +:+ t) = String.length s + String.length t.
Proof. induction s as [|a s IH]; [done|]. rewrite string_app_cons. simpl. by rewrite IH. Qed.

Lemma str_drop_sep c s t : str_drop (S (String.length s)) (s +:+ String c t) = t.
Proof.
  induction s as [|a s IH]; [by destruct t|].
  rewrite string_app_cons. cbn [String.length str_drop]. exact IH.
Qed.

Lemma HasPrefix_spec s p : HasPrefix s p = true ↔ ∃ t, s = p +:+ t.
Proof.
  revert s. induction p as [|a p IH]; intros s; simpl.
  - split; [|done]. intros _. by exists s.
  - destruct s as [|b s]; simpl.
    + split; [done|]. by intros [t [=]].
    + rewrite andb_true_iff, bool_decide_eq_true, IH. split.
      * intros [-> [t ->]]. by exists t.
      * intros [t [= -> ->]]. split; [done|]. by exists t.
Qed.

(** What [Cut] returns really is a cut of its argument. *)
Lemma index_Some_app s sep i :
  index s sep = Some i → str_take i s +:+ sep +:+ str_drop (i + String.length sep) s = s.
Proof.
  revert i. induction s as [|a s IH]; intros i; simpl.
  - destruct (HasPrefix "" sep) eqn:Hp; [|done]. intros [= <-].
    apply HasPrefix_spec in Hp as [t Ht]. destruct sep; [done|discriminate].
  - destruct (HasPrefix (String a s) sep) eqn:Hp.
    + intros [= <-]. apply HasPrefix_spec in Hp as [t ->].
      simpl. by rewrite str_drop_app.
    + intros Hi. destruct (index s sep) as [j|] eqn:E; simplify_eq/=.
      by rewrite string_app_cons, IH.
Qed.

Lemma Cut_true s sep h t : Cut s sep = (h, t, true) → s = h +:+ sep +:+ t.
Proof.
  unfold Cut. destruct (index s sep) as [i|] eqn:Hi; intros; simplify_eq.
  by rewrite index_Some_app.
Qed.

(** A one-byte separator is found at its first occurrence. *)
Lemma index_byte_app c s t :
  byte_in c s = false → index (s +:+ String c t) (String c "") = Some (String.length s).
Proof.
  induction s as [|a s IH].
  - intros _. simpl. by rewrite bool_decide_true.
  - rewrite byte_in_cons. intros [Ha Hs]%orb_false_iff. go_bool.
    rewrite string_app_cons. simpl. rewrite bool_decide_false by congruence.
    simpl. by rewrite IH.
Qed.

Lemma Cut_byte_app c s t :
  byte_in c s = false → Cut (s +:+ String c t) (String c "") = (s, t, true).
Proof.
  intros Hs. unfold Cut. rewrite index_byte_app by done.
  rewrite str_take_app. f_equal. f_equal.
  replace (s +:+ String c t) with ((s +:+ String c "") +:+ t)
    by (by rewrite str_app_assoc).
  replace (String.length s + String.length (String c "")) with
    (String.length (s +:+ String c "")); [apply str_drop_app|].
  induction s as [|a s IH]; [done|]. rewrite byte_in_cons in Hs.
  apply orb_false_iff in Hs as [_ Hs]. rewrite string_app_cons. simpl. by rewrite IH.
Qed.

(** The text before the cut does not hold a one-byte separator. *)
Lemma index_byte_take c s i :
  index s (String c "") = Some i → byte_in c (str_take i s) = false.
Proof.
  revert i. induction s as [|a s IH]; intros i; simpl; [done|].
  case_bool_decide as Ha; simpl.
  - destruct s; intros; simplify_eq/=; done.
  - intros Hi. destruct (index s (String c "")) as [j|] eqn:E; simplify_eq/=.
    rewrite byte_in_cons, IH by done. by rewrite bool_decide_false.
Qed.

Lemma Cut_byte_false c s : Cut s (String c "") = (s, "", false) ↔ byte_in c s = false.
Proof.
  unfold Cut. destruct (index s (String c "")) as [i|] eqn:E.
  - split; [done|]. intros Hs. exfalso. pose proof (index_Some_app _ _ _ E) as Happ.
    rewrite <- Happ, !byte_in_app, byte_in_cons in Hs. simpl in Hs.
    rewrite bool_decide_true in Hs by done. rewrite orb_true_r in Hs. done.
  - split; [intros _|done]. revert E. induction s as [|a s IH]; [done|].
    simpl. case_bool_decide as Ha; simpl; [by destruct s|].
    intros E%fmap_None. rewrite byte_in_cons, IH by done.
    by rewrite bool_decide_false.
Qed.

Lemma Split_ne s c : Split s c ≠ [].
Proof. destruct s as [|a s]; simpl; [done|]. go_case; done. Qed.

Lemma Join_cons e l sep : l ≠ [] → Join (e :: l) sep = e +:+ sep +:+ Join l sep.
Proof. by destruct l. Qed.

(** Joining what [Split] returns gives the string back. *)
Lemma Join_Split s c : Join (Split s c) (String c "") = s.
Proof.
  induction s as [|a s IH]; [done|]. simpl. case_bool_decide as Ha.
  - subst a. rewrite Join_cons by apply Split_ne. by rewrite IH.
  - destruct (Split s c) as [|h t] eqn:E; [by apply Split_ne in E|].
    rewrite <- IH. by destruct t.
Qed.

(** No part holds the separator. *)
Lemma Split_no_sep s c : Forall (λ p, byte_in c p = false) (Split s c).
Proof.
  induction s as [|a s IH]; simpl; [by repeat constructor|].
  case_bool_decide as Ha; [by constructor|].
  destruct (Split s c) as [|h t]; [by apply Forall_singleton; rewrite byte_in_cons, bool_decide_false|].
  apply Forall_cons in IH as [Hh Ht]. constructor; [|done].
  rewrite byte_in_cons, Hh. by rewrite bool_decide_false.
Qed.

Lemma Split_byte_free p c : byte_in c p = false → Split p c = [p].
Proof.
  induction p as [|a p IH]; [done|]. rewrite byte_in_cons.
  intros [Ha Hp]%orb_false_iff. go_bool. simpl.
  by rewrite bool_decide_false, IH.
Qed.

Lemma Split_app p c s :
  byte_in c p = false → Split (p +:+ String c "" +:+ s) c = p :: Split s c.
Proof.
  change (String c "" +:+ s) with (String c s).
  induction p as [|a p IH].
  - intros _. simpl. by rewrite bool_decide_true.
  - rewrite byte_in_cons. intros [Ha Hp]%orb_false_iff. go_bool.
    rewrite string_app_cons. simpl. by rewrite bool_decide_false, IH.
Qed.
