(* ===== verification/GoText.v ===== *)
(** * Runes, whitespace and lines

    The parts of [unicode/utf8], [strings] and [bufio] that look at text
    rather than at bytes: decoding a string into runes, [TrimSpace] and
    [Fields] with Unicode's white space, searching from the right,
    [SplitN], and the line [Scanner] with its token limit. *)

From S2P Require Import Prelude GoStrings.
From stdpp Require Import options.

(** ** Runes

    A rune is kept as the bytes that encode it. A byte that starts no valid
    encoding is a rune of its own, which Go calls [RuneError]. *)

Definition byte_between (lo hi : N) (a : ascii) : bool :=
  (lo <=? N_of_ascii a)%N && (N_of_ascii a <=? hi)%N.

Definition is_cont : ascii → bool := byte_between 128 191.

(** First (and second) byte of a two, three and four byte encoding. *)
Definition lead2 : ascii → bool := byte_between 194 223.

Definition lead3 (a b : ascii) : bool :=
  byte_between 224 224 a && byte_between 160 191 b
  || (byte_between 225 236 a || byte_between 238 239 a) && is_cont b
  || byte_between 237 237 a && byte_between 128 159 b.

Definition lead4 (a b : ascii) : bool :=
  byte_between 240 240 a && byte_between 144 191 b
  || byte_between 241 243 a && is_cont b
  || byte_between 244 244 a && byte_between 128 143 b.

Definition byte1 (a : ascii) : string := String a "".
Definition byte2 (a b : ascii) : string := String a (byte1 b).
Definition byte3 (a b c : ascii) : string := String a (byte2 b c).
Definition byte4 (a b c d : ascii) : string := String a (byte3 b c d).

Fixpoint runes (s : string) : list string :=
  match s with
  | "" => []
  | String a s1 =>
      if is_ascii a then byte1 a :: runes s1
      else match s1 with
           | "" => byte1 a :: runes s1
           | String b s2 =>
               if lead2 a && is_cont b then byte2 a b :: runes s2
               else match s2 with
                    | "" => byte1 a :: runes s1
                    | String c s3 =>
                        if lead3 a b && is_cont c then byte3 a b c :: runes s3
                        else match s3 with
                             | "" => byte1 a :: runes s1
                             | String d s4 =>
                                 if lead4 a b && is_cont c && is_cont d
                                 then byte4 a b c d :: runes s4
                                 else byte1 a :: runes s1
                             end
                    end
           end
  end.

Definition concat_str : list string → string := foldr String.append "".

Definition bytes (l : list N) : string := foldr (λ n s, String (ascii_of_N n) s) "" l.

(** U+FFFD, what [RuneError] is written back as. *)
Definition replacement : string := bytes [239; 191; 189]%N.

(** What [WriteRune] writes for a rune that was read. *)
Definition write_rune (r : string) : string :=
  match r with
  | String a "" => if is_ascii a then r else replacement
  | _ => r
  end.

(** ** White space: [unicode.IsSpace] *)

Definition ascii_space (a : ascii) : bool := byte_between 9 13 a || byte_between 32 32 a.

Definition wide_spaces : list string := bytes <$> [
  [194; 133]; [194; 160]; [225; 154; 128];
  [226; 128; 128]; [226; 128; 129]; [226; 128; 130]; [226; 128; 131]; [226; 128; 132];
  [226; 128; 133]; [226; 128; 134]; [226; 128; 135]; [226; 128; 136]; [226; 128; 137];
  [226; 128; 138]; [226; 128; 168]; [226; 128; 169]; [226; 128; 175];
  [226; 129; 159]; [227; 128; 128]]%N.

Definition IsSpace (r : string) : bool :=
  match r with
  | String a "" => ascii_space a
  | _ => existsb (String.eqb r) wide_spaces
  end.

Fixpoint drop_while {A} (f : A → bool) (l : list A) : list A :=
  match l with
  | [] => []
  | x :: l' => if f x then drop_while f l' else l
  end.

Definition TrimSpace (s : string) : string :=
  concat_str (reverse (drop_while IsSpace (reverse (drop_while IsSpace (runes s))))).

(** [strings.FieldsFunc]: the maximal runs of runes that are no separators;
    the first component is the run at the front, possibly empty. *)
Definition push_field (w : string) (fs : list string) : list string :=
  if bool_decide (w = "") then fs else w :: fs.

Fixpoint fields_of (sep : string → bool) (rs : list string) : string * list string :=
  match rs with
  | [] => ("", [])
  | r :: rs' =>
      let '(w, fs) := fields_of sep rs' in
      if sep r then ("", push_field w fs) else (r +:+ w, fs)
  end.

Definition FieldsFunc (sep : string → bool) (rs : list string) : list string :=
  let '(w, fs) := fields_of sep rs in push_field w fs.

Definition Fields (s : string) : list string := FieldsFunc IsSpace (runes s).

(** ** From the right *)

Fixpoint last_index (s substr : string) : option nat :=
  match s with
  | "" => if HasPrefix "" substr then Some 0 else None
  | String _ s' =>
      match last_index s' substr with
      | Some i => Some (S i)
      | None => if HasPrefix s substr then Some 0 else None
      end
  end.

Definition HasSuffix (s suffix : string) : bool :=
  bool_decide (String.length suffix ≤ String.length s)
  && bool_decide (str_drop (String.length s - String.length suffix) s = suffix).

Definition TrimSuffix (s suffix : string) : string :=
  if HasSuffix s suffix then str_take (String.length s - String.length suffix) s else s.

Definition TrimPrefix (s prefix : string) : string := (CutPrefix s prefix).1.

(** [strings.TrimRight] for a cutset of one ASCII byte. *)
Fixpoint TrimRight (s : string) (c : ascii) : string :=
  match s with
  | "" => ""
  | String a s' =>
      match TrimRight s' c with
      | "" => if bool_decide (a = c) then "" else String a ""
      | t => String a t
      end
  end.

(** [strings.SplitN] for a positive count. *)
Fixpoint SplitN (s sep : string) (n : nat) : list string :=
  match n with
  | 0 => []
  | 1 => [s]
  | S n' =>
      match index s sep with
      | None => [s]
      | Some i => str_take i s :: SplitN (str_drop (i + String.length sep) s) sep n'
      end
  end.

(** ** bufio.Scanner

    [scanner.Buffer(make([]byte, 0, 64*1024), 1024*1024)] with the default
    split into lines. A line of a mebibyte or more is [ErrTooLong]: the
    scan ends there, after the lines before it. *)
Definition newline : ascii := ascii_of_N 10.
Definition carriage_return : ascii := ascii_of_N 13.

Fixpoint raw_lines (s : string) : list string :=
  match s with
  | "" => []
  | String a s' =>
      if bool_decide (a = newline) then "" :: raw_lines s'
      else match raw_lines s' with
           | [] => [String a ""]
           | h :: t => String a h :: t
           end
  end.

Definition dropCR (s : string) : string := TrimSuffix s (String carriage_return "").

Definition maxTokenSize : Z := 1024 * 1024.

Fixpoint scan_lines (ls : list string) : list string * bool :=
  match ls with
  | [] => ([], false)
  | l :: ls' =>
      if bool_decide (maxTokenSize ≤ Z.of_nat (String.length l))%Z then ([], true)
      else let '(out, tooLong) := scan_lines ls' in (dropCR l :: out, tooLong)
  end.

(** The lines [Scan] yields, and whether [Err] reports [ErrTooLong]. *)
Definition Scanner (content : string) : list string * bool := scan_lines (raw_lines content).

(** ** Lemmas *)

Lemma HasSuffix_spec s suffix : HasSuffix s suffix = true ↔ ∃ t, s = t +:+ suffix.
Proof.
  unfold HasSuffix. rewrite andb_true_iff, !bool_decide_eq_true. split.
  - intros [_ Hd]. exists (str_take (String.length s - String.length suffix) s).
    rewrite <- Hd at 2. by rewrite str_take_drop.
  - intros [t ->]. rewrite str_length_app. split; [lia|]. rewrite Nat.add_sub. apply str_drop_app.
Qed.

Lemma TrimSuffix_app t suffix : TrimSuffix (t +:+ suffix) suffix = t.
Proof.
  unfold TrimSuffix. rewrite (proj2 (HasSuffix_spec _ _)) by eauto.
  rewrite str_length_app, Nat.add_sub. apply str_take_app.
Qed.

Lemma TrimPrefix_app p s : TrimPrefix (p +:+ s) p = s.
Proof.
  unfold TrimPrefix, CutPrefix. rewrite (proj2 (HasPrefix_spec _ _)) by (by exists s).
  simpl. apply str_drop_app.
Qed.

Lemma TrimPrefix_iff s p t : TrimPrefix s p = t ↔ s = p +:+ t ∨ s = t ∧ HasPrefix t p = false.
Proof.
  destruct (HasPrefix s p) eqn:Hp.
  - apply HasPrefix_spec in Hp as [u ->]. rewrite TrimPrefix_app. split; [by intros ->; left|].
    intros [Heq%str_app_inj_l|[<- Hf]]; [done|].
    assert (HasPrefix (p +:+ u) p = true) by (apply HasPrefix_spec; by exists u). congruence.
  - unfold TrimPrefix, CutPrefix. rewrite Hp. cbn [fst]. split; [by intros <-; right|].
    intros [->|[? _]]; [|done]. assert (HasPrefix (p +:+ t) p = true) by (apply HasPrefix_spec; by exists t). congruence.
Qed.

(** A word is not empty. *)
Lemma Fields_words s : Forall (λ w, w ≠ "") (Fields s).
Proof.
  assert (∀ w fs, Forall (λ w, w ≠ "") fs → Forall (λ w, w ≠ "") (push_field w fs)) as Hpush.
  { intros w fs Hfs. unfold push_field. case_bool_decide; [done|by constructor]. }
  unfold Fields, FieldsFunc.
  assert (∀ rs, Forall (λ w, w ≠ "") (fields_of IsSpace rs).2) as Hall.
  { induction rs as [|r rs IH]; [constructor|]. cbn [fields_of].
    destruct (fields_of IsSpace rs) as [w fs]. case_match; [by apply Hpush|done]. }
  specialize (Hall (runes s)). destruct (fields_of IsSpace (runes s)) as [w fs]. by apply Hpush.
Qed.

(** [last_index] finds an occurrence, and no later one exists. *)
Lemma last_index_Some s sub i :
  last_index s sub = Some i →
  str_take i s +:+ sub +:+ str_drop (i + String.length sub) s = s.
Proof.
  revert i. induction s as [|a s IH]; intros i; cbn [last_index].
  - destruct sub; simpl; [|done]. by intros [= <-].
  - destruct (last_index s sub) as [j|] eqn:E.
    + intros [= <-]. simpl. by rewrite string_app_cons, IH.
    + destruct (HasPrefix (String a s) sub) eqn:Hp; [|done]. intros [= <-].
      apply HasPrefix_spec in Hp as [t Ht]. rewrite Ht. simpl. by rewrite str_drop_app.
Qed.

Lemma last_index_None s sub : last_index s sub = None ↔ ∀ p t, s ≠ p +:+ sub +:+ t.
Proof.
  induction s as [|a s IH]; cbn [last_index].
  - destruct sub as [|b sub]; simpl; split; try done.
    + intros H. by specialize (H "" "").
    + intros _ [|? p] t [=].
  - destruct (last_index s sub) as [j|] eqn:E.
    { split; [done|]. intros H. exfalso. apply last_index_Some in E.
      apply (H (String a (str_take j s)) (str_drop (j + String.length sub) s)).
      by rewrite string_app_cons, E. }
    apply proj1 in IH. specialize (IH eq_refl).
    destruct (HasPrefix (String a s) sub) eqn:Hp.
    + split; [done|]. intros H. apply HasPrefix_spec in Hp as [t Ht]. by apply (H "" t) in Ht.
    + split; [|done]. intros _ [|b p] t Heq.
      * assert (HasPrefix (String a s) sub = true) by (apply HasPrefix_spec; by exists t). congruence.
      * rewrite string_app_cons in Heq. simplify_eq. by eapply IH.
Qed.

Lemma last_index_is_last s sub i p t :
  last_index s sub = Some i → s = p +:+ sub +:+ t → String.length p ≤ i.
Proof.
  revert i p. induction s as [|a s IH]; intros i p; cbn [last_index]; intros Hi Hs.
  - destruct p; [simpl; lia|done].
  - destruct p as [|b p]; [simpl; lia|]. rewrite string_app_cons in Hs. simplify_eq/=.
    destruct (last_index (p +:+ sub +:+ t) sub) as [j|] eqn:E.
    + simplify_eq. apply le_n_S, (IH j); [done|done].
    + exfalso. rewrite last_index_None in E. by apply (E p t).
Qed.

(** *** [TrimRight] *)

Lemma TrimRight_snoc s c : TrimRight (s +:+ byte1 c) c = TrimRight s c.
Proof.
  induction s as [|a s IH]; simpl; [by rewrite bool_decide_true|].
  change (String.append s (byte1 c)) with (s +:+ byte1 c). by rewrite IH.
Qed.

Lemma TrimRight_snoc_ne s a c : a ≠ c → TrimRight (s +:+ byte1 a) c = s +:+ byte1 a.
Proof.
  intros Ha. induction s as [|b s IH]; simpl; [by rewrite bool_decide_false|].
  change (String.append s (byte1 a)) with (s +:+ byte1 a). rewrite IH.
  by destruct s.
Qed.

(** *** Runes *)

(** A rune ends in an ASCII byte that is all of it, or in a byte above. *)
Definition rune_end (r : string) (a : ascii) : Prop :=
  r = byte1 a ∨ ∃ x, r = x +:+ byte1 a ∧ is_ascii a = false.

Lemma is_cont_not_ascii a : is_cont a = true → is_ascii a = false.
Proof.
  unfold is_cont, byte_between, is_ascii. intros [H _]%andb_true_iff.
  apply N.leb_le in H. apply bool_decide_eq_false. lia.
Qed.

Lemma runes_end s r : r ∈ runes s → ∃ a, rune_end r a.
Proof.
  revert r. remember (String.length s) as n eqn:Hn. revert s Hn.
  induction (lt_wf n) as [n _ IH]. intros s -> r.
  assert (∀ s' r', r' ∈ runes s' → String.length s' < String.length s → ∃ a, rune_end r' a) as IH'.
  { intros s' r' Hr Hlt. by eapply (IH _ Hlt s'). }
  clear IH. destruct s as [|a s1]; [by intros ?%not_elem_of_nil|]. cbn [runes].
  assert (∀ s', String.length s' ≤ String.length s1 → r ∈ runes s' → ∃ a, rune_end r a) as Hrec.
  { intros s' ? ?. eapply IH'; [done|]. simpl. lia. }
  assert (r ∈ byte1 a :: runes s1 → ∃ a, rune_end r a) as H1.
  { intros [->|?]%elem_of_cons; [by exists a; left|]. by apply (Hrec s1). }
  destruct (is_ascii a); [done|]. destruct s1 as [|b s2]; [done|].
  destruct (lead2 a && is_cont b) eqn:E2.
  { intros [->|?]%elem_of_cons; [|apply (Hrec s2); [simpl; lia|done]].
    exists b. right. exists (byte1 a). split; [done|]. apply is_cont_not_ascii. by go_bool. }
  destruct s2 as [|c s3]; [done|]. destruct (lead3 a b && is_cont c) eqn:E3.
  { intros [->|?]%elem_of_cons; [|apply (Hrec s3); [simpl; lia|done]].
    exists c. right. exists (byte2 a b). split; [done|]. apply is_cont_not_ascii. by go_bool. }
  destruct s3 as [|d s4]; [done|]. destruct (lead4 a b && is_cont c && is_cont d) eqn:E4; [|done].
  intros [->|?]%elem_of_cons; [|apply (Hrec s4); [simpl; lia|done]].
  exists d. right. exists (byte3 a b c). split; [done|]. apply is_cont_not_ascii. by go_bool.
Qed.

Lemma write_rune_end r a : rune_end r a → ∃ a', rune_end (write_rune r) a'.
Proof.
  intros Hr. unfold write_rune. destruct r as [|b [|c r]]; [by exists a| |by exists a].
  destruct (is_ascii b); [by exists b; left|].
  exists (ascii_of_N 189). right. exists (bytes [239; 191]%N). done.
Qed.

(** Writing a rune other than [c] to the end leaves nothing to trim. *)
Lemma TrimRight_rune s r a c :
  is_ascii c = true → rune_end r a → r ≠ byte1 c → TrimRight (s +:+ r) c = s +:+ r.
Proof.
  intros Hc [->|(x & -> & Ha)] Hr.
  - apply TrimRight_snoc_ne. congruence.
  - rewrite <- str_app_assoc. apply TrimRight_snoc_ne. congruence.
Qed.

Lemma rune_end_ne r a : rune_end r a → r ≠ "".
Proof. intros [->|(x & -> & _)]; [done|]. by destruct x. Qed.

(** *** Plain text: visible ASCII, on which trimming does nothing *)

Definition plain (s : string) : bool := str_forallb (byte_between 33 126) s.

Lemma plain_app s t : plain (s +:+ t) = plain s && plain t.
Proof.
  induction s as [|a s IH]; [done|]. rewrite string_app_cons. unfold plain in *. simpl.
  by rewrite IH, andb_assoc.
Qed.

Lemma plain_cons a s : plain (String a s) = byte_between 33 126 a && plain s.
Proof. done. Qed.

Lemma plain_byte a : byte_between 33 126 a = true → is_ascii a = true ∧ ascii_space a = false.
Proof.
  unfold ascii_space, byte_between, is_ascii. rewrite andb_true_iff, !N.leb_le. intros [Hl Hu].
  split; [apply bool_decide_eq_true; lia|].
  apply orb_false_iff. rewrite !andb_false_iff, !N.leb_gt. lia.
Qed.

Lemma plain_byte_in s c : plain s = true → byte_between 33 126 c = false → byte_in c s = false.
Proof.
  intros Hs Hc. induction s as [|a s IH]; [done|]. unfold plain in Hs. simpl in Hs. go_bool.
  rewrite byte_in_cons, IH by done. rewrite bool_decide_false; [done|]. congruence.
Qed.

Lemma plain_runes s :
  plain s = true → concat_str (runes s) = s ∧ Forall (λ r, IsSpace r = false) (runes s).
Proof.
  induction s as [|a s IH]; [done|]. unfold plain. simpl. intros [Ha Hs]%andb_true_iff.
  destruct (plain_byte a Ha) as [-> Hsp]. destruct (IH Hs) as [IHc IHf]. split.
  - change (concat_str (byte1 a :: runes s)) with (String a (concat_str (runes s))). by rewrite IHc.
  - by constructor.
Qed.

Lemma drop_while_none {A} (f : A → bool) l : Forall (λ x, f x = false) l → drop_while f l = l.
Proof. destruct 1 as [|x l Hx]; [done|]. simpl. by rewrite Hx. Qed.

Lemma TrimSpace_plain s : plain s = true → TrimSpace s = s.
Proof.
  intros [Hc Hf]%plain_runes. unfold TrimSpace.
  rewrite (drop_while_none _ (runes s)) by done.
  rewrite drop_while_none by (by apply Forall_reverse). by rewrite reverse_involutive.
Qed.

(** *** Lines *)

Lemma raw_lines_app l s :
  byte_in newline l = false → raw_lines (l +:+ String newline s) = l :: raw_lines s.
Proof.
  induction l as [|a l IH]; simpl; [by intros _|]. rewrite byte_in_cons.
  intros [Ha Hl]%orb_false_iff. go_bool. rewrite bool_decide_false by done.
  change (String.append l (String newline s)) with (l +:+ String newline s). by rewrite IH.
Qed.

Lemma str_drop_in c n s : byte_in c s = false → byte_in c (str_drop n s) = false.
Proof.
  intros Hs. rewrite <- (str_take_drop n s) in Hs. rewrite byte_in_app in Hs.
  by apply orb_false_iff in Hs as [_ ?].
Qed.

Lemma dropCR_plain l : plain l = true → dropCR l = l.
Proof.
  intros Hl. unfold dropCR, TrimSuffix. destruct (HasSuffix l _) eqn:E; [|done]. exfalso.
  unfold HasSuffix in E. apply andb_true_iff in E as [_ E%bool_decide_eq_true].
  assert (byte_in carriage_return (str_drop (String.length l -
    String.length (String carriage_return "")) l) = false) as Hd
    by (by apply str_drop_in, plain_byte_in).
  by rewrite E in Hd.
Qed.

Lemma last_index_byte_app c p t :
  byte_in c t = false → last_index (p +:+ String c t) (String c "") = Some (String.length p).
Proof.
  intros Ht.
  assert (last_index t (String c "") = None) as Hnone.
  { apply last_index_None. intros q u ->. rewrite !byte_in_app, byte_in_cons in Ht.
    rewrite bool_decide_true in Ht by done. by rewrite orb_true_r in Ht. }
  induction p as [|a p IH].
  - change ("" +:+ String c t) with (String c t). cbn [last_index]. rewrite Hnone.
    simpl. by rewrite bool_decide_true.
  - rewrite string_app_cons. cbn [last_index]. by rewrite IH.
Qed.

(** Splitting at the first occurrence of a one-byte separator. *)
Lemma SplitN_byte_app c p t n :
  byte_in c p = false →
  SplitN (p +:+ String c t) (String c "") (S (S n)) = p :: SplitN t (String c "") (S n).
Proof.
  intros Hp. change (SplitN ?s ?sep (S (S n))) with
    (match index s sep with
     | None => [s] | Some i => str_take i s :: SplitN (str_drop (i + String.length sep) s) sep (S n)
     end).
  rewrite index_byte_app by done. rewrite str_take_app. f_equal.
  replace (String.length p + String.length (String c "")) with (S (String.length p)) by (simpl; lia).
  by rewrite str_drop_sep.
Qed.
