(* ===== verification/Json.v ===== *)
(** * encoding/json

    What [json.Unmarshal] does with the text the engine hands it. [scan] is
    the package's scanner: one step per byte, an explicit stack of open
    containers, the nesting limit; it accepts exactly the texts that
    [checkValid] accepts and builds the value on the way. The [decode_...]
    functions store a value in a Go variable: [null] leaves scalars alone
    and clears maps, a value of the wrong type is an error, object keys
    select struct fields exactly or else under case folding, unknown keys
    are ignored. The texts of the errors are not modelled. *)

From S2P Require Import Prelude GoStrings GoText.
From stdpp Require Import options.

Inductive json :=
  | JNull
  | JBool (b : bool)
  | JNumber (text : string)
  | JString (s : string)
  | JArray (elems : list json)
  | JObject (members : list (string * json)).

(** ** Strings: escapes and replacement of invalid UTF-8 *)

Definition hex_value (a : ascii) : option N :=
  let n := N_of_ascii a in
  if byte_between 48 57 a then Some (n - 48)%N
  else if byte_between 97 102 a then Some (n - 87)%N
  else if byte_between 65 70 a then Some (n - 55)%N
  else None.

(** [getu4]: four hexadecimal digits. *)
Definition getu4 (h1 h2 h3 h4 : string) : option N :=
  match h1, h2, h3, h4 with
  | String a "", String b "", String c "", String d "" =>
      w ← hex_value a; x ← hex_value b; y ← hex_value c; z ← hex_value d;
      Some (((w * 16 + x) * 16 + y) * 16 + z)%N
  | _, _, _, _ => None
  end.

(** [utf8.EncodeRune] of a code point. *)
Definition encode_rune (n : N) : string :=
  if (n <? 128)%N then bytes [n]
  else if (n <? 2048)%N then bytes [192 + n / 64; 128 + n mod 64]%N
  else if (n <? 65536)%N then
    bytes [224 + n / 4096; 128 + n / 64 mod 64; 128 + n mod 64]%N
  else bytes [240 + n / 262144; 128 + n / 4096 mod 64; 128 + n / 64 mod 64; 128 + n mod 64]%N.

Definition is_surrogate (n : N) : bool := (55296 <=? n)%N && (n <=? 57343)%N.

(** [utf16.DecodeRune] of a surrogate pair. *)
Definition decode_pair (hi lo : N) : option N :=
  if (55296 <=? hi)%N && (hi <=? 56319)%N && (56320 <=? lo)%N && (lo <=? 57343)%N
  then Some ((hi - 55296) * 1024 + (lo - 56320) + 65536)%N
  else None.

Definition simple_escape (c : string) : string :=
  if String.eqb c "b" then bytes [8]%N
  else if String.eqb c "f" then bytes [12]%N
  else if String.eqb c "n" then bytes [10]%N
  else if String.eqb c "r" then bytes [13]%N
  else if String.eqb c "t" then bytes [9]%N
  else c.

(** The text between the quotes, which the scanner has validated. *)
Fixpoint unquote (rs : list string) : string :=
  match rs with
  | [] => ""
  | r :: rs1 =>
      if negb (String.eqb r "\") then write_rune r +:+ unquote rs1
      else match rs1 with
           | [] => ""
           | c :: rs2 =>
               if negb (String.eqb c "u") then simple_escape c +:+ unquote rs2
               else match rs2 with
                    | h1 :: h2 :: h3 :: h4 :: rs6 =>
                        let n := default 0%N (getu4 h1 h2 h3 h4) in
                        if negb (is_surrogate n) then encode_rune n +:+ unquote rs6
                        else match rs6 with
                             | s :: u :: l1 :: l2 :: l3 :: l4 :: rs12 =>
                                 let pair :=
                                   if String.eqb s "\" && String.eqb u "u" then
                                     lo ← getu4 l1 l2 l3 l4; decode_pair n lo
                                   else None in
                                 match pair with
                                 | Some m => encode_rune m +:+ unquote rs12
                                 | None => replacement +:+ unquote rs6
                                 end
                             | _ => replacement +:+ unquote rs6
                             end
                    | _ => ""
                    end
           end
  end.

(** ** The scanner *)

Inductive frame :=
  | FArray (elems : list json)                         (* newest first *)
  | FObject (members : list (string * json)) (key : string).

(** Where a number stands; it is complete in the states marked so. *)
Inductive number_state :=
  | NNeg | NZero (* complete *) | NDigits (* complete *) | NDot
  | NFrac (* complete *) | NExp | NExpSign | NExpDigits (* complete *).

Inductive mode :=
  | BeginValue
  | BeginValueOrEmpty
  | BeginStringOrEmpty
  | BeginString
  | InString (key : bool) (raw : string)               (* bytes, newest first *)
  | InEscape (key : bool) (raw : string)
  | InUnicode (key : bool) (rest : nat) (raw : string)
  | InNumber (st : number_state) (raw : string)
  | InLiteral (rest : string) (v : json)
  | AfterKey
  | EndValue
  | EndTop (v : json).

Record scanner := MkScanner { sc_mode : mode; sc_stack : list frame; sc_depth : Z }.

Definition maxNestingDepth : Z := 10000.

Fixpoint str_rev_append (s acc : string) : string :=
  match s with "" => acc | String a s' => str_rev_append s' (String a acc) end.

Definition json_space (a : ascii) : bool :=
  byte_between 32 32 a || byte_between 9 10 a || byte_between 13 13 a.

Definition byte_is (a : ascii) (s : string) : bool := String.eqb (byte1 a) s.

(** A value is complete: put it where it belongs. *)
Definition complete (v : json) (stack : list frame) (depth : Z) : scanner :=
  match stack with
  | [] => MkScanner (EndTop v) [] depth
  | FArray elems :: stack' => MkScanner EndValue (FArray (v :: elems) :: stack') depth
  | FObject ms key :: stack' => MkScanner EndValue (FObject ((key, v) :: ms) "" :: stack') depth
  end.

Definition push (m : mode) (f : frame) (s : scanner) : option scanner :=
  if bool_decide (maxNestingDepth < sc_depth s + 1)%Z then None
  else Some (MkScanner m (f :: sc_stack s) (sc_depth s + 1)).

Definition begin_value (s : scanner) (a : ascii) : option scanner :=
  let go m := Some (MkScanner m (sc_stack s) (sc_depth s)) in
  if json_space a then Some s
  else if byte_is a "{" then push BeginStringOrEmpty (FObject [] "") s
  else if byte_is a "[" then push BeginValueOrEmpty (FArray []) s
  else if bool_decide (a = ascii_of_N 34) then go (InString false "")
  else if byte_is a "-" then go (InNumber NNeg (byte1 a))
  else if byte_is a "0" then go (InNumber NZero (byte1 a))
  else if byte_between 49 57 a then go (InNumber NDigits (byte1 a))
  else if byte_is a "t" then go (InLiteral "rue" (JBool true))
  else if byte_is a "f" then go (InLiteral "alse" (JBool false))
  else if byte_is a "n" then go (InLiteral "ull" JNull)
  else None.

Definition end_value (s : scanner) (a : ascii) : option scanner :=
  if json_space a then Some s
  else match sc_stack s with
       | [] => None
       | FArray elems :: stack' =>
           if byte_is a "," then Some (MkScanner BeginValue (sc_stack s) (sc_depth s))
           else if byte_is a "]" then Some (complete (JArray (reverse elems)) stack' (sc_depth s - 1))
           else None
       | FObject ms _ :: stack' =>
           if byte_is a "," then Some (MkScanner BeginString (sc_stack s) (sc_depth s))
           else if byte_is a "}" then Some (complete (JObject (reverse ms)) stack' (sc_depth s - 1))
           else None
       end.

(** After a complete value: more input, if any, must be white space. *)
Definition end_top (s : scanner) (a : ascii) : option scanner :=
  if json_space a then Some s else None.

(** The state after one more byte of a number; [None] when the byte is not
    part of it. *)
Definition number_step (st : number_state) (a : ascii) : option number_state :=
  let digit := byte_between 48 57 a in
  let exp := byte_is a "e" || byte_is a "E" in
  match st with
  | NNeg => if byte_is a "0" then Some NZero else if byte_between 49 57 a then Some NDigits else None
  | NZero => if byte_is a "." then Some NDot else if exp then Some NExp else None
  | NDigits => if digit then Some NDigits else if byte_is a "." then Some NDot
               else if exp then Some NExp else None
  | NDot => if digit then Some NFrac else None
  | NFrac => if digit then Some NFrac else if exp then Some NExp else None
  | NExp => if byte_is a "+" || byte_is a "-" then Some NExpSign else if digit then Some NExpDigits else None
  | NExpSign | NExpDigits => if digit then Some NExpDigits else None
  end.

Definition number_done (st : number_state) : bool :=
  match st with NZero | NDigits | NFrac | NExpDigits => true | _ => false end.

Definition begin_string (s : scanner) (a : ascii) : option scanner :=
  if json_space a then Some s
  else if bool_decide (a = ascii_of_N 34) then
    Some (MkScanner (InString true "") (sc_stack s) (sc_depth s))
  else None.

(** The string is closed: a key waits for its value. *)
Definition end_string (key : bool) (raw : string) (s : scanner) : option scanner :=
  let str := unquote (runes (str_rev_append raw "")) in
  if key then
    match sc_stack s with
    | FObject ms _ :: stack' => Some (MkScanner AfterKey (FObject ms str :: stack') (sc_depth s))
    | _ => None
    end
  else Some (complete (JString str) (sc_stack s) (sc_depth s)).

Definition after_value (s : scanner) (a : ascii) : option scanner :=
  match sc_mode s with EndTop _ => end_top s a | _ => end_value s a end.

Definition step (s : scanner) (a : ascii) : option scanner :=
  let go m := Some (MkScanner m (sc_stack s) (sc_depth s)) in
  match sc_mode s with
  | BeginValue => begin_value s a
  | BeginValueOrEmpty =>
      if json_space a then Some s
      else if byte_is a "]" then end_value s a
      else begin_value s a
  | BeginStringOrEmpty =>
      if json_space a then Some s
      else if byte_is a "}" then end_value s a
      else begin_string s a
  | BeginString => begin_string s a
  | InString key raw =>
      if bool_decide (a = ascii_of_N 34) then end_string key raw s
      else if byte_is a "\" then go (InEscape key (String a raw))
      else if (N_of_ascii a <? 32)%N then None
      else go (InString key (String a raw))
  | InEscape key raw =>
      if byte_is a "u" then go (InUnicode key 4 (String a raw))
      else if bool_decide (a = ascii_of_N 34) || existsb (byte_is a) ["b"; "f"; "n"; "r"; "t"; "\"; "/"]
      then go (InString key (String a raw))
      else None
  | InUnicode key rest raw =>
      match hex_value a with
      | None => None
      | Some _ => if bool_decide (rest ≤ 1) then go (InString key (String a raw))
                  else go (InUnicode key (rest - 1) (String a raw))
      end
  | InNumber st raw =>
      match number_step st a with
      | Some st' => go (InNumber st' (String a raw))
      | None =>
          if number_done st then
            after_value (complete (JNumber (str_rev_append raw "")) (sc_stack s) (sc_depth s)) a
          else None
      end
  | InLiteral rest v =>
      match rest with
      | String b "" => if bool_decide (a = b) then Some (complete v (sc_stack s) (sc_depth s))
                       else None
      | String b rest' => if bool_decide (a = b) then go (InLiteral rest' v) else None
      | "" => None
      end
  | AfterKey =>
      if json_space a then Some s
      else if byte_is a ":" then go BeginValue
      else None
  | EndValue => end_value s a
  | EndTop _ => end_top s a
  end.

Fixpoint scan (s : scanner) (text : string) : option scanner :=
  match text with
  | "" => Some s
  | String a text' => s' ← step s a; scan s' text'
  end.

(** The value of a JSON text, if it is one. *)
Definition json_parse (text : string) : option json :=
  s ← scan (MkScanner BeginValue [] 0) text;
  match sc_mode s with
  | EndTop v => Some v
  | InNumber st raw =>
      if number_done st && bool_decide (length (sc_stack s) = 0)
      then Some (JNumber (str_rev_append raw "")) else None
  | _ => None
  end.

(** ** Storing a value in a Go variable

    [None] is a type error. The variable's old value comes first. *)

Definition decode_string (old : string) (v : json) : option string :=
  match v with JNull => Some old | JString s => Some s | _ => None end.

Definition decode_bool (old : bool) (v : json) : option bool :=
  match v with JNull => Some old | JBool b => Some b | _ => None end.

(** [strconv.ParseInt(text, 10, 64)] on a JSON number. *)
Fixpoint digits_value (s : string) (acc : Z) : option Z :=
  match s with
  | "" => Some acc
  | String a s' =>
      if byte_between 48 57 a then digits_value s' (10 * acc + Z.of_N (N_of_ascii a) - 48)%Z
      else None
  end.

Definition parse_int (text : string) : option Z :=
  let '(digits, neg) := CutPrefix text "-" in
  z ← digits_value digits 0;
  let z := if neg then (- z)%Z else z in
  if bool_decide (MinInt64 ≤ z ≤ MaxInt64)%Z then Some z else None.

Definition decode_int (old : Z) (v : json) : option Z :=
  match v with JNull => Some old | JNumber text => parse_int text | _ => None end.

(** Objects into maps: an existing map is kept and extended, a new element
    starts from the zero value; [null] clears the map. *)
Definition decode_map {A} (decode : json → option A) (old : option (gmap string A)) (v : json) :
    option (option (gmap string A)) :=
  match v with
  | JNull => Some None
  | JObject members =>
      Some <$> foldl (λ acc '(k, e), m ← acc; x ← decode e; Some (<[k := x]> m))
        (Some (default ∅ old)) members
  | _ => None
  end.

(** Arrays into slices: an element starts from the old one at its index. *)
Fixpoint decode_elems {A} (dec : A → json → option A) (zero : A) (old : list A) (vs : list json) :
    option (list A) :=
  match vs with
  | [] => Some []
  | v :: vs' =>
      x ← dec (default zero (head old)) v;
      xs ← decode_elems dec zero (tail old) vs';
      Some (x :: xs)
  end.

Definition decode_slice {A} (dec : A → json → option A) (zero : A) (old : list A) (v : json) :
    option (list A) :=
  match v with
  | JNull => Some []
  | JArray vs => decode_elems dec zero old vs
  | _ => None
  end.

(** Case folding of a key: ASCII letters, and the two other letters that
    fold into ASCII (U+017F to S, U+212A to K). *)
Definition upper_byte (a : ascii) : ascii :=
  if byte_between 97 122 a then ascii_of_N (N_of_ascii a - 32) else a.

Definition fold_rune (r : string) : string :=
  if String.eqb r (bytes [197; 191]%N) then "S"
  else if String.eqb r (bytes [226; 132; 170]%N) then "K"
  else str_map upper_byte r.

Definition fold_name (key : string) : string := concat_str (fold_rune <$> runes key).

(** The field a key selects: by exact name, else by folded name. *)
Definition select_field (names : list string) (key : string) : option string :=
  match find (String.eqb key) names with
  | Some n => Some n
  | None => find (λ n, String.eqb (fold_name n) (fold_name key)) names
  end.

(** Objects into structs: each member in turn into the field it selects. *)
Definition decode_struct {A} (names : list string) (set : string → A → json → option A)
    (old : A) (v : json) : option A :=
  match v with
  | JNull => Some old
  | JObject members =>
      foldl (λ acc '(k, e), x ← acc;
        match select_field names k with
        | Some n => set n x e
        | None => Some x
        end) (Some old) members
  | _ => None
  end.

(** [json.Unmarshal]: the whole text is checked before anything is stored. *)
Definition Unmarshal {A} (decode : A → json → option A) (zero : A) (content : string) : result A :=
  match json_parse content with
  | None => Err (EText "json: syntax error" [])
  | Some v =>
      match decode zero v with
      | None => Err (EText "json: type error" [])
      | Some x => Ok x
      end
  end.

(** ** Lemmas *)

Lemma decode_elems_map {A B} (dec : A → json → option A) (zero : A) (f : B → json) (g : B → A) l :
  (∀ x, x ∈ l → dec zero (f x) = Some (g x)) →
  decode_elems dec zero [] (f <$> l) = Some (g <$> l).
Proof.
  induction l as [|x l IH]; intros Hx; [done|]. rewrite !fmap_cons. cbn [decode_elems head tail].
  change (default zero None) with zero. rewrite (Hx x) by (by left). cbn [mbind option_bind].
  rewrite IH by (intros y Hy; apply Hx; by right). done.
Qed.
