(* ===== verification/JsonEncode.v ===== *)
(** * json.Marshal

    The encoder of encoding/json for the values the code marshals: strings
    are quoted with HTML escaping, maps are written in the order of their
    keys, invalid UTF-8 becomes U+FFFD. [Json.json] is the value between
    the Go value and the text; [marshal_map] turns a Go map into it.

    The encoder is a right inverse of the decoder of Json.v, up to the
    replacement of invalid UTF-8. *)

From S2P Require Import Prelude GoStrings GoText Json.
From stdpp Require Import options.

(** ** Strings: [appendString] with [escapeHTML] *)

Definition dquote : string := bytes [34]%N.

Definition hex_lower (n : N) : string :=
  byte1 (ascii_of_N (if (n <? 10)%N then 48 + n else 87 + n)).

(** [htmlSafeSet]: printable ASCII and DEL, less the quote, the backslash
    and the three characters HTML gives a meaning. *)
Definition htmlSafe (a : ascii) : bool :=
  byte_between 32 127 a
  && negb (bool_decide (a = ascii_of_N 34) || existsb (byte_is a) ["\"; "<"; ">"; "&"]).

Definition quote_byte (a : ascii) : string :=
  if htmlSafe a then byte1 a
  else if bool_decide (a = ascii_of_N 34) || byte_is a "\" then "\" +:+ byte1 a
  else if bool_decide (a = ascii_of_N 8) then "\b"
  else if bool_decide (a = ascii_of_N 12) then "\f"
  else if bool_decide (a = ascii_of_N 10) then "\n"
  else if bool_decide (a = ascii_of_N 13) then "\r"
  else if bool_decide (a = ascii_of_N 9) then "\t"
  else "\u00" +:+ hex_lower (N_of_ascii a / 16) +:+ hex_lower (N_of_ascii a mod 16).

Definition line_separator : string := bytes [226; 128; 168]%N.
Definition paragraph_separator : string := bytes [226; 128; 169]%N.

Definition quote_rune (r : string) : string :=
  match r with
  | String a "" => if is_ascii a then quote_byte a else "\ufffd"
  | _ => if String.eqb r line_separator then "\u2028"
         else if String.eqb r paragraph_separator then "\u2029"
         else r
  end.

Definition quote_body (s : string) : string := concat_str (quote_rune <$> runes s).

Definition quote (s : string) : string := dquote +:+ quote_body s +:+ dquote.

(** ** Values *)

Fixpoint encode (v : json) : string :=
  match v with
  | JNull => "null"
  | JBool b => if b then "true" else "false"
  | JNumber text => text
  | JString s => quote s
  | JArray elems => "[" +:+ Join (map encode elems) "," +:+ "]"
  | JObject members =>
      "{" +:+ Join (map (λ kv, quote kv.1 +:+ ":" +:+ encode kv.2) members) "," +:+ "}"
  end.

(** A Go map is written in the order of its keys. *)
Definition key_le (x y : string * json) : Prop := (x.1 ≤ y.1)%string.

#[global] Instance key_le_dec x y : Decision (key_le x y).
Proof. unfold key_le. apply _. Defined.

Definition marshal_map (m : gmap string json) : json :=
  JObject (merge_sort key_le (map_to_list m)).

Definition json_strings (l : list string) : json := JArray (JString <$> l).

(** [strconv.AppendInt]. *)
Definition json_int (z : Z) : json := JNumber (pretty z).

(** ** Round trip *)

(** What survives of a string: its runes, with bytes that are no UTF-8
    replaced. *)
Definition sanitize_string (s : string) : string := concat_str (write_rune <$> runes s).

Fixpoint sanitize (v : json) : json :=
  match v with
  | JNull | JBool _ | JNumber _ => v
  | JString s => JString (sanitize_string s)
  | JArray elems => JArray (map sanitize elems)
  | JObject members => JObject (map (λ kv, (sanitize_string kv.1, sanitize kv.2)) members)
  end.

Definition max_list (l : list Z) : Z := foldr Z.max 0%Z l.

(** How deeply containers nest. *)
Fixpoint depth (v : json) : Z :=
  match v with
  | JArray elems => 1 + max_list (map depth elems)
  | JObject members => 1 + max_list (map (λ kv, depth kv.2) members)
  | _ => 0
  end.

(** Number texts in the JSON grammar. *)
Definition number_start (a : ascii) : option number_state :=
  if byte_is a "-" then Some NNeg
  else if byte_is a "0" then Some NZero
  else if byte_between 49 57 a then Some NDigits
  else None.

Fixpoint number_run (st : number_state) (s : string) : option number_state :=
  match s with
  | "" => Some st
  | String a s' => st' ← number_step st a; number_run st' s'
  end.

Definition json_number (text : string) : bool :=
  match text with
  | "" => false
  | String a s =>
      match number_start a ≫= λ st, number_run st s with
      | Some st => number_done st
      | None => false
      end
  end.

Fixpoint numbers_ok (v : json) : bool :=
  match v with
  | JNumber text => json_number text
  | JArray elems => forallb numbers_ok elems
  | JObject members => forallb (λ kv, numbers_ok kv.2) members
  | _ => true
  end.

(** Induction with hypotheses for the elements of containers. *)
Section json_ind.
Context (P : json → Prop).
Context (HNull : P JNull) (HBool : ∀ b, P (JBool b)) (HNumber : ∀ t, P (JNumber t)).
Context (HString : ∀ s, P (JString s)).
Context (HArray : ∀ es, Forall P es → P (JArray es)).
Context (HObject : ∀ ms, Forall (λ kv, P kv.2) ms → P (JObject ms)).

Fixpoint json_nested_ind (v : json) : P v :=
  match v with
  | JNull => HNull
  | JBool b => HBool b
  | JNumber t => HNumber t
  | JString s => HString s
  | JArray es =>
      HArray es ((fix go es : Forall P es :=
        match es with
        | [] => Forall_nil_2 P
        | e :: es' => Forall_cons_2 P e es' (json_nested_ind e) (go es')
        end) es)
  | JObject ms =>
      HObject ms ((fix go ms : Forall (λ kv, P kv.2) ms :=
        match ms with
        | [] => Forall_nil_2 _
        | kv :: ms' => Forall_cons_2 (λ kv, P kv.2) kv ms' (json_nested_ind kv.2) (go ms')
        end) ms)
  end.
End json_ind.

(** *** Texts in pieces *)

(** One step of the scanner on a concrete mode. *)
Ltac scan_step := cbn [scan step sc_mode sc_stack sc_depth mbind option_bind].

Lemma marshal_map_perm m : ∃ l, marshal_map m = JObject l ∧ l ≡ₚ map_to_list m.
Proof. eexists. split; [done|]. apply merge_sort_Permutation. Qed.

Lemma scan_app s t u : scan s (t +:+ u) = scan s t ≫= λ s', scan s' u.
Proof.
  revert s. induction t as [|a t IH]; intros s; [done|].
  rewrite string_app_cons. simpl. destruct (step s a) as [s'|]; simpl; [apply IH|done].
Qed.

Lemma str_rev_append_app s t acc :
  str_rev_append (s +:+ t) acc = str_rev_append t (str_rev_append s acc).
Proof. revert acc. induction s as [|a s IH]; intros acc; [done|]. apply IH. Qed.

Lemma str_rev_append_acc s acc : str_rev_append s acc = str_rev_append s "" +:+ acc.
Proof.
  revert acc. induction s as [|a s IH]; intros acc; [done|]. simpl.
  rewrite IH, (IH (String a "")), str_app_assoc. done.
Qed.

Lemma str_rev_append_involutive s acc :
  str_rev_append (str_rev_append s "") acc = s +:+ acc.
Proof.
  revert acc. induction s as [|a s IH]; intros acc; [done|]. simpl.
  rewrite (str_rev_append_acc s (String a "")), str_rev_append_app. simpl.
  rewrite IH. done.
Qed.

(** *** Quoted strings *)

(** A piece of a string literal: the scanner stays in the string, ... *)
Definition in_string (t : string) : Prop := ∀ key raw stk d,
  scan (MkScanner (InString key raw) stk d) t
  = Some (MkScanner (InString key (str_rev_append t raw)) stk d).

(** ... and unquoting gives [u]. *)
Definition unquotes (t u : string) : Prop := ∀ rest,
  unquote (runes (t +:+ rest)) = u +:+ unquote (runes rest).

Lemma in_string_nil : in_string "".
Proof. done. Qed.

Lemma in_string_app t u : in_string t → in_string u → in_string (t +:+ u).
Proof. intros Ht Hu key raw stk d. rewrite scan_app, Ht. simpl. by rewrite Hu, str_rev_append_app. Qed.

Lemma unquotes_app t u t' u' :
  unquotes t t' → unquotes u u' → unquotes (t +:+ u) (t' +:+ u').
Proof. intros Ht Hu rest. by rewrite !str_app_assoc, Ht, Hu. Qed.

Lemma in_string_high a s : (128 ≤ N_of_ascii a)%N → in_string s → in_string (String a s).
Proof.
  intros Ha. apply (in_string_app (byte1 a)). intros key raw stk d.
  cbn [byte1 scan step sc_mode sc_stack sc_depth].
  rewrite bool_decide_eq_false_2 by (intros ->; by vm_compute in Ha).
  assert (byte_is a "\" = false) as ->.
  { unfold byte_is. apply String.eqb_neq. intros [= ->]. by vm_compute in Ha. }
  assert ((N_of_ascii a <? 32)%N = false) as -> by (apply N.ltb_ge; lia). done.
Qed.

Lemma quote_byte_ok a : is_ascii a = true →
  in_string (quote_byte a) ∧ unquotes (quote_byte a) (byte1 a).
Proof.
  destruct a as [[] [] [] [] [] [] [] []]; (discriminate || intros _); split; red; reflexivity.
Qed.

(** The encodings of more than one byte. *)
Inductive wide_rune : string → Prop :=
  | wide2 a b : lead2 a && is_cont b = true → wide_rune (byte2 a b)
  | wide3 a b c : lead3 a b && is_cont c = true → wide_rune (byte3 a b c)
  | wide4 a b c d : lead4 a b && is_cont c && is_cont d = true → wide_rune (byte4 a b c d).

Lemma runes_cases s r : r ∈ runes s → (∃ a, r = byte1 a) ∨ wide_rune r.
Proof.
  induction s as [s IH] using (induction_ltof1 _ String.length).
  unfold ltof in IH. destruct s as [|a s1]; simpl; [by intros ?%not_elem_of_nil|].
  intros H. repeat case_match;
    apply elem_of_cons in H as [->|H]; eauto using wide_rune;
    (eapply IH; [|exact H]; simpl; lia).
Qed.

Lemma byte_between_spec lo hi a :
  byte_between lo hi a = true ↔ (lo ≤ N_of_ascii a ≤ hi)%N.
Proof. unfold byte_between. rewrite andb_true_iff, !N.leb_le. done. Qed.

Lemma is_cont_high a : is_cont a = true → (128 ≤ N_of_ascii a)%N.
Proof. intros ?%byte_between_spec. lia. Qed.

Lemma lead2_high a : lead2 a = true → (194 ≤ N_of_ascii a ≤ 223)%N.
Proof. by intros ?%byte_between_spec. Qed.

Lemma lead3_high a b : lead3 a b = true → (224 ≤ N_of_ascii a ≤ 239)%N ∧ (128 ≤ N_of_ascii b)%N.
Proof.
  unfold lead3, is_cont. rewrite !orb_true_iff, !andb_true_iff, !orb_true_iff, !byte_between_spec. lia.
Qed.

Lemma lead4_high a b : lead4 a b = true → (240 ≤ N_of_ascii a)%N ∧ (128 ≤ N_of_ascii b)%N.
Proof.
  unfold lead4, is_cont. rewrite !orb_true_iff, !andb_true_iff, !byte_between_spec. lia.
Qed.

Lemma high_not_ascii a : (128 ≤ N_of_ascii a)%N → is_ascii a = false.
Proof. intros. apply bool_decide_eq_false. lia. Qed.

Lemma wide_rune_runes r rest : wide_rune r → runes (r +:+ rest) = r :: runes rest.
Proof.
  intros [a b H|a b c H|a b c d H]; go_bool.
  - pose proof (lead2_high _ ltac:(eassumption)). simpl.
    rewrite high_not_ascii by lia. by rewrite H, H0.
  - pose proof (lead3_high _ _ ltac:(eassumption)). simpl.
    rewrite high_not_ascii by lia.
    assert (lead2 a = false) as ->.
    { apply not_true_is_false. intros ?%lead2_high. lia. }
    simpl. by rewrite H, H0.
  - pose proof (lead4_high _ _ ltac:(eassumption)). simpl.
    rewrite high_not_ascii by lia.
    assert (lead2 a = false) as ->.
    { apply not_true_is_false. intros ?%lead2_high. lia. }
    assert (lead3 a b = false) as ->.
    { apply not_true_is_false. intros [? _]%lead3_high. lia. }
    simpl. by rewrite H, H1, H0.
Qed.

Lemma wide_rune_in_string r : wide_rune r → in_string r.
Proof.
  intros [a b H|a b c H|a b c d H]; go_bool.
  - apply lead2_high in H. apply is_cont_high in H0.
    repeat apply in_string_high; (lia || apply in_string_nil).
  - apply lead3_high in H. apply is_cont_high in H0.
    repeat apply in_string_high; (lia || apply in_string_nil).
  - apply lead4_high in H. apply is_cont_high in H0. apply is_cont_high in H1.
    repeat apply in_string_high; (lia || apply in_string_nil).
Qed.

Lemma wide_rune_unquotes r : wide_rune r → unquotes r r.
Proof.
  intros Hr rest. rewrite wide_rune_runes by done. simpl.
  assert (String.eqb r "\" = false) as -> by (apply String.eqb_neq; by destruct Hr).
  destruct Hr; done.
Qed.

Lemma quote_rune_ok r s : r ∈ runes s →
  in_string (quote_rune r) ∧ unquotes (quote_rune r) (write_rune r).
Proof.
  intros [[a ->]|Hr]%runes_cases.
  - simpl. destruct (is_ascii a) eqn:E; [by apply quote_byte_ok|]. split; red; reflexivity.
  - assert (write_rune r = r) as -> by (by destruct Hr).
    assert (quote_rune r = if String.eqb r line_separator then "\u2028"
       else if String.eqb r paragraph_separator then "\u2029" else r) as ->
      by (by destruct Hr).
    destruct (String.eqb_spec r line_separator) as [->|_]; [split; red; reflexivity|].
    destruct (String.eqb_spec r paragraph_separator) as [->|_]; [split; red; reflexivity|].
    split; [by apply wide_rune_in_string|by apply wide_rune_unquotes].
Qed.

Lemma quote_body_ok s :
  in_string (quote_body s) ∧ unquotes (quote_body s) (sanitize_string s).
Proof.
  unfold quote_body, sanitize_string.
  assert (∀ rs, Forall (λ r, in_string (quote_rune r) ∧ unquotes (quote_rune r) (write_rune r)) rs →
    in_string (concat_str (quote_rune <$> rs)) ∧
    unquotes (concat_str (quote_rune <$> rs)) (concat_str (write_rune <$> rs))) as Hgen.
  { induction 1 as [|r rs [Hin Hun] _ [IHin IHun]]; simpl.
    - split; [apply in_string_nil|done].
    - split; [by apply in_string_app|by apply unquotes_app]. }
  apply Hgen, Forall_forall. intros r Hr. by eapply quote_rune_ok.
Qed.

(** The scanner reads a quoted string back. *)
Lemma scan_quote_body key s stk d rest :
  scan (MkScanner (InString key "") stk d) (quote_body s +:+ dquote +:+ rest)
  = (s' ← end_string key (str_rev_append (quote_body s) "") (MkScanner (InString key "") stk d);
     scan s' rest).
Proof.
  rewrite scan_app, (proj1 (quote_body_ok s)). simpl. unfold end_string.
  by destruct key.
Qed.

Lemma unquote_quote_body s :
  unquote (runes (str_rev_append (str_rev_append (quote_body s) "") "")) = sanitize_string s.
Proof.
  rewrite str_rev_append_involutive, (proj2 (quote_body_ok s)). simpl. by rewrite str_app_nil_r.
Qed.

(** *** Numbers *)

Lemma scan_number_run st s raw stk d st' :
  number_run st s = Some st' →
  scan (MkScanner (InNumber st raw) stk d) s
  = Some (MkScanner (InNumber st' (str_rev_append s raw)) stk d).
Proof.
  revert st raw. induction s as [|a s IH]; intros st raw; [by intros [= ->]|].
  cbn [number_run scan step sc_mode sc_stack sc_depth str_rev_append].
  destruct (number_step st a) as [st1|]; simpl; [apply IH|done].
Qed.

Lemma begin_number a st stk d :
  number_start a = Some st →
  begin_value (MkScanner BeginValue stk d) a = Some (MkScanner (InNumber st (byte1 a)) stk d).
Proof. by destruct a as [[] [] [] [] [] [] [] []]; intros [= <-]. Qed.

Lemma scan_number text stk d :
  json_number text = true → ∃ st,
    number_done st = true ∧
    scan (MkScanner BeginValue stk d) text
    = Some (MkScanner (InNumber st (str_rev_append text "")) stk d).
Proof.
  destruct text as [|a s]; [done|]. unfold json_number.
  destruct (number_start a) as [st0|] eqn:Ea; [|done]. simpl.
  destruct (number_run st0 s) as [st|] eqn:E; [|done]. intros Hdone. exists st. split; [done|].
  cbn [scan step sc_mode]. rewrite (begin_number _ _ _ _ Ea). simpl.
  by rewrite (scan_number_run _ _ _ _ _ _ E).
Qed.

(** The bytes that may follow a value inside a container. *)
Definition delimiter (a : ascii) : bool := json_space a || existsb (byte_is a) [","; "]"; "}"].

Definition is_number (v : json) : bool := match v with JNumber _ => true | _ => false end.

Definition delimited (v : json) (rest : string) : Prop :=
  match rest with "" => is_number v = false | String a _ => delimiter a = true end.

Lemma number_step_delimiter st a : delimiter a = true → number_step st a = None.
Proof. by destruct st, a as [[] [] [] [] [] [] [] []]. Qed.

Lemma step_complete v stk d a : step (complete v stk d) a = after_value (complete v stk d) a.
Proof. by destruct stk as [|[]]. Qed.

(** *** Values *)

Definition reads_back (v : json) : Prop := ∀ stk d rest,
  numbers_ok v = true → (d + depth v ≤ maxNestingDepth)%Z → delimited v rest →
  scan (MkScanner BeginValue stk d) (encode v +:+ rest) = scan (complete (sanitize v) stk d) rest.

Lemma reads_back_number text : reads_back (JNumber text).
Proof.
  intros stk d rest Hok _ Hrest. simpl in Hok, Hrest.
  destruct (scan_number text stk d Hok) as (st & Hdone & Hscan).
  simpl. rewrite scan_app, Hscan. destruct rest as [|a rest]; [done|].
  unfold delimited in Hrest. scan_step. rewrite number_step_delimiter by done.
  rewrite Hdone, step_complete, str_rev_append_involutive, str_app_nil_r. done.
Qed.

Lemma reads_back_string s : reads_back (JString s).
Proof.
  intros stk d rest _ _ _. cbn [encode]. unfold quote. rewrite !str_app_assoc.
  change (dquote +:+ quote_body s +:+ dquote +:+ rest)
    with (String (ascii_of_N 34) (quote_body s +:+ dquote +:+ rest)).
  cbn [scan step sc_mode]. change (begin_value _ _) with (Some (MkScanner (InString false "") stk d)).
  cbn [mbind option_bind]. rewrite scan_quote_body. simpl. by rewrite unquote_quote_body.
Qed.

(** The first byte of a value is neither space nor a closing bracket. *)
Definition starts_value (a : ascii) : bool :=
  negb (json_space a) && negb (byte_is a "]") && negb (byte_is a "}").

Lemma encode_first v : numbers_ok v = true → ∃ a t, encode v = String a t ∧ starts_value a = true.
Proof.
  destruct v as [|[]|[|a t]|s|es|ms]; simpl; intros H; try done; try (eexists _, _; split; done).
  exists a, t. split; [done|]. unfold number_start in H.
  by destruct a as [[] [] [] [] [] [] [] []].
Qed.

Lemma scan_or_empty v stk d rest :
  numbers_ok v = true →
  scan (MkScanner BeginValueOrEmpty stk d) (encode v +:+ rest)
  = scan (MkScanner BeginValue stk d) (encode v +:+ rest).
Proof.
  intros (a & t & -> & Ha)%encode_first. unfold starts_value in Ha.
  rewrite string_app_cons. cbn [scan step sc_mode]. go_bool.
  unfold begin_value. by repeat match goal with H : _ a = false |- _ => rewrite H | H : byte_is a _ = false |- _ => rewrite H; clear H end.
Qed.

Lemma push_ok m f s :
  (sc_depth s + 1 ≤ maxNestingDepth)%Z →
  push m f s = Some (MkScanner m (f :: sc_stack s) (sc_depth s + 1)).
Proof. intros H. unfold push. rewrite bool_decide_eq_false_2; [done|lia]. Qed.

Lemma max_list_nonneg l : (0 ≤ max_list l)%Z.
Proof. induction l; simpl; lia. Qed.

Lemma max_list_le l n : (0 ≤ n)%Z → (∀ x, x ∈ l → (x ≤ n)%Z) → (max_list l ≤ n)%Z.
Proof.
  intros Hn. induction l as [|x l IH]; intros Hall; [done|]. cbn [max_list foldr].
  pose proof (Hall x (list_elem_of_here _ _)). fold (max_list l).
  pose proof (IH (λ y Hy, Hall y (list_elem_of_further _ _ _ Hy))). lia.
Qed.

Lemma map_max_list_cons {A} (f : A → Z) x l :
  max_list (map f (x :: l)) = Z.max (f x) (max_list (map f l)).
Proof. done. Qed.

Lemma scan_elems es acc stk d rest :
  Forall reads_back es → es ≠ [] →
  forallb numbers_ok es = true →
  (d + max_list (map depth es) ≤ maxNestingDepth)%Z →
  scan (MkScanner BeginValue (FArray acc :: stk) d) (Join (map encode es) "," +:+ "]" +:+ rest)
  = scan (complete (JArray (reverse acc ++ map sanitize es)) stk (d - 1)) rest.
Proof.
  intros Hes. revert acc. induction Hes as [|e es He Hes IH]; intros acc Hne Hok Hd; [done|].
  simpl in Hok. apply andb_true_iff in Hok as [Hok1 Hok2]. rewrite map_max_list_cons in Hd.
  destruct es as [|e2 es].
  - simpl. rewrite He by (done || lia). simpl.
    rewrite reverse_cons. done.
  - cbn [map]. rewrite Join_cons by done. rewrite !str_app_assoc.
    rewrite He by (done || lia). cbn [map] in IH, Hd.
    change (scan (complete (sanitize e) (FArray acc :: stk) d) ("," +:+ ?x)) with
      (scan (MkScanner BeginValue (FArray (sanitize e :: acc) :: stk) d) x).
    rewrite IH by (done || lia). by rewrite reverse_cons, <- app_assoc.
Qed.

Lemma reads_back_array es : Forall reads_back es → reads_back (JArray es).
Proof.
  intros Hes stk d rest Hok Hd _. simpl in Hok, Hd. simpl encode.
  rewrite !str_app_assoc.
  assert (scan (MkScanner BeginValue stk d) ("[" +:+ Join (map encode es) "," +:+ "]" +:+ rest)
    = scan (MkScanner BeginValueOrEmpty (FArray [] :: stk) (d + 1))
        (Join (map encode es) "," +:+ "]" +:+ rest)) as ->.
  { trans (push BeginValueOrEmpty (FArray []) (MkScanner BeginValue stk d)
      ≫= λ s', scan s' (Join (map encode es) "," +:+ "]" +:+ rest)); [done|].
    rewrite push_ok; [done|]. simpl. pose proof (max_list_nonneg (map depth es)). lia. }
  destruct es as [|e es].
  - simpl. unfold end_value. simpl. replace (d + 1 - 1)%Z with d by lia. done.
  - assert (∀ x, Join (map encode (e :: es)) "," +:+ x = encode e +:+
       (if es is [] then x else "," +:+ Join (map encode es) "," +:+ x)) as Hj.
    { intros x. destruct es; [done|]. cbn [map]. rewrite Join_cons by done. by rewrite !str_app_assoc. }
    simpl in Hok. apply andb_true_iff in Hok as [Hok1 Hok2].
    rewrite Hj, scan_or_empty by done. rewrite <- Hj.
    rewrite scan_elems; [|done..|by simpl; rewrite Hok1|lia].
    replace (d + 1 - 1)%Z with d by lia. done.
Qed.

Lemma scan_key m stk d k rest :
  m = BeginString ∨ m = BeginStringOrEmpty → ∀ ms k0,
  scan (MkScanner m (FObject ms k0 :: stk) d) (quote k +:+ ":" +:+ rest)
  = scan (MkScanner BeginValue (FObject ms (sanitize_string k) :: stk) d) rest.
Proof.
  intros Hm ms k0. unfold quote. rewrite !str_app_assoc.
  trans (scan (MkScanner (InString true "") (FObject ms k0 :: stk) d)
    (quote_body k +:+ dquote +:+ ":" +:+ rest)).
  { by destruct Hm as [-> | ->]. }
  rewrite scan_quote_body. simpl. by rewrite unquote_quote_body.
Qed.

Definition encode_member (kv : string * json) : string := quote kv.1 +:+ ":" +:+ encode kv.2.
Definition sanitize_member (kv : string * json) : string * json :=
  (sanitize_string kv.1, sanitize kv.2).

Lemma scan_members ms m acc k0 stk d rest :
  Forall (λ kv, reads_back kv.2) ms → ms ≠ [] →
  m = BeginString ∨ m = BeginStringOrEmpty →
  forallb (λ kv, numbers_ok kv.2) ms = true →
  (d + max_list (map (λ kv, depth kv.2) ms) ≤ maxNestingDepth)%Z →
  scan (MkScanner m (FObject acc k0 :: stk) d) (Join (map encode_member ms) "," +:+ "}" +:+ rest)
  = scan (complete (JObject (reverse acc ++ map sanitize_member ms)) stk (d - 1)) rest.
Proof.
  intros Hms. revert m acc k0.
  induction Hms as [|[k v] ms Hv Hms IH]; intros m acc k0 Hne Hm Hok Hd; [done|].
  simpl in Hok, Hv. apply andb_true_iff in Hok as [Hok1 Hok2]. rewrite map_max_list_cons in Hd.
  simpl in Hd. destruct ms as [|kv2 ms].
  - cbn [map Join]. unfold encode_member at 1. simpl fst. simpl snd.
    rewrite !str_app_assoc, scan_key by done. rewrite Hv by (done || lia).
    simpl. by rewrite reverse_cons.
  - cbn [map]. rewrite Join_cons by done. unfold encode_member at 1. simpl fst. simpl snd.
    rewrite !str_app_assoc, scan_key by done. rewrite Hv by (done || lia).
    change (scan (complete (sanitize v) (FObject acc (sanitize_string k) :: stk) d) ("," +:+ ?x)) with
      (scan (MkScanner BeginString
        (FObject ((sanitize_string k, sanitize v) :: acc) "" :: stk) d) x).
    cbn [map] in IH, Hd. rewrite IH by (auto || lia). by rewrite reverse_cons, <- app_assoc.
Qed.

Lemma reads_back_object ms : Forall (λ kv, reads_back kv.2) ms → reads_back (JObject ms).
Proof.
  intros Hms stk d rest Hok Hd _. simpl in Hok, Hd. simpl encode. rewrite !str_app_assoc.
  change (map (λ kv, quote kv.1 +:+ ":" +:+ encode kv.2) ms) with (map encode_member ms).
  change (sanitize (JObject ms)) with (JObject (map sanitize_member ms)).
  assert (scan (MkScanner BeginValue stk d) ("{" +:+ Join (map encode_member ms) "," +:+ "}" +:+ rest)
    = scan (MkScanner BeginStringOrEmpty (FObject [] "" :: stk) (d + 1))
        (Join (map encode_member ms) "," +:+ "}" +:+ rest)) as ->.
  { trans (push BeginStringOrEmpty (FObject [] "") (MkScanner BeginValue stk d)
      ≫= λ s', scan s' (Join (map encode_member ms) "," +:+ "}" +:+ rest)); [done|].
    rewrite push_ok; [done|]. simpl.
    pose proof (max_list_nonneg (map (λ kv, depth kv.2) ms)). lia. }
  destruct ms as [|kv ms].
  - simpl. unfold end_value. simpl. replace (d + 1 - 1)%Z with d by lia. done.
  - rewrite scan_members; [|done..|by right|done|lia].
    replace (d + 1 - 1)%Z with d by lia. done.
Qed.

Lemma all_read_back v : reads_back v.
Proof.
  induction v using json_nested_ind;
    auto using reads_back_number, reads_back_string, reads_back_array, reads_back_object.
  - done.
  - by destruct b.
Qed.

Lemma encode_no_newline_string s : byte_in newline (quote_body s) = false.
Proof.
  unfold quote_body. assert (∀ r, r ∈ runes s → byte_in newline (quote_rune r) = false) as Hr.
  { intros r [[a ->]|Hw]%runes_cases.
    - simpl. by destruct a as [[] [] [] [] [] [] [] []].
    - assert (byte_in newline r = false).
      { assert (∀ a, (128 ≤ N_of_ascii a)%N → bool_decide (a = newline) = false) as Hhigh.
        { intros a Ha. apply bool_decide_eq_false. intros ->. by vm_compute in Ha. }
        destruct Hw as [a b H|a b c H|a b c d H]; go_bool;
          repeat match goal with
          | H : is_cont _ = true |- _ => apply is_cont_high in H
          | H : lead2 _ = true |- _ => apply lead2_high in H
          | H : lead3 _ _ = true |- _ => apply lead3_high in H
          | H : lead4 _ _ = true |- _ => apply lead4_high in H
          end; unfold byte4, byte3, byte2, byte1; rewrite !byte_in_cons;
          rewrite !Hhigh by lia; done. }
      assert (quote_rune r = if String.eqb r line_separator then "\u2028"
        else if String.eqb r paragraph_separator then "\u2029" else r) as -> by (by destruct Hw).
      by repeat case_match. }
  revert Hr. generalize (runes s). induction l as [|r rs IH]; intros Hr; [done|].
  change (concat_str (quote_rune <$> r :: rs)) with (quote_rune r +:+ concat_str (quote_rune <$> rs)).
  rewrite byte_in_app, Hr, IH by set_solver. done.
Qed.

Lemma quote_no_newline s : byte_in newline (quote s) = false.
Proof.
  unfold quote. rewrite !byte_in_app, encode_no_newline_string. done.
Qed.

Lemma number_run_no_newline st s st' : number_run st s = Some st' → byte_in newline s = false.
Proof.
  revert st. induction s as [|a s IH]; intros st; [done|]. simpl number_run.
  destruct (number_step st a) as [st1|] eqn:E; [|done]. simpl. intros H.
  rewrite byte_in_cons, (IH _ H), orb_false_r. apply bool_decide_eq_false. intros ->.
  by destruct st.
Qed.

Lemma json_number_no_newline text : json_number text = true → byte_in newline text = false.
Proof.
  destruct text as [|a s]; [done|]. unfold json_number.
  destruct (number_start a) as [st|] eqn:Ea; [|done]. simpl.
  destruct (number_run st s) as [st'|] eqn:Es; [|done]. intros _.
  rewrite byte_in_cons, (number_run_no_newline _ _ _ Es), orb_false_r.
  apply bool_decide_eq_false. by intros ->.
Qed.

Lemma byte_in_Join c l sep :
  byte_in c sep = false → Forall (λ s, byte_in c s = false) l → byte_in c (Join l sep) = false.
Proof.
  intros Hsep. induction 1 as [|s l Hs Hl IH]; [done|]. destruct l as [|s2 l]; [done|].
  rewrite Join_cons by done. by rewrite !byte_in_app, Hs, Hsep, IH.
Qed.

(** Marshalled text is a single line. *)
Lemma encode_no_newline v : numbers_ok v = true → byte_in newline (encode v) = false.
Proof.
  induction v as [|b|t|s|es IH|ms IH] using json_nested_ind; simpl; intros Hok.
  - done.
  - by destruct b.
  - by apply json_number_no_newline.
  - apply quote_no_newline.
  - rewrite !byte_in_app, byte_in_Join; [done..|].
    apply Forall_map. apply Is_true_true in Hok.
    rewrite Forall_forall in IH |- *. intros v Hv. apply IH; [done|].
    apply forallb_True in Hok. rewrite Forall_forall in Hok. by apply Is_true_true, Hok.
  - rewrite !byte_in_app, byte_in_Join; [done..|].
    apply Forall_map. apply Is_true_true in Hok.
    rewrite Forall_forall in IH |- *. intros [k v] Hv. simpl.
    rewrite !byte_in_app, quote_no_newline. simpl. apply (IH (k, v)); [done|].
    apply forallb_True in Hok. rewrite Forall_forall in Hok. by apply Is_true_true, (Hok (k, v)).
Qed.

(** *** Integers *)

Definition digit (a : ascii) : bool := byte_between 48 57 a.

Lemma pretty_N_char_digit n : (n < 10)%N →
  digit (pretty_N_char n) = true ∧ (Z.of_N (N_of_ascii (pretty_N_char n)) - 48 = Z.of_N n)%Z ∧
  ((0 < n)%N → byte_between 49 57 (pretty_N_char n) = true).
Proof.
  intros. assert (n = 0 ∨ n = 1 ∨ n = 2 ∨ n = 3 ∨ n = 4 ∨ n = 5 ∨ n = 6 ∨ n = 7 ∨ n = 8 ∨ n = 9)%N
    as Hn by lia. destruct_or! Hn; subst; split_and!; done.
Qed.

(** The decimal digits of a positive number. *)
Lemma pretty_N_go_digits x s : ∃ t,
  pretty_N_go x s = t +:+ s ∧ str_forallb digit t = true ∧
  digits_value t 0 = Some (Z.of_N x) ∧
  ((0 < x)%N → ∃ a t', t = String a t' ∧ byte_between 49 57 a = true).
Proof.
  assert (∀ t a acc z, digits_value t acc = Some z → digit a = true →
    digits_value (t +:+ byte1 a) acc = Some (10 * z + Z.of_N (N_of_ascii a) - 48)%Z) as Hsnoc.
  { intros t a. induction t as [|b t IH]; intros acc z; cbn [digits_value].
    - intros [= ->] Ha. simpl. unfold digit in Ha. by rewrite Ha.
    - rewrite string_app_cons. cbn [digits_value].
      destruct (byte_between 48 57 b); [apply IH|done]. }
  revert s. induction (N.lt_wf_0 x) as [x _ IH]; intros s.
  assert (x = 0 ∨ 0 < x)%N as [->|Hx] by lia; [by exists ""|].
  rewrite pretty_N_go_step by done.
  destruct (IH (x / 10)%N ltac:(by apply N.div_lt) (String (pretty_N_char (x mod 10)) s))
    as (t & Ht & Hd & Hv & Hfirst).
  destruct (pretty_N_char_digit (x mod 10)) as (Hc & Hval & Hpos); [by apply N.mod_lt|].
  exists (t +:+ byte1 (pretty_N_char (x mod 10))). split; [|split; [|split]].
  - by rewrite Ht, str_app_assoc.
  - clear -Hd Hc. induction t as [|b t IHt]; simpl in *; [by rewrite Hc|].
    apply andb_true_iff in Hd as [Hb Hd]. rewrite Hb. by apply IHt.
  - rewrite (Hsnoc _ _ _ _ Hv Hc). f_equal. pose proof (N.div_mod x 10 ltac:(done)). lia.
  - intros _. destruct (N.eq_0_gt_0_cases (x / 10)) as [Hq0|Hq]; [|].
    + rewrite Hq0 in Ht. destruct t as [|b t].
      * eexists _, _. split; [done|]. apply Hpos. pose proof (N.div_mod x 10 ltac:(done)). lia.
      * rewrite pretty_N_go_0 in Ht. apply (f_equal String.length) in Ht.
        rewrite str_length_app in Ht. simpl in Ht. lia.
    + destruct (Hfirst Hq) as (a & t' & -> & Ha). by exists a, (t' +:+ byte1 (pretty_N_char (x mod 10))).
Qed.

Lemma digits_run t : str_forallb digit t = true → number_run NDigits t = Some NDigits.
Proof.
  induction t as [|a t IH]; [done|]. simpl. intros [Ha Ht]%andb_true_iff.
  unfold digit in Ha. rewrite Ha. simpl. by apply IH.
Qed.

Lemma pretty_positive_digits p : ∃ a t,
  pretty p = String a t ∧ byte_between 49 57 a = true ∧ number_run NDigits t = Some NDigits ∧
  digits_value (String a t) 0 = Some (Z.pos p).
Proof.
  destruct (pretty_N_go_digits (N.pos p) "") as (t & Ht & Hd & Hv & Hfirst).
  destruct Hfirst as (a & t' & -> & Ha); [done|]. exists a, t'.
  simpl in Hd. apply andb_true_iff in Hd as [_ Hd].
  split_and!; [|done|by apply digits_run|done].
  rewrite str_app_nil_r in Ht. exact Ht.
Qed.

Lemma pretty_digits (n : Z) : (0 ≤ n)%Z → str_forallb digit (pretty n) = true ∧ digits_value (pretty n) 0 = Some n.
Proof.
  intros Hn. destruct n as [|p|p]; [done| |lia].
  destruct (pretty_N_go_digits (N.pos p) "") as (t & Ht & Hd & Hv & _). rewrite str_app_nil_r in Ht.
  change (pretty (Z.pos p)) with (pretty_N_go (N.pos p) ""). by rewrite Ht.
Qed.

(** Integers are JSON numbers. *)
Lemma json_int_ok (z : Z) : json_number (pretty z) = true.
Proof.
  destruct z as [|p|p]; [done| |];
    destruct (pretty_positive_digits p) as (a & t & Hp & Ha & Ht & _).
  - change (pretty (Z.pos p)) with (pretty p). rewrite Hp. unfold json_number.
    assert (number_start a = Some NDigits) as ->; [|simpl; by rewrite Ht].
    by destruct a as [[] [] [] [] [] [] [] []].
  - change (pretty (Z.neg p)) with ("-" +:+ pretty p). rewrite Hp. unfold json_number. simpl.
    assert (number_step NNeg a = Some NDigits) as Hs; [|simpl in Hs; rewrite Hs; simpl; by rewrite Ht].
    by destruct a as [[] [] [] [] [] [] [] []].
Qed.

(** [strconv.ParseInt] reads back what [strconv.AppendInt] wrote. *)
Lemma parse_int_pretty (z : Z) : (MinInt64 ≤ z ≤ MaxInt64)%Z → parse_int (pretty z) = Some z.
Proof.
  intros Hz. destruct z as [|p|p]; [done| |];
    destruct (pretty_positive_digits p) as (a & t & Hp & Ha & _ & Hv).
  - change (pretty (Z.pos p)) with (pretty p). rewrite Hp. unfold parse_int, CutPrefix.
    assert (HasPrefix (String a t) "-" = false) as ->
      by (by destruct a as [[] [] [] [] [] [] [] []]).
    rewrite Hv. simpl. by rewrite bool_decide_eq_true_2.
  - change (pretty (Z.neg p)) with ("-" +:+ pretty p). rewrite Hp. unfold parse_int.
    change (CutPrefix ("-" +:+ String a t) "-") with (String a t, true).
    cbn iota. rewrite Hv. simpl. by rewrite bool_decide_eq_true_2.
Qed.

(** Parsing an encoding. *)
Lemma json_encode_parse v :
  numbers_ok v = true → (depth v ≤ maxNestingDepth)%Z →
  json_parse (encode v) = Some (sanitize v).
Proof.
  intros Hok Hd. unfold json_parse.
  destruct (is_number v) eqn:E.
  - destruct v as [| |t| | |]; try done. simpl in Hok.
    destruct (scan_number t [] 0 Hok) as (st & Hdone & Hs). simpl encode. rewrite Hs. simpl.
    by rewrite Hdone, str_rev_append_involutive, str_app_nil_r.
  - rewrite <- (str_app_nil_r (encode v)), all_read_back by (done || lia). done.
Qed.

(** What [json.Marshal] writes is one line of text, and
    [json.Unmarshal] reads it back as the same value, except that bytes
    which are not UTF-8 have become U+FFFD: this holds for every value whose
    numbers are JSON numbers and whose containers nest no deeper than the
    decoder's limit of 10000. *)
Theorem json_marshal_roundtrip v :
  numbers_ok v = true → (depth v ≤ maxNestingDepth)%Z →
  byte_in newline (encode v) = false ∧ json_parse (encode v) = Some (sanitize v).
Proof. intros Hok Hd. split; [by apply encode_no_newline|by apply json_encode_parse]. Qed.

Lemma json_marshal_roundtrip_witness :
  let v := JArray [JString (bytes [60; 10; 255]%N); json_int (-42)] in
  byte_in newline (encode v) = false ∧
  json_parse (encode v) = Some (JArray [JString (bytes [60; 10; 239; 191; 189]%N); JNumber "-42"]).
Proof.
  apply (json_marshal_roundtrip (JArray [JString (bytes [60; 10; 255]%N); json_int (-42)]));
    vm_compute; done.
Defined.
