(* ===== verification/JsonShape.v ===== *)
(** * The shape of JSON documents

    What it means for a JSON value to describe a text, a sequence, a mapping
    or an object of some fields, without fixing the order of members or
    which of them are there; and that the decoders of Json.v (a fold over the
    members that stores each in the field it selects) read such values. *)

From S2P Require Import Prelude GoStrings Json.
From stdpp Require Import options.

(** ** Objects read for some of their fields *)

(** The member a field is read from: the first whose key selects it. *)
Fixpoint member (names : list string) (f : string) (ms : list (string * json)) : option json :=
  match ms with
  | [] => None
  | (k, v) :: ms' => if bool_decide (select_field names k = Some f) then Some v else member names f ms'
  end.

(** No field is read from two members; members that select no field do not
    count. *)
Definition one_each (names : list string) (ms : list (string * json)) : Prop :=
  NoDup (omap (λ kv, select_field names kv.1) ms).

(** A text; a null or a missing member leaves it empty. *)
Definition text_of (v : json) (s : string) : Prop := v = JString s ∨ (v = JNull ∧ s = "").

(** An object read for some of its fields: the other members do not
    matter, nor does the order. *)
Definition object_of (names : list string) (v : json) (ms : list (string * json)) : Prop :=
  (v = JObject ms ∧ one_each names ms) ∨ (v = JNull ∧ ms = []).

Definition value_at (names : list string) (f : string) (ms : list (string * json)) : json :=
  default JNull (member names f ms).

Definition sequence_of {A} (R : json → A → Prop) (v : json) (xs : list A) : Prop :=
  (∃ vs, v = JArray vs ∧ Forall2 R vs xs) ∨ (v = JNull ∧ xs = []).

(** A key given twice has its last value. *)
Definition mapping_of {A} (R : json → A → Prop) (v : json) (m : gmap string A) : Prop :=
  (∃ kvs rows, v = JObject kvs ∧ m = list_to_map (reverse rows) ∧
    Forall2 (λ kv row, kv.1 = row.1 ∧ R kv.2 row.2) kvs rows) ∨
  (v = JNull ∧ m = ∅).

(** ** The decoders read them *)

Lemma member_selected names f ms v :
  member names f ms = Some v → f ∈ omap (λ kv, select_field names kv.1) ms.
Proof.
  induction ms as [|[k e] ms IH]; [done|]. cbn [member]. case_bool_decide as Hk; intros Hm.
  - apply list_elem_of_omap. exists (k, e). split; [by left|done].
  - apply IH, list_elem_of_omap in Hm as (kv & Hin & Hsel). apply list_elem_of_omap.
    exists kv. split; [by right|done].
Qed.

Lemma select_field_name names k n : select_field names k = Some n → n ∈ names.
Proof.
  unfold select_field. rewrite list_elem_of_In.
  destruct (find (String.eqb k) names) eqn:Hfind; intros Hsel.
  - injection Hsel as ->. by apply find_some in Hfind as [? _].
  - by apply find_some in Hsel as [? _].
Qed.

Lemma member_field names f ms v : member names f ms = Some v → f ∈ names.
Proof.
  intros Hm%member_selected. apply list_elem_of_omap in Hm as (kv & _ & Hsel). by apply select_field_name in Hsel.
Qed.

(** Decoding an object whose members name a field at most once each, in any
    order: [part d] is the struct with the fields of [d] stored. *)
Lemma decode_members_in_any_order {A} names (set : string → A → json → option A)
    (part : (string → bool) → A) ms d :
  one_each names ms →
  (∀ f v d, member names f ms = Some v → d f = false →
    set f (part d) v = Some (part (λ g, d g || String.eqb g f))) →
  (∀ f v, member names f ms = Some v → d f = false) →
  ∃ d', decode_struct names set (part d) (JObject ms) = Some (part d') ∧
    ∀ f, d' f = d f || bool_decide (is_Some (member names f ms)).
Proof.
  unfold one_each, decode_struct. revert d.
  induction ms as [|[k e] ms IH]; intros d Hnd Hset Hd.
  { exists d. split; [done|]. intros f. by rewrite orb_false_r. }
  cbn [foldl mbind option_bind]. cbn [omap list_omap fst] in Hnd.
  destruct (select_field names k) as [n|] eqn:Hn.
  - apply NoDup_cons in Hnd as [Hfresh Hnd].
    assert (member names n ((k, e) :: ms) = Some e) as He.
    { cbn [member]. by rewrite bool_decide_eq_true_2. }
    assert (∀ f, f ≠ n → member names f ((k, e) :: ms) = member names f ms) as Hother.
    { intros f Hf. cbn [member]. rewrite bool_decide_eq_false_2; [done|]. congruence. }
    assert (∀ f v, member names f ms = Some v → f ≠ n) as Hne.
    { intros f v Hm ->. eapply Hfresh, member_selected, Hm. }
    rewrite (Hset n e d He (Hd n e He)).
    destruct (IH (λ g, d g || String.eqb g n) Hnd) as (d' & Hrun & Hd').
    + intros f v d0 Hm. apply Hset. rewrite Hother; eauto.
    + intros f v Hm. rewrite (Hd f v); [|rewrite Hother; eauto]. cbn [orb]. by apply String.eqb_neq; eauto.
    + exists d'. split; [exact Hrun|]. intros f. rewrite Hd'.
      destruct (String.eqb_spec f n) as [->|Hf]; [|by rewrite Hother, orb_false_r by done].
      rewrite He, orb_true_r. by rewrite (bool_decide_eq_true_2 (is_Some (Some e))), orb_true_r by eauto.
  - assert (∀ f, member names f ((k, e) :: ms) = member names f ms) as Hsame.
    { intros f. cbn [member]. by rewrite bool_decide_eq_false_2 by congruence. }
    destruct (IH d Hnd) as (d' & Hrun & Hd').
    + intros f v d0 Hm. apply Hset. by rewrite Hsame.
    + intros f v Hm. apply (Hd f v). by rewrite Hsame.
    + exists d'. split; [exact Hrun|]. intros f. by rewrite Hd', Hsame.
Qed.

Lemma decode_text_of v s : text_of v s → decode_string "" v = Some s.
Proof. by intros [->|[-> ->]]. Qed.

Lemma decode_sequence {A B} (R : json → B → Prop) (dec : A → json → option A) (zero : A) (g : B → A) v xs :
  (∀ v x, R v x → dec zero v = Some (g x)) →
  sequence_of R v xs → decode_slice dec zero [] v = Some (g <$> xs).
Proof.
  intros Hdec [(vs & -> & Hall)|[-> ->]]; [|done]. cbn [decode_slice].
  induction Hall as [|v x vs xs Hx Hall IH]; [done|].
  cbn [decode_elems head tail]. change (default zero None) with zero.
  rewrite (Hdec v x Hx). cbn [mbind option_bind]. by rewrite IH.
Qed.

Lemma decode_mapping {A B} (R : json → B → Prop) (dec : json → option A) (g : B → A) v m :
  (∀ v x, R v x → dec v = Some (g x)) →
  mapping_of R v m → default ∅ <$> decode_map dec None v = Some (g <$> m).
Proof.
  intros Hdec [(kvs & rows & -> & -> & Hall)|[-> ->]]; [|by rewrite fmap_empty].
  cbn [decode_map]. change (default ∅ None) with (∅ : gmap string A).
  assert (∀ m0 : gmap string A,
    foldl (λ acc '(k, e), m ← acc; x ← dec e; Some (<[k := x]> m)) (Some m0) kvs
    = Some ((g <$> (list_to_map (reverse rows) : gmap string B)) ∪ m0)) as Hgen.
  { induction Hall as [|[k e] [k' x] kvs rows [Hk Hx] Hall IH]; intros m0.
    { rewrite reverse_nil. cbn. by rewrite fmap_empty, (left_id_L ∅ (∪)). }
    cbn [fst snd] in Hk, Hx. subst k'. cbn [foldl mbind option_bind]. rewrite (Hdec e x Hx).
    cbn [mbind option_bind]. rewrite IH, reverse_cons, list_to_map_app. f_equal.
    rewrite map_fmap_union, <-(assoc_L (∪)). f_equal.
    change (list_to_map [(k, x)]) with ({[k := x]} : gmap string B).
    by rewrite map_fmap_singleton, <-insert_union_singleton_l. }
  rewrite Hgen. cbn. by rewrite (right_id_L ∅ (∪)).
Qed.

(** A one-field struct. *)
Lemma decode_one {A} n (set : A → json → option A) (zero x : A) v ms :
  object_of [n] v ms →
  set zero (value_at [n] n ms) = Some x → set zero JNull = Some zero →
  decode_struct [n] (λ _, set) zero v = Some x.
Proof.
  intros [[-> Hone]|[-> ->]] Hset Hnull; [|unfold value_at in Hset; cbn in *; congruence].
  destruct (decode_members_in_any_order [n] (λ _, set) (λ d, if d n then x else zero) ms (λ _, false) Hone)
    as (d & Hrun & Hd); [|done|].
  - intros f w d Hm Hf. assert (f = n) as ->.
    { pose proof (member_selected _ _ _ _ Hm) as Hin. apply list_elem_of_omap in Hin as (kv & _ & Hsel).
      by apply select_field_name, list_elem_of_singleton in Hsel. }
    rewrite Hf, String.eqb_refl. cbn [orb]. unfold value_at in Hset. by rewrite Hm in Hset.
  - cbn iota in Hrun. rewrite Hrun, Hd. cbn [orb]. unfold value_at in Hset.
    destruct (member [n] n ms) as [w|]; [by rewrite bool_decide_eq_true_2 by eauto|].
    rewrite bool_decide_eq_false_2 by (by intros [? ?]). cbn [default] in Hset. congruence.
Qed.

(** A struct of several fields. *)
Lemma decode_object {A} names (set : string → A → json → option A) (part : (string → bool) → A) target v ms :
  object_of names v ms →
  (∀ f w d, f ∈ names → value_at names f ms = w → d f = false →
    set f (part d) w = Some (part (λ g, d g || String.eqb g f))) →
  (∀ d, (∀ f, d f = false → value_at names f ms = JNull) → part d = target) →
  decode_struct names set (part (λ _, false)) v = Some target.
Proof.
  intros [[-> Hone]|[-> ->]] Hset Hpart; [|by cbn [decode_struct]; rewrite Hpart].
  destruct (decode_members_in_any_order names set part ms (λ _, false) Hone) as (d & -> & Hd).
  - intros f w d Hm. apply Hset; [by eapply member_field|]. unfold value_at. by rewrite Hm.
  - done.
  - f_equal. apply Hpart. intros f. rewrite Hd. intros Hf%bool_decide_eq_false_1.
    unfold value_at. by apply eq_None_not_Some in Hf as ->.
Qed.

(** A field that is stored, or had nothing to store. *)
Lemma stored_field {A} (dec : A → json → option A) (b : bool) (zero x : A) v :
  dec zero v = Some x → dec zero JNull = Some zero → (b = false → v = JNull) → (if b then x else zero) = x.
Proof. intros Hdec Hnull. destruct b; [done|]. intros Hv. rewrite Hv in Hdec by done. congruence. Qed.
