(* ===== verification/JsonIndent.v ===== *)
(** * Indented JSON

    [json.Encoder] with [SetIndent("", "  ")], as the command line prints
    SBOMs: every element and member on a line of its own, two spaces per
    level, a newline at the end. Reading it back gives the same value as the
    one-line encoding of JsonEncode.v. *)

From S2P Require Import Prelude GoStrings GoText Json JsonEncode.
From stdpp Require Import options.

Fixpoint spaces (n : nat) : string :=
  match n with O => "" | S n' => "  " +:+ spaces n' end.

Definition line_break (lvl : nat) : string := byte1 newline +:+ spaces lvl.

Fixpoint encode_indent (lvl : nat) (v : json) : string :=
  match v with
  | JArray (e :: es) =>
      "[" +:+ line_break (S lvl)
      +:+ Join (map (encode_indent (S lvl)) (e :: es)) ("," +:+ line_break (S lvl))
      +:+ line_break lvl +:+ "]"
  | JObject (m :: ms) =>
      "{" +:+ line_break (S lvl)
      +:+ Join (map (λ kv, quote kv.1 +:+ ": " +:+ encode_indent (S lvl) kv.2) (m :: ms))
            ("," +:+ line_break (S lvl))
      +:+ line_break lvl +:+ "}"
  | _ => encode v
  end.

(** [Encoder.Encode]. *)
Definition Encode (v : json) : string := encode_indent 0 v +:+ byte1 newline.

(** ** White space is skipped *)

Definition skips (s : scanner) : bool :=
  match sc_mode s with
  | BeginValue | BeginValueOrEmpty | BeginStringOrEmpty | BeginString | AfterKey | EndValue | EndTop _ => true
  | _ => false
  end.

Definition blank (s : string) : bool := str_forallb json_space s.

Lemma scan_blank s t rest : skips s = true → blank t = true → scan s (t +:+ rest) = scan s rest.
Proof.
  intros Hs. induction t as [|a t IH]; [done|]. unfold blank. cbn [str_forallb]. intros Ht. go_bool.
  rewrite string_app_cons. cbn [scan].
  assert (step s a = Some s) as ->; [|by apply IH].
  destruct s as [m stk d]. destruct m; cbn [skips sc_mode] in Hs; try done; cbn [step sc_mode];
    unfold begin_value, begin_string, end_value, end_top; by repeat match goal with H : json_space a = true |- _ => rewrite H; clear H end.
Qed.

Lemma blank_spaces n : blank (spaces n) = true.
Proof. induction n as [|n IH]; [done|]. exact IH. Qed.

Lemma blank_line_break lvl : blank (line_break lvl) = true.
Proof. exact (blank_spaces lvl). Qed.

Lemma complete_skips v stk d : skips (complete v stk d) = true.
Proof. by destruct stk as [|[]]. Qed.

Lemma delimited_line_break v lvl rest : delimited v (line_break lvl +:+ rest).
Proof. done. Qed.

Lemma delimited_comma v rest : delimited v ("," +:+ rest).
Proof. done. Qed.

Definition reads_indented (v : json) : Prop := ∀ lvl stk d rest,
  numbers_ok v = true → (d + depth v ≤ maxNestingDepth)%Z → delimited v rest →
  scan (MkScanner BeginValue stk d) (encode_indent lvl v +:+ rest) = scan (complete (sanitize v) stk d) rest.

Lemma scan_indented_elems es lvl acc stk d w rest :
  Forall reads_indented es → es ≠ [] → forallb numbers_ok es = true →
  (d + max_list (map depth es) ≤ maxNestingDepth)%Z →
  scan (MkScanner BeginValue (FArray acc :: stk) d)
    (Join (map (encode_indent lvl) es) ("," +:+ line_break lvl) +:+ line_break w +:+ "]" +:+ rest)
  = scan (complete (JArray (reverse acc ++ map sanitize es)) stk (d - 1)) rest.
Proof.
  intros Hes. revert acc. induction Hes as [|e es He Hes IH]; intros acc Hne Hok Hd; [done|].
  cbn [forallb] in Hok. apply andb_true_iff in Hok as [Hok1 Hok2]. rewrite map_max_list_cons in Hd.
  destruct es as [|e2 es].
  - cbn [map Join]. rewrite He by (done || lia).
    rewrite scan_blank by (apply complete_skips || apply blank_line_break).
    simpl. by rewrite reverse_cons.
  - cbn [map]. rewrite Join_cons by done. rewrite !str_app_assoc.
    rewrite He by (done || lia). cbn [map] in IH, Hd.
    change (scan (complete (sanitize e) (FArray acc :: stk) d) ("," +:+ ?x)) with
      (scan (MkScanner BeginValue (FArray (sanitize e :: acc) :: stk) d) x).
    rewrite scan_blank by (done || apply blank_line_break).
    rewrite IH by (done || lia). by rewrite reverse_cons, <- app_assoc.
Qed.

Definition indent_member (lvl : nat) (kv : string * json) : string :=
  quote kv.1 +:+ ": " +:+ encode_indent lvl kv.2.

Lemma scan_indented_members ms lvl m acc k0 stk d w rest :
  Forall (λ kv, reads_indented kv.2) ms → ms ≠ [] →
  m = BeginString ∨ m = BeginStringOrEmpty →
  forallb (λ kv, numbers_ok kv.2) ms = true →
  (d + max_list (map (λ kv, depth kv.2) ms) ≤ maxNestingDepth)%Z →
  scan (MkScanner m (FObject acc k0 :: stk) d)
    (Join (map (indent_member lvl) ms) ("," +:+ line_break lvl) +:+ line_break w +:+ "}" +:+ rest)
  = scan (complete (JObject (reverse acc ++ map sanitize_member ms)) stk (d - 1)) rest.
Proof.
  intros Hms. revert m acc k0.
  induction Hms as [|[k v] ms Hv Hms IH]; intros m acc k0 Hne Hm Hok Hd; [done|].
  cbn [forallb snd] in Hok, Hv. apply andb_true_iff in Hok as [Hok1 Hok2]. rewrite map_max_list_cons in Hd.
  cbn [snd] in Hd.
  assert (∀ x, scan (MkScanner m (FObject acc k0 :: stk) d) (indent_member lvl (k, v) +:+ x)
    = scan (MkScanner BeginValue (FObject acc (sanitize_string k) :: stk) d) (encode_indent lvl v +:+ x)) as Hkey.
  { intros x. unfold indent_member. cbn [fst snd]. rewrite !str_app_assoc.
    change (": " +:+ encode_indent lvl v +:+ x) with (":" +:+ " " +:+ encode_indent lvl v +:+ x).
    rewrite scan_key by done. by apply scan_blank. }
  destruct ms as [|kv2 ms].
  - cbn [map Join]. rewrite Hkey, Hv by (done || lia).
    rewrite scan_blank by (apply complete_skips || apply blank_line_break).
    simpl. by rewrite reverse_cons.
  - cbn [map]. rewrite Join_cons by done. rewrite !str_app_assoc, Hkey, Hv by (done || lia).
    change (scan (complete (sanitize v) (FObject acc (sanitize_string k) :: stk) d) ("," +:+ ?x)) with
      (scan (MkScanner BeginString
        (FObject ((sanitize_string k, sanitize v) :: acc) "" :: stk) d) x).
    rewrite scan_blank by (done || apply blank_line_break).
    cbn [map] in IH, Hd. rewrite IH by (auto || lia). by rewrite reverse_cons, <- app_assoc.
Qed.

Lemma encode_indent_first lvl v :
  numbers_ok v = true → ∃ a t, encode_indent lvl v = String a t ∧ starts_value a = true.
Proof.
  intros Hok. destruct v as [|b|t|s|[|e es]|[|m ms]]; try (by apply encode_first); eexists _, _; by split.
Qed.

Lemma scan_or_empty_first a t stk d :
  starts_value a = true →
  scan (MkScanner BeginValueOrEmpty stk d) (String a t) = scan (MkScanner BeginValue stk d) (String a t).
Proof.
  unfold starts_value. intros Ha. go_bool. cbn [scan step sc_mode]. unfold begin_value.
  by repeat match goal with H : _ a = false |- _ => rewrite H | H : byte_is a _ = false |- _ => rewrite H; clear H end.
Qed.

Lemma scan_open (open : string) m f stk d lvl x :
  (∀ t, scan (MkScanner BeginValue stk d) (open +:+ t) = push m f (MkScanner BeginValue stk d) ≫= λ s', scan s' t) →
  (d + 1 ≤ maxNestingDepth)%Z → skips (MkScanner m [] 0) = true →
  scan (MkScanner BeginValue stk d) (open +:+ line_break lvl +:+ x) = scan (MkScanner m (f :: stk) (d + 1)) x.
Proof.
  intros Hopen Hd Hm. rewrite Hopen, push_ok by done. cbn [mbind option_bind sc_stack sc_depth].
  apply scan_blank; [done|apply blank_line_break].
Qed.

Lemma reads_indented_array es : Forall reads_indented es → reads_indented (JArray es).
Proof.
  intros Hes lvl stk d rest Hok Hd Hrest. destruct es as [|e es].
  { change (encode_indent lvl (JArray [])) with (encode (JArray [])). by apply (all_read_back (JArray [])). }
  cbn [encode_indent]. rewrite !str_app_assoc. cbn [numbers_ok forallb] in Hok. cbn [depth] in Hd.
  rewrite (scan_open "[" BeginValueOrEmpty (FArray []));
    [|done|pose proof (max_list_nonneg (map depth (e :: es))); lia|done].
  assert (∃ a t, Join (map (encode_indent (S lvl)) (e :: es)) ("," +:+ line_break (S lvl))
      +:+ line_break lvl +:+ "]" +:+ rest = String a t ∧ starts_value a = true) as (a & t & Heq & Ha).
  { apply andb_true_iff in Hok as [Hok1 _]. destruct (encode_indent_first (S lvl) e Hok1) as (a & t & He & Ha).
    destruct es as [|e2 es]; cbn [map].
    - cbn [Join]. rewrite He, string_app_cons. eauto.
    - rewrite Join_cons by done. rewrite He, !string_app_cons. eauto. }
  rewrite Heq, scan_or_empty_first by done. rewrite <-Heq.
  rewrite scan_indented_elems by (done || lia). by replace (d + 1 - 1)%Z with d by lia.
Qed.

Lemma reads_indented_object ms : Forall (λ kv, reads_indented kv.2) ms → reads_indented (JObject ms).
Proof.
  intros Hms lvl stk d rest Hok Hd Hrest. destruct ms as [|m ms].
  { change (encode_indent lvl (JObject [])) with (encode (JObject [])). by apply (all_read_back (JObject [])). }
  cbn [encode_indent]. rewrite !str_app_assoc. cbn [numbers_ok] in Hok. cbn [depth] in Hd.
  change (map (λ kv, quote kv.1 +:+ ": " +:+ encode_indent (S lvl) kv.2) (m :: ms))
    with (map (indent_member (S lvl)) (m :: ms)).
  change (sanitize (JObject (m :: ms))) with (JObject (map sanitize_member (m :: ms))).
  rewrite (scan_open "{" BeginStringOrEmpty (FObject [] ""));
    [|done|pose proof (max_list_nonneg (map (λ kv, depth kv.2) (m :: ms))); lia|done].
  rewrite scan_indented_members by (auto || lia). by replace (d + 1 - 1)%Z with d by lia.
Qed.

Lemma all_read_indented v : reads_indented v.
Proof.
  induction v using json_nested_ind; auto using reads_indented_array, reads_indented_object;
    intros lvl stk d rest; apply all_read_back.
Qed.

(** What the command line prints reads back as the value. *)
Lemma Encode_parse v :
  numbers_ok v = true → (depth v ≤ maxNestingDepth)%Z → json_parse (Encode v) = Some (sanitize v).
Proof.
  intros Hok Hd. unfold json_parse, Encode.
  rewrite (all_read_indented v) by (done || lia).
  rewrite <-(str_app_nil_r (byte1 newline)), scan_blank by (apply complete_skips || done). done.
Qed.
