(* ===== verification/GoURL.v ===== *)
(** * URLs and paths (net/url, path)

    Percent encoding, query strings and the cleaning of paths, as the
    standard library defines them. *)

From S2P Require Import Prelude GoStrings GoText Json JsonEncode.
From stdpp Require Import options.

(** ** Percent encoding *)

(** [url.PathEscape]: a byte of a path segment stays or is percent-encoded. *)
Definition segment_byte (a : ascii) : bool :=
  unreserved a || byte_is a "$" || byte_is a "&" || byte_is a "+" || byte_is a ":" || byte_is a "="
  || byte_is a "@".

Definition percent (a : ascii) : string :=
  let n := N_of_ascii a in
  String "%"%char (byte2 (hex_digit (n / 16)%N) (hex_digit (n mod 16)%N)).

Definition escape_byte (a : ascii) : string := if segment_byte a then byte1 a else percent a.

Fixpoint PathEscape (s : string) : string :=
  match s with "" => "" | String a s' => escape_byte a +:+ PathEscape s' end.

(** [url.PathUnescape]. *)
Fixpoint PathUnescape (s : string) : option string :=
  match s with
  | "" => Some ""
  | String a s' =>
      if byte_is a "%" then
        match s' with
        | String h (String l s'') =>
            h ← hex_value h; l ← hex_value l; t ← PathUnescape s'';
            Some (String (ascii_of_N (16 * h + l)) t)
        | _ => None
        end
      else t ← PathUnescape s'; Some (String a t)
  end.

(** [url.QueryUnescape]: a plus is a space. *)
Fixpoint QueryUnescape (s : string) : option string :=
  match s with
  | "" => Some ""
  | String a s' =>
      if byte_is a "%" then
        match s' with
        | String h (String l s'') =>
            h ← hex_value h; l ← hex_value l; t ← QueryUnescape s'';
            Some (String (ascii_of_N (16 * h + l)) t)
        | _ => None
        end
      else t ← QueryUnescape s'; Some (String (if byte_is a "+" then " "%char else a) t)
  end.

(** ** Query strings *)

(** [url.Values]. *)
Definition Values : Type := gmap string (list string).

Definition add_value (m : Values) (key value : string) : Values :=
  <[key := default [] (m !! key) ++ [value]]> m.

(** [parseQuery]; a pair that cannot be decoded is passed over. *)
Definition parse_pair (m : Values) (pair : string) : Values :=
  if byte_in ";"%char pair then m
  else if bool_decide (pair = "") then m
  else
    let '(key, value, _) := Cut pair "=" in
    match QueryUnescape key, QueryUnescape value with
    | Some key, Some value => add_value m key value
    | _, _ => m
    end.

(** [URL.Query]. *)
Definition Query (rawQuery : string) : Values := foldl parse_pair ∅ (Split rawQuery "&"%char).

(** ** Paths *)

(** The elements of a rooted path that [path.Clean] leaves, last first. *)
Definition clean_step (acc : list string) (seg : string) : list string :=
  if bool_decide (seg = "") || bool_decide (seg = ".") then acc
  else if bool_decide (seg = "..") then tail acc
  else seg :: acc.

(** [path.Clean] of a rooted path. *)
Definition Clean (p : string) : string :=
  "/" +:+ Join (reverse (foldl clean_step [] (Split p "/"%char))) "/".

(** net/http's [cleanPath]: a trailing slash stays. *)
Definition cleanPath (p : string) : string :=
  if bool_decide (p = "") then "/"
  else
    let p := if HasPrefix p "/" then p else "/" +:+ p in
    let np := Clean p in
    if HasSuffix p "/" && bool_decide (np ≠ "/") then np +:+ "/" else np.

(** ** Lemmas *)

Lemma percent_unescape a t : PathUnescape (percent a +:+ t) = (u ← PathUnescape t; Some (String a u)).
Proof.
  assert (∃ h l, percent a = String "%"%char (byte2 h l) ∧
    (h' ← hex_value h; l' ← hex_value l; Some (ascii_of_N (16 * h' + l')%N)) = Some a) as (h & l & -> & Hhl).
  { eexists _, _. split; [done|]. by destruct a as [[] [] [] [] [] [] [] []]. }
  change (String "%"%char (byte2 h l) +:+ t) with (String "%"%char (String h (String l t))).
  cbn [PathUnescape]. change (byte_is "%" "%") with true. cbn iota.
  destruct (hex_value h) as [h'|]; [|done]. destruct (hex_value l) as [l'|]; [|done].
  cbn [mbind option_bind] in Hhl |- *. injection Hhl as ->. done.
Qed.

Lemma byte1_unescape a t : a ≠ "%"%char → PathUnescape (byte1 a +:+ t) = (u ← PathUnescape t; Some (String a u)).
Proof.
  intros Ha. change (byte1 a +:+ t) with (String a t). cbn [PathUnescape].
  assert (byte_is a "%" = false) as ->; [|done].
  unfold byte_is. apply String.eqb_neq. by intros [= ->].
Qed.

Lemma PathEscape_unescape s : PathUnescape (PathEscape s) = Some s.
Proof.
  induction s as [|a s IH]; [done|]. cbn [PathEscape]. unfold escape_byte.
  destruct (segment_byte a) eqn:Ha; [rewrite byte1_unescape by (by intros ->)|rewrite percent_unescape];
    by rewrite IH.
Qed.

Lemma PathEscape_no_slash s : byte_in "/" (PathEscape s) = false.
Proof.
  assert (∀ a, byte_in "/" (escape_byte a) = false) as Ha.
  { intros a. by destruct a as [[] [] [] [] [] [] [] []]. }
  induction s as [|a s IH]; [done|]. cbn [PathEscape]. by rewrite byte_in_app, Ha, IH.
Qed.

(** A slash is never part of an escape. *)
Lemma PathUnescape_slash s t u : PathUnescape (s +:+ String "/"%char t) = Some u →
  ∃ a b, PathUnescape s = Some a ∧ PathUnescape t = Some b ∧ u = a +:+ String "/"%char b.
Proof.
  revert u. induction s as [s IH] using (induction_ltof1 _ String.length). unfold ltof in IH. intros u.
  destruct s as [|c s].
  { change ("" +:+ String "/"%char t) with (String "/"%char t). cbn [PathUnescape].
    change (byte_is "/" "%") with false. cbn iota. destruct (PathUnescape t) as [b|]; [|done]. intros [= <-]. by exists "", b. }
  change (String c s +:+ String "/"%char t) with (String c (s +:+ String "/"%char t)). cbn [PathUnescape].
  destruct (byte_is c "%").
  - destruct s as [|h [|l s]].
    + change ("" +:+ String "/"%char t) with (String "/"%char t). by destruct t as [|l t].
    + change (String h "" +:+ String "/"%char t) with (String h (String "/"%char t)).
      cbv beta iota. by destruct (hex_value h).
    + change (String h (String l s) +:+ String "/"%char t) with (String h (String l (s +:+ String "/"%char t))).
      cbv beta iota. destruct (hex_value h) as [hv|]; [|done]. destruct (hex_value l) as [lv|]; [|done]. cbn [mbind option_bind].
      destruct (PathUnescape (s +:+ String "/"%char t)) as [v|] eqn:E; [|done]. intros [= <-].
      destruct (IH s) with v as (a & b & -> & Hb & ->); [simpl; lia|done|].
      by exists (String (ascii_of_N (16 * hv + lv)) a), b.
  - destruct (PathUnescape (s +:+ String "/"%char t)) as [v|] eqn:E; [|done]. intros [= <-].
    destruct (IH s) with v as (a & b & -> & Hb & ->); [simpl; lia|done|]. by exists (String c a), b.
Qed.
