(* ===== verification/GoMux.v ===== *)
(** * Requests and the request multiplexer (net/http)

    [HttpRequest]: what the handlers of the engine read of a request.
    [ServeMux]: the multiplexer of the standard library with patterns of a
    method and a path, in which a segment [{name}] stands for any one
    segment. Segments are compared unescaped, a literal goes before a
    wildcard, a path that is not clean is redirected to the clean one, and
    a GET pattern serves HEAD. No pattern of the engine has a host, a
    trailing slash or a wildcard for the rest of the path. *)

From S2P Require Import Prelude GoStrings GoText Json JsonEncode GoURL.
From stdpp Require Import options.

Record HttpRequest := MkHttpRequest {
  rq_Method : string;
  rq_Path : string;              (* URL.Path *)
  rq_EscapedPath : string;       (* URL.EscapedPath() *)
  rq_RawQuery : string;          (* URL.RawQuery *)
  rq_Authorization : string;     (* Header.Get("Authorization") *)
  rq_Origin : string;            (* Header.Get("Origin") *)
  rq_LastEventID : option (list string);   (* Header["Last-Event-Id"] *)
  rq_Body : string;
}.

(** Both paths are of one URL. *)
Definition url_ok (r : HttpRequest) : Prop := PathUnescape (rq_EscapedPath r) = Some (rq_Path r).

(** ** Patterns *)

Inductive pseg := PLit (s : string) | PWild (name : string).

Record pattern := MkPattern { p_method : string; p_segs : list pseg }.

#[global] Instance pseg_eq_dec : EqDecision pseg.
Proof. solve_decision. Defined.
#[global] Instance pattern_eq_dec : EqDecision pattern.
Proof. solve_decision. Defined.

Definition parse_segment (s : string) : pseg :=
  if HasPrefix s "{" && HasSuffix s "}" then PWild (str_take (String.length s - 2) (str_drop 1 s)) else PLit s.

(** [parsePattern]. *)
Definition parsePattern (s : string) : pattern :=
  let '(method, path, _) := Cut s " " in
  MkPattern method (parse_segment <$> Split (str_drop 1 path) "/"%char).

Definition wild_names (segs : list pseg) : list string :=
  omap (λ s, match s with PWild n => Some n | PLit _ => None end) segs.

(** ** Matching *)

(** A segment that cannot be unescaped is taken as it is. *)
Definition pathUnescape (s : string) : string := default s (PathUnescape s).

(** The segments [firstSegment] cuts off one after the other: a trailing
    slash is a segment of its own. *)
Fixpoint slash_last (segs : list string) : list string :=
  match segs with
  | [] => []
  | [s] => [if bool_decide (s = "") then "/" else pathUnescape s]
  | s :: segs' => pathUnescape s :: slash_last segs'
  end.

Definition path_segments (path : string) : list string := slash_last (Split (str_drop 1 path) "/"%char).

Section mux.
Context {H : Type}.

(** The routing tree below a node: what is left of each pattern. *)
Definition below_literal (seg : string) (r : list pseg * (pattern * H)) : option (list pseg * (pattern * H)) :=
  match r with (PLit s :: rest, h) => if bool_decide (s = seg) then Some (rest, h) else None | _ => None end.

Definition below_wild (r : list pseg * (pattern * H)) : option (list pseg * (pattern * H)) :=
  match r with (PWild _ :: rest, h) => Some (rest, h) | _ => None end.

Definition at_end (r : list pseg * (pattern * H)) : option (pattern * H) :=
  match r with ([], h) => Some h | _ => None end.

(** [matchPath]. *)
Fixpoint matchPath (rs : list (list pseg * (pattern * H))) (segs : list string) (matches : list string) :
    option (pattern * H * list string) :=
  match segs with
  | [] => (λ h, (h, matches)) <$> head (omap at_end rs)
  | seg :: segs' =>
      match matchPath (omap (below_literal seg) rs) segs' matches with
      | Some m => Some m
      | None => if bool_decide (seg = "/") then None
                else matchPath (omap below_wild rs) segs' (matches ++ [seg])
      end
  end.

Definition routes_of (method : string) (rs : list (pattern * H)) : list (list pseg * (pattern * H)) :=
  (λ r, (p_segs r.1, r)) <$> filter (λ r, p_method r.1 = method) rs.

(** [matchMethodAndPath]. *)
Definition match_request (rs : list (pattern * H)) (method path : string) : option (pattern * H * list string) :=
  match matchPath (routes_of method rs) (path_segments path) [] with
  | Some m => Some m
  | None => if bool_decide (method = "HEAD") then matchPath (routes_of "GET" rs) (path_segments path) [] else None
  end.

(** [matchingMethods]. *)
Definition matchingMethods (rs : list (pattern * H)) (path : string) : list string :=
  let ms := filter (λ m, is_Some (matchPath (routes_of m rs) (path_segments path) []))
              (remove_dups ((λ r, p_method r.1) <$> rs)) in
  merge_sort String.le (if bool_decide ("GET" ∈ ms) then "HEAD" :: ms else ms).

Inductive mux_result :=
  | MuxHandler (h : H) (vars : list (string * string))
  | MuxRedirect (path : string)
  | MuxMethodNotAllowed (allow : list string)
  | MuxNotFound.

(** [findHandler]. *)
Definition findHandler (rs : list (pattern * H)) (r : HttpRequest) : mux_result :=
  let escaped := rq_EscapedPath r in
  let path := if bool_decide (rq_Method r = "CONNECT") then escaped else cleanPath escaped in
  if bool_decide (path ≠ escaped) then MuxRedirect path
  else
    match match_request rs (rq_Method r) path with
    | Some (p, h, matches) => MuxHandler h (zip (wild_names (p_segs p)) matches)
    | None =>
        match matchingMethods rs path with
        | [] => MuxNotFound
        | allow => MuxMethodNotAllowed allow
        end
    end.

(** [Request.PathValue]. *)
Definition PathValue (vars : list (string * string)) (name : string) : string :=
  default "" (snd <$> find (λ v, String.eqb v.1 name) vars).

(** ** A match is a pattern that fits *)

(** The segments fit the pattern, with these values for its wildcards. *)
Inductive fits : list pseg → list string → list string → Prop :=
  | fits_nil : fits [] [] []
  | fits_lit s ps segs vs : fits ps segs vs → fits (PLit s :: ps) (s :: segs) vs
  | fits_wild n s ps segs vs : s ≠ "/" → fits ps segs vs → fits (PWild n :: ps) (s :: segs) (s :: vs).

Lemma matchPath_fits rs segs matches ph out : matchPath rs segs matches = Some (ph, out) →
  ∃ ps vs, (ps, ph) ∈ rs ∧ fits ps segs vs ∧ out = matches ++ vs.
Proof.
  revert rs matches. induction segs as [|seg segs IH]; intros rs matches; cbn [matchPath].
  - destruct (head (omap at_end rs)) as [h|] eqn:E; [|done]. intros [= -> <-].
    apply head_Some_elem_of, list_elem_of_omap in E as ([[|] h'] & Hin & [= ->]).
    exists [], []. split_and!; [done|constructor|by rewrite app_nil_r].
  - destruct (matchPath (omap (below_literal seg) rs) segs matches) as [m|] eqn:E.
    + intros [= ->]. apply IH in E as (ps & vs & ([qs h] & Hin & Hb)%list_elem_of_omap & Hf & ->).
      unfold below_literal in Hb. destruct qs as [|[s|n] qs]; try done. case_bool_decide; [|done].
      injection Hb as -> ->. subst s. exists (PLit seg :: ps), vs. split_and!; [done|by constructor|done].
    + case_bool_decide as Hs; [done|]. intros Hm.
      apply IH in Hm as (ps & vs & ([qs h] & Hin & Hb)%list_elem_of_omap & Hf & ->).
      unfold below_wild in Hb. destruct qs as [|[s|n] qs]; try done. injection Hb as -> ->.
      exists (PWild n :: ps), (seg :: vs). split_and!; [done|by constructor|by rewrite <- (assoc_L (++))].
Qed.
Lemma matchPath_complete (rs : list (list pseg * (pattern * H))) ps ph segs vs matches :
  (ps, ph) ∈ rs → fits ps segs vs → is_Some (matchPath rs segs matches).
Proof.
  intros Hin Hf. revert rs matches Hin. induction Hf as [|s ps segs vs Hf IH|n s ps segs vs Hs Hf IH]; intros rs matches Hin;
    cbn [matchPath].
  - destruct (head (omap at_end rs)) as [h|] eqn:E; [by eexists|].
    apply head_None in E. exfalso. apply (not_elem_of_nil ph). rewrite <- E. apply list_elem_of_omap. by exists ([], ph).
  - edestruct (IH (omap (below_literal s) rs) matches) as [m ->]; [|by eexists].
    apply list_elem_of_omap. exists (PLit s :: ps, ph). split; [done|]. simpl. by rewrite bool_decide_eq_true_2.
  - destruct (matchPath (omap (below_literal s) rs) segs matches); [by eexists|].
    rewrite bool_decide_eq_false_2 by done. apply IH. apply list_elem_of_omap. by exists (PWild n :: ps, ph).
Qed.

Lemma match_request_fits rs method path p h out : match_request rs method path = Some (p, h, out) →
  (p, h) ∈ rs ∧ fits (p_segs p) (path_segments path) out ∧
  (p_method p = method ∨ method = "HEAD" ∧ p_method p = "GET").
Proof.
  assert (∀ m, matchPath (routes_of m rs) (path_segments path) [] = Some (p, h, out) →
    (p, h) ∈ rs ∧ fits (p_segs p) (path_segments path) out ∧ p_method p = m) as Hgen.
  { intros m (ps & vs & (r & [= -> <-] & [Hm Hr]%list_elem_of_filter)%list_elem_of_fmap & Hf & ->)%matchPath_fits. done. }
  unfold match_request. destruct (matchPath (routes_of method rs) _ _) as [m|] eqn:E.
  - intros [= ->]. apply Hgen in E as (? & ? & ?). auto.
  - case_bool_decide; [|done]. intros (? & ? & ?)%Hgen. auto.
Qed.
End mux.

(** ** Routed paths *)

Lemma HasPrefix_slash s : HasPrefix s "/" = true → s = "/" +:+ str_drop 1 s.
Proof. by intros [t ->]%HasPrefix_spec. Qed.

Lemma cleanPath_rooted p : cleanPath p = p → HasPrefix p "/" = true.
Proof.
  intros Hp. rewrite <- Hp. unfold cleanPath. case_bool_decide; [done|]. by destruct (_ && _).
Qed.

(** The segments of an escaped path, unescaped one by one, are those of the
    path. *)
Lemma unescape_segments raws u : raws ≠ [] → PathUnescape (Join raws "/") = Some u →
  u = Join (pathUnescape <$> raws) "/".
Proof.
  revert u. induction raws as [|s raws IH]; [done|]. intros u _ Hu. destruct raws as [|s2 raws].
  { simpl in *. unfold pathUnescape. by rewrite Hu. }
  rewrite Join_cons in Hu by done. rewrite fmap_cons, Join_cons by done.
  apply (PathUnescape_slash s) in Hu as (a & b & Ha & Hb & ->).
  unfold pathUnescape at 1. rewrite Ha. simpl. do 2 f_equal. by apply IH.
Qed.

Lemma slash_last_plain raws : "/" ∉ slash_last raws → slash_last raws = pathUnescape <$> raws.
Proof.
  induction raws as [|s raws IH]; [done|]. destruct raws as [|s2 raws].
  - simpl. case_bool_decide; [set_solver|done].
  - change (slash_last (s :: s2 :: raws)) with (pathUnescape s :: slash_last (s2 :: raws)).
    rewrite fmap_cons. intros Hn. f_equal. apply IH. set_solver.
Qed.

(** Patterns as the engine registers them: no literal is a slash. *)
Definition segment_pattern (s : pseg) : bool := match s with PLit l => negb (String.eqb l "/") | PWild _ => true end.

Lemma fits_no_slash ps segs vs : forallb segment_pattern ps = true → fits ps segs vs → "/" ∉ segs.
Proof.
  intros Hps Hf. induction Hf as [|s ps segs vs Hf IH|n s ps segs vs Hs Hf IH]; simpl in *; go_bool.
  - apply not_elem_of_nil.
  - apply not_elem_of_cons. split; [|by apply IH]. intros <-. done.
  - apply not_elem_of_cons. split; [done|by apply IH].
Qed.

Lemma fits_path ps vs escaped path : forallb segment_pattern ps = true → HasPrefix escaped "/" = true →
  PathUnescape escaped = Some path → fits ps (path_segments escaped) vs →
  path = "/" +:+ Join (path_segments escaped) "/".
Proof.
  intros Hps Hroot Hu Hf. pose proof (fits_no_slash _ _ _ Hps Hf) as Hn.
  unfold path_segments in *. rewrite (slash_last_plain _ Hn).
  rewrite (HasPrefix_slash _ Hroot) in Hu. apply (PathUnescape_slash "") in Hu as (a & b & [= <-] & Hb & ->).
  change ("" +:+ String "/"%char b) with ("/" +:+ b). f_equal.
  apply unescape_segments; [apply Split_ne|].
  by rewrite (Join_Split _ "/"%char).
Qed.

(** ** The path of a pattern is routed to it *)

(** A segment that [path.Clean] keeps. *)
Definition raw_segment (e : string) : bool :=
  negb (String.eqb e "") && negb (String.eqb e ".") && negb (String.eqb e "..") && negb (byte_in "/" e).

Definition rooted (raws : list string) : string := "/" +:+ Join raws "/".

Lemma raw_segment_spec e : raw_segment e = true ↔ e ≠ "" ∧ e ≠ "." ∧ e ≠ ".." ∧ byte_in "/" e = false.
Proof. unfold raw_segment. rewrite !andb_true_iff, !negb_true_iff, !String.eqb_neq. naive_solver. Qed.

Lemma Split_Join raws : raws ≠ [] → forallb raw_segment raws = true → Split (Join raws "/") "/"%char = raws.
Proof.
  induction raws as [|e raws IH]; [done|]. intros _ Hr. simpl in Hr.
  apply andb_true_iff in Hr as [(_ & _ & _ & He)%raw_segment_spec Hr]. destruct raws as [|e2 raws].
  - by apply Split_byte_free.
  - rewrite Join_cons, Split_app by done. f_equal. by apply IH.
Qed.

Lemma clean_kept raws acc : forallb raw_segment raws = true → foldl clean_step acc raws = reverse raws ++ acc.
Proof.
  revert acc. induction raws as [|e raws IH]; intros acc; [done|]. simpl.
  intros [(H1 & H2 & H3 & _)%raw_segment_spec Hr]%andb_true_iff.
  rewrite IH by done. unfold clean_step at 1. rewrite !bool_decide_eq_false_2 by done. simpl.
  by rewrite reverse_cons, <- (assoc_L (++)).
Qed.

Lemma last_Split t c : last (Split (t +:+ String c "") c) = Some "".
Proof.
  induction t as [|a t IH].
  - change ("" +:+ String c "") with (String c ""). cbn [Split]. by rewrite bool_decide_eq_true_2.
  - change (String a t +:+ String c "") with (String a (t +:+ String c "")). cbn [Split].
    case_bool_decide.
    + by rewrite last_cons, IH.
    + destruct (Split (t +:+ String c "") c) as [|p ps] eqn:E; [done|].
      destruct ps as [|p2 ps]; [|by rewrite last_cons_cons in IH |- *].
      simpl in IH. injection IH as ->. exfalso. apply (f_equal (λ l, Join l (String c ""))) in E.
      rewrite Join_Split in E. by destruct t.
Qed.

Lemma Join_suffix raws : raws ≠ [] → forallb raw_segment raws = true → HasSuffix (rooted raws) "/" = false.
Proof.
  intros Hne Hr. destruct (HasSuffix _ _) eqn:E; [|done]. exfalso.
  unfold HasSuffix in E. apply andb_true_iff in E as [_ E%bool_decide_eq_true].
  pose proof (str_take_drop (String.length (rooted raws) - 1) (rooted raws)) as Ht.
  change (String.length "/") with 1 in E. rewrite E in Ht.
  assert (Split (rooted raws) "/" = "" :: raws) as Hs.
  { unfold rooted. change ("/" +:+ Join raws "/") with ("" +:+ "/" +:+ Join raws "/").
    rewrite Split_app by done. by rewrite Split_Join. }
  pose proof (last_Split (str_take (String.length (rooted raws) - 1) (rooted raws)) "/"%char) as Hl.
  rewrite Ht, Hs, last_cons in Hl. destruct (last raws) as [e|] eqn:El.
  - injection Hl as ->. apply last_Some_elem_of, list_elem_of_In in El.
    rewrite forallb_forall in Hr. by apply Hr in El.
  - by apply last_None in El.
Qed.

Lemma cleanPath_rooted_segments raws : raws ≠ [] → forallb raw_segment raws = true →
  cleanPath (rooted raws) = rooted raws.
Proof.
  intros Hne Hr. unfold cleanPath. rewrite bool_decide_eq_false_2 by done.
  change (HasPrefix (rooted raws) "/") with true. cbv iota zeta. rewrite Join_suffix by done. cbn [andb].
  unfold Clean, rooted. change ("/" +:+ Join raws "/") with ("" +:+ "/" +:+ Join raws "/").
  rewrite Split_app, Split_Join by done. change (foldl clean_step [] ("" :: raws)) with (foldl clean_step [] raws).
  by rewrite clean_kept, app_nil_r, reverse_involutive.
Qed.

Lemma path_segments_rooted raws : raws ≠ [] → forallb raw_segment raws = true →
  path_segments (rooted raws) = pathUnescape <$> raws.
Proof.
  intros Hne Hr. unfold path_segments, rooted. change (str_drop 1 ("/" +:+ Join raws "/")) with (Join raws "/").
  rewrite Split_Join by done. clear Hne. induction raws as [|e raws IH]; [done|]. simpl in Hr.
  apply andb_true_iff in Hr as [(He & _)%raw_segment_spec Hr]. destruct raws as [|e2 raws].
  - simpl. by rewrite bool_decide_eq_false_2.
  - rewrite fmap_cons, <- IH by done. done.
Qed.

(** Two patterns that some path fits. *)
Fixpoint overlap (ps qs : list pseg) : bool :=
  match ps, qs with
  | [], [] => true
  | PLit s :: ps, PLit t :: qs => String.eqb s t && overlap ps qs
  | _ :: ps, _ :: qs => overlap ps qs
  | _, _ => false
  end.

Lemma fits_overlap ps qs segs vs us : fits ps segs vs → fits qs segs us → overlap ps qs = true.
Proof.
  intros Hf. revert qs us. induction Hf; intros qs us Hq; inversion Hq; subst; simpl; try done; eauto.
  rewrite String.eqb_refl. eauto.
Qed.

Lemma fits_values ps segs vs us : fits ps segs vs → fits ps segs us → vs = us.
Proof. intros Hf. revert us. induction Hf; intros us Hu; inversion Hu; subst; [done|eauto|f_equal; eauto]. Qed.

Section routing.
Context {H : Type} `{EqDecision H}.

(** No path of one method fits two patterns, and no pattern is for HEAD or
    CONNECT. *)
Definition routes_distinct (rs : list (pattern * H)) : bool :=
  forallb (λ r1, negb (String.eqb (p_method r1.1) "HEAD") && negb (String.eqb (p_method r1.1) "CONNECT") &&
    forallb (λ r2, negb (String.eqb (p_method r1.1) (p_method r2.1)) || negb (overlap (p_segs r1.1) (p_segs r2.1))
                   || bool_decide (r1 = r2)) rs) rs.

Lemma routes_distinct_spec rs r1 : routes_distinct rs = true → r1 ∈ rs →
  p_method r1.1 ≠ "HEAD" ∧ p_method r1.1 ≠ "CONNECT" ∧
  ∀ r2, r2 ∈ rs → p_method r1.1 = p_method r2.1 → overlap (p_segs r1.1) (p_segs r2.1) = true → r1 = r2.
Proof.
  unfold routes_distinct. rewrite forallb_forall. intros Hd Hr.
  apply list_elem_of_In, Hd in Hr as [[H1 H2]%andb_true_iff H3]%andb_true_iff.
  apply negb_true_iff, String.eqb_neq in H1, H2. split_and!; [done..|].
  intros r2 Hin Hm Ho. rewrite forallb_forall in H3. specialize (H3 r2 ltac:(by apply list_elem_of_In)).
  rewrite Hm, String.eqb_refl, Ho in H3. by apply bool_decide_eq_true in H3.
Qed.

Lemma findHandler_reaches rs p (h : H) raws vs r :
  routes_distinct rs = true → (p, h) ∈ rs →
  raws ≠ [] → forallb raw_segment raws = true → fits (p_segs p) (pathUnescape <$> raws) vs →
  rq_Method r = p_method p → rq_EscapedPath r = rooted raws →
  findHandler rs r = MuxHandler h (zip (wild_names (p_segs p)) vs).
Proof.
  intros Hd Hin Hne Hraw Hf Hm Hp. destruct (routes_distinct_spec _ _ Hd Hin) as (Hhead & Hconn & Huniq).
  unfold findHandler. rewrite Hp, Hm, (bool_decide_eq_false_2 (_ = "CONNECT")) by done. cbv zeta.
  rewrite cleanPath_rooted_segments, (bool_decide_eq_false_2 (rooted raws ≠ _)) by naive_solver.
  assert (is_Some (match_request rs (p_method p) (rooted raws))) as [[[p' h'] out] Hmr].
  { unfold match_request. rewrite path_segments_rooted by done.
    edestruct (matchPath_complete (routes_of (p_method p) rs) (p_segs p) (p, h)) as [m Hmp]; [|exact Hf|by rewrite Hmp].
    apply list_elem_of_fmap. exists (p, h). split; [done|]. by apply list_elem_of_filter. }
  rewrite Hmr. apply match_request_fits in Hmr as (Hin' & Hf' & Hm'). rewrite path_segments_rooted in Hf' by done.
  destruct Hm' as [Hm'|[? _]]; [|done].
  specialize (Huniq _ Hin' (eq_sym Hm') (fits_overlap _ _ _ _ _ Hf Hf')). injection Huniq as <- <-.
  by rewrite (fits_values _ _ _ _ Hf Hf').
Qed.
End routing.
