(* ===== verification/GoTime.v ===== *)
(** * Calendar time and RFC 3339

    [time.Time] as encoding/json writes it ([MarshalJSON]: strict RFC 3339
    with nanoseconds) and as [time.Parse] reads it with the layout
    [time.RFC3339]: a fraction may follow the seconds although the layout
    has none, an hour may have one digit, a zone offset may be up to 24:60.
    A [Time] is an instant, so that writing in UTC loses nothing. *)

From S2P Require Import Prelude GoStrings GoText Json.
From stdpp Require Import options.

Open Scope Z_scope.

(** ** The proleptic Gregorian calendar *)

Definition isLeap (year : Z) : bool :=
  bool_decide (year mod 4 = 0) && (negb (bool_decide (year mod 100 = 0)) || bool_decide (year mod 400 = 0)).

(** Days before each month in a common year; [daysBefore]. *)
Definition daysBefore (leap : bool) (month : Z) : Z :=
  let extra := if leap then 1 else 0 in
  if month <=? 1 then 0
  else if month =? 2 then 31
  else if month =? 3 then 59 + extra
  else if month =? 4 then 90 + extra
  else if month =? 5 then 120 + extra
  else if month =? 6 then 151 + extra
  else if month =? 7 then 181 + extra
  else if month =? 8 then 212 + extra
  else if month =? 9 then 243 + extra
  else if month =? 10 then 273 + extra
  else if month =? 11 then 304 + extra
  else if month =? 12 then 334 + extra
  else 365 + extra.

Definition daysIn (month year : Z) : Z :=
  daysBefore (isLeap year) (month + 1) - daysBefore (isLeap year) month.

(** Days from 1 January of year 1 to 1 January of [year]. *)
Definition daysSinceEpoch (year : Z) : Z :=
  let p := year - 1 in 365 * p + p / 4 - p / 100 + p / 400.

Definition day_seconds : Z := 86400.

(** [time.Date] in UTC, for fields in range. *)
Definition Date (year month day hour min sec nsec : Z) : Time :=
  ((daysSinceEpoch year + daysBefore (isLeap year) month + (day - 1)) * day_seconds
   + hour * 3600 + min * 60 + sec) * Second + nsec.

(** Year and day of the year of a day number: cycles of 400, 100, 4 and 1
    years, where the last year of a 100 and of a 4 year cycle may be longer
    by a day. *)
Definition year_yday (days : Z) : Z * Z :=
  let n400 := days / 146097 in
  let d := days mod 146097 in
  let n100 := Z.min 3 (d / 36524) in
  let d := d - 36524 * n100 in
  let n4 := d / 1461 in
  let d := d - 1461 * n4 in
  let n1 := Z.min 3 (d / 365) in
  (400 * n400 + 100 * n100 + 4 * n4 + n1 + 1, d - 365 * n1).

Fixpoint month_search (leap : bool) (yday : Z) (fuel : nat) : Z :=
  match fuel with
  | O => 1
  | S fuel' =>
      let month := Z.of_nat (S fuel) in
      if daysBefore leap month <=? yday then month else month_search leap yday fuel'
  end.

Record Civil := MkCivil {
  c_year : Z; c_month : Z; c_day : Z; c_hour : Z; c_min : Z; c_sec : Z; c_nsec : Z;
}.

Definition civil (t : Time) : Civil :=
  let secs := t / Second in
  let days := secs / day_seconds in
  let sod := secs mod day_seconds in
  let '(year, yday) := year_yday days in
  let month := month_search (isLeap year) yday 11 in
  MkCivil year month (yday - daysBefore (isLeap year) month + 1)
    (sod / 3600) (sod / 60 mod 60) (sod mod 60) (t mod Second).

(** ** Writing: [appendFormatRFC3339] with nanoseconds, in UTC *)

Definition digit_char (n : Z) : ascii := ascii_of_N (Z.to_N (48 + n mod 10)).

(** [width] decimal digits, leading zeros kept. *)
Fixpoint fixed_digits (width : nat) (n : Z) : string :=
  match width with
  | O => ""
  | S width' => fixed_digits width' (n / 10) +:+ byte1 (digit_char n)
  end.

Definition format_fraction (nsec : Z) : string :=
  if bool_decide (nsec = 0) then "" else "." +:+ TrimRight (fixed_digits 9 nsec) "0"%char.

Definition format_civil (c : Civil) : string :=
  fixed_digits 4 (c_year c) +:+ "-" +:+ fixed_digits 2 (c_month c) +:+ "-"
  +:+ fixed_digits 2 (c_day c) +:+ "T" +:+ fixed_digits 2 (c_hour c) +:+ ":"
  +:+ fixed_digits 2 (c_min c) +:+ ":" +:+ fixed_digits 2 (c_sec c)
  +:+ format_fraction (c_nsec c) +:+ "Z".

(** [Time.MarshalJSON] refuses years outside [0, 9999]. *)
Definition format_rfc3339 (t : Time) : option string :=
  let c := civil t in
  if bool_decide (0 ≤ c_year c ≤ 9999) then Some (format_civil c) else None.

(** ** Reading: [time.Parse(time.RFC3339, value)] *)

Definition is_digit (a : ascii) : bool := byte_between 48 57 a.
Definition digit_val (a : ascii) : Z := Z.of_N (N_of_ascii a) - 48.

(** [getnum]: one digit, unless [fixed], or two. *)
Definition getnum (s : string) (fixed : bool) : option (Z * string) :=
  match s with
  | String a (String b s') =>
      if negb (is_digit a) then None
      else if is_digit b then Some (digit_val a * 10 + digit_val b, s')
      else if fixed then None else Some (digit_val a, String b s')
  | String a "" => if is_digit a && negb fixed then Some (digit_val a, "") else None
  | "" => None
  end.

Definition skip (s : string) (c : ascii) : option string :=
  match s with
  | String a s' => if bool_decide (a = c) then Some s' else None
  | "" => None
  end.

Definition get_year (s : string) : option (Z * string) :=
  '(hi, s1) ← getnum s true; '(lo, s2) ← getnum s1 true; Some (hi * 100 + lo, s2).

(** The digits at the front of a string. *)
Fixpoint span_digits (s : string) : string * string :=
  match s with
  | String a s' =>
      if is_digit a then let '(ds, rest) := span_digits s' in (String a ds, rest) else ("", s)
  | "" => ("", "")
  end.

(** [parseNanoseconds]: nine digits at most count, missing ones are zeros. *)
Definition fraction_value (ds : string) : Z :=
  default 0 (digits_value (str_take 9 (ds +:+ "000000000")) 0).

Definition get_fraction (s : string) : Z * string :=
  match s with
  | String c (String a s') =>
      if (byte_is c "." || byte_is c ",") && is_digit a then
        let '(ds, rest) := span_digits (String a s') in (fraction_value ds, rest)
      else (0, s)
  | _ => (0, s)
  end.

(** The zone: [Z], or an offset in seconds. *)
Definition get_zone (s : string) : option (Z * string) :=
  if HasPrefix s "Z" then Some (0, str_drop 1 s)
  else match s with
       | String sign (String h1 (String h2 (String c (String m1 (String m2 rest))))) =>
           if negb (byte_is c ":") then None
           else
             '(hr, _) ← getnum (byte2 h1 h2) true;
             '(mm, _) ← getnum (byte2 m1 m2) true;
             if bool_decide (24 < hr) || bool_decide (60 < mm) then None
             else if byte_is sign "+" then Some ((hr * 60 + mm) * 60, rest)
             else if byte_is sign "-" then Some (- ((hr * 60 + mm) * 60), rest)
             else None
       | _ => None
       end.

Definition parse_rfc3339 (value : string) : option Time :=
  '(year, v) ← get_year value;
  v ← skip v "-"%char; '(month, v) ← getnum v true;
  v ← skip v "-"%char; '(day, v) ← getnum v true;
  v ← skip v "T"%char; '(hour, v) ← getnum v false;
  v ← skip v ":"%char; '(min, v) ← getnum v true;
  v ← skip v ":"%char; '(sec, v) ← getnum v true;
  let '(nsec, v) := get_fraction v in
  '(offset, v) ← get_zone v;
  if bool_decide (1 ≤ month ≤ 12) && bool_decide (1 ≤ day ≤ daysIn month year)
     && bool_decide (hour < 24) && bool_decide (min < 60) && bool_decide (sec < 60)
     && bool_decide (v = "")
  then Some (Date year month day hour min sec nsec - offset * Second)
  else None.

(** ** The calendar is consistent *)

Lemma year_yday_spec days :
  let '(year, yday) := year_yday days in
  daysSinceEpoch year + yday = days ∧ 0 ≤ yday < 365 + (if isLeap year then 1 else 0).
Proof.
  unfold year_yday, daysSinceEpoch, isLeap.
  set (a := days / 146097). set (r := days mod 146097).
  assert (days = 146097 * a + r ∧ 0 ≤ r < 146097) as [Hdays Hr].
  { subst a r. pose proof (Z.div_mod days 146097). pose proof (Z.mod_pos_bound days 146097). lia. }
  clearbody a r. subst days.
  set (b := Z.min 3 (r / 36524)).
  assert (0 ≤ b ≤ 3 ∧ 0 ≤ r - 36524 * b ∧ (r - 36524 * b < 36524 ∨ b = 3 ∧ r - 36524 * b ≤ 36524)) as (Hb & Hr1 & Hr2).
  { subst b. Z.to_euclidean_division_equations. lia. }
  clearbody b. set (r1 := r - 36524 * b) in *.
  set (c := r1 / 1461).
  assert (0 ≤ c ≤ 24 ∧ 0 ≤ r1 - 1461 * c < 1461 ∧ (c = 24 → r1 - 1461 * c < 1460 ∨ b = 3)) as (Hc & Hr3 & Hr4).
  { subst c. Z.to_euclidean_division_equations. lia. }
  clearbody c. set (r2 := r1 - 1461 * c) in *.
  set (e := Z.min 3 (r2 / 365)).
  assert (0 ≤ e ≤ 3 ∧ 0 ≤ r2 - 365 * e ∧ (r2 - 365 * e < 365 ∨ e = 3 ∧ r2 = 1460)) as (He & Hr5 & Hr6).
  { subst e. Z.to_euclidean_division_equations. lia. }
  clearbody e.
  replace (400 * a + 100 * b + 4 * c + e + 1 - 1) with (400 * a + 100 * b + 4 * c + e) by lia.
  assert ((400 * a + 100 * b + 4 * c + e) / 4 = 100 * a + 25 * b + c) as ->
    by (Z.to_euclidean_division_equations; lia).
  assert ((400 * a + 100 * b + 4 * c + e) / 100 = 4 * a + b) as ->
    by (Z.to_euclidean_division_equations; lia).
  assert ((400 * a + 100 * b + 4 * c + e) / 400 = a) as ->
    by (Z.to_euclidean_division_equations; lia).
  split; [lia|]. split; [lia|].
  destruct Hr6 as [?|[-> Hr6]].
  { destruct (_ && _); lia. }
  rewrite bool_decide_eq_true_2 by (Z.to_euclidean_division_equations; lia). simpl.
  destruct (decide (c = 24)) as [->|Hc24].
  - destruct (Hr4 eq_refl) as [?| ->]; [lia|].
    rewrite (bool_decide_eq_true_2 (_ mod 400 = 0)) by (Z.to_euclidean_division_equations; lia).
    rewrite orb_true_r. lia.
  - replace ((400 * a + 100 * b + 4 * c + 3 + 1) mod 100) with (4 * c + 4)
      by (apply Z.mod_unique with (4 * a + b); lia).
    rewrite bool_decide_eq_false_2 by lia. simpl. lia.
Qed.

Lemma month_search_bounds leap yday fuel :
  let month := month_search leap yday fuel in
  1 ≤ month ≤ Z.of_nat fuel + 1 ∧
  (month = 1 ∨ daysBefore leap month ≤ yday) ∧
  (month ≤ Z.of_nat fuel → yday < daysBefore leap (month + 1)).
Proof.
  induction fuel as [|fuel IH]; cbn [month_search]; [lia|].
  destruct (Z.leb_spec (daysBefore leap (Z.of_nat (S (S fuel)))) yday) as [Hle|Hlt]; [lia|].
  destruct IH as (Hm & Hlow & Hhigh). split; [lia|]. split; [done|]. intros Hle.
  destruct (decide (month_search leap yday fuel ≤ Z.of_nat fuel)); [auto|].
  assert (month_search leap yday fuel + 1 = Z.of_nat (S (S fuel))) as -> by lia. done.
Qed.

Lemma month_search_spec (leap : bool) yday :
  0 ≤ yday < 365 + (if leap then 1 else 0) →
  let month := month_search leap yday 11 in
  1 ≤ month ≤ 12 ∧ daysBefore leap month ≤ yday < daysBefore leap (month + 1).
Proof.
  intros Hy. destruct (month_search_bounds leap yday 11) as (Hm & Hlow & Hhigh).
  cbv zeta. revert Hm Hlow Hhigh. generalize (month_search leap yday 11). intros month Hm Hlow Hhigh.
  split; [lia|]. split.
  - destruct Hlow as [-> |?]; [|done]. change (daysBefore leap 1) with 0. lia.
  - destruct (decide (month ≤ 11)); [auto|]. assert (month = 12) as -> by lia.
    change (daysBefore leap (12 + 1)) with (365 + if leap then 1 else 0). lia.
Qed.

Lemma civil_Date t :
  let c := civil t in
  Date (c_year c) (c_month c) (c_day c) (c_hour c) (c_min c) (c_sec c) (c_nsec c) = t.
Proof.
  unfold civil, Date. set (secs := t / Second).
  pose proof (year_yday_spec (secs / day_seconds)) as Hy.
  destruct (year_yday (secs / day_seconds)) as [year yday]. destruct Hy as [Hy _]. simpl.
  replace (daysSinceEpoch year + _ + _) with (secs / day_seconds) by lia.
  assert (secs / day_seconds * day_seconds + secs mod day_seconds / 3600 * 3600
    + secs mod day_seconds / 60 mod 60 * 60 + secs mod day_seconds mod 60 = secs) as ->.
  { unfold day_seconds. Z.to_euclidean_division_equations. lia. }
  subst secs. unfold Second. Z.to_euclidean_division_equations. lia.
Qed.

(** The fields of a time are in the ranges [time.Parse] checks. *)
Lemma civil_ranges t :
  let c := civil t in
  1 ≤ c_month c ≤ 12 ∧ 1 ≤ c_day c ≤ daysIn (c_month c) (c_year c) ∧
  0 ≤ c_hour c < 24 ∧ 0 ≤ c_min c < 60 ∧ 0 ≤ c_sec c < 60 ∧ 0 ≤ c_nsec c < Second.
Proof.
  unfold civil. pose proof (year_yday_spec (t / Second / day_seconds)) as Hy.
  destruct (year_yday (t / Second / day_seconds)) as [year yday]. destruct Hy as [_ Hy].
  cbn [c_year c_month c_day c_hour c_min c_sec c_nsec].
  destruct (month_search_spec _ _ Hy) as [Hm Hd]. unfold daysIn.
  set (sod := t / Second mod day_seconds).
  assert (0 ≤ sod < 86400) by (apply Z.mod_pos_bound; done).
  pose proof (Z.mod_pos_bound t Second ltac:(done)).
  clearbody sod. cbv zeta in Hm, Hd.
  split_and!; try lia; clear Hy Hm Hd; Z.to_euclidean_division_equations; lia.
Qed.

(** ** Writing, then reading *)

Lemma digit_char_val n : is_digit (digit_char n) = true ∧ digit_val (digit_char n) = n mod 10.
Proof.
  unfold digit_char. pose proof (Z.mod_pos_bound n 10 ltac:(done)) as H.
  assert (n mod 10 = 0 ∨ n mod 10 = 1 ∨ n mod 10 = 2 ∨ n mod 10 = 3 ∨ n mod 10 = 4 ∨ n mod 10 = 5 ∨
    n mod 10 = 6 ∨ n mod 10 = 7 ∨ n mod 10 = 8 ∨ n mod 10 = 9) as Hn by lia.
  destruct_or! Hn; rewrite Hn; done.
Qed.

Lemma getnum_fixed n rest fixed : 0 ≤ n < 100 → getnum (fixed_digits 2 n +:+ rest) fixed = Some (n, rest).
Proof.
  intros Hn. simpl. destruct (digit_char_val (n / 10)) as [-> ->].
  destruct (digit_char_val n) as [-> ->]. simpl. repeat f_equal.
  Z.to_euclidean_division_equations. lia.
Qed.

Lemma fixed_digits_4 n : fixed_digits 4 n = fixed_digits 2 (n / 100) +:+ fixed_digits 2 n.
Proof. simpl. rewrite !Z.div_div by lia. done. Qed.

Lemma digit_char_period n k : digit_char (n + k * 10) = digit_char n.
Proof. unfold digit_char. by rewrite Z.mod_add. Qed.

Lemma fixed_digits_2_period n k : fixed_digits 2 (n + k * 100) = fixed_digits 2 n.
Proof.
  cbn [fixed_digits]. replace (n + k * 100) with (n + (k * 10) * 10) by lia.
  by rewrite Z.div_add, !digit_char_period by lia.
Qed.

Lemma get_year_fixed n rest : 0 ≤ n ≤ 9999 → get_year (fixed_digits 4 n +:+ rest) = Some (n, rest).
Proof.
  intros Hn. unfold get_year. rewrite fixed_digits_4, str_app_assoc.
  rewrite getnum_fixed by (Z.to_euclidean_division_equations; lia). cbn [mbind option_bind].
  assert (fixed_digits 2 n = fixed_digits 2 (n mod 100)) as ->.
  { set (q := n / 100). assert (n = n mod 100 + q * 100) as -> by (subst q; Z.to_euclidean_division_equations; lia).
    rewrite Z.mod_add, Z.mod_mod by lia. apply fixed_digits_2_period. }
  rewrite getnum_fixed by (apply Z.mod_pos_bound; lia). cbn [mbind option_bind].
  do 2 f_equal. Z.to_euclidean_division_equations; lia.
Qed.

Lemma skip_cons c s : skip (String c s) c = Some s.
Proof. simpl. by rewrite bool_decide_eq_true_2. Qed.

Lemma digits_value_app s t acc :
  digits_value (s +:+ t) acc = digits_value s acc ≫= λ z, digits_value t z.
Proof.
  revert acc. induction s as [|a s IH]; intros acc; [done|]. rewrite string_app_cons.
  cbn [digits_value]. by destruct (byte_between 48 57 a); [apply IH|].
Qed.

Lemma fixed_digits_value w n : 0 ≤ n < 10 ^ Z.of_nat w → digits_value (fixed_digits w n) 0 = Some n.
Proof.
  revert n. induction w as [|w IH]; intros n Hn.
  - simpl. f_equal. change (10 ^ Z.of_nat 0) with 1 in Hn. lia.
  - rewrite Nat2Z.inj_succ, Z.pow_succ_r in Hn by lia. cbn [fixed_digits].
    rewrite digits_value_app, IH.
    + cbn [mbind option_bind byte1 digits_value]. destruct (digit_char_val n) as [Hd Hv].
      unfold is_digit in Hd. rewrite Hd. unfold digit_val in Hv. f_equal.
      Z.to_euclidean_division_equations. lia.
    + split; [apply Z.div_pos; lia|]. apply Z.div_lt_upper_bound; lia.
Qed.

Lemma fixed_digits_length w n : String.length (fixed_digits w n) = w.
Proof. revert n. induction w as [|w IH]; intros n; [done|]. simpl. rewrite str_length_app, IH. simpl. lia. Qed.

Lemma fixed_digits_all w n : str_forallb is_digit (fixed_digits w n) = true.
Proof.
  revert n. induction w as [|w IH]; intros n; [done|]. cbn [fixed_digits].
  pose proof (proj1 (digit_char_val n)) as Hd. specialize (IH (n / 10)).
  induction (fixed_digits w (n / 10)) as [|a s IHs]; simpl in *; [by rewrite Hd|].
  apply andb_true_iff in IH as [-> IH]. by apply IHs.
Qed.

Fixpoint zeros (n : nat) : string :=
  match n with O => "" | S n' => String "0"%char (zeros n') end.

Lemma zeros_snoc n : zeros n +:+ "0" = zeros (S n).
Proof. induction n as [|n IH]; [done|]. cbn [zeros]. by rewrite string_app_cons, IH. Qed.

(** The digits [TrimRight] removes. *)
Lemma TrimRight_zeros s : ∃ k, s = TrimRight s "0"%char +:+ zeros k.
Proof.
  induction s as [|a s [k IH]]; [by exists O|]. simpl.
  destruct (TrimRight s "0"%char) as [|b t] eqn:E.
  - case_bool_decide as Ha.
    + subst a. exists (S k).
      change ("" +:+ zeros (S k)) with (String "0"%char (zeros k)). f_equal. exact IH.
    + exists k. rewrite string_app_cons. f_equal. exact IH.
  - exists k. rewrite string_app_cons. f_equal. exact IH.
Qed.

Lemma span_digits_app ds rest :
  str_forallb is_digit ds = true →
  match rest with String a _ => is_digit a = false | "" => True end →
  span_digits (ds +:+ rest) = (ds, rest).
Proof.
  induction ds as [|a ds IH]; intros Hd Hrest.
  - destruct rest as [|a rest]; [done|]. simpl. by rewrite Hrest.
  - simpl in Hd. apply andb_true_iff in Hd as [Ha Hd]. rewrite string_app_cons. simpl.
    by rewrite Ha, IH.
Qed.

Lemma zeros_add m n : zeros m +:+ zeros n = zeros (m + n).
Proof. induction m as [|m IH]; [done|]. simpl. by rewrite string_app_cons, IH. Qed.

Lemma get_fraction_format nsec rest :
  0 ≤ nsec < Second →
  get_fraction (format_fraction nsec +:+ String "Z"%char rest) = (nsec, String "Z"%char rest).
Proof.
  intros Hn. unfold format_fraction. case_bool_decide as Hz.
  { subst. by destruct rest. }
  destruct (TrimRight_zeros (fixed_digits 9 nsec)) as [k Hk].
  set (ds := TrimRight (fixed_digits 9 nsec) "0"%char) in *.
  assert (fraction_value ds = nsec) as Hval.
  { unfold fraction_value.
    assert (str_take 9 (ds +:+ "000000000") = fixed_digits 9 nsec) as ->.
    - pose proof (fixed_digits_length 9 nsec) as Hlen. rewrite Hk, str_length_app in Hlen.
      assert (String.length (zeros k) = k) as Hzk by (clear; induction k; simpl; congruence).
      assert (k ≤ 9)%nat by lia.
      change "000000000" with (zeros 9). replace 9%nat with (k + (9 - k))%nat at 2 by lia.
      rewrite <- zeros_add, <- str_app_assoc, <- Hk.
      by rewrite <- (fixed_digits_length 9 nsec) at 1; rewrite str_take_app.
    - by rewrite fixed_digits_value. }
  assert (str_forallb is_digit ds = true) as Hds.
  { pose proof (fixed_digits_all 9 nsec) as Hall. rewrite Hk in Hall. clear -Hall.
    induction ds as [|a ds IH]; [done|]. rewrite string_app_cons in Hall. simpl in *.
    apply andb_true_iff in Hall as [-> Hall]. by apply IH. }
  clearbody ds. destruct ds as [|a ds].
  { assert (nsec = 0); [|done]. by rewrite <- Hval. }
  simpl in Hds. apply andb_true_iff in Hds as [Ha Hds].
  assert (span_digits (String a ds +:+ String "Z"%char rest) = (String a ds, String "Z"%char rest)) as Hspan.
  { apply span_digits_app; [|done]. simpl. by rewrite Ha, Hds. }
  rewrite string_app_cons in Hspan.
  change (("." +:+ String a ds) +:+ ?r) with (String "."%char (String a (ds +:+ r))).
  unfold get_fraction. rewrite Ha.
  change (byte_is "." "." || _) with true. cbn [andb]. rewrite Hspan. by rewrite Hval.
Qed.

Lemma parse_format_civil c :
  0 ≤ c_year c ≤ 9999 → 1 ≤ c_month c ≤ 12 → 1 ≤ c_day c ≤ daysIn (c_month c) (c_year c) →
  0 ≤ c_hour c < 24 → 0 ≤ c_min c < 60 → 0 ≤ c_sec c < 60 → 0 ≤ c_nsec c < Second →
  parse_rfc3339 (format_civil c)
  = Some (Date (c_year c) (c_month c) (c_day c) (c_hour c) (c_min c) (c_sec c) (c_nsec c)).
Proof.
  intros Hy Hmo Hd Hh Hmi Hs Hn.
  assert (daysIn (c_month c) (c_year c) < 100).
  { unfold daysIn, daysBefore. destruct (isLeap _); repeat (case_match; try lia). }
  unfold parse_rfc3339, format_civil.
  rewrite get_year_fixed by done. cbn [mbind option_bind].
  repeat (change (String ?a "" +:+ ?x) with (String a x); rewrite skip_cons; cbn [mbind option_bind];
    rewrite getnum_fixed by lia; cbn [mbind option_bind]).
  change "Z" with (String "Z"%char ""). rewrite get_fraction_format by done. simpl get_zone.
  cbn [mbind option_bind]. rewrite !bool_decide_eq_true_2 by (done || lia). simpl.
  by rewrite Z.sub_0_r.
Qed.

(** A time that [Time.MarshalJSON] accepts (years 0 to 9999) is read back
    by [time.Parse] with the RFC 3339 layout as the same instant, to the
    nanosecond: the calendar arithmetic, the fixed-width fields and the
    trimmed fraction lose nothing. *)
Theorem rfc3339_roundtrip t s : format_rfc3339 t = Some s → parse_rfc3339 s = Some t.
Proof.
  unfold format_rfc3339. case_bool_decide as Hy; [|done]. intros [= <-].
  destruct (civil_ranges t) as (Hmo & Hd & Hh & Hmi & Hs & Hn).
  rewrite parse_format_civil by done. by rewrite civil_Date.
Qed.

Lemma rfc3339_roundtrip_witness :
  parse_rfc3339 "2026-04-01T10:20:30.5Z" = Some 63910635630500000000.
Proof. apply (rfc3339_roundtrip 63910635630500000000). vm_compute. reflexivity. Defined.

Close Scope Z_scope.
