(* ===== verification/GoParse.v ===== *)
(** * Reading numbers and durations

    The parts of fmt, time and strings that the configuration reads its
    environment with: [fmt.Sscanf] with the verb d, [time.ParseDuration] and
    [strings.EqualFold] with an ASCII word. Durations are accumulated in a
    uint64 as the library does; the fraction of a unit is computed in
    float64, here the binary64 format of [SpecFloat]. *)

From Stdlib Require Import SpecFloat.
From S2P Require Import Prelude GoStrings GoText Json JsonEncode.
From stdpp Require Import options.

Local Open Scope Z_scope.

(** ** [fmt.Sscanf] with the verb d

    White space other than a newline is skipped, then a sign and digits are
    read; what follows is ignored. The value must fit the variable. *)

Fixpoint skip_space (rs : list string) : option (list string) :=
  match rs with
  | [] => Some []
  | r :: rs' =>
      if String.eqb r (byte1 newline) then None
      else if IsSpace r then skip_space rs'
      else Some rs
  end.

Fixpoint lead_digits (s : string) : string :=
  match s with
  | String a s' => if byte_between 48 57 a then String a (lead_digits s') else ""
  | "" => ""
  end.

Definition scan_sign (s : string) : bool * string :=
  match s with
  | String a s' => if byte_is a "-" then (true, s') else if byte_is a "+" then (false, s') else (false, s)
  | "" => (false, "")
  end.

Definition Sscanf_d (bits : Z) (v : string) : option Z :=
  rs ← skip_space (runes v);
  let '(neg, s) := scan_sign (concat_str rs) in
  let tok := lead_digits s in
  if bool_decide (tok = "") then None
  else
    n ← digits_value tok 0;
    let z := if neg : bool then - n else n in
    if bool_decide (- 2 ^ (bits - 1) ≤ z < 2 ^ (bits - 1)) then Some z else None.

(** ** [strings.EqualFold] with the word true

    No other letter folds to t, r, u or e. *)
Definition EqualFold_true (v : string) : bool := String.eqb (str_map lower_byte v) "true".

(** ** [time.ParseDuration] *)

Definition two63 : Z := 2 ^ 63.

(** Sign bit, mantissa and exponent: binary64. *)
Definition float64 (z : Z) : spec_float := binary_normalize 53 1024 z 0 false.

(** [uint64(x)] of a float that is not negative. *)
Definition uint64_of (x : spec_float) : Z :=
  match x with
  | S754_finite false m e => Z.shiftl (Zpos m) e
  | _ => 0
  end.

(** [leadingInt]: [None] is an overflow. *)
Fixpoint leadingInt (x : Z) (s : string) : option (Z * string) :=
  match s with
  | String a s' =>
      if byte_between 48 57 a then
        if bool_decide (two63 / 10 < x) then None
        else
          let x := x * 10 + (Z.of_N (N_of_ascii a) - 48) in
          if bool_decide (two63 < x) then None else leadingInt x s'
      else Some (x, s)
  | "" => Some (x, "")
  end.

(** [leadingFraction]: digits past the range are dropped. *)
Fixpoint leadingFraction (x : Z) (scale : spec_float) (overflow : bool) (s : string) : Z * spec_float * string :=
  match s with
  | String a s' =>
      if byte_between 48 57 a then
        if overflow then leadingFraction x scale true s'
        else if bool_decide ((two63 - 1) / 10 < x) then leadingFraction x scale true s'
        else
          let y := x * 10 + (Z.of_N (N_of_ascii a) - 48) in
          if bool_decide (two63 < y) then leadingFraction x scale true s'
          else leadingFraction y (SFmul 53 1024 scale (float64 10)) false s'
      else (x, scale, s)
  | "" => (x, scale, "")
  end.

(** The unit: everything up to a digit or a period. *)
Fixpoint span_unit (s : string) : string * string :=
  match s with
  | String a s' =>
      if byte_is a "." || byte_between 48 57 a then ("", s)
      else let '(u, rest) := span_unit s' in (String a u, rest)
  | "" => ("", "")
  end.

Definition micro_sign : string := bytes [194; 181]%N.
Definition greek_mu : string := bytes [206; 188]%N.

Definition unitMap (u : string) : option Z :=
  if String.eqb u "ns" then Some 1
  else if String.eqb u "us" || String.eqb u (micro_sign +:+ "s") || String.eqb u (greek_mu +:+ "s") then Some 1000
  else if String.eqb u "ms" then Some 1000000
  else if String.eqb u "s" then Some Second
  else if String.eqb u "m" then Some Minute
  else if String.eqb u "h" then Some Hour
  else None.

(** One number with its unit. *)
Definition parse_part (s : string) : option (Z * string) :=
  '(v, s1) ← leadingInt 0 s;
  let pre := negb (String.eqb s1 s) in
  let '(f, scale, s2, post) :=
    match s1 with
    | String a rest =>
        if byte_is a "." then
          let '(f, scale, s2) := leadingFraction 0 (float64 1) false rest in
          (f, scale, s2, negb (String.eqb s2 rest))
        else (0, float64 1, s1, false)
    | "" => (0, float64 1, s1, false)
    end in
  if negb pre && negb post then None
  else
    let '(u, s3) := span_unit s2 in
    if bool_decide (u = "") then None
    else
      unit ← unitMap u;
      if bool_decide (two63 / unit < v) then None
      else
        let v := v * unit in
        if bool_decide (0 < f) then
          let v := v + uint64_of (SFmul 53 1024 (float64 f) (SFdiv 53 1024 (float64 unit) scale)) in
          if bool_decide (two63 < v) then None else Some (v, s3)
        else Some (v, s3).

(** The parts are added up in a uint64; every part takes a byte at least, so
    the length of the text is fuel enough. *)
Fixpoint parse_parts (fuel : nat) (d : Z) (s : string) : option Z :=
  match s with
  | "" => Some d
  | String a _ =>
      match fuel with
      | O => None
      | S fuel' =>
          if negb (byte_is a "." || byte_between 48 57 a) then None
          else
            '(v, rest) ← parse_part s;
            let d := (d + v) mod 2 ^ 64 in
            if bool_decide (two63 < d) then None else parse_parts fuel' d rest
      end
  end.

Definition ParseDuration (orig : string) : option Duration :=
  let '(neg, s) := scan_sign orig in
  if String.eqb s "0" then Some 0
  else if bool_decide (s = "") then None
  else
    d ← parse_parts (String.length s) 0 s;
    if neg : bool then Some (wrap64 (- wrap64 d))
    else if bool_decide (two63 - 1 < d) then None
    else Some (wrap64 d).

(** ** Lemmas *)

Lemma Sscanf_d_range bits v n : Sscanf_d bits v = Some n → - 2 ^ (bits - 1) ≤ n < 2 ^ (bits - 1).
Proof.
  unfold Sscanf_d. destruct (skip_space _) as [rs|]; [|done]. cbn [mbind option_bind].
  destruct (scan_sign _) as [neg s]. case_bool_decide; [done|].
  destruct (digits_value _ _) as [m|]; [|done]. cbn [mbind option_bind]. case_bool_decide; [|done].
  by intros [= <-].
Qed.

Lemma ParseDuration_range v d : ParseDuration v = Some d → MinInt64 ≤ d ≤ MaxInt64.
Proof.
  unfold ParseDuration. destruct (scan_sign v) as [neg s]. destruct (String.eqb s "0").
  { intros [= <-]. done. }
  case_bool_decide; [done|]. destruct (parse_parts _ _ _) as [x|]; [|done]. cbn [mbind option_bind].
  destruct neg; [intros [= <-]; apply wrap64_range|]. case_bool_decide; [done|]. intros [= <-]. apply wrap64_range.
Qed.

(** Every part takes a byte, so the fuel is never used up. *)
Lemma leadingInt_length x s v rest : leadingInt x s = Some (v, rest) → (String.length rest ≤ String.length s)%nat.
Proof.
  revert x. induction s as [|a s IH]; intros x; cbn [leadingInt]; [by intros [= <- <-]|].
  destruct (byte_between 48 57 a); [|by intros [= <- <-]].
  repeat (case_bool_decide; [done|]). intros ?%IH. simpl. lia.
Qed.

Lemma leadingFraction_length x scale o s :
  (String.length (leadingFraction x scale o s).2 ≤ String.length s)%nat.
Proof.
  revert x scale o. induction s as [|a s IH]; intros x scale o; cbn [leadingFraction]; [done|].
  destruct (byte_between 48 57 a); [|done].
  destruct o; [|repeat case_bool_decide]; match goal with |- context [leadingFraction ?x ?sc ?o s] =>
    specialize (IH x sc o) end; simpl in *; lia.
Qed.

Lemma span_unit_length s :
  (String.length (span_unit s).1 + String.length (span_unit s).2 = String.length s)%nat.
Proof.
  induction s as [|a s IH]; cbn [span_unit]; [done|]. destruct (_ || _); [done|].
  destruct (span_unit s) as [u rest]. simpl in *. lia.
Qed.

Lemma parse_part_length s v rest : parse_part s = Some (v, rest) → (String.length rest < String.length s)%nat.
Proof.
  unfold parse_part. destruct (leadingInt 0 s) as [[v0 s1]|] eqn:Hi; [|done]. cbn [mbind option_bind].
  apply leadingInt_length in Hi.
  assert (∃ f scale s2 post, (match s1 with
    | String a rest =>
        if byte_is a "." then
          let '(f, scale, s2) := leadingFraction 0 (float64 1) false rest in
          (f, scale, s2, negb (String.eqb s2 rest))
        else (0, float64 1, s1, false)
    | "" => (0, float64 1, s1, false)
    end) = (f, scale, s2, post) ∧ (String.length s2 ≤ String.length s1)%nat) as (f & scale & s2 & post & -> & Hs2).
  { destruct s1 as [|a s1]; [eauto 10|]. destruct (byte_is a "."); [|eauto 10].
    pose proof (leadingFraction_length 0 (float64 1) false s1).
    destruct (leadingFraction _ _ _ _) as [[f scale] s2]. eexists f, scale, s2, _. split; [done|]. simpl in *. lia. }
  destruct (_ && _); [done|]. pose proof (span_unit_length s2) as Hu. destruct (span_unit s2) as [u s3].
  case_bool_decide as Hne; [done|]. destruct (unitMap u) as [unit|]; [|done]. cbn [mbind option_bind].
  assert (0 < String.length u)%nat by (destruct u; simpl; [done|lia]). simpl in Hu.
  repeat case_bool_decide; intros [= <- <-] || done; lia.
Qed.

Lemma parse_parts_fuel fuel fuel' d s :
  (String.length s ≤ fuel)%nat → (String.length s ≤ fuel')%nat → parse_parts fuel d s = parse_parts fuel' d s.
Proof.
  revert fuel' d s. induction fuel as [|fuel IH]; intros fuel' d s Hf Hf'.
  { destruct s; [|simpl in Hf; lia]. by destruct fuel'. }
  destruct s as [|a s]; [by destruct fuel'|]. destruct fuel' as [|fuel']; [simpl in Hf'; lia|].
  cbn [parse_parts]. destruct (negb _); [done|].
  destruct (parse_part (String a s)) as [[v rest]|] eqn:Hp; [|done]. cbn [mbind option_bind].
  apply parse_part_length in Hp. case_bool_decide; [done|]. apply IH; simpl in *; lia.
Qed.
