(* ===== verification/GoFlag.v ===== *)
(** * Command lines and paths

    The parts of flag and path/filepath that the two command-line programs
    use: a [FlagSet] of string flags, and [Base], [Dir], [Join] and [Clean]
    on slash-separated paths. *)

From S2P Require Import Prelude GoStrings GoText Json JsonEncode.
From stdpp Require Import options.

(** ** flag.FlagSet.Parse with string flags

    [flags] maps a defined flag to its value. Parsing stops at the first
    argument that is not a flag, or after a double dash. *)

Definition Flags : Type := gmap string string.

(** The name of a flag argument and its inline value. *)
Definition split_flag (name : string) : string * option string :=
  match index (str_drop 1 name) "=" with
  | Some i => (str_take (S i) name, Some (str_drop (S (S i)) name))
  | None => (name, None)
  end.

Definition ErrHelp : error := EText "flag: help requested" [].

Inductive parsed_arg :=
  | StopHere (** not a flag: the arguments start here *)
  | StopAfter (** the double dash *)
  | BadFlag (e : error)
  | FlagArg (name : string) (value : option string).

Definition parse_arg (s : string) : parsed_arg :=
  match s with
  | String a (String b rest) =>
      if negb (byte_is a "-") then StopHere
      else
        let name := if byte_is b "-" then rest else String b rest in
        if byte_is b "-" && bool_decide (rest = "") then StopAfter
        else
          match name with
          | "" => BadFlag (EText "bad flag syntax: %s" [s])
          | String c _ =>
              if byte_is c "-" || byte_is c "=" then BadFlag (EText "bad flag syntax: %s" [s])
              else let '(n, v) := split_flag name in FlagArg n v
          end
  | _ => StopHere
  end.

Fixpoint FlagSet_Parse (flags : Flags) (args : list string) : result (Flags * list string) :=
  match args with
  | [] => Ok (flags, [])
  | s :: args' =>
      match parse_arg s with
      | StopHere => Ok (flags, args)
      | StopAfter => Ok (flags, args')
      | BadFlag e => Err e
      | FlagArg name value =>
          match flags !! name with
          | None =>
              if String.eqb name "help" || String.eqb name "h" then Err ErrHelp
              else Err (EText "flag provided but not defined: -%s" [name])
          | Some _ =>
              match value, args' with
              | Some v, _ => FlagSet_Parse (<[name := v]> flags) args'
              | None, v :: args'' => FlagSet_Parse (<[name := v]> flags) args''
              | None, [] => Err (EText "flag needs an argument: -%s" [name])
              end
          end
      end
  end.

Definition flag (flags : Flags) (name : string) : string := default "" (flags !! name).

Lemma flag_insert_eq (flags : Flags) name v : flag (<[name := v]> flags) name = v.
Proof. unfold flag, Flags in *. by rewrite lookup_insert_eq. Qed.

Lemma flag_insert_ne (flags : Flags) name name' v :
  name' ≠ name → flag (<[name := v]> flags) name' = flag flags name'.
Proof. intros Hn. unfold flag, Flags in *. by rewrite lookup_insert_ne. Qed.

(** ** Paths *)

(** [filepath.Base]. *)
Definition Base (path : string) : string :=
  if bool_decide (path = "") then "."
  else
    let p := TrimRight path "/"%char in
    if bool_decide (p = "") then "/" else List.last (Split p "/"%char) "".

(** [filepath.Clean]: the elements kept, the last one first. *)
Definition clean_step (rooted : bool) (kept : list string) (e : string) : list string :=
  if String.eqb e "" || String.eqb e "." then kept
  else if String.eqb e ".." then
    match kept with
    | top :: kept' => if String.eqb top ".." then ".." :: kept else kept'
    | [] => if rooted then [] else [".."]
    end
  else e :: kept.

Definition Clean (path : string) : string :=
  if bool_decide (path = "") then "."
  else
    let rooted := HasPrefix path "/" in
    let kept := foldl (clean_step rooted) [] (Split path "/"%char) in
    let body := Join (reverse kept) "/" in
    if rooted then "/" +:+ body else if bool_decide (body = "") then "." else body.

(** [filepath.Dir] and [filepath.Join]. *)
Definition Dir (path : string) : string :=
  match last_index path "/" with
  | Some i => Clean (str_take (S i) path)
  | None => "."
  end.

Definition Join_path (elems : list string) : string :=
  match filter (λ e, e ≠ "") elems with
  | [] => ""
  | es => Clean (GoStrings.Join es "/")
  end.

(** ** Lemmas *)

Lemma parse_arg_dash s : HasPrefix s "-" = false → parse_arg s = StopHere.
Proof.
  destruct s as [|a [|b s]]; [done..|]. intros Hp. unfold parse_arg.
  assert (byte_is a "-" = false) as ->; [|done].
  unfold byte_is. apply String.eqb_neq. intros [= ->]. done.
Qed.
