(* ===== verification/Domain.v ===== *)
(** * Domain model (engine/internal/domain)

    The records, enumerations and pure operations every other component
    works on: component references, SBOMs and packages, publishers,
    indicators of compromise, incidents and their state machine,
    remediations, anomalies and domain events.

    Named string types (IncidentState, IoCKind, Severity, ...) stay
    strings, as in Go: a value outside the declared constants can exist,
    and the code's treatment of such values is part of the model. *)

From S2P Require Import Prelude GoStrings.
From stdpp Require Import options.

(** ** Components: component.go *)

Record Component := MkComponent {
  Component_Ref : string;
  Component_Kind : string;
  Component_Namespace : string;
  Component_Name : string;
  Component_Owner : string;
  Component_System : string;
  Component_Lifecycle : string;
  Component_Tags : list string;
  Component_Annotations : gmap string string;
}.

Definition ParseComponentRef (ref : string) : result (string * string * string) :=
  let '(head, tail, ok) := Cut ref ":" in
  if negb ok || bool_decide (head ≠ "kind") then
    Err (EWrap "%w: missing 'kind:' prefix in %q" [ref] (ESentinel ErrInvalidComponentRef))
  else
    match Split tail "/"%char with
    | [p0; p1; p2] =>
        if bool_decide (p0 = "") || bool_decide (p1 = "") || bool_decide (p2 = "") then
          Err (EWrap "%w: empty segment in %q" [ref] (ESentinel ErrInvalidComponentRef))
        else Ok (p0, p1, p2)
    | _ =>
        Err (EWrap "%w: expected kind/namespace/name, got %q" [tail]
               (ESentinel ErrInvalidComponentRef))
    end.

Definition NewComponent (ref owner : string) : result Component :=
  match ParseComponentRef ref with
  | Err e => Err e
  | Ok (kind, ns, name) =>
      Ok {| Component_Ref := ref; Component_Kind := kind;
            Component_Namespace := ns; Component_Name := name;
            Component_Owner := owner; Component_System := "";
            Component_Lifecycle := ""; Component_Tags := [];
            Component_Annotations := ∅ |}
  end.

(** ** Packages: packageversion.go *)

Record PackageVersion := MkPackageVersion {
  PackageVersion_Ecosystem : string;
  PackageVersion_Name : string;
  PackageVersion_Version : string;
  PackageVersion_PURL : string;
  PackageVersion_Scope : list string;
  PackageVersion_Integrity : string;
}.

#[global] Instance PackageVersion_eq_dec : EqDecision PackageVersion.
Proof. solve_decision. Defined.

Definition npmPURL (name version : string) : string :=
  let plain := "pkg:npm/" +:+ name +:+ "@" +:+ version in
  if HasPrefix name "@" then
    let rest := str_drop 1 name in
    let slash := Index rest "/" in
    if bool_decide (0 < slash)%Z then
      let ns := str_take (Z.to_nat slash) rest in
      let pkg := str_drop (S (Z.to_nat slash)) rest in
      "pkg:npm/" +:+ QueryEscape ("@" +:+ ns) +:+ "/" +:+ pkg +:+ "@" +:+ version
    else plain
  else plain.

Definition CanonicalPURL (ecosystem name version : string) : string :=
  if bool_decide (ecosystem = "npm") then npmPURL name version
  else if bool_decide (ecosystem = "gomod") then
    "pkg:golang/" +:+ name +:+ "@" +:+ version
  else "pkg:" +:+ ecosystem +:+ "/" +:+ name +:+ "@" +:+ version.

(** ** SBOMs: sbom.go *)

Record ParsedSBOM := MkParsedSBOM {
  ParsedSBOM_Ecosystem : string;
  ParsedSBOM_Packages : list PackageVersion;
  ParsedSBOM_SourceFormat : string;
  ParsedSBOM_SourceBytes : Z;
}.

Record SBOM := MkSBOM {
  SBOM_ID : string;
  SBOM_ComponentRef : string;
  SBOM_CommitSHA : string;
  SBOM_Ecosystem : string;
  SBOM_GeneratedAt : Time;
  SBOM_Packages : list PackageVersion;
  SBOM_SourceFormat : string;
  SBOM_SourceBytes : Z;
}.

Record SBOMPackageRef := MkSBOMPackageRef {
  SBOMPackageRef_ComponentRef : string;
  SBOMPackageRef_Package : PackageVersion;
}.

(** ** Publishers: publisher.go, publisher_snapshot.go *)

Record Publisher := MkPublisher {
  Publisher_Ecosystem : string;
  Publisher_Name : string;
  Publisher_FirstSeen : Time;
  Publisher_LastSeen : Time;
}.

Record PublisherProfile := MkPublisherProfile {
  PublisherProfile_Publisher : Publisher;
  PublisherProfile_PackageCount : Z;
  PublisherProfile_PublishCount : Z;
  PublisherProfile_Last30DayPublishes : Z;
  PublisherProfile_UsesOIDC : bool;
  PublisherProfile_HasGitTags : bool;
  PublisherProfile_MaintainerEmails : list string;
  PublisherProfile_LastEmailChange : option Time;
}.

Definition SignalNewMaintainerEmail : string := "new_maintainer_email".
Definition SignalDormantAccountActive : string := "dormant_account_active".
Definition SignalMissingGitTag : string := "missing_git_tag".
Definition SignalOffHoursPublish : string := "off_hours_publish".
Definition SignalOIDCRegression : string := "oidc_regression".
Definition SignalVersionJump : string := "version_jump".
Definition SignalLowDownloadDayAttack : string := "low_download_day_attack".

Record PublisherSignal := MkPublisherSignal {
  PublisherSignal_Type : string;
  PublisherSignal_Publisher : Publisher;
  PublisherSignal_Package : option PackageVersion;
  PublisherSignal_Severity : string;
  PublisherSignal_Description : string;
  PublisherSignal_Evidence : gmap string any;
  PublisherSignal_DetectedAt : Time;
}.

Record Maintainer := MkMaintainer {
  Maintainer_Email : string;
  Maintainer_Name : string;
  Maintainer_Username : string;
}.

Record PublisherSnapshot := MkPublisherSnapshot {
  PublisherSnapshot_ID : Z;
  PublisherSnapshot_PackageRef : string;
  PublisherSnapshot_SnapshotAt : Time;
  PublisherSnapshot_Maintainers : list Maintainer;
  PublisherSnapshot_LatestVersion : string;
  PublisherSnapshot_LatestVersionPublishedAt : option Time;
  PublisherSnapshot_PublishMethod : string;
  PublisherSnapshot_SourceRepoURL : option string;
  PublisherSnapshot_RawData : string;
}.

(** ** Remediations: remediation.go *)

Definition RemediationPinVersion : string := "pin_version".
Definition RemediationRotateSecret : string := "rotate_secret".
Definition RemediationOpenPR : string := "open_pr".
Definition RemediationNotify : string := "notify".
Definition RemediationDismiss : string := "dismiss".

Record Remediation := MkRemediation {
  Remediation_ID : string;
  Remediation_IncidentID : string;
  Remediation_Kind : string;
  Remediation_ExecutedAt : Time;
  Remediation_ActorRef : string;
  Remediation_Details : gmap string any;
}.

Definition validRemediationKinds : gset string :=
  {[ RemediationPinVersion; RemediationRotateSecret; RemediationOpenPR;
     RemediationNotify; RemediationDismiss ]}.

Definition Remediation_Validate (r : Remediation) : option error :=
  if bool_decide (Remediation_Kind r ∈ validRemediationKinds) then None
  else Some (EWrap "%w: %q" [Remediation_Kind r] (ESentinel ErrInvalidRemediationKind)).

(** ** Anomalies: anomaly.go *)

Definition AnomalyKindMaintainerEmailDrift : string := "new_maintainer_email".
Definition AnomalyKindOIDCPublishingRegression : string := "oidc_regression".
Definition AnomalyKindVersionJump : string := "version_jump".

Definition ConfidenceLow : string := "low".
Definition ConfidenceMedium : string := "medium".
Definition ConfidenceHigh : string := "high".

Record Anomaly := MkAnomaly {
  Anomaly_ID : Z;
  Anomaly_Kind : string;
  Anomaly_PackageRef : string;
  Anomaly_DetectedAt : Time;
  Anomaly_Confidence : string;
  Anomaly_Explanation : string;
  Anomaly_Evidence : gmap string any;
}.

Record AnomalyFilter := MkAnomalyFilter {
  AnomalyFilter_PackageRef : string;
  AnomalyFilter_Kind : string;
  AnomalyFilter_From : option Time;
  AnomalyFilter_To : option Time;
  AnomalyFilter_Limit : Z;
}.

(** ** Indicators of compromise: ioc.go *)

Definition IoCKindPackageVersion : string := "packageVersion".
Definition IoCKindPackageRange : string := "packageRange".
Definition IoCKindPublisherAnomaly : string := "publisherAnomaly".

Definition SeverityLow : string := "low".
Definition SeverityMedium : string := "medium".
Definition SeverityHigh : string := "high".
Definition SeverityCritical : string := "critical".

Record IoCPackageVersion := MkIoCPackageVersion {
  IoCPackageVersion_Name : string;
  IoCPackageVersion_Version : string;
  IoCPackageVersion_PURL : string;
}.

Record IoCPackageRange := MkIoCPackageRange {
  IoCPackageRange_Name : string;
  IoCPackageRange_Constraint : string;
}.

Record IoCPublisherAnomaly := MkIoCPublisherAnomaly {
  IoCPublisherAnomaly_PublisherName : string;
  IoCPublisherAnomaly_Signals : list PublisherSignal;
}.

Record IoCBodyAnomaly := MkIoCBodyAnomaly {
  IoCBodyAnomaly_Kind : string;
  IoCBodyAnomaly_Confidence : string;
  IoCBodyAnomaly_Explanation : string;
  IoCBodyAnomaly_PackageRef : string;
  IoCBodyAnomaly_Evidence : gmap string any;
}.

Record IoC := MkIoC {
  IoC_ID : string;
  IoC_Kind : string;
  IoC_Severity : string;
  IoC_Ecosystem : string;
  IoC_Source : string;
  IoC_PublishedAt : Time;
  IoC_Description : string;
  IoC_PackageVersion : option IoCPackageVersion;
  IoC_PackageRange : option IoCPackageRange;
  IoC_PublisherAnomaly : option IoCPublisherAnomaly;
  IoC_AnomalyBody : option IoCBodyAnomaly;
}.

(** [p != nil] on a pointer field. *)
Definition not_nil {A} (p : option A) : bool := bool_decide (is_Some p).

Definition IoC_Validate (i : IoC) : option error :=
  let count {A} (set : Z) (p : option A) := if not_nil p then (set + 1)%Z else set in
  let set := count 0%Z (IoC_PackageVersion i) in
  let set := count set (IoC_PackageRange i) in
  let set := count set (IoC_PublisherAnomaly i) in
  let set := count set (IoC_AnomalyBody i) in
  let invalid fmt args := Some (EWrap fmt args (ESentinel ErrInvalidIoC)) in
  if bool_decide (set ≠ 1%Z) then
    invalid "%w: exactly one body must be set, got %d" [pretty.pretty set]
  else if bool_decide (IoC_Kind i = IoCKindPackageVersion) then
    if not_nil (IoC_PackageVersion i) then None
    else invalid "%w: kind=packageVersion but PackageVersion body is nil" []
  else if bool_decide (IoC_Kind i = IoCKindPackageRange) then
    if not_nil (IoC_PackageRange i) then None
    else invalid "%w: kind=packageRange but PackageRange body is nil" []
  else if bool_decide (IoC_Kind i = IoCKindPublisherAnomaly) then
    if negb (not_nil (IoC_PublisherAnomaly i)) && negb (not_nil (IoC_AnomalyBody i)) then
      invalid "%w: kind=publisherAnomaly but neither PublisherAnomaly nor AnomalyBody is set" []
    else None
  else invalid "%w: unknown kind %q" [IoC_Kind i].

(** ** Incidents: incident.go *)

Definition StatePending : string := "pending".
Definition StateTriaged : string := "triaged".
Definition StateAcknowledged : string := "acknowledged".
Definition StateRemediating : string := "remediating".
Definition StateClosed : string := "closed".
Definition StateDismissed : string := "dismissed".

Record Incident := MkIncident {
  Incident_ID : string;
  Incident_IoCID : string;
  Incident_State : string;
  Incident_OpenedAt : Time;
  Incident_LastTransitionedAt : Time;
  Incident_AffectedComponentsSnapshot : list string;
  Incident_Remediations : list Remediation;
}.

Record IncidentFilter := MkIncidentFilter {
  IncidentFilter_States : list string;
  IncidentFilter_Ecosystems : list string;
  IncidentFilter_From : option Time;
  IncidentFilter_To : option Time;
  IncidentFilter_Search : string;
  IncidentFilter_Owner : string;
  IncidentFilter_Limit : Z;
}.

Definition allowedTransitions : gmap string (list string) :=
  list_to_map [
    (StatePending, [StateTriaged; StateDismissed]);
    (StateTriaged, [StateAcknowledged; StateDismissed]);
    (StateAcknowledged, [StateRemediating; StateDismissed]);
    (StateRemediating, [StateClosed]);
    (StateClosed, []);
    (StateDismissed, [])].

Definition CanTransitionTo (s next : string) : bool :=
  if bool_decide (s = next) then true
  else match allowedTransitions !! s with
       | None => false
       | Some allowed => existsb (λ t, bool_decide (t = next)) allowed
       end.

(** The method mutates its receiver: the result is the receiver after the
    call and the returned error. *)
Definition Transition (i : Incident) (next : string) (now : Time) : Incident * option error :=
  match allowedTransitions !! Incident_State i with
  | None => (i, Some (EWrap "%w: %q" [Incident_State i] (ESentinel ErrUnknownState)))
  | Some _ =>
      if negb (CanTransitionTo (Incident_State i) next) then
        (i, Some (EWrap "%w: %s → %s" [Incident_State i; next] (ESentinel ErrInvalidTransition)))
      else if bool_decide (Incident_State i = next) then (i, None)
      else
        ({| Incident_ID := Incident_ID i; Incident_IoCID := Incident_IoCID i;
            Incident_State := next; Incident_OpenedAt := Incident_OpenedAt i;
            Incident_LastTransitionedAt := now;
            Incident_AffectedComponentsSnapshot := Incident_AffectedComponentsSnapshot i;
            Incident_Remediations := Incident_Remediations i |}, None)
  end.

(** ** Domain events: events.go *)

Inductive DomainEvent :=
  | IncidentOpenedEvent (IncidentID IoCID : string)
      (AffectedComponentsSnapshot : list string) (At : Time)
  | IncidentTransitionedEvent (IncidentID From To : string) (At : Time)
  | RemediationAddedEvent (IncidentID RemediationID Kind : string) (At : Time)
  | SBOMIngestedEvent (SBOMID ComponentRef : string) (At : Time)
  | IoCMatchedEvent (IoCID : string) (MatchedComponents : list string) (At : Time).

#[global] Instance DomainEvent_eq_dec : EqDecision DomainEvent.
Proof. solve_decision. Defined.

Definition EventType (e : DomainEvent) : string :=
  match e with
  | IncidentOpenedEvent _ _ _ _ => "incident.opened"
  | IncidentTransitionedEvent _ _ _ _ => "incident.transitioned"
  | RemediationAddedEvent _ _ _ _ => "remediation.added"
  | SBOMIngestedEvent _ _ _ => "sbom.ingested"
  | IoCMatchedEvent _ _ _ => "ioc.matched"
  end.

Definition AggregateID (e : DomainEvent) : string :=
  match e with
  | IncidentOpenedEvent id _ _ _ => id
  | IncidentTransitionedEvent id _ _ _ => id
  | RemediationAddedEvent id _ _ _ => id
  | SBOMIngestedEvent id _ _ => id
  | IoCMatchedEvent id _ _ => id
  end.

Definition OccurredAt (e : DomainEvent) : Time :=
  match e with
  | IncidentOpenedEvent _ _ _ at_
  | IncidentTransitionedEvent _ _ _ at_
  | RemediationAddedEvent _ _ _ at_
  | SBOMIngestedEvent _ _ at_
  | IoCMatchedEvent _ _ at_ => at_
  end.

(** * Properties *)

(** ** Component references *)

(** What a well-formed reference is, independently of how it is parsed. *)
Definition ref_segment (s : string) : Prop := s ≠ "" ∧ byte_in "/"%char s = false.

Definition print_ref (kind ns name : string) : string :=
  "kind:" +:+ kind +:+ "/" +:+ ns +:+ "/" +:+ name.

Lemma Split_three tail p0 p1 p2 :
  Split tail "/"%char = [p0; p1; p2] ↔
  tail = p0 +:+ "/" +:+ p1 +:+ "/" +:+ p2 ∧
  byte_in "/"%char p0 = false ∧ byte_in "/"%char p1 = false ∧ byte_in "/"%char p2 = false.
Proof.
  split.
  - intros E. pose proof (Join_Split tail "/"%char) as HJ.
    pose proof (Split_no_sep tail "/"%char) as HF. rewrite E in HJ, HF.
    rewrite !Forall_cons in HF. rewrite <- HJ. naive_solver.
  - intros (-> & H0 & H1 & H2).
    rewrite Split_app, Split_app, Split_byte_free by done. done.
Qed.

Lemma Cut_kind ref tail : Cut ref ":" = ("kind", tail, true) ↔ ref = "kind:" +:+ tail.
Proof.
  split; [apply Cut_true|]. intros ->.
  by apply (Cut_byte_app ":"%char "kind" tail).
Qed.

Lemma ParseComponentRef_Ok ref kind ns name :
  ParseComponentRef ref = Ok (kind, ns, name) ↔
  ref = print_ref kind ns name ∧ ref_segment kind ∧ ref_segment ns ∧ ref_segment name.
Proof.
  unfold ParseComponentRef, print_ref, ref_segment. split.
  - destruct (Cut ref ":") as [[head tail] ok] eqn:Hcut.
    case_match; [done|]. go_bool. subst ok.
    destruct (decide (head = "kind")) as [->|]; [|done].
    apply Cut_kind in Hcut as ->.
    destruct (Split tail "/"%char) as [|p0 [|p1 [|p2 [|]]]] eqn:Hsplit; try done.
    case_match; [done|]. intros [= -> -> ->]. go_bool.
    apply Split_three in Hsplit as (-> & ? & ? & ?). done.
  - intros (Href & [? ?] & [? ?] & [? ?]). apply Cut_kind in Href as ->. simpl.
    rewrite (proj2 (Split_three _ kind ns name)) by done.
    by rewrite !bool_decide_false.
Qed.

(** The parser accepts exactly the references that print from three
    non-empty segments without a slash, and returns those segments; every
    rejection is [ErrInvalidComponentRef]. *)
Theorem ParseComponentRef_roundtrip ref :
  match ParseComponentRef ref with
  | Ok (kind, ns, name) =>
      ref = print_ref kind ns name ∧ ref_segment kind ∧ ref_segment ns ∧ ref_segment name
  | Err e =>
      errors_Is e ErrInvalidComponentRef = true ∧
      ∀ kind ns name, ref_segment kind → ref_segment ns → ref_segment name →
        ref ≠ print_ref kind ns name
  end.
Proof.
  destruct (ParseComponentRef ref) as [[[kind ns] name]|e] eqn:E.
  - by apply ParseComponentRef_Ok.
  - split.
    + revert E. unfold ParseComponentRef. destruct (Cut ref ":") as [[head tail] ok].
      repeat case_match; intros; simplify_eq; by apply bool_decide_eq_true.
    + intros kind ns name ? ? ? Href.
      assert (ParseComponentRef ref = Ok (kind, ns, name)); [|congruence].
      by apply ParseComponentRef_Ok.
Qed.

(** ** Indicators of compromise

    The tagged union the record encodes with four pointer fields. *)
Inductive ioc_body :=
  | BodyPackageVersion (b : IoCPackageVersion)
  | BodyPackageRange (b : IoCPackageRange)
  | BodyPublisherAnomaly (b : IoCPublisherAnomaly)
  | BodyAnomaly (b : IoCBodyAnomaly).

Definition body_kind (b : ioc_body) : string :=
  match b with
  | BodyPackageVersion _ => IoCKindPackageVersion
  | BodyPackageRange _ => IoCKindPackageRange
  | BodyPublisherAnomaly _ | BodyAnomaly _ => IoCKindPublisherAnomaly
  end.

(** [i] carries exactly the body [b], under its kind. *)
Definition ioc_carries (i : IoC) (b : ioc_body) : Prop :=
  IoC_Kind i = body_kind b ∧
  (IoC_PackageVersion i, IoC_PackageRange i, IoC_PublisherAnomaly i, IoC_AnomalyBody i) =
  match b with
  | BodyPackageVersion b => (Some b, None, None, None)
  | BodyPackageRange b => (None, Some b, None, None)
  | BodyPublisherAnomaly b => (None, None, Some b, None)
  | BodyAnomaly b => (None, None, None, Some b)
  end.

Lemma IoC_Validate_None i : IoC_Validate i = None ↔ ∃ b, ioc_carries i b.
Proof.
  split.
  - destruct i as [id k sev eco src at_ d pv pr pa ab].
    unfold IoC_Validate, not_nil; simpl.
    destruct pv as [b|], pr as [c|], pa as [e|], ab as [f|]; simpl;
      repeat case_bool_decide; try done; intros _; subst.
    + by exists (BodyPackageVersion b).
    + by exists (BodyPackageRange c).
    + by exists (BodyPublisherAnomaly e).
    + by exists (BodyAnomaly f).
  - destruct i as [id k sev eco src at_ d pv pr pa ab].
    intros [[b|b|b|b] [Hk Hs]]; simpl in Hk, Hs; by simplify_eq.
Qed.

(** [Validate] accepts an IoC exactly when it encodes a value of the
    tagged union (one body, agreeing with the kind), and every rejection is
    [ErrInvalidIoC]. *)
Theorem IoC_Validate_tagged_union i :
  match IoC_Validate i with
  | None => ∃ b, ioc_carries i b ∧ ∀ b', ioc_carries i b' → b' = b
  | Some e => errors_Is e ErrInvalidIoC = true ∧ ∀ b, ¬ ioc_carries i b
  end.
Proof.
  destruct (IoC_Validate i) as [e|] eqn:E.
  - split.
    + revert E. unfold IoC_Validate. repeat case_match; intros; simplify_eq;
        by apply bool_decide_eq_true.
    + intros b Hb. assert (IoC_Validate i = None); [|congruence].
      apply IoC_Validate_None. eauto.
  - apply IoC_Validate_None in E as [b Hb]. exists b. split; [done|].
    intros b' Hb'. destruct Hb as [_ Hb], Hb' as [_ Hb'].
    destruct b, b'; simplify_eq; congruence.
Qed.

(** ** The incident state machine

    The lifecycle as an abstract machine. [documented_edge] is the machine of
    README.md, ARCHITECTURE.md and schemas/openapi.yaml; [edge] is the table
    of the code, which lacks one of its edges: an incident under remediation
    cannot be dismissed. *)
Inductive phase := Pending | Triaged | Acknowledged | Remediating | Closed | Dismissed.

Definition phase_name (p : phase) : string :=
  match p with
  | Pending => StatePending
  | Triaged => StateTriaged
  | Acknowledged => StateAcknowledged
  | Remediating => StateRemediating
  | Closed => StateClosed
  | Dismissed => StateDismissed
  end.

Inductive documented_edge : phase → phase → Prop :=
  | documented_triage : documented_edge Pending Triaged
  | documented_acknowledge : documented_edge Triaged Acknowledged
  | documented_remediate : documented_edge Acknowledged Remediating
  | documented_close : documented_edge Remediating Closed
  | documented_dismiss p : p ≠ Closed → p ≠ Dismissed → documented_edge p Dismissed.

(** The documented edge that the code refuses. *)
Definition refused_edge (p q : phase) : Prop := p = Remediating ∧ q = Dismissed.

Inductive edge : phase → phase → Prop :=
  | edge_triage : edge Pending Triaged
  | edge_acknowledge : edge Triaged Acknowledged
  | edge_remediate : edge Acknowledged Remediating
  | edge_close : edge Remediating Closed
  | edge_dismiss p : p ∈ [Pending; Triaged; Acknowledged] → edge p Dismissed.

Lemma edge_documented p q : edge p q ↔ documented_edge p q ∧ ¬ refused_edge p q.
Proof.
  split.
  - destruct 1 as [| | | |p Hp]; try (split; [constructor|by intros []]).
    set_unfold in Hp. split; [constructor|intros [? _]]; naive_solver.
  - intros [[| | | |r Hc Hd] Hr]; try constructor. destruct r; try done; [set_solver..|]. by destruct Hr.
Qed.

(** The number of edges a phase is from the end. *)
Definition phase_rank (p : phase) : nat :=
  match p with
  | Pending => 4 | Triaged => 3 | Acknowledged => 2 | Remediating => 1
  | Closed | Dismissed => 0
  end.

#[global] Instance phase_eq_dec : EqDecision phase.
Proof. solve_decision. Defined.

#[global] Instance phase_name_inj : Inj (=) (=) phase_name.
Proof. intros [] []; done. Qed.

Lemma edge_rank p q : edge p q → phase_rank q < phase_rank p.
Proof. destruct 1 as [| | | |p Hp]; simpl; [lia..|]. set_unfold in Hp. naive_solver lia. Qed.

Lemma known_state s : is_Some (allowedTransitions !! s) ↔ ∃ p, s = phase_name p.
Proof.
  split.
  - intros [l Hl]. unfold allowedTransitions in Hl.
    apply elem_of_list_to_map_2 in Hl. set_unfold in Hl.
    destruct_or!; try done; apply (f_equal fst) in Hl; simpl in Hl; subst s.
    all: first [by exists Pending | by exists Triaged | by exists Acknowledged
               | by exists Remediating | by exists Closed | by exists Dismissed].
  - intros [[] ->]; vm_compute; eauto.
Qed.

Lemma CanTransitionTo_phase p next :
  CanTransitionTo (phase_name p) next = true ↔
  ∃ q, next = phase_name q ∧ (p = q ∨ edge p q).
Proof.
  unfold CanTransitionTo. case_bool_decide as Hn.
  - subst. naive_solver.
  - destruct (allowedTransitions !! phase_name p) as [l|] eqn:Hl.
    2:{ exfalso. apply eq_None_not_Some in Hl. apply Hl, known_state. eauto. }
    rewrite existsb_exists. setoid_rewrite bool_decide_eq_true. split.
    + intros (t & Ht%list_elem_of_In & ->). destruct p; vm_compute in Hl; simplify_eq.
      all: set_unfold in Ht; destruct_or?; try done; subst.
      all: first [exists Triaged; by eauto using edge | exists Acknowledged; by eauto using edge
        | exists Remediating; by eauto using edge | exists Closed; by eauto using edge
        | exists Dismissed; split; [done|]; right; constructor; set_solver].
    + intros (q & -> & [->|He]); [done|]. exists (phase_name q). split; [|done].
      apply list_elem_of_In.
      destruct He as [| | | |p Hp]; [vm_compute in Hl; simplify_eq; set_solver..|].
      set_unfold in Hp. destruct_or!; subst; vm_compute in Hl; simplify_eq; set_solver.
Qed.

(** [j] is [i] moved to state [s] at time [t], everything else kept. *)
Definition moved (i : Incident) (s : string) (t : Time) : Incident :=
  MkIncident (Incident_ID i) (Incident_IoCID i) s (Incident_OpenedAt i) t
    (Incident_AffectedComponentsSnapshot i) (Incident_Remediations i).

Lemma Transition_phase i p next now :
  Incident_State i = phase_name p →
  Transition i next now =
    if CanTransitionTo (phase_name p) next
    then (if bool_decide (phase_name p = next) then i else moved i next now, None)
    else (i, Some (EWrap "%w: %s → %s" [phase_name p; next] (ESentinel ErrInvalidTransition))).
Proof.
  intros Hp. unfold Transition. rewrite Hp.
  destruct (allowedTransitions !! phase_name p) eqn:E.
  - destruct (CanTransitionTo (phase_name p) next); [|done]. simpl.
    by case_bool_decide.
  - exfalso. apply eq_None_not_Some in E. apply E, known_state. eauto.
Qed.

Lemma Transition_unknown i next now :
  (∀ p, Incident_State i ≠ phase_name p) →
  Transition i next now =
    (i, Some (EWrap "%w: %q" [Incident_State i] (ESentinel ErrUnknownState))).
Proof.
  intros Hp. unfold Transition.
  destruct (allowedTransitions !! Incident_State i) eqn:E; [|done].
  assert (∃ p, Incident_State i = phase_name p) as [p ?]; [|naive_solver].
  apply known_state. eauto.
Qed.

Lemma Transition_error_kind i next now i' e :
  Transition i next now = (i', Some e) →
  errors_Is e ErrInvalidTransition = negb (errors_Is e ErrUnknownState).
Proof. unfold Transition. repeat case_match; intros; by simplify_eq. Qed.

Lemma Transition_next i next now i' :
  Transition i next now = (i', None) → Incident_State i' = next ∧ Incident_ID i' = Incident_ID i.
Proof.
  unfold Transition. repeat case_match; intros; simplify_eq; [|done].
  by rewrite bool_decide_eq_true in *.
Qed.

Lemma Incident_phase i :
  (∃ p, Incident_State i = phase_name p) ∨ ∀ p, Incident_State i ≠ phase_name p.
Proof.
  destruct (allowedTransitions !! Incident_State i) eqn:E.
  - left. apply known_state. eauto.
  - right. intros p Hp. apply eq_None_not_Some in E. apply E, known_state. eauto.
Qed.

(** C12: [Transition] implements the documented lifecycle (pending, triaged,
    acknowledged, remediating, closed in this order, and dismissed from any
    state that is not terminal) but for one edge: an incident under
    remediation cannot be dismissed, although the API description and the
    README allow it. Apart from that edge it succeeds exactly on the
    documented edges and on self-loops; an edge changes the state and
    the transition time and nothing else, a self-loop changes nothing; a
    failure changes nothing and says which guard refused: the stored state
    is unknown, or the requested state is not a successor. *)
Theorem Transition_refines_lifecycle i next now :
  match Transition i next now with
  | (i', None) =>
      ∃ p q, Incident_State i = phase_name p ∧ next = phase_name q ∧
        (p = q ∧ i' = i ∨ documented_edge p q ∧ ¬ refused_edge p q ∧ i' = moved i next now)
  | (i', Some e) =>
      i' = i ∧
      ((∀ p, Incident_State i ≠ phase_name p) ∧ errors_Is e ErrUnknownState = true ∨
       (∃ p, Incident_State i = phase_name p ∧
          ∀ q, next = phase_name q → p ≠ q ∧ (documented_edge p q → refused_edge p q)) ∧
       errors_Is e ErrInvalidTransition = true)
  end.
Proof.
  destruct (Incident_phase i) as [[p Hp]|Hp].
  - rewrite (Transition_phase i p) by done.
    destruct (CanTransitionTo (phase_name p) next) eqn:E.
    + apply CanTransitionTo_phase in E as (q & -> & Hq). exists p, q.
      split_and!; [done..|]. destruct Hq as [->|He].
      * left. by rewrite bool_decide_true.
      * right. pose proof (proj1 (edge_documented p q) He) as [Hd Hr]. rewrite bool_decide_false; [by split_and!|].
        intros ->%(inj phase_name). apply edge_rank in He. lia.
    + split; [done|]. right. split; [|by apply bool_decide_eq_true].
      exists p. split; [done|]. intros q ->.
      rewrite <- not_true_iff_false, CanTransitionTo_phase in E.
      split; [naive_solver|]. intros Hd. destruct (decide (p = Remediating ∧ q = Dismissed)) as [|Hr]; [done|].
      destruct E. exists q. split; [done|]. right. by apply edge_documented.
  - rewrite Transition_unknown by done. split; [done|]. left.
    split; [done|]. by apply bool_decide_eq_true.
Qed.

(** An accepted request that changes the incident. *)
Inductive advance : Incident → Incident → Prop :=
  advance_intro i next now i' :
    Transition i next now = (i', None) → i' ≠ i → advance i i'.

Lemma advance_edge i i' :
  advance i i' → ∃ p q t, Incident_State i = phase_name p ∧ edge p q ∧
    i' = moved i (phase_name q) t.
Proof.
  destruct 1 as [i next now i' Ht Hne].
  destruct (Incident_phase i) as [[p Hp]|Hp].
  - rewrite (Transition_phase i p) in Ht by done. case_match eqn:E; [|done].
    apply CanTransitionTo_phase in E as (q & -> & Hq).
    case_bool_decide as Hpq; simplify_eq.
    destruct Hq as [->|He]; [done|]. by exists p, q, now.
  - by rewrite Transition_unknown in Ht.
Qed.

(** C35: a lifecycle is finite and frozen. From an incident in state [p], at
    most [phase_rank p] (so at most four) changes ever succeed, whatever is
    requested in whatever order; through all of them the id, the IoC, the
    opening time, the affected-components snapshot and the audit log stay
    as they were at opening. *)
Theorem incident_lifecycle_bounded i j p n :
  Incident_State i = phase_name p →
  nsteps advance n i j →
  n ≤ phase_rank p ∧
  Incident_ID j = Incident_ID i ∧ Incident_IoCID j = Incident_IoCID i ∧
  Incident_OpenedAt j = Incident_OpenedAt i ∧
  Incident_AffectedComponentsSnapshot j = Incident_AffectedComponentsSnapshot i ∧
  Incident_Remediations j = Incident_Remediations i.
Proof.
  intros Hp Hn. revert p Hp.
  induction Hn as [i|n i i' j Hstep Hn IH]; intros p Hp; [by split_and!; [lia|..]|].
  apply advance_edge in Hstep as (p' & q & t & Hp' & He & ->).
  rewrite Hp in Hp'. apply (inj phase_name) in Hp' as <-.
  apply edge_rank in He. destruct (IH q) as (Hle & ->&->&->&->&->); [done|].
  split_and!; [lia|done..].
Qed.

Definition sample_incident : Incident :=
  MkIncident "INC1" "IOC1" StatePending 1 1 ["kind:Component/default/web"] [].

Lemma incident_lifecycle_bounded_witness :
  let j := moved (moved sample_incident StateTriaged 5) StateDismissed 9 in
  2 ≤ 4 ∧ Incident_ID j = "INC1" ∧ Incident_IoCID j = "IOC1" ∧
  Incident_OpenedAt j = 1%Z ∧
  Incident_AffectedComponentsSnapshot j = ["kind:Component/default/web"] ∧
  Incident_Remediations j = [].
Proof.
  apply (incident_lifecycle_bounded sample_incident
    (moved (moved sample_incident StateTriaged 5) StateDismissed 9) Pending 2).
  - reflexivity.
  - eapply nsteps_l; [|eapply nsteps_l; [|apply nsteps_O]].
    + by apply (advance_intro _ StateTriaged 5).
    + by apply (advance_intro _ StateDismissed 9).
Defined.

(** A closed or dismissed incident never changes again: every request
    leaves it as it is, and only asking for the state it is in is not an
    error. *)
Lemma terminal_incident_absorbing i next now :
  Incident_State i = StateClosed ∨ Incident_State i = StateDismissed →
  (Transition i next now).1 = i ∧
  ((Transition i next now).2 = None ↔ next = Incident_State i).
Proof.
  intros Hterm.
  assert (∃ p, Incident_State i = phase_name p ∧ phase_rank p = 0) as (p & Hp & Hr)
    by (destruct Hterm; [by exists Closed | by exists Dismissed]).
  rewrite (Transition_phase i p) by done. rewrite Hp.
  destruct (CanTransitionTo (phase_name p) next) eqn:E.
  - apply CanTransitionTo_phase in E as (q & -> & [->|He]).
    + by rewrite bool_decide_true.
    + apply edge_rank in He. lia.
  - simpl. split; [done|]. split; [done|]. intros ->.
    rewrite <- not_true_iff_false, CanTransitionTo_phase in E. naive_solver.
Qed.


(** Dismissal is accepted from pending, triaged and acknowledged (and
    again from dismissed), and from no other state: an incident under
    remediation can only be closed. *)
Theorem dismissal_sources i now :
  (Transition i StateDismissed now).2 = None ↔
  Incident_State i ∈ [StatePending; StateTriaged; StateAcknowledged; StateDismissed].
Proof.
  destruct (Incident_phase i) as [[p Hp]|Hp].
  - rewrite (Transition_phase i p), Hp by done. destruct p; vm_compute; split; intros H;
      try done; try (by repeat constructor).
    all: by repeat (apply list_elem_of_In in H; simpl in H; destruct_or!).
  - rewrite Transition_unknown by done. split; [done|]. intros Hin. exfalso.
    set_unfold in Hin.
    destruct_or!; by eapply (Hp Pending) + eapply (Hp Triaged)
      + eapply (Hp Acknowledged) + eapply (Hp Dismissed).
Qed.
