(* ===== verification/GoJson.v ===== *)
(** * JSON and Go's types (encoding/json)

    Decoding into the types that the API and the database columns use beyond
    the basic ones of Json.v: instants, pointers, maps, values of type any,
    byte slices, and structs whose unknown fields are refused. [Decode] is
    [Decoder.Decode], which takes the first value of a body and does not look
    at what follows it. *)

From S2P Require Import Prelude GoStrings GoText Json JsonEncode GoTime Domain.
From stdpp Require Import options.

(** ** Instants *)

Definition str_byte (s : string) (n : nat) : string := str_take 1 (str_drop n s).

(** What [Time.UnmarshalJSON] refuses of what [time.Parse] reads: an hour of
    one digit, a comma before the fraction, a zone offset out of range. *)
Definition strict_rfc3339 (s : string) : bool :=
  let zone := str_drop (String.length s - 5) s in
  negb (String.eqb (str_byte s 12) ":") && negb (String.eqb (str_byte s 19) ",")
  && (HasSuffix s "Z"
      || match getnum zone true, getnum (str_drop 3 zone) true with
         | Some (hr, _), Some (mm, _) => bool_decide (hr < 24)%Z && bool_decide (mm < 60)%Z
         | _, _ => false
         end).

Definition decode_time (old : Time) (v : json) : option Time :=
  match v with
  | JNull => Some old
  | JString s => t ← parse_rfc3339 s; if strict_rfc3339 s then Some t else None
  | _ => None
  end.

(** ** Pointers, maps and values of type any *)

(** A pointer: [null] is nil, anything else is stored in what it points to. *)
Definition decode_pointer {A} (dec : A → json → option A) (zero : A) (old : option A) (v : json) :
    option (option A) :=
  match v with
  | JNull => Some None
  | _ => Some <$> dec (default zero old) v
  end.

Fixpoint any_of_json (v : json) : any :=
  match v with
  | JNull => ANil
  | JBool b => ABool b
  | JNumber t => AFloat t
  | JString s => AString s
  | JArray es => AList (map any_of_json es)
  | JObject ms => AObject (map (λ kv, (kv.1, any_of_json kv.2)) ms)
  end.

Definition decode_string_map (old : gmap string string) (v : json) : option (gmap string string) :=
  default ∅ <$> decode_map (decode_string "") (Some old) v.

Definition decode_any_map (old : gmap string any) (v : json) : option (gmap string any) :=
  default ∅ <$> decode_map (λ e, Some (any_of_json e)) (Some old) v.

(** ** Byte slices: base64 *)

Definition base64_value (a : ascii) : option N :=
  let n := N_of_ascii a in
  if byte_between 65 90 a then Some (n - 65)%N
  else if byte_between 97 122 a then Some (n - 71)%N
  else if byte_between 48 57 a then Some (n + 4)%N
  else if byte_is a "+" then Some 62%N
  else if byte_is a "/" then Some 63%N
  else None.

(** Line breaks are passed over. *)
Fixpoint drop_newlines (s : string) : string :=
  match s with
  | "" => ""
  | String a s' => if byte_is a (bytes [10]%N) || byte_is a (bytes [13]%N) then drop_newlines s'
                   else String a (drop_newlines s')
  end.

Definition byte_of (n : N) : ascii := ascii_of_N (n mod 256).

(** [base64.StdEncoding]: groups of four, padded at the end; the bits that
    are left over are not looked at. *)
Fixpoint base64_groups (s : string) : option string :=
  match s with
  | "" => Some ""
  | String a (String b (String c (String d rest))) =>
      x ← base64_value a; y ← base64_value b;
      if byte_is c "=" then
        if byte_is d "=" && String.eqb rest "" then Some (String (byte_of (4 * x + y / 16)) "") else None
      else
        z ← base64_value c;
        if byte_is d "=" then
          if String.eqb rest "" then Some (byte2 (byte_of (4 * x + y / 16)) (byte_of (16 * y + z / 4))) else None
        else
          w ← base64_value d; t ← base64_groups rest;
          Some (String (byte_of (4 * x + y / 16))
                 (String (byte_of (16 * y + z / 4)) (String (byte_of (64 * z + w)) t)))
  | _ => None
  end.

Definition base64_decode (s : string) : option string := base64_groups (drop_newlines s).

Definition decode_bytes (old : string) (v : json) : option string :=
  match v with
  | JNull => Some ""
  | JString s => base64_decode s
  | _ => None
  end.

(** ** Structs without unknown fields *)

(** [DisallowUnknownFields]. *)
Definition decode_strict {A} (names : list string) (set : string → A → json → option A)
    (old : A) (v : json) : option A :=
  match v with
  | JNull => Some old
  | JObject members =>
      foldl (λ acc '(k, e), x ← acc; n ← select_field names k; set n x e) (Some old) members
  | _ => None
  end.

(** ** Decoders *)

(** The first value of a text: the scanner stops where it is complete, or
    at the end of the text. *)
Fixpoint scan_first (s : scanner) (text : string) : option json :=
  match sc_mode s with
  | EndTop v => Some v
  | _ =>
      match text with
      | String a text' => s' ← step s a; scan_first s' text'
      | "" =>
          match sc_mode s with
          | InNumber st raw =>
              if number_done st && bool_decide (length (sc_stack s) = 0)
              then Some (JNumber (str_rev_append raw "")) else None
          | _ => None
          end
      end
  end.

Definition Decode {A} (decode : A → json → option A) (zero : A) (body : string) : result A :=
  match scan_first (MkScanner BeginValue [] 0) body with
  | None => Err (EText "json: syntax error" [])
  | Some v =>
      match decode zero v with
      | None => Err (EText "json: type error or unknown field" [])
      | Some x => Ok x
      end
  end.

(** ** What follows the value does not matter *)

Lemma end_top_same s a s' : end_top s a = Some s' → s' = s.
Proof. unfold end_top. destruct (json_space a); [|done]. by intros [= <-]. Qed.

Lemma scan_end s v text s' : sc_mode s = EndTop v → scan s text = Some s' → s' = s.
Proof.
  intros Hm. induction text as [|a text IH]; [by intros [= <-]|]. cbn [scan].
  assert (step s a = end_top s a) as -> by (unfold step; by rewrite Hm).
  destruct (end_top s a) as [s2|] eqn:E; [|done]. apply end_top_same in E as ->. exact IH.
Qed.

Lemma scan_first_end s v text : sc_mode s = EndTop v → scan_first s text = Some v.
Proof. intros Hm. destruct text; cbn [scan_first]; by rewrite Hm. Qed.

(** A text that is one value, with anything after it. *)
Lemma scan_first_scan s text s' v rest :
  scan s text = Some s' → sc_mode s' = EndTop v → scan_first s (text +:+ rest) = Some v.
Proof.
  revert s. induction text as [|a text IH]; intros s.
  - intros [= ->] Hm. by apply scan_first_end.
  - change (String a text +:+ rest) with (String a (text +:+ rest)). cbn [scan].
    destruct (step s a) as [s2|] eqn:E; [|done]. cbn [mbind option_bind]. intros Hs Hm.
    destruct (sc_mode s) eqn:Ems; try (cbn [scan_first]; rewrite Ems, E; cbn [mbind option_bind]; by apply IH).
    rewrite (scan_first_end _ v0) by done. f_equal.
    assert (s' = s) as ->; [|congruence]. eapply (scan_end s v0 (String a text)); [done|].
    cbn [scan]. by rewrite E.
Qed.

(** [Decode] of a text that [encode] wrote decodes the value. *)
Lemma Decode_encoded {A} (decode : A → json → option A) zero v rest :
  numbers_ok v = true → is_number v = false → (depth v ≤ maxNestingDepth)%Z →
  Decode decode zero (encode v +:+ rest) =
    match decode zero (sanitize v) with
    | None => Err (EText "json: type error or unknown field" [])
    | Some x => Ok x
    end.
Proof.
  intros Hn Hnum Hd. unfold Decode.
  assert (scan (MkScanner BeginValue [] 0) (encode v) = Some (MkScanner (EndTop (sanitize v)) [] 0)) as Hs.
  { by rewrite <- (str_app_nil_r (encode v)), all_read_back by (done || lia). }
  by rewrite (scan_first_scan _ _ _ _ _ Hs eq_refl).
Qed.

Lemma Decode_value {A} (decode : A → json → option A) zero v x rest :
  numbers_ok v = true → is_number v = false → (depth v ≤ maxNestingDepth)%Z → decode zero (sanitize v) = Some x →
  Decode decode zero (encode v +:+ rest) = Ok x.
Proof. intros Hn Hnum Hd Hx. by rewrite Decode_encoded, Hx. Qed.

(** ** Maps read back *)

Lemma decode_members {A} (dec : json → option A) (g : json → A) l (m0 : gmap string A) :
  NoDup l.*1 → Forall (λ kv, dec kv.2 = Some (g kv.2)) l →
  foldl (λ acc '(k, e), m ← acc; x ← dec e; Some (<[k := x]> m)) (Some m0) l
  = Some (list_to_map (prod_map id g <$> l) ∪ m0).
Proof.
  intros Hnd Hall. revert m0. induction Hall as [|[k e] l He _ IH]; intros m0;
    [cbn; by rewrite (left_id_L ∅ (∪))|].
  apply NoDup_cons in Hnd as [Hk Hnd]. cbn [snd] in He. rewrite fmap_cons. cbn [foldl prod_map fst snd].
  cbn [mbind option_bind]. rewrite He. cbn [mbind option_bind]. rewrite IH by done. f_equal. simpl.
  rewrite <- insert_union_l. symmetry. rewrite insert_union_r; [done|].
  apply not_elem_of_list_to_map_1. rewrite <- list_fmap_compose. done.
Qed.

Lemma decode_map_marshal {A} (dec : json → option A) (g : json → A) old m :
  default ∅ old = ∅ →
  (∀ k v, m !! k = Some v → dec v = Some (g v)) → decode_map dec old (marshal_map m) = Some (Some (g <$> m)).
Proof.
  intros Hold Hm. destruct (marshal_map_perm m) as (l & -> & Hp). unfold decode_map.
  rewrite Hold.
  rewrite (decode_members _ g).
  - cbn. do 2 f_equal. rewrite (right_id_L ∅ (∪)), list_to_map_fmap. f_equal. rewrite <- (list_to_map_to_list m) at 1.
    symmetry. apply list_to_map_proper; [apply NoDup_fst_map_to_list|done].
  - rewrite Hp. apply NoDup_fst_map_to_list.
  - rewrite Forall_forall. intros [k v] Hin. rewrite Hp, elem_of_map_to_list in Hin. by apply (Hm k).
Qed.
