(* ===== verification/Matcher.v ===== *)
(** * The matcher (engine/internal/matcher)

    One IoC against one SBOM. The semver library (Masterminds/semver/v3)
    is a parameter: what a constraint and a version are, which strings
    parse and what [Check] answers. *)

From S2P Require Import Prelude GoStrings Domain.
From stdpp Require Import options.

(** ** The semver library *)
Class Semver := {
  Constraints : Type;
  Version : Type;
  NewConstraint : string → result Constraints;
  NewVersion : string → option Version;
  Check : Constraints → Version → bool;
}.

(** ** matcher.go *)

Record Match := MkMatch {
  Match_Matched : bool;
  Match_Packages : list PackageVersion;
}.

Definition no_match : Match := MkMatch false [].

Definition len_pos {A} (l : list A) : bool := bool_decide (0 < length l).

Definition evaluateAnomalyBody (body : IoCBodyAnomaly) (sbom : SBOM) : Match :=
  let target := IoCBodyAnomaly_PackageRef body in
  if bool_decide (target = "") then no_match
  else
    let hits := filter (λ p,
      PackageVersion_Ecosystem p +:+ ":" +:+ PackageVersion_Name p = target)
      (SBOM_Packages sbom) in
    MkMatch (len_pos hits) hits.

Definition evaluatePackageVersion (ioc : IoC) (sbom : SBOM) : Match :=
  match IoC_PackageVersion ioc with
  | None => no_match
  | Some target =>
      let hits := filter (λ p,
        PackageVersion_Name p = IoCPackageVersion_Name target ∧
        PackageVersion_Version p = IoCPackageVersion_Version target)
        (SBOM_Packages sbom) in
      MkMatch (len_pos hits) hits
  end.

(** The body of the range loop: skip other names, skip versions that do
    not parse, keep what the constraint accepts. *)
Definition rangeHit `{Semver} (target : IoCPackageRange) (constraint : Constraints)
    (p : PackageVersion) : bool :=
  if bool_decide (PackageVersion_Name p ≠ IoCPackageRange_Name target) then false
  else match NewVersion (PackageVersion_Version p) with
       | None => false
       | Some v => Check constraint v
       end.

Definition evaluatePackageRange `{Semver} (ioc : IoC) (sbom : SBOM) : Match :=
  match IoC_PackageRange ioc with
  | None => no_match
  | Some target =>
      match NewConstraint (IoCPackageRange_Constraint target) with
      | Err _ => no_match
      | Ok constraint =>
          let hits := filter (λ p, rangeHit target constraint p = true)
                        (SBOM_Packages sbom) in
          MkMatch (len_pos hits) hits
      end
  end.

Definition Evaluate `{Semver} (ioc : IoC) (sbom : SBOM) : Match :=
  if bool_decide (SBOM_Ecosystem sbom ≠ "") && bool_decide (IoC_Ecosystem ioc ≠ "")
     && bool_decide (SBOM_Ecosystem sbom ≠ IoC_Ecosystem ioc)
  then no_match
  else if bool_decide (IoC_Kind ioc = IoCKindPackageVersion) then
    evaluatePackageVersion ioc sbom
  else if bool_decide (IoC_Kind ioc = IoCKindPackageRange) then
    evaluatePackageRange ioc sbom
  else if bool_decide (IoC_Kind ioc = IoCKindPublisherAnomaly) then
    match IoC_AnomalyBody ioc with
    | Some body => evaluateAnomalyBody body sbom
    | None => no_match
    end
  else no_match.

(** * Properties *)

(** ** What a match is

    The predicate an IoC states about one package, as the three kinds are
    documented, and the ecosystem gate in front of it: an empty ecosystem
    on either side is compatible with every ecosystem. *)
Definition ecosystem_compatible (ioc : IoC) (sbom : SBOM) : Prop :=
  SBOM_Ecosystem sbom = "" ∨ IoC_Ecosystem ioc = "" ∨
  SBOM_Ecosystem sbom = IoC_Ecosystem ioc.

Section package_hit.
Context `{Semver}.

Inductive package_hit (ioc : IoC) (p : PackageVersion) : Prop :=
  | hit_version target :
      IoC_Kind ioc = IoCKindPackageVersion →
      IoC_PackageVersion ioc = Some target →
      PackageVersion_Name p = IoCPackageVersion_Name target →
      PackageVersion_Version p = IoCPackageVersion_Version target →
      package_hit ioc p
  | hit_range target c v :
      IoC_Kind ioc = IoCKindPackageRange →
      IoC_PackageRange ioc = Some target →
      NewConstraint (IoCPackageRange_Constraint target) = Ok c →
      PackageVersion_Name p = IoCPackageRange_Name target →
      NewVersion (PackageVersion_Version p) = Some v →
      Check c v = true →
      package_hit ioc p
  | hit_anomaly body :
      IoC_Kind ioc = IoCKindPublisherAnomaly →
      IoC_AnomalyBody ioc = Some body →
      IoCBodyAnomaly_PackageRef body ≠ "" →
      PackageVersion_Ecosystem p +:+ ":" +:+ PackageVersion_Name p =
        IoCBodyAnomaly_PackageRef body →
      package_hit ioc p.

Lemma rangeHit_true target c p :
  rangeHit target c p = true ↔
  PackageVersion_Name p = IoCPackageRange_Name target ∧
  ∃ v, NewVersion (PackageVersion_Version p) = Some v ∧ Check c v = true.
Proof.
  unfold rangeHit. case_bool_decide; [naive_solver|].
  destruct (NewVersion (PackageVersion_Version p)); naive_solver.
Qed.

(** The executable form of [package_hit], one package at a time. *)
Definition hits_package (ioc : IoC) (p : PackageVersion) : bool :=
  if bool_decide (IoC_Kind ioc = IoCKindPackageVersion) then
    match IoC_PackageVersion ioc with
    | Some t => bool_decide (PackageVersion_Name p = IoCPackageVersion_Name t ∧
                  PackageVersion_Version p = IoCPackageVersion_Version t)
    | None => false
    end
  else if bool_decide (IoC_Kind ioc = IoCKindPackageRange) then
    match IoC_PackageRange ioc with
    | Some t =>
        match NewConstraint (IoCPackageRange_Constraint t) with
        | Ok c => rangeHit t c p
        | Err _ => false
        end
    | None => false
    end
  else if bool_decide (IoC_Kind ioc = IoCKindPublisherAnomaly) then
    match IoC_AnomalyBody ioc with
    | Some b => bool_decide (IoCBodyAnomaly_PackageRef b ≠ "" ∧
                  PackageVersion_Ecosystem p +:+ ":" +:+ PackageVersion_Name p =
                    IoCBodyAnomaly_PackageRef b)
    | None => false
    end
  else false.

Lemma hits_package_spec ioc p : hits_package ioc p = true ↔ package_hit ioc p.
Proof.
  split.
  - unfold hits_package. case_bool_decide; [|case_bool_decide; [|case_bool_decide; [|done]]].
    + case_match; [|done]. intros [? ?]%bool_decide_eq_true. by eapply hit_version.
    + case_match; [|done]. case_match; [|done].
      intros (? & v & ? & ?)%rangeHit_true. by eapply hit_range.
    + case_match; [|done]. intros [? ?]%bool_decide_eq_true. by eapply hit_anomaly.
  - unfold hits_package. destruct 1 as [t Hk Ht|t c v Hk Ht Hc Hn Hv|b Hk Hb]; rewrite Hk; simpl.
    + rewrite Ht. by apply bool_decide_eq_true.
    + rewrite Ht, Hc. apply rangeHit_true. eauto.
    + rewrite Hb. by apply bool_decide_eq_true.
Qed.

#[export] Instance package_hit_dec ioc p : Decision (package_hit ioc p).
Proof. refine (cast_if (decide (hits_package ioc p = true))); by rewrite <- hits_package_spec. Defined.

(** The whole evaluation is one filter behind one gate. *)
Lemma Evaluate_filter ioc sbom :
  let hits := if bool_decide (ecosystem_compatible ioc sbom)
              then filter (λ p, hits_package ioc p = true) (SBOM_Packages sbom) else [] in
  Evaluate ioc sbom = MkMatch (len_pos hits) hits.
Proof.
  unfold Evaluate, ecosystem_compatible. case_match eqn:Hgate.
  { go_bool. rewrite bool_decide_false by tauto. done. }
  rewrite (bool_decide_true (_ ∨ _)); last first.
  { apply andb_false_iff in Hgate as [[?|?]%andb_false_iff|?]; go_bool;
      [left|right; left|right; right]; by apply dec_stable. }
  clear Hgate. unfold hits_package.
  assert (∀ l : list PackageVersion, filter (λ p, false = true) l = []) as Hnil
    by (intros; by apply filter_none).
  case_bool_decide; [|case_bool_decide; [|case_bool_decide]].
  - unfold evaluatePackageVersion. case_match; [|by rewrite Hnil].
    f_equal; [f_equal|]; apply list_filter_iff; intros; by rewrite bool_decide_eq_true.
  - unfold evaluatePackageRange. case_match; [|by rewrite Hnil]. case_match; [done|by rewrite Hnil].
  - case_match; [|by rewrite Hnil]. unfold evaluateAnomalyBody. case_bool_decide as Ht.
    + rewrite (list_filter_iff _ (λ _, false = true)); [by rewrite Hnil|].
      intros; rewrite bool_decide_eq_true. naive_solver.
    + f_equal; [f_equal|]; apply list_filter_iff; intros; rewrite bool_decide_eq_true; naive_solver.
  - by rewrite Hnil.
Qed.

Lemma Evaluate_Matched ioc sbom :
  Match_Matched (Evaluate ioc sbom) = true ↔
  ecosystem_compatible ioc sbom ∧ ∃ p, p ∈ SBOM_Packages sbom ∧ package_hit ioc p.
Proof.
  rewrite Evaluate_filter. simpl. unfold len_pos. rewrite bool_decide_eq_true.
  case_bool_decide as Hc; [|simpl; split; [lia|tauto]]. split.
  - intros Hlen. split; [done|]. destruct (filter _ _) as [|p l] eqn:E; simpl in Hlen; [lia|].
    exists p. rewrite <- hits_package_spec.
    assert (p ∈ p :: l) as Hp by left. rewrite <- E in Hp.
    apply list_elem_of_filter in Hp. tauto.
  - intros [_ (p & Hp & Hh)]. assert (p ∈ filter (λ p, hits_package ioc p = true) (SBOM_Packages sbom)) as Hin.
    { apply list_elem_of_filter. by rewrite hits_package_spec. }
    destruct (filter _ _); [by apply not_elem_of_nil in Hin|]. simpl. lia.
Qed.

(** C13: [Evaluate] computes the documented predicate: it reports exactly
    the SBOM's packages that fire the IoC, each as often as the SBOM lists it
    and in the SBOM's order, when the ecosystems are compatible, and none
    otherwise; and it says [Matched] exactly when one fires. *)
Theorem Evaluate_sound_complete ioc sbom :
  Match_Packages (Evaluate ioc sbom) =
    (if decide (ecosystem_compatible ioc sbom) then filter (package_hit ioc) (SBOM_Packages sbom) else []) ∧
  (Match_Matched (Evaluate ioc sbom) = true ↔
     ecosystem_compatible ioc sbom ∧ ∃ p, p ∈ SBOM_Packages sbom ∧ package_hit ioc p).
Proof.
  split; [|apply Evaluate_Matched]. rewrite Evaluate_filter. cbn [Match_Packages].
  rewrite bool_decide_decide. destruct (decide (ecosystem_compatible ioc sbom)); [|done].
  apply list_filter_iff. intros p. apply hits_package_spec.
Qed.

(** A match of an SBOM is a match of one of its packages alone, as long as
    the ecosystem gate gives the same answer. *)
Lemma Evaluate_singleton ioc sbom :
  Match_Matched (Evaluate ioc sbom) = true ↔
  ∃ p, p ∈ SBOM_Packages sbom ∧
    Match_Matched (Evaluate ioc
      (MkSBOM (SBOM_ID sbom) (SBOM_ComponentRef sbom) (SBOM_CommitSHA sbom)
         (SBOM_Ecosystem sbom) (SBOM_GeneratedAt sbom) [p] (SBOM_SourceFormat sbom)
         (SBOM_SourceBytes sbom))) = true.
Proof.
  setoid_rewrite Evaluate_Matched. simpl. setoid_rewrite list_elem_of_singleton.
  unfold ecosystem_compatible. simpl. naive_solver.
Qed.

(** What the matcher cannot interpret never fires and never fails: an
    unknown kind, a missing body, a constraint that does not parse, a
    package whose version does not parse under a range, the legacy
    maintainer-keyed body. *)
Lemma Evaluate_degrades_to_no_match ioc sbom :
  (IoC_Kind ioc ∉ [IoCKindPackageVersion; IoCKindPackageRange; IoCKindPublisherAnomaly] ∨
   (IoC_Kind ioc = IoCKindPackageVersion ∧ IoC_PackageVersion ioc = None) ∨
   (IoC_Kind ioc = IoCKindPackageRange ∧
      ∀ t, IoC_PackageRange ioc = Some t →
        (∃ e, NewConstraint (IoCPackageRange_Constraint t) = Err e) ∨
        ∀ p, p ∈ SBOM_Packages sbom → NewVersion (PackageVersion_Version p) = None) ∨
   (IoC_Kind ioc = IoCKindPublisherAnomaly ∧ IoC_AnomalyBody ioc = None)) →
  Evaluate ioc sbom = no_match.
Proof.
  intros Hbad. rewrite Evaluate_filter.
  assert (∀ p, p ∈ SBOM_Packages sbom → ¬ package_hit ioc p) as Hno.
  { intros p Hp Hhit.
    unfold IoCKindPackageVersion, IoCKindPackageRange, IoCKindPublisherAnomaly in Hbad.
    destruct Hhit as [t Hk Ht|t c v Hk Ht Hc Hn Hv|b Hk Hb];
      destruct Hbad as [Hbad|[[? ?]|[[? Hr]|[? ?]]]]; rewrite Hk in *; try done; try congruence.
    all: try (exfalso; apply Hbad; set_solver).
    destruct (Hr t Ht) as [[? ?]|Hvs]; [congruence|]. specialize (Hvs p Hp). congruence. }
  assert (filter (λ p, hits_package ioc p = true) (SBOM_Packages sbom) = []) as Hnil.
  { apply filter_none. intros p Hp. rewrite hits_package_spec. auto. }
  rewrite Hnil. by case_bool_decide.
Qed.
End package_hit.

(** A small semver library to evaluate with: a constraint is a version to
    equal, anything that starts with a digit is a version. *)
Definition leading_digit (s : string) : bool :=
  match s with
  | String a _ => bool_decide (48 ≤ N_of_ascii a ≤ 57)%N
  | "" => false
  end.

Definition exact_semver : Semver := {|
  Constraints := string;
  Version := string;
  NewConstraint s :=
    if leading_digit s then Ok s else Err (EText "improper constraint: %s" [s]);
  NewVersion s := if leading_digit s then Some s else None;
  Check c v := bool_decide (c = v);
|}.

Definition sample_package : PackageVersion :=
  MkPackageVersion "npm" "axios" "1.11.0" "pkg:npm/axios@1.11.0" [] "".
Definition sample_sbom : SBOM :=
  MkSBOM "SBOM1" "kind:Component/default/web" "abc" "npm" 10 [sample_package]
    "npm-package-lock-v3" 512.
Definition sample_ioc : IoC :=
  MkIoC "IOC1" IoCKindPackageVersion SeverityHigh "npm" "feed" 5 ""
    (Some (MkIoCPackageVersion "axios" "1.11.0" "")) None None None.
