(* ===== verification/Bus.v ===== *)
(** * The event bus (engine/internal/events)

    A process-local fan-out: every subscriber owns a bounded channel;
    [Publish] never blocks and drops a subscriber whose channel is full.

    The model keeps the Go heap explicit: channels live at locations
    (allocation order), the [subs] map holds locations, and the subscriber
    keeps its own reference to the same channel. Operations return [None]
    where Go panics: a send on, or a close of, a closed channel. The mutex
    makes each operation atomic, so an execution is a sequence of steps. *)

From S2P Require Import Prelude GoStrings Domain.
From stdpp Require Import options.

(** ** Channels *)

Record Chan := MkChan {
  chan_cap : nat;
  chan_buf : list DomainEvent;
  chan_closed : bool;
}.

(** [select { case ch <- e: ... default: ... }]: whether the send went
    through; a closed channel makes the send case panic. *)
Definition trySend (c : Chan) (e : DomainEvent) : option (Chan * bool) :=
  if chan_closed c then None
  else if bool_decide (length (chan_buf c) < chan_cap c)
  then Some (MkChan (chan_cap c) (chan_buf c ++ [e]) false, true)
  else Some (c, false).

Definition closeChan (c : Chan) : option Chan :=
  if chan_closed c then None else Some (MkChan (chan_cap c) (chan_buf c) true).

(** ** bus.go *)

(** The fields of [Bus], the channels allocated so far and, per
    subscription, whether its [sync.Once] has fired. *)
Record Bus := MkBus {
  bus_subs : gmap Z nat;
  bus_nextID : Z;
  bus_bufferSize : nat;
  bus_chans : list Chan;
  bus_once : list bool;
}.

Definition NewBus (bufferSize : Z) : Bus :=
  let bufferSize := if bool_decide (bufferSize < 1)%Z then 256%Z else bufferSize in
  MkBus ∅ 0 (Z.to_nat bufferSize) [] [].

(** A subscription handle: the id its cancel closure captured and the
    channel the subscriber reads. *)
Record Subscription := MkSubscription {
  subscription_id : Z;
  subscription_chan : nat;
}.

Definition Subscribe (b : Bus) : Bus * Subscription :=
  let id := bus_nextID b in
  let ch := length (bus_chans b) in
  (MkBus (<[id := ch]> (bus_subs b)) (wrap64 (id + 1)) (bus_bufferSize b)
     (bus_chans b ++ [MkChan (bus_bufferSize b) [] false]) (bus_once b ++ [false]),
   MkSubscription id ch).

(** [delete(b.subs, id); close(ch)]. *)
Definition dropSub (b : Bus) (id : Z) (ch : nat) : option Bus :=
  c ← bus_chans b !! ch;
  c' ← closeChan c;
  Some (MkBus (delete id (bus_subs b)) (bus_nextID b) (bus_bufferSize b)
          (<[ch := c']> (bus_chans b)) (bus_once b)).

(** The cancel closure, run by its caller or by the goroutine waiting on
    [ctx.Done()]: the [sync.Once] lets only the first run through. *)
Definition cancel (b : Bus) (sub : Subscription) : option Bus :=
  match bus_once b !! subscription_chan sub with
  | Some false =>
      let b := MkBus (bus_subs b) (bus_nextID b) (bus_bufferSize b) (bus_chans b)
                 (<[subscription_chan sub := true]> (bus_once b)) in
      match bus_subs b !! subscription_id sub with
      | Some existing => dropSub b (subscription_id sub) existing
      | None => Some b
      end
  | _ => Some b
  end.

Definition publishOne (e : DomainEvent) (b : Bus) (entry : Z * nat) : option Bus :=
  let '(id, ch) := entry in
  c ← bus_chans b !! ch;
  '(c', delivered) ← trySend c e;
  if (delivered : bool) then
    Some (MkBus (bus_subs b) (bus_nextID b) (bus_bufferSize b)
            (<[ch := c']> (bus_chans b)) (bus_once b))
  else dropSub b id ch.

Fixpoint publishLoop (e : DomainEvent) (b : Bus) (entries : list (Z * nat)) : option Bus :=
  match entries with
  | [] => Some b
  | entry :: entries' => b' ← publishOne e b entry; publishLoop e b' entries'
  end.

Definition Publish `{GoRuntime} (b : Bus) (e : DomainEvent) : option Bus :=
  publishLoop e b (map_range (bus_subs b)).

Definition SubscriberCount (b : Bus) : nat := size (bus_subs b).

(** The subscriber's side, [e, ok := <-ch]: [None] when it would block. *)
Definition recv (b : Bus) (ch : nat) : option (Bus * option DomainEvent) :=
  c ← bus_chans b !! ch;
  match chan_buf c with
  | e :: rest =>
      Some (MkBus (bus_subs b) (bus_nextID b) (bus_bufferSize b)
              (<[ch := MkChan (chan_cap c) rest (chan_closed c)]> (bus_chans b))
              (bus_once b), Some e)
  | [] => if chan_closed c then Some (b, None) else None
  end.

(** * Properties *)

(** ** Executions

    The bookkeeping of an execution, per subscription: the handle that
    [Subscribe] returned, the events published since then, and what its
    reader has received. *)
Record Ledger := MkLedger {
  handles : list Subscription;
  published : list (list DomainEvent);
  received : list (list DomainEvent);
}.

(** One effect of [Publish] on one channel. *)
Definition deliver (e : DomainEvent) (c : Chan) : Chan :=
  if chan_closed c then c
  else if bool_decide (length (chan_buf c) < chan_cap c)
  then MkChan (chan_cap c) (chan_buf c ++ [e]) false
  else MkChan (chan_cap c) (chan_buf c) true.

(** Each [Publish] may range over the map in a different order. *)
Inductive bus_step : Bus * Ledger → Bus * Ledger → Prop :=
  | step_subscribe b g b' sub :
      Subscribe b = (b', sub) →
      bus_step (b, g)
        (b', MkLedger (handles g ++ [sub]) (published g ++ [[]]) (received g ++ [[]]))
  | step_cancel b g b' k sub :
      handles g !! k = Some sub →
      cancel b sub = Some b' →
      bus_step (b, g) (b', g)
  | step_publish (rt : GoRuntime) b g b' e :
      Publish b e = Some b' →
      bus_step (b, g)
        (b', MkLedger (handles g) ((λ l, l ++ [e]) <$> published g) (received g))
  | step_recv b g b' ch e :
      recv b ch = Some (b', Some e) →
      bus_step (b, g)
        (b', MkLedger (handles g) (published g) (alter (λ l, l ++ [e]) ch (received g)))
  | step_recv_closed b g b' ch :
      recv b ch = Some (b', None) →
      bus_step (b, g) (b', g).

Definition bus_reachable (bufferSize : Z) : Bus * Ledger → Prop :=
  rtc bus_step (NewBus bufferSize, MkLedger [] [] []).

(** What one channel owes its subscription: within its capacity, and
    received events, then buffered ones, are what was published since, with
    nothing missing while the channel is open. *)
Definition chan_ok (cap : nat) (c : Chan) (pub rcv : list DomainEvent) : Prop :=
  chan_cap c = cap ∧ length (chan_buf c) ≤ cap ∧
  ∃ rest, pub = rcv ++ chan_buf c ++ rest ∧ (chan_closed c = false → rest = []).

Record BusInv (b : Bus) (g : Ledger) : Prop := {
  inv_next : bus_nextID b = Z.of_nat (length (bus_chans b));
  inv_len : length (bus_once b) = length (bus_chans b) ∧
            length (handles g) = length (bus_chans b);
  inv_handles k sub : handles g !! k = Some sub → sub = MkSubscription (Z.of_nat k) k;
  inv_subs id ch : bus_subs b !! id = Some ch ↔
    id = Z.of_nat ch ∧ ∃ c, bus_chans b !! ch = Some c ∧ chan_closed c = false;
  inv_chans : Forall3 (chan_ok (bus_bufferSize b)) (bus_chans b) (published g) (received g);
  inv_fired k c : bus_once b !! k = Some true → bus_chans b !! k = Some c →
    chan_closed c = true;
}.

(** *** [Publish] *)

Lemma publishOne_spec e b id ch c :
  bus_chans b !! ch = Some c → chan_closed c = false →
  publishOne e b (id, ch) = Some
    (MkBus (if bool_decide (length (chan_buf c) < chan_cap c)
            then bus_subs b else delete id (bus_subs b))
       (bus_nextID b) (bus_bufferSize b) (<[ch := deliver e c]> (bus_chans b)) (bus_once b)).
Proof.
  intros Hc Ho. unfold publishOne, trySend, deliver. rewrite Hc. simpl. rewrite Ho.
  case_bool_decide; [done|]. unfold dropSub, closeChan. by rewrite Hc; simpl; rewrite Ho.
Qed.

Lemma publishLoop_spec e l b :
  NoDup l.*2 →
  (∀ id ch, (id, ch) ∈ l → ∃ c, bus_chans b !! ch = Some c ∧ chan_closed c = false) →
  ∃ b', publishLoop e b l = Some b' ∧
    bus_nextID b' = bus_nextID b ∧ bus_bufferSize b' = bus_bufferSize b ∧
    bus_once b' = bus_once b ∧
    (∀ k, bus_chans b' !! k =
       if bool_decide (k ∈ l.*2) then deliver e <$> bus_chans b !! k else bus_chans b !! k) ∧
    (∀ id ch, bus_subs b' !! id = Some ch ↔
       bus_subs b !! id = Some ch ∧
       ∀ ch' c, (id, ch') ∈ l → bus_chans b !! ch' = Some c →
         length (chan_buf c) < chan_cap c).
Proof.
  revert b. induction l as [|[id ch] l IH]; intros b Hnd Hopen.
  { exists b. split_and!; try done. set_solver. }
  apply NoDup_cons in Hnd as [Hch Hnd].
  destruct (Hopen id ch) as (c & Hc & Ho); [by left|]. cbn [publishLoop].
  rewrite (publishOne_spec e b id ch c Hc Ho). simpl.
  edestruct IH as (b' & -> & ? & ? & ? & Hchans & Hsubs); [done| |].
  { intros id' ch' Hin. simpl. assert (ch' ≠ ch) as Hne.
    { intros ->. apply Hch, list_elem_of_fmap. by exists (id', ch). }
    rewrite list_lookup_insert_ne by done. apply (Hopen id'). by right. }
  exists b'. split_and!; try done; simpl in *.
  - intros k. rewrite Hchans. destruct (decide (k = ch)) as [->|Hk].
    + rewrite bool_decide_false by done. rewrite bool_decide_true by by left.
      rewrite list_lookup_insert_eq by eauto using lookup_lt_Some. by rewrite Hc.
    + rewrite list_lookup_insert_ne by done.
      repeat case_bool_decide; set_solver.
  - intros id' ch'. rewrite Hsubs. split.
    + intros [Hid Hrest]. split.
      { case_bool_decide; [done|]. by apply lookup_delete_Some in Hid as [_ ?]. }
      intros ch'' c'' [[= -> ->]|Hin]%elem_of_cons Hc''.
      * case_bool_decide; [by simplify_eq|]. by rewrite lookup_delete_eq in Hid.
      * apply (Hrest ch''); [done|]. rewrite list_lookup_insert_ne; [done|].
        intros ->. apply Hch, list_elem_of_fmap. by exists (id', ch'').
    + intros [Hid Hrest]. split.
      { case_bool_decide as Hfull; [done|]. apply lookup_delete_Some. split; [|done].
        intros ->. destruct Hfull. apply (Hrest ch c); [by left|done]. }
      intros ch'' c'' Hin Hc''. apply (Hrest ch''); [by right|].
      rewrite list_lookup_insert_ne in Hc''; [done|].
      intros ->. apply Hch, list_elem_of_fmap. by exists (id', ch'').
Qed.

Lemma bus_subs_NoDup `{GoRuntime} b g : BusInv b g → NoDup (map_range (bus_subs b)).*2.
Proof.
  intros Hinv. apply (NoDup_fmap_1 Z.of_nat).
  assert (Z.of_nat <$> (map_range (bus_subs b)).*2 = (map_range (bus_subs b)).*1) as ->;
    [|apply map_range_NoDup_keys].
  rewrite <- list_fmap_compose. apply list_fmap_ext. intros i [id ch] Hi. simpl.
  apply list_elem_of_lookup_2, elem_of_map_range in Hi.
  by apply (inv_subs _ _ Hinv) in Hi as [-> _].
Qed.

Lemma Publish_spec `{GoRuntime} b g e :
  BusInv b g →
  ∃ b', Publish b e = Some b' ∧
    bus_nextID b' = bus_nextID b ∧ bus_bufferSize b' = bus_bufferSize b ∧
    bus_once b' = bus_once b ∧ bus_chans b' = deliver e <$> bus_chans b ∧
    ∀ id ch, bus_subs b' !! id = Some ch ↔
      id = Z.of_nat ch ∧ ∃ c, bus_chans b' !! ch = Some c ∧ chan_closed c = false.
Proof.
  intros Hinv. unfold Publish.
  destruct (publishLoop_spec e (map_range (bus_subs b)) b)
    as (b' & -> & ? & ? & ? & Hchans & Hsubs).
  { eauto using bus_subs_NoDup. }
  { intros id ch [_ ?]%elem_of_map_range%(inv_subs _ _ Hinv). done. }
  assert (bus_chans b' = deliver e <$> bus_chans b) as Heq.
  { apply list_eq. intros k. rewrite Hchans, list_lookup_fmap. case_bool_decide as Hk; [done|].
    destruct (bus_chans b !! k) as [c|] eqn:Hc; [|done]. simpl. unfold deliver.
    destruct (chan_closed c) eqn:Ho; [done|]. destruct Hk.
    apply elem_of_range_values. exists (Z.of_nat k). apply (inv_subs _ _ Hinv). eauto. }
  exists b'. split_and!; try done. intros id ch. rewrite Hsubs, (inv_subs _ _ Hinv), Heq.
  setoid_rewrite list_lookup_fmap. split.
  - intros [[-> (c & Hc & Ho)] Hroom]. split; [done|]. exists (deliver e c).
    rewrite Hc. split; [done|]. unfold deliver. rewrite Ho.
    rewrite bool_decide_true; [done|]. apply (Hroom ch); [|done].
    apply elem_of_map_range, (inv_subs _ _ Hinv). eauto.
  - intros [-> (c' & Hc' & Ho')]. apply fmap_Some in Hc' as (c & Hc & ->).
    assert (chan_closed c = false ∧ length (chan_buf c) < chan_cap c) as [Ho Hroom].
    { revert Ho'. unfold deliver. destruct (chan_closed c) eqn:E; [congruence|].
      by case_bool_decide. }
    split; [split; [done|]; eauto|]. intros ch' c' Hin Hc'.
    apply elem_of_map_range, (inv_subs _ _ Hinv) in Hin as [?%(inj Z.of_nat) _]. by simplify_eq.
Qed.

(** *** The invariant *)

Lemma Forall3_snoc {A B C} (P : A → B → C → Prop) l1 l2 l3 x y z :
  Forall3 P l1 l2 l3 → P x y z → Forall3 P (l1 ++ [x]) (l2 ++ [y]) (l3 ++ [z]).
Proof. induction 1; simpl; repeat constructor; auto. Qed.

Lemma Forall3_fmap_12 {A B C} (P : A → B → C → Prop) (f : A → A) (g : B → B) l1 l2 l3 :
  (∀ x y z, P x y z → P (f x) (g y) z) →
  Forall3 P l1 l2 l3 → Forall3 P (f <$> l1) (g <$> l2) l3.
Proof. intros HP. induction 1; simpl; constructor; auto. Qed.

Lemma Forall3_update_13 {A B C} (P : A → B → C → Prop) (x : A) (h : C → C) l1 l2 l3 k :
  Forall3 P l1 l2 l3 →
  (∀ x0 y z, l1 !! k = Some x0 → P x0 y z → P x y (h z)) →
  Forall3 P (<[k := x]> l1) l2 (alter h k l3).
Proof.
  intros HF. revert k.
  induction HF as [|x1 y1 z1 l1 l2 l3 HP HF IH]; intros [|k] Hk; simpl; constructor; eauto.
Qed.

Lemma chan_ok_deliver cap e c pub rcv :
  chan_ok cap c pub rcv → chan_ok cap (deliver e c) (pub ++ [e]) rcv.
Proof.
  intros (Hcap & Hlen & rest & -> & Hrest). unfold deliver, chan_ok.
  destruct (chan_closed c) eqn:Ho; [|specialize (Hrest eq_refl) as ->].
  - rewrite Ho. split_and!; [done..|]. exists (rest ++ [e]).
    split; [by rewrite <- !(assoc_L (++))|done].
  - rewrite app_nil_r. case_bool_decide; simpl.
    + rewrite length_app; simpl. split_and!; [done|lia|]. exists [].
      split; [by rewrite app_nil_r, <- (assoc_L (++))|done].
    + split_and!; [done..|]. exists [e]. split; [by rewrite <- (assoc_L (++))|done].
Qed.

Lemma chan_ok_close cap c pub rcv :
  chan_ok cap c pub rcv → chan_ok cap (MkChan (chan_cap c) (chan_buf c) true) pub rcv.
Proof. intros (? & ? & rest & ? & ?). split_and!; [done..|]. by exists rest. Qed.

Lemma chan_ok_recv cap c e buf pub rcv :
  chan_buf c = e :: buf → chan_ok cap c pub rcv →
  chan_ok cap (MkChan (chan_cap c) buf (chan_closed c)) pub (rcv ++ [e]).
Proof.
  intros Hb (? & Hlen & rest & -> & ?). rewrite Hb in *. simpl in *.
  split_and!; simpl; [done|lia|]. exists rest. split; [by rewrite <- (assoc_L (++))|done].
Qed.

Lemma NewBus_inv bufferSize : BusInv (NewBus bufferSize) (MkLedger [] [] []).
Proof.
  split; simpl; try done; [|by constructor].
  intros id ch. rewrite lookup_empty. naive_solver.
Qed.

Lemma Subscribe_inv b g :
  BusInv b g → (Z.of_nat (S (length (bus_chans b))) ≤ MaxInt64)%Z →
  BusInv (Subscribe b).1
    (MkLedger (handles g ++ [(Subscribe b).2]) (published g ++ [[]]) (received g ++ [[]])).
Proof.
  intros Hinv Hmax. destruct (inv_len _ _ Hinv) as [Ho Hh]. split; simpl.
  - rewrite length_app, (inv_next _ _ Hinv). simpl.
    rewrite wrap64_id; unfold MaxInt64, MinInt64 in *; lia.
  - rewrite !length_app; simpl. lia.
  - intros k sub [[_ Hk]|[-> <-]]%lookup_snoc_Some; [by apply (inv_handles _ _ Hinv)|].
    by rewrite Hh, (inv_next _ _ Hinv).
  - intros id ch. rewrite (inv_next _ _ Hinv), lookup_insert_Some, (inv_subs _ _ Hinv).
    setoid_rewrite lookup_snoc_Some. split.
    + intros [[<- <-]|(? & -> & c & ? & ?)]; split; eauto 10 using lookup_lt_Some.
    + intros [-> (c & [[Hlt ?]|[-> <-]] & ?)]; [right|by left].
      split; [|eauto]. lia.
  - apply Forall3_snoc; [apply (inv_chans _ _ Hinv)|]. split_and!; simpl; [done|lia|]. by exists [].
  - intros k c [[_ Hk]|[_ ?]]%lookup_snoc_Some Hc; [|done].
    apply lookup_snoc_Some in Hc as [[_ Hc]|[-> _]]; [by eapply (inv_fired _ _ Hinv)|].
    apply lookup_lt_Some in Hk. lia.
Qed.

(** Closing one open channel, as [cancel] does. *)
Lemma dropSub_inv b g k :
  BusInv b g → bus_subs b !! Z.of_nat k = Some k →
  ∃ b', dropSub b (Z.of_nat k) k = Some b' ∧ BusInv b' g ∧
    bus_once b' = bus_once b ∧ (∃ c, bus_chans b' !! k = Some c ∧ chan_closed c = true).
Proof.
  intros Hinv Hk. apply (inv_subs _ _ Hinv) in Hk as Hk'. destruct Hk' as [_ (c & Hc & Ho)].
  unfold dropSub, closeChan. rewrite Hc. simpl. rewrite Ho. simpl.
  eexists. split; [done|]. pose proof (lookup_lt_Some _ _ _ Hc) as Hlt. split_and!; simpl.
  - destruct (inv_len _ _ Hinv) as [Hlo Hlh]. split; simpl; rewrite ?length_insert; try apply Hinv.
    + intros id ch. rewrite lookup_delete_Some, (inv_subs _ _ Hinv).
      destruct (decide (ch = k)) as [->|Hne].
      * rewrite list_lookup_insert_eq by done. naive_solver.
      * rewrite list_lookup_insert_ne by done. naive_solver lia.
    + replace (received g) with (alter (λ l, l) k (received g))
        by (apply list_alter_id; done).
      apply Forall3_update_13; [apply (inv_chans _ _ Hinv)|]. intros. simplify_eq.
      by apply chan_ok_close.
    + intros j d Hj. destruct (decide (j = k)) as [->|Hne].
      * rewrite list_lookup_insert_eq by done. by intros [= <-].
      * rewrite list_lookup_insert_ne by done. by apply (inv_fired _ _ Hinv).
  - done.
  - eexists. by rewrite list_lookup_insert_eq by done.
Qed.

Lemma cancel_inv b g k sub :
  BusInv b g → handles g !! k = Some sub →
  ∃ b', cancel b sub = Some b' ∧ BusInv b' g ∧ length (bus_chans b') = length (bus_chans b) ∧
    bus_once b' !! k = Some true.
Proof.
  intros Hinv Hsub. pose proof (inv_len _ _ Hinv) as [Hlo Hlh].
  pose proof (lookup_lt_Some _ _ _ Hsub) as Hlt.
  apply (inv_handles _ _ Hinv) in Hsub as ->. unfold cancel; simpl.
  destruct (lookup_lt_is_Some_2 (bus_once b) k) as [fired Hf]; [lia|]. rewrite Hf.
  destruct fired; [by exists b|].
  destruct (lookup_lt_is_Some_2 (bus_chans b) k) as [c Hc]; [lia|].
  destruct (bus_subs b !! Z.of_nat k) as [existing|] eqn:Hs.
  - pose proof Hs as Hs'. apply (inv_subs _ _ Hinv) in Hs' as [<-%(inj Z.of_nat) _].
    destruct (dropSub_inv b g k Hinv Hs) as (b' & Hd & Hinv' & Hb' & d & Hd' & Hcl).
    unfold dropSub in *. simpl. destruct (bus_chans b !! k) as [c0|]; [|done].
    simpl in *. destruct (closeChan c0) as [c1|]; [|done]. simplify_eq/=.
    eexists. split; [done|]. split_and!; simpl; [|by rewrite length_insert|
      by rewrite list_lookup_insert_eq by lia].
    destruct Hinv'. split; simpl in *; rewrite ?length_insert in *; try done.
    intros j d'. destruct (decide (j = k)) as [->|Hne].
    + intros _ ?. by simplify_eq.
    + rewrite (list_lookup_insert_ne (bus_once b)) by done. eauto.
  - eexists. split; [done|]. split_and!; simpl; [|done|by rewrite list_lookup_insert_eq by lia].
    destruct Hinv. split; simpl; rewrite ?length_insert; try done.
    intros j d'. destruct (decide (j = k)) as [->|Hne].
    + intros _ Hd'. destruct (chan_closed d') eqn:Ho; [done|].
      assert (bus_subs b !! Z.of_nat k = Some k); [|congruence]. apply inv_subs0. eauto.
    + rewrite (list_lookup_insert_ne (bus_once b)) by done. eauto.
Qed.

Lemma Publish_inv `{GoRuntime} b g e b' :
  BusInv b g → Publish b e = Some b' →
  BusInv b' (MkLedger (handles g) ((λ l, l ++ [e]) <$> published g) (received g)).
Proof.
  intros Hinv Hp. destruct (Publish_spec b g e Hinv) as (b'' & Hp' & Hn & Hb & Hon & Hch & Hsubs).
  rewrite Hp' in Hp. simplify_eq. pose proof (inv_len _ _ Hinv) as [Hlo Hlh].
  split; simpl; rewrite ?Hn, ?Hb, ?Hon, ?Hch, ?length_fmap; try apply Hinv; [|..].
  - rewrite <- Hch. exact Hsubs.
  - eapply Forall3_fmap_12; [|apply (inv_chans _ _ Hinv)]. intros. by apply chan_ok_deliver.
  - intros k c Hk. rewrite list_lookup_fmap. intros (c0 & Hc & ->)%fmap_Some.
    unfold deliver. by rewrite (inv_fired _ _ Hinv k c0 Hk Hc); simpl;
      apply (inv_fired _ _ Hinv k).
Qed.

Lemma recv_inv b g ch b' e :
  BusInv b g → recv b ch = Some (b', Some e) →
  BusInv b' (MkLedger (handles g) (published g) (alter (λ l, l ++ [e]) ch (received g))).
Proof.
  intros Hinv. unfold recv. destruct (bus_chans b !! ch) as [c|] eqn:Hc; [|done]. simpl.
  destruct (chan_buf c) as [|e' buf] eqn:Hb; [by case_match|]. intros; simplify_eq.
  pose proof (inv_len _ _ Hinv) as [Hlo Hlh]. pose proof (lookup_lt_Some _ _ _ Hc) as Hlt.
  split; simpl; rewrite ?length_insert; try apply Hinv; [|..].
  - intros id k. rewrite (inv_subs _ _ Hinv). destruct (decide (k = ch)) as [->|Hne].
    + rewrite list_lookup_insert_eq by done. naive_solver.
    + by rewrite list_lookup_insert_ne by done.
  - apply Forall3_update_13; [apply (inv_chans _ _ Hinv)|]. intros. simplify_eq.
    by apply chan_ok_recv.
  - intros k d Hk. destruct (decide (k = ch)) as [->|Hne].
    + rewrite list_lookup_insert_eq by done. intros [= <-]. by apply (inv_fired _ _ Hinv ch c).
    + rewrite list_lookup_insert_ne by done. by apply (inv_fired _ _ Hinv).
Qed.

(** The heap only grows. *)
Lemma dropSub_length b id ch b' :
  dropSub b id ch = Some b' → length (bus_chans b') = length (bus_chans b).
Proof.
  unfold dropSub. destruct (bus_chans b !! ch) as [c|]; simpl; [|done].
  destruct (closeChan c); intros; simplify_eq/=. by rewrite length_insert.
Qed.

Lemma publishLoop_length e l b b' :
  publishLoop e b l = Some b' → length (bus_chans b') = length (bus_chans b).
Proof.
  revert b. induction l as [|[id ch] l IH]; intros b Hp; simplify_eq/=; [done|].
  destruct (bus_chans b !! ch) as [c|]; simplify_eq/=.
  destruct (trySend c e) as [[c' []]|]; simplify_eq/=.
  - apply IH in Hp. rewrite Hp. simpl. by rewrite length_insert.
  - destruct (dropSub b id ch) as [b1|] eqn:Hd; simplify_eq/=.
    apply IH in Hp. apply dropSub_length in Hd. congruence.
Qed.

Lemma recv_length b ch b' o :
  recv b ch = Some (b', o) → length (bus_chans b') = length (bus_chans b).
Proof.
  unfold recv. destruct (bus_chans b !! ch) as [c|]; simpl; [|done].
  destruct (chan_buf c); [destruct (chan_closed c)|]; intros; simplify_eq/=; [done|].
  by rewrite length_insert.
Qed.

Lemma bus_step_length s s' :
  bus_step s s' → length (bus_chans s.1) ≤ length (bus_chans s'.1).
Proof.
  destruct 1 as [b g b' sub Hs|b g b' k sub Hk Hc|rt b g b' e Hp|b g b' ch e Hr|b g b' ch Hr]; simpl.
  - unfold Subscribe in Hs. simplify_eq/=. rewrite length_app. lia.
  - unfold cancel in Hc. destruct (bus_once b !! _) as [[]|]; simplify_eq/=; [done| |done].
    destruct (bus_subs b !! _) as [x|]; simplify_eq/=; [|done].
    apply dropSub_length in Hc. simpl in Hc. lia.
  - apply publishLoop_length in Hp. lia.
  - apply recv_length in Hr. lia.
  - apply recv_length in Hr. lia.
Qed.

Lemma bus_step_inv s s' :
  bus_step s s' → BusInv s.1 s.2 → (Z.of_nat (length (bus_chans s'.1)) ≤ MaxInt64)%Z →
  BusInv s'.1 s'.2.
Proof.
  destruct 1 as [b g b' sub Hs|b g b' k sub Hk Hc|rt b g b' e Hp|b g b' ch e Hr|b g b' ch Hr];
    simpl; intros Hinv Hmax.
  - pose proof (Subscribe_inv b g Hinv) as Hinv'. rewrite Hs in Hinv'. apply Hinv'.
    unfold Subscribe in Hs. simplify_eq. simpl in Hmax. rewrite length_app in Hmax.
    simpl in Hmax. lia.
  - destruct (cancel_inv b g k sub Hinv Hk) as (? & ? & ? & _). by simplify_eq.
  - by eapply Publish_inv.
  - by eapply recv_inv.
  - unfold recv in Hr. destruct (bus_chans b !! ch); [|done]. simpl in Hr.
    destruct (chan_buf _); [|done]. case_match; by simplify_eq.
Qed.

Lemma bus_reachable_inv n s :
  bus_reachable n s → (Z.of_nat (length (bus_chans s.1)) ≤ MaxInt64)%Z → BusInv s.1 s.2.
Proof.
  revert s. apply (rtc_ind_r (λ s, (_ ≤ _)%Z → BusInv s.1 s.2)).
  - intros _. apply NewBus_inv.
  - intros s s' _ Hstep IH Hmax. pose proof (bus_step_length _ _ Hstep).
    eapply bus_step_inv; [done| |done]. apply IH. lia.
Qed.

Lemma Forall3_lookup_12 {A B C} (P : A → B → C → Prop) l1 l2 l3 k x y z :
  Forall3 P l1 l2 l3 → l1 !! k = Some x → l2 !! k = Some y → l3 !! k = Some z → P x y z.
Proof.
  intros HF. revert k. induction HF; intros [|j] ???; simplify_eq/=; eauto.
Qed.

Lemma BusInv_cap b g k c : BusInv b g → bus_chans b !! k = Some c → chan_cap c = bus_bufferSize b.
Proof.
  intros Hinv. generalize (inv_chans _ _ Hinv). clear Hinv. intros HF. revert k.
  induction HF as [|x y z l1 l2 l3 [? _] HF IH]; intros [|j] Hc; simplify_eq/=; eauto.
Qed.

(** C24: delivery is in order and without gaps. In every reachable state of
    the bus, whatever the interleaving of subscribers, publishers and
    cancellations, what a subscriber has received followed by what its
    channel still holds is a prefix of what was published since it
    subscribed, and all of it unless the channel was closed; the channel
    never holds more than its capacity. *)
Theorem bus_delivery_in_order n b g k c pub rcv :
  bus_reachable n (b, g) →
  (Z.of_nat (length (bus_chans b)) ≤ MaxInt64)%Z →
  bus_chans b !! k = Some c → published g !! k = Some pub → received g !! k = Some rcv →
  rcv ++ chan_buf c `prefix_of` pub ∧
  (chan_closed c = false → rcv ++ chan_buf c = pub) ∧
  length (chan_buf c) ≤ bus_bufferSize b.
Proof.
  intros Hr Hmax Hc Hpub Hrcv. pose proof (bus_reachable_inv _ _ Hr Hmax) as Hinv.
  destruct (Forall3_lookup_12 _ _ _ _ _ _ _ _ (inv_chans _ _ Hinv) Hc Hpub Hrcv)
    as (Hcap & Hlen & rest & -> & Hrest). split_and!.
  - exists rest. by rewrite (assoc_L (++)).
  - intros Ho. by rewrite (Hrest Ho), app_nil_r.
  - done.
Qed.

(** C25: no reachable bus panics: no [Publish] sends on, and neither
    [Publish] nor a cancel function (called any number of times, or raced
    by its context) closes, a closed channel. *)
Theorem bus_never_panics n b g :
  bus_reachable n (b, g) →
  (Z.of_nat (length (bus_chans b)) ≤ MaxInt64)%Z →
  (∀ (rt : GoRuntime) e, is_Some (Publish b e)) ∧
  (∀ k sub, handles g !! k = Some sub → is_Some (cancel b sub)).
Proof.
  intros Hr Hmax. pose proof (bus_reachable_inv _ _ Hr Hmax) as Hinv. split.
  - intros rt e. destruct (Publish_spec b g e Hinv) as (b' & -> & _). eauto.
  - intros k sub Hk. destruct (cancel_inv b g k sub Hinv Hk) as (b' & -> & _). eauto.
Qed.

(** [Publish] delivers to every subscriber with room and drops exactly
    the subscribers without: their channel is closed with its buffer intact
    and they leave the map. The outcome does not depend on the order in
    which the map is ranged over. *)
Theorem Publish_drops_slow_consumers n b g e :
  bus_reachable n (b, g) →
  (Z.of_nat (length (bus_chans b)) ≤ MaxInt64)%Z →
  ∃ b', (∀ rt : GoRuntime, Publish b e = Some b') ∧
    (∀ k c, bus_chans b !! k = Some c →
       if chan_closed c then bus_chans b' !! k = Some c
       else if bool_decide (length (chan_buf c) < bus_bufferSize b) then
         bus_chans b' !! k = Some (MkChan (chan_cap c) (chan_buf c ++ [e]) false) ∧
         bus_subs b' !! Z.of_nat k = Some k
       else
         bus_chans b' !! k = Some (MkChan (chan_cap c) (chan_buf c) true) ∧
         bus_subs b' !! Z.of_nat k = None) ∧
    length (bus_chans b') = length (bus_chans b).
Proof.
  intros Hr Hmax. pose proof (bus_reachable_inv _ _ Hr Hmax) as Hinv. simpl in Hinv.
  destruct (@Publish_spec reference_runtime b g e Hinv) as (b' & Hp & Hn & Hb & Ho & Hch & Hsubs).
  exists b'. split_and!.
  - intros rt. destruct (Publish_spec b g e Hinv) as (b2 & -> & Hn2 & Hb2 & Ho2 & Hch2 & Hsubs2).
    f_equal. destruct b', b2; simpl in *. f_equal; try congruence.
    apply map_eq. intros id. apply option_eq. intros ch. by rewrite Hsubs, Hsubs2, Hch, Hch2.
  - intros k c Hc. pose proof (BusInv_cap _ _ _ _ Hinv Hc) as Hcap.
    assert (bus_chans b' !! k = Some (deliver e c)) as Hk by (by rewrite Hch, list_lookup_fmap, Hc).
    rewrite Hk. unfold deliver in *. destruct (chan_closed c); [done|]. rewrite Hcap in *.
    case_bool_decide; (split; [done|]).
    + apply Hsubs. split; [done|]. by eexists.
    + destruct (bus_subs b' !! Z.of_nat k) as [ch|] eqn:E; [|done].
      apply Hsubs in E as [<-%(inj Z.of_nat) (c' & Hc' & Hcl)]. by simplify_eq/=.
  - by rewrite Hch, length_fmap.
Qed.

(** ** A concrete execution

    One subscriber of capacity one: the second event finds the channel
    full. *)
Definition sample_event (id : string) : DomainEvent :=
  SBOMIngestedEvent id "kind:Component/default/web" 3.

Definition sample_bus : Bus :=
  MkBus {[0%Z := 0]} 1 1 [MkChan 1 [sample_event "A"] false] [false].

Definition sample_ledger : Ledger :=
  MkLedger [MkSubscription 0 0] [[sample_event "A"]] [[]].

Lemma sample_bus_reachable : bus_reachable 1 (sample_bus, sample_ledger).
Proof.
  apply (rtc_l _ _ ((Subscribe (NewBus 1)).1, MkLedger [MkSubscription 0 0] [[]] [[]])).
  { exact (step_subscribe (NewBus 1) (MkLedger [] [] []) _ _ eq_refl). }
  apply rtc_once.
  exact (step_publish reference_runtime (Subscribe (NewBus 1)).1
    (MkLedger [MkSubscription 0 0] [[]] [[]]) sample_bus (sample_event "A") eq_refl).
Qed.

Lemma sample_bus_size : (Z.of_nat (length (bus_chans sample_bus)) ≤ MaxInt64)%Z.
Proof. vm_compute. done. Qed.

Lemma bus_delivery_in_order_witness :
  [] ++ [sample_event "A"] `prefix_of` [sample_event "A"] ∧
  (false = false → [] ++ [sample_event "A"] = [sample_event "A"]) ∧ 1 ≤ 1.
Proof.
  apply (bus_delivery_in_order 1 sample_bus sample_ledger 0
    (MkChan 1 [sample_event "A"] false) [sample_event "A"] []).
  - apply sample_bus_reachable.
  - apply sample_bus_size.
  - reflexivity.
  - reflexivity.
  - reflexivity.
Defined.

Lemma bus_never_panics_witness :
  (∀ (rt : GoRuntime) e, is_Some (Publish sample_bus e)) ∧
  (∀ k sub, handles sample_ledger !! k = Some sub → is_Some (cancel sample_bus sub)).
Proof.
  apply (bus_never_panics 1 sample_bus sample_ledger).
  - apply sample_bus_reachable.
  - apply sample_bus_size.
Defined.

Lemma Publish_drops_slow_consumers_witness :
  ∃ b', (∀ rt : GoRuntime, Publish sample_bus (sample_event "B") = Some b') ∧
    bus_chans b' !! 0 = Some (MkChan 1 [sample_event "A"] true) ∧
    bus_subs b' !! 0%Z = None.
Proof.
  destruct (Publish_drops_slow_consumers 1 sample_bus sample_ledger (sample_event "B")
    sample_bus_reachable sample_bus_size) as (b' & Hp & Hk & _).
  exists b'. split; [exact Hp|].
  exact (Hk 0 (MkChan 1 [sample_event "A"] false) eq_refl).
Defined.
