(* ===== verification/Storage.v ===== *)
(** * The storage contract (engine/internal/storage)

    [Storage] is the Go interface: one field per method. [StorageLaws] is
    what a backend promises the engine: an abstraction of its state to a
    [View] (plain finite maps), what every write does to the view and what
    every read may return. What a backend keeps of the values it is given
    (a database stores microseconds, and JSON documents as values) is the
    class [Keeping]; the in-memory backend keeps everything. Client
    theorems are proved against the laws; the two backends discharge them
    in MemoryStore.v and PostgresLaws.v. *)

From S2P Require Import Prelude GoStrings GoText Domain.
From stdpp Require Import options.

(** ** How the environment answers one call

    A method takes a context and may read the clock, range over maps and
    sort, and run statements on a database: a [Call] is the [ctx.Err()] it
    observes, the time [time.Now()] returns, the resolution of the
    runtime's freedom and what becomes of each statement. *)
Inductive ctx_error := Canceled | DeadlineExceeded.

(** What a statement can fail with: an error the server reports, the
    context, or anything else of the driver and the connection. *)
Inductive db_error :=
  | PgError (message code : string)
  | CtxError (e : ctx_error)
  | DriverError (text : string).

(** A statement is executed and answered, or fails without effect, or is
    executed and its answer lost on the way (for a query: the rows break
    off after [delivered] of them). *)
Inductive db_outcome :=
  | DbExecuted
  | DbFailed (e : db_error)
  | DbLost (delivered : nat) (e : db_error).

(** [db_rt] resolves what SQL leaves open: the order of rows that no
    [ORDER BY] decides. *)
Record DbAnswer := MkDbAnswer {
  db_rt : GoRuntime;
  db_result : db_outcome;
}.

Record Call := MkCall {
  call_rt : GoRuntime;
  call_err : option ctx_error;
  call_now : Time;
  call_db : nat → DbAnswer;     (* by the number of the statement *)
}.

(** Every statement executed and answered. *)
Definition all_executed : nat → DbAnswer := λ _, MkDbAnswer reference_runtime DbExecuted.

Definition ctx_sentinel (e : ctx_error) : error :=
  match e with
  | Canceled => ESentinel ErrCanceled
  | DeadlineExceeded => ESentinel ErrDeadlineExceeded
  end.

Definition ctx_Err (k : Call) : option error := ctx_sentinel <$> call_err k.

(** ** storage.go

    A method that returns [(T, error)] is a [result T]: no caller reads the
    value of a call that returned an error. *)
Class Storage (St : Type) := {
  UpsertComponent : Call → Component → St → St * option error;
  GetComponent : Call → string → St → result Component;
  ListComponents : Call → St → result (list Component);
  UpsertSBOM : Call → SBOM → St → St * option error;
  GetSBOM : Call → string → St → result SBOM;
  ListSBOMsByComponent : Call → string → St → result (list SBOM);
  ListSBOMPackages : Call → string → string → St → result (list SBOMPackageRef);
  UpsertIoC : Call → IoC → St → St * option error;
  GetIoC : Call → string → St → result IoC;
  ListIoCs : Call → St → result (list IoC);
  UpsertIncident : Call → Incident → St → St * option error;
  GetIncident : Call → string → St → result Incident;
  ListIncidents : Call → St → result (list Incident);
  ListIncidentsFiltered : Call → IncidentFilter → St → result (list Incident);
  MatchedComponentRefsByIoC : Call → string → St → result (list string);
  AppendRemediation : Call → string → Remediation → St → St * option error;
  ListRemediations : Call → string → St → result (list Remediation);
  UpsertPublisher : Call → Publisher → St → St * option error;
  GetPublisher : Call → string → string → St → result Publisher;
  UpsertPublisherProfile : Call → PublisherProfile → St → St * option error;
  GetPublisherProfile : Call → string → string → St → result PublisherProfile;
  ListPublishers : Call → string → St → result (list Publisher);
  SavePublisherSnapshot : Call → PublisherSnapshot → St → St * option error;
  GetPublisherHistory : Call → string → Z → St → result (list PublisherSnapshot);
  ListPackagesNeedingRefresh : Call → Time → Z → St → result (list string);
  SaveAnomaly : Call → Anomaly → St → St * result Z;
  GetAnomaly : Call → Z → St → result Anomaly;
  ListAnomalies : Call → AnomalyFilter → St → result (list Anomaly);
}.

(** ** The abstract state *)

Record View := MkView {
  v_components : gmap string Component;
  v_sboms : gmap string SBOM;
  v_iocs : gmap string IoC;
  v_incidents : gmap string Incident;
  v_publishers : gmap (string * string) Publisher;
  v_profiles : gmap (string * string) PublisherProfile;
  v_history : gmap string (list PublisherSnapshot);
  v_anomalies : gmap Z Anomaly;
}.

Definition put_component (c : Component) (v : View) : View :=
  MkView (<[Component_Ref c := c]> (v_components v)) (v_sboms v) (v_iocs v) (v_incidents v)
    (v_publishers v) (v_profiles v) (v_history v) (v_anomalies v).
Definition put_sbom (b : SBOM) (v : View) : View :=
  MkView (v_components v) (<[SBOM_ID b := b]> (v_sboms v)) (v_iocs v) (v_incidents v)
    (v_publishers v) (v_profiles v) (v_history v) (v_anomalies v).
Definition put_ioc (i : IoC) (v : View) : View :=
  MkView (v_components v) (v_sboms v) (<[IoC_ID i := i]> (v_iocs v)) (v_incidents v)
    (v_publishers v) (v_profiles v) (v_history v) (v_anomalies v).
Definition put_incident (i : Incident) (v : View) : View :=
  MkView (v_components v) (v_sboms v) (v_iocs v) (<[Incident_ID i := i]> (v_incidents v))
    (v_publishers v) (v_profiles v) (v_history v) (v_anomalies v).

(** Appending to an incident's audit log, in place. *)
Definition add_remediation (r : Remediation) (i : Incident) : Incident :=
  MkIncident (Incident_ID i) (Incident_IoCID i) (Incident_State i) (Incident_OpenedAt i)
    (Incident_LastTransitionedAt i) (Incident_AffectedComponentsSnapshot i)
    (Incident_Remediations i ++ [r]).
Definition append_remediation (id : string) (r : Remediation) (v : View) : View :=
  MkView (v_components v) (v_sboms v) (v_iocs v)
    (alter (add_remediation r) id (v_incidents v))
    (v_publishers v) (v_profiles v) (v_history v) (v_anomalies v).

Definition put_publisher (p : Publisher) (v : View) : View :=
  MkView (v_components v) (v_sboms v) (v_iocs v) (v_incidents v)
    (<[(Publisher_Ecosystem p, Publisher_Name p) := p]> (v_publishers v))
    (v_profiles v) (v_history v) (v_anomalies v).
Definition put_profile (p : PublisherProfile) (v : View) : View :=
  let key := (Publisher_Ecosystem (PublisherProfile_Publisher p),
              Publisher_Name (PublisherProfile_Publisher p)) in
  MkView (v_components v) (v_sboms v) (v_iocs v) (v_incidents v) (v_publishers v)
    (<[key := p]> (v_profiles v)) (v_history v) (v_anomalies v).
Definition push_snapshot (s : PublisherSnapshot) (v : View) : View :=
  MkView (v_components v) (v_sboms v) (v_iocs v) (v_incidents v) (v_publishers v)
    (v_profiles v)
    (<[PublisherSnapshot_PackageRef s :=
        default [] (v_history v !! PublisherSnapshot_PackageRef s) ++ [s]]> (v_history v))
    (v_anomalies v).
Definition put_anomaly (a : Anomaly) (v : View) : View :=
  MkView (v_components v) (v_sboms v) (v_iocs v) (v_incidents v) (v_publishers v)
    (v_profiles v) (v_history v) (<[Anomaly_ID a := a]> (v_anomalies v)).

(** ** What a backend keeps

    [keep_...] is what is read back of a value that was written; [listed]
    is what the incident listings carry of the remediations; [text_less] is
    the order of text and [row_cap] the bound of a listing without limit;
    [accepts_...] are the values the backend does not refuse. *)
Class Keeping := {
  keep_time : Time → Time;
  keep_text : string → string;
  keep_annotations : gmap string string → gmap string string;
  keep_object : gmap string any → gmap string any;
  keep_maintainers : list Maintainer → list Maintainer;
  keep_raw : string → string;
  keep_ioc : IoC → IoC;
  listed : list Remediation → list Remediation;
  text_less : string → string → bool;
  row_cap : option Z;
  accepts_text : string → Prop;
  accepts_component : Component → Prop;
  accepts_sbom : SBOM → Prop;
  accepts_ioc : IoC → Prop;
  accepts_remediation : Remediation → Prop;
  accepts_snapshot : PublisherSnapshot → Prop;
  accepts_anomaly : Anomaly → Prop;
}.

(** What the matcher reads of an IoC. *)
Definition target_texts (i : IoC) : list string :=
  from_option (λ b, [IoCPackageVersion_Name b; IoCPackageVersion_Version b; IoCPackageVersion_PURL b])
    [] (IoC_PackageVersion i)
  ++ from_option (λ b, [IoCPackageRange_Name b; IoCPackageRange_Constraint b]) [] (IoC_PackageRange i)
  ++ from_option (λ b, [IoCBodyAnomaly_PackageRef b]) [] (IoC_AnomalyBody i).

Record same_target (i j : IoC) : Prop := {
  st_id : IoC_ID i = IoC_ID j;
  st_kind : IoC_Kind i = IoC_Kind j;
  st_ecosystem : IoC_Ecosystem i = IoC_Ecosystem j;
  st_version : IoC_PackageVersion i = IoC_PackageVersion j;
  st_range : IoC_PackageRange i = IoC_PackageRange j;
  st_anomaly : IoCBodyAnomaly_PackageRef <$> IoC_AnomalyBody i
               = IoCBodyAnomaly_PackageRef <$> IoC_AnomalyBody j;
}.

Section keeping.
Context `{Keeping}.

Definition keep_component (c : Component) : Component :=
  MkComponent (Component_Ref c) (Component_Kind c) (Component_Namespace c) (Component_Name c)
    (Component_Owner c) (Component_System c) (Component_Lifecycle c) (Component_Tags c)
    (keep_annotations (Component_Annotations c)).

Definition keep_sbom (b : SBOM) : SBOM :=
  MkSBOM (SBOM_ID b) (SBOM_ComponentRef b) (SBOM_CommitSHA b) (SBOM_Ecosystem b)
    (keep_time (SBOM_GeneratedAt b)) (SBOM_Packages b) (SBOM_SourceFormat b) (SBOM_SourceBytes b).

Definition keep_incident (i : Incident) : Incident :=
  MkIncident (Incident_ID i) (Incident_IoCID i) (Incident_State i) (keep_time (Incident_OpenedAt i))
    (keep_time (Incident_LastTransitionedAt i)) (Incident_AffectedComponentsSnapshot i)
    (Incident_Remediations i).

Definition listed_incident (i : Incident) : Incident :=
  MkIncident (Incident_ID i) (Incident_IoCID i) (Incident_State i) (Incident_OpenedAt i)
    (Incident_LastTransitionedAt i) (Incident_AffectedComponentsSnapshot i)
    (listed (Incident_Remediations i)).

Definition keep_remediation (r : Remediation) : Remediation :=
  MkRemediation (Remediation_ID r) (Remediation_IncidentID r) (Remediation_Kind r)
    (keep_time (Remediation_ExecutedAt r)) (Remediation_ActorRef r)
    (keep_object (Remediation_Details r)).

(** The snapshot that is stored at [now] under [id]. *)
Definition keep_snapshot (now : Time) (id : Z) (sn : PublisherSnapshot) : PublisherSnapshot :=
  MkPublisherSnapshot id (PublisherSnapshot_PackageRef sn)
    (keep_time (if IsZero (PublisherSnapshot_SnapshotAt sn) then UTC now
                else UTC (PublisherSnapshot_SnapshotAt sn)))
    (keep_maintainers (PublisherSnapshot_Maintainers sn)) (PublisherSnapshot_LatestVersion sn)
    (keep_time <$> PublisherSnapshot_LatestVersionPublishedAt sn) (PublisherSnapshot_PublishMethod sn)
    (PublisherSnapshot_SourceRepoURL sn) (keep_raw (PublisherSnapshot_RawData sn)).

(** The anomaly that is stored at [now], before it has an id. *)
Definition stamped (now : Time) (a : Anomaly) : Anomaly :=
  MkAnomaly (Anomaly_ID a) (Anomaly_Kind a) (Anomaly_PackageRef a)
    (keep_time (if IsZero (Anomaly_DetectedAt a) then UTC now else UTC (Anomaly_DetectedAt a)))
    (Anomaly_Confidence a) (Anomaly_Explanation a) (keep_object (Anomaly_Evidence a)).

Definition keep_incident_filter (f : IncidentFilter) : IncidentFilter :=
  MkIncidentFilter (IncidentFilter_States f) (IncidentFilter_Ecosystems f)
    (keep_time <$> IncidentFilter_From f) (keep_time <$> IncidentFilter_To f)
    (IncidentFilter_Search f) (IncidentFilter_Owner f) (IncidentFilter_Limit f).

Definition keep_anomaly_filter (f : AnomalyFilter) : AnomalyFilter :=
  MkAnomalyFilter (AnomalyFilter_PackageRef f) (AnomalyFilter_Kind f)
    (keep_time <$> AnomalyFilter_From f) (keep_time <$> AnomalyFilter_To f) (AnomalyFilter_Limit f).

Definition incident_texts (i : Incident) : list string :=
  Incident_ID i :: Incident_IoCID i :: Incident_State i :: Incident_AffectedComponentsSnapshot i.

Definition accepts_incident (i : Incident) : Prop := Forall accepts_text (incident_texts i).

(** The matcher reads the same in the IoC that is stored. *)
Definition storable_ioc (i : IoC) : Prop := Forall (λ s, keep_text s = s) (target_texts i).
End keeping.

Class KeepingLaws `{Keeping} := {
  keep_time_mono t u : (t ≤ u)%Z → (keep_time t ≤ keep_time u)%Z;
  keep_time_le t : (keep_time t ≤ t)%Z;
  keep_time_idemp t : keep_time (keep_time t) = keep_time t;
  accepts_plain s : plain s = true → accepts_text s;
  keep_text_accepted s : accepts_text s → keep_text s = s;
  accepts_cut s t : accepts_text (s +:+ ":" +:+ t) → accepts_text s ∧ accepts_text t;
  accepts_target i : accepts_ioc i → storable_ioc i →
    Forall accepts_text (IoC_Ecosystem i :: target_texts i);
  keep_ioc_id i : IoC_ID (keep_ioc i) = IoC_ID i;
  keep_ioc_target i : storable_ioc i → accepts_ioc i → same_target i (keep_ioc i);
  listed_nil : listed [] = [];
  text_less_swo : StrictWeakOrder text_less;
}.

(** Every record is stored under its own key. *)
Record view_wf (v : View) : Prop := {
  wf_components k c : v_components v !! k = Some c → Component_Ref c = k;
  wf_sboms k b : v_sboms v !! k = Some b → SBOM_ID b = k;
  wf_iocs k i : v_iocs v !! k = Some i → IoC_ID i = k;
  wf_incidents k i : v_incidents v !! k = Some i → Incident_ID i = k;
  wf_publishers k p : v_publishers v !! k = Some p →
    (Publisher_Ecosystem p, Publisher_Name p) = k;
  wf_anomalies k a : v_anomalies v !! k = Some a → Anomaly_ID a = k;
}.

Definition values `{Countable K} {V} (m : gmap K V) : list V := (map_to_list m).*2.

Lemma elem_of_values {K V} `{Countable K} (m : gmap K V) v :
  v ∈ values m ↔ ∃ k, m !! k = Some v.
Proof.
  unfold values. rewrite list_elem_of_fmap. split.
  - intros ([k v'] & -> & Hin%elem_of_map_to_list). eauto.
  - intros [k Hk]. exists (k, v). by rewrite elem_of_map_to_list.
Qed.

(** ** What reads return *)

(** Cut at a positive limit, or else at the bound of the backend. *)
Definition capped {A} (cap : Z) (l : list A) : list A :=
  if bool_decide (Z.of_nat (length l) ≤ cap)%Z then l else take (Z.to_nat cap) l.

Definition limited `{Keeping} {A} (limit : Z) (l : list A) : list A :=
  if bool_decide (0 < limit)%Z then take (Z.to_nat limit) l
  else match row_cap with None => l | Some cap => capped cap l end.

Lemma limited_sublist `{Keeping} {A} limit (l : list A) : limited limit l `sublist_of` l.
Proof. unfold limited, capped. repeat case_match; try done; apply sublist_take. Qed.

(** The (component, package) rows of the bulk lookup. *)
Definition sbom_rows (ecosystem name : string) (b : SBOM) : list SBOMPackageRef :=
  if bool_decide (SBOM_Ecosystem b = ecosystem) then
    MkSBOMPackageRef (SBOM_ComponentRef b) <$>
      filter (λ p, PackageVersion_Name p = name) (SBOM_Packages b)
  else [].

Section filters.
Context `{UnicodeCase}.

(** The documented meaning of an incident filter: every dimension that is
    set must agree. *)
Record incident_matches (v : View) (f : IncidentFilter) (i : Incident) : Prop := {
  im_state : IncidentFilter_States f = [] ∨ Incident_State i ∈ IncidentFilter_States f;
  im_from t : IncidentFilter_From f = Some t → (t ≤ Incident_OpenedAt i)%Z;
  im_to t : IncidentFilter_To f = Some t → (Incident_OpenedAt i ≤ t)%Z;
  im_ecosystem : IncidentFilter_Ecosystems f = [] ∨
    ∃ ioc, v_iocs v !! Incident_IoCID i = Some ioc ∧ IoC_Ecosystem ioc ≠ "" ∧
      IoC_Ecosystem ioc ∈ IncidentFilter_Ecosystems f;
  im_search : IncidentFilter_Search f = "" ∨
    ∃ text, text ∈ Incident_ID i :: Incident_IoCID i :: Incident_AffectedComponentsSnapshot i ∧
      Contains (ToLower text) (ToLower (IncidentFilter_Search f)) = true;
  im_owner : IncidentFilter_Owner f = "" ∨
    ∃ ref c, ref ∈ Incident_AffectedComponentsSnapshot i ∧
      v_components v !! ref = Some c ∧ Component_Owner c = IncidentFilter_Owner f;
}.
End filters.

Record anomaly_matches (f : AnomalyFilter) (a : Anomaly) : Prop := {
  am_package : AnomalyFilter_PackageRef f = "" ∨ Anomaly_PackageRef a = AnomalyFilter_PackageRef f;
  am_kind : AnomalyFilter_Kind f = "" ∨ Anomaly_Kind a = AnomalyFilter_Kind f;
  am_from t : AnomalyFilter_From f = Some t → (t ≤ Anomaly_DetectedAt a)%Z;
  am_to t : AnomalyFilter_To f = Some t → (Anomaly_DetectedAt a ≤ t)%Z;
}.

(** [l] is what a listing returns: the records that satisfy [P], each once,
    sorted newest first, cut at the limit. *)
Definition newest_first `{Keeping} {A} (P : A → Prop) (at_ : A → Time) (limit : Z)
    (records l : list A) : Prop :=
  ∃ full, (∀ x, x ∈ full ↔ x ∈ records ∧ P x) ∧ full ⊆+ records ∧
    SortedBy (λ x y, After (at_ x) (at_ y)) full ∧ l = limited limit full.

(** The packages whose newest snapshot is older than a cut-off, each once,
    the stalest first. *)
Definition newest_snapshot (hist : list PublisherSnapshot) (t : Time) : Prop :=
  (∃ s, s ∈ hist ∧ PublisherSnapshot_SnapshotAt s = t) ∧
  ∀ s, s ∈ hist → (PublisherSnapshot_SnapshotAt s ≤ t)%Z.

Definition stale_first `{Keeping} (v : View) (olderThan : Time) (limit : Z) (l : list string) : Prop :=
  ∃ full : list (string * Time), NoDup full.*1 ∧
    (∀ ref t, (ref, t) ∈ full ↔
       ∃ hist, v_history v !! ref = Some hist ∧ newest_snapshot hist t ∧ (t < olderThan)%Z) ∧
    SortedBy (λ x y, Before x.2 y.2) full ∧ l = limited limit full.*1.

Lemma stale_known `{Keeping} v olderThan limit l ref :
  stale_first v olderThan limit l → ref ∈ l → ref ∈ dom (v_history v).
Proof.
  intros (full & _ & Hfull & _ & ->) Hin.
  assert (ref ∈ full.*1) as ([r t] & -> & (hs & Hhs & _)%Hfull)%list_elem_of_fmap.
  { eapply elem_of_sublist; [exact Hin|apply limited_sublist]. }
  apply elem_of_dom. eauto.
Qed.

(** The identity of an anomaly. *)
Definition anomaly_key (a : Anomaly) : string * string * Time :=
  (Anomaly_Kind a, Anomaly_PackageRef a, Anomaly_DetectedAt a).

Definition with_id (id : Z) (a : Anomaly) : Anomaly :=
  MkAnomaly id (Anomaly_Kind a) (Anomaly_PackageRef a) (Anomaly_DetectedAt a)
    (Anomaly_Confidence a) (Anomaly_Explanation a) (Anomaly_Evidence a).

(** SBOMs as every parser produces them: one ecosystem, without a colon,
    shared by the packages. *)
Definition sbom_wf (b : SBOM) : Prop :=
  SBOM_Ecosystem b ≠ "" ∧ byte_in ":"%char (SBOM_Ecosystem b) = false ∧
  ∀ p, p ∈ SBOM_Packages b → PackageVersion_Ecosystem p = SBOM_Ecosystem b.

Definition sboms_wf (v : View) : Prop := ∀ id b, v_sboms v !! id = Some b → sbom_wf b.

(** No remediation on record has the id. *)
Definition remediation_fresh (v : View) (rid : string) : Prop :=
  ∀ id i r, v_incidents v !! id = Some i → r ∈ Incident_Remediations i → Remediation_ID r ≠ rid.

(** Nothing but incidents differs. *)
Record only_incidents (v v' : View) : Prop := {
  oi_components : v_components v' = v_components v;
  oi_sboms : v_sboms v' = v_sboms v;
  oi_iocs : v_iocs v' = v_iocs v;
  oi_publishers : v_publishers v' = v_publishers v;
  oi_profiles : v_profiles v' = v_profiles v;
  oi_history : v_history v' = v_history v;
  oi_anomalies : v_anomalies v' = v_anomalies v;
}.

(** The audit log an incident has on record. *)
Definition stored_remediations (v : View) (id : string) : list Remediation :=
  from_option Incident_Remediations [] (v_incidents v !! id).

(** ** The laws *)

(** A call the backend answers returns a value that satisfies [P]. *)
Definition Returns {A} (answered : Prop) (r : result A) (P : A → Prop) : Prop :=
  match r with Ok a => P a | Err _ => ¬ answered end.

(** A write took effect, or failed. A call that is answered succeeds
    when the value is accepted, and is without effect when it does not
    succeed; otherwise the record may have been written with an error. *)
Record Wrote (inv' answered accepted : Prop) (v v' : View) (err : option error)
    (upd : View → View) : Prop := {
  wrote_inv : inv';
  wrote_ok : answered → accepted → err = None;
  wrote_accepted : err = None → accepted;
  wrote_view : v' = upd v ∨ err ≠ None ∧ v' = v;
  wrote_refused : answered → err ≠ None → v' = v;
}.

(** A lookup: the record, or an error; [ErrNotFound] is only returned when
    there is no record, and is the only error of a call that is answered. *)
Definition Looks {A} (answered : Prop) (r : result A) (found : option A) : Prop :=
  match r with
  | Ok a => found = Some a
  | Err e => (errors_Is e ErrNotFound = true → found = None) ∧
             (answered → errors_Is e ErrNotFound = true)
  end.

Class StorageLaws (St : Type) `{UnicodeCase, !Storage St} := {
  store_keeping :: Keeping;
  store_keeping_laws :: KeepingLaws;
  view : St → View;
  store_inv : St → Prop;
  answered : Call → Prop;

  store_inv_wf s : store_inv s → view_wf (view s);
  store_components_accepted s ref c : store_inv s → v_components (view s) !! ref = Some c →
    accepts_text ref;
  store_iocs_accepted s id i : store_inv s → v_iocs (view s) !! id = Some i → accepts_text id;
  store_sboms_accepted s id b : store_inv s → v_sboms (view s) !! id = Some b →
    accepts_text (SBOM_ComponentRef b);
  store_incidents_accepted s id i : store_inv s → v_incidents (view s) !! id = Some i →
    accepts_incident i;
  store_history_accepted s ref : store_inv s → is_Some (v_history (view s) !! ref) →
    accepts_text ref;

  UpsertComponent_law k c s : store_inv s →
    let '(s', err) := UpsertComponent k c s in
    Wrote (store_inv s') (answered k) (accepts_component c) (view s) (view s') err
      (put_component (keep_component c));
  GetComponent_law k ref s : store_inv s →
    Looks (answered k ∧ accepts_text ref) (GetComponent k ref s) (v_components (view s) !! ref);
  ListComponents_law k s : store_inv s →
    Returns (answered k) (ListComponents k s) (λ l,
      l ≡ₚ values (v_components (view s)) ∧
      SortedBy (λ x y, text_less (Component_Ref x) (Component_Ref y)) l);

  UpsertSBOM_law k b s : store_inv s →
    let '(s', err) := UpsertSBOM k b s in
    Wrote (store_inv s') (answered k) (accepts_sbom b) (view s) (view s') err
      (put_sbom (keep_sbom b));
  GetSBOM_law k id s : store_inv s →
    Looks (answered k ∧ accepts_text id) (GetSBOM k id s) (v_sboms (view s) !! id);
  ListSBOMsByComponent_law k ref s : store_inv s →
    Returns (answered k ∧ accepts_text ref) (ListSBOMsByComponent k ref s) (λ l,
      l ≡ₚ filter (λ b, SBOM_ComponentRef b = ref) (values (v_sboms (view s))) ∧
      SortedBy (λ x y, Before (SBOM_GeneratedAt x) (SBOM_GeneratedAt y)) l);
  ListSBOMPackages_law k eco name s : store_inv s → sboms_wf (view s) →
    Returns (answered k ∧ accepts_text eco ∧ accepts_text name) (ListSBOMPackages k eco name s)
      (λ l, l ≡ₚ (values (v_sboms (view s)) ≫= sbom_rows eco name));

  UpsertIoC_law k i s : store_inv s →
    let '(s', err) := UpsertIoC k i s in
    Wrote (store_inv s') (answered k) (accepts_ioc i) (view s) (view s') err
      (put_ioc (keep_ioc i));
  GetIoC_law k id s : store_inv s →
    Looks (answered k ∧ accepts_text id) (GetIoC k id s) (v_iocs (view s) !! id);
  ListIoCs_law k s : store_inv s →
    Returns (answered k) (ListIoCs k s) (λ l,
      l ≡ₚ values (v_iocs (view s)) ∧
      SortedBy (λ x y, Before (IoC_PublishedAt x) (IoC_PublishedAt y)) l);

  (** Incidents, whatever their audit log: *)
  UpsertIncident_other k i s : store_inv s →
    store_inv (UpsertIncident k i s).1 ∧ only_incidents (view s) (view (UpsertIncident k i s).1);
  AppendRemediation_other k id r s : store_inv s →
    store_inv (AppendRemediation k id r s).1 ∧
    only_incidents (view s) (view (AppendRemediation k id r s).1);
  (** The audit log is not the business of this write. *)
  UpsertIncident_law k i s : store_inv s →
    Incident_Remediations i = stored_remediations (view s) (Incident_ID i) →
    let '(s', err) := UpsertIncident k i s in
    Wrote (store_inv s') (answered k) (accepts_incident i) (view s) (view s') err
      (put_incident (keep_incident i));
  GetIncident_law k id s : store_inv s →
    Looks (answered k ∧ accepts_text id) (GetIncident k id s) (v_incidents (view s) !! id);
  ListIncidents_law k s : store_inv s →
    Returns (answered k) (ListIncidents k s) (λ l,
      l ≡ₚ listed_incident <$> values (v_incidents (view s)) ∧
      SortedBy (λ x y, Before (Incident_OpenedAt x) (Incident_OpenedAt y)) l);
  (** Only a call that is answered is guaranteed to find everything. *)
  ListIncidentsFiltered_law k f s : store_inv s → Forall accepts_text (IncidentFilter_States f) →
    answered k → ∃ l, ListIncidentsFiltered k f s = Ok l ∧
      newest_first (incident_matches (view s) (keep_incident_filter f)) Incident_OpenedAt
         (IncidentFilter_Limit f) (listed_incident <$> values (v_incidents (view s))) l;
  MatchedComponentRefsByIoC_law k ioc s : store_inv s →
    Returns (answered k ∧ accepts_text ioc) (MatchedComponentRefsByIoC k ioc s) (λ l,
      NoDup l ∧ SortedBy text_less l ∧
      ∀ ref, ref ∈ l ↔ ∃ id i, v_incidents (view s) !! id = Some i ∧
        Incident_IoCID i = ioc ∧ ref ∈ Incident_AffectedComponentsSnapshot i);
  AppendRemediation_law k id r s : store_inv s → Remediation_IncidentID r = id →
    remediation_fresh (view s) (Remediation_ID r) →
    let '(s', err) := AppendRemediation k id r s in
    match v_incidents (view s) !! id with
    | Some _ =>
        Wrote (store_inv s') (answered k) (accepts_remediation r) (view s) (view s') err
          (append_remediation id (keep_remediation r))
    | None => store_inv s' ∧ view s' = view s ∧ err ≠ None ∧
        (answered k → accepts_text id → ∃ e, err = Some e ∧ errors_Is e ErrNotFound = true)
    end;
  ListRemediations_law k id s : store_inv s →
    Looks (answered k ∧ accepts_text id) (ListRemediations k id s)
      (Incident_Remediations <$> v_incidents (view s) !! id);

  SavePublisherSnapshot_law k sn s : store_inv s →
    let '(s', err) := SavePublisherSnapshot k sn s in
    ∃ id, Wrote (store_inv s') (answered k) (accepts_snapshot sn) (view s) (view s') err
      (push_snapshot (keep_snapshot (call_now k) id sn));
  GetPublisherHistory_law k ref limit s : store_inv s →
    Returns (answered k ∧ accepts_text ref) (GetPublisherHistory k ref limit s) (λ l,
      ∃ full, full ≡ₚ default [] (v_history (view s) !! ref) ∧
        SortedBy (λ x y, After (PublisherSnapshot_SnapshotAt x)
                           (PublisherSnapshot_SnapshotAt y)) full ∧
        l = limited limit full);
  ListPackagesNeedingRefresh_law k olderThan limit s : store_inv s →
    Returns (answered k) (ListPackagesNeedingRefresh k olderThan limit s)
      (stale_first (view s) (keep_time olderThan) limit);
  SaveAnomaly_law k a s : store_inv s →
    let '(s', r) := SaveAnomaly k a s in
    let a' := stamped (call_now k) a in
    store_inv s' ∧
    ((∃ id x, v_anomalies (view s) !! id = Some x ∧ anomaly_key x = anomaly_key a' ∧
        view s' = view s ∧ Returns (answered k ∧ accepts_anomaly a) r (λ n, n = id)) ∨
     (∀ id x, v_anomalies (view s) !! id = Some x → anomaly_key x ≠ anomaly_key a') ∧
     ∃ id, v_anomalies (view s) !! id = None ∧
       Wrote (store_inv s') (answered k) (accepts_anomaly a) (view s) (view s') (result_error r)
         (put_anomaly (with_id id a')) ∧
       Returns (answered k ∧ accepts_anomaly a) r (λ n, n = id));
  GetAnomaly_law k id s : store_inv s →
    Looks (answered k) (GetAnomaly k id s) (v_anomalies (view s) !! id);
  ListAnomalies_law k f s : store_inv s →
    Returns (answered k ∧ accepts_text (AnomalyFilter_PackageRef f) ∧ accepts_text (AnomalyFilter_Kind f))
      (ListAnomalies k f s)
      (newest_first (anomaly_matches (keep_anomaly_filter f)) Anomaly_DetectedAt
         (AnomalyFilter_Limit f) (values (v_anomalies (view s))));
}.

(** The publisher tables, which no handler and no tick uses: each record is
    stored and read back on its own. *)
Class PublisherLaws (St : Type) `{StorageLaws St} := {
  UpsertPublisher_law k p s : store_inv s →
    let '(s', err) := UpsertPublisher k p s in
    Wrote (store_inv s') (answered k) True (view s) (view s') err (put_publisher p);
  GetPublisher_law k eco name s : store_inv s →
    Looks (answered k) (GetPublisher k eco name s) (v_publishers (view s) !! (eco, name));
  UpsertPublisherProfile_law k p s : store_inv s →
    let '(s', err) := UpsertPublisherProfile k p s in
    Wrote (store_inv s') (answered k) True (view s) (view s') err (put_profile p);
  GetPublisherProfile_law k eco name s : store_inv s →
    Looks (answered k) (GetPublisherProfile k eco name s) (v_profiles (view s) !! (eco, name));
  ListPublishers_law k eco s : store_inv s →
    Returns (answered k) (ListPublishers k eco s) (λ l,
      l ≡ₚ filter (λ p, Publisher_Ecosystem p = eco) (values (v_publishers (view s))) ∧
      SortedBy (λ x y, String.ltb (Publisher_Name x) (Publisher_Name y)) l);
}.
