(* ===== verification/Sbom.v ===== *)
(** * What the lockfile parsers share

    Every parser under src/engine/sbom sorts its packages by name and then
    version with the same closure, and promises the same shape of SBOM. *)

From S2P Require Import Prelude GoStrings Domain Storage.
From stdpp Require Import options.

(** The closure handed to [sort.Slice]. *)
Definition less_pkg (p q : PackageVersion) : bool :=
  if bool_decide (PackageVersion_Name p = PackageVersion_Name q)
  then String.ltb (PackageVersion_Version p) (PackageVersion_Version q)
  else String.ltb (PackageVersion_Name p) (PackageVersion_Name q).

Definition sort_pkgs (k : Call) (pkgs : list PackageVersion) : list PackageVersion :=
  @sort_slice (call_rt k) _ less_pkg pkgs.

#[global] Instance less_pkg_swo : StrictWeakOrder less_pkg.
Proof. apply less_by_strings_swo. Qed.

(** The shape the engine relies on: one ecosystem, without a colon, shared
    by the packages. *)
Definition parsed_wf (parsed : ParsedSBOM) : Prop :=
  ParsedSBOM_Ecosystem parsed ≠ "" ∧ byte_in ":"%char (ParsedSBOM_Ecosystem parsed) = false ∧
  ∀ p, p ∈ ParsedSBOM_Packages parsed → PackageVersion_Ecosystem p = ParsedSBOM_Ecosystem parsed.

Lemma sort_pkgs_perm k pkgs : sort_pkgs k pkgs ≡ₚ pkgs.
Proof. apply sort_slice_perm. Qed.

Lemma sort_pkgs_sorted k pkgs : SortedBy less_pkg (sort_pkgs k pkgs).
Proof. apply sort_slice_sorted, _. Qed.

(** Packages that tie in the sort have the same name and version. *)
Lemma less_pkg_tie p q :
  less_pkg p q = false → less_pkg q p = false →
  PackageVersion_Name p = PackageVersion_Name q ∧
  PackageVersion_Version p = PackageVersion_Version q.
Proof.
  unfold less_pkg. repeat case_bool_decide; try congruence; intros Hpq Hqp.
  - split; [done|]. apply (anti_symm String.le); by apply str_ltb_leb.
  - exfalso. assert (PackageVersion_Name p = PackageVersion_Name q); [|done].
    apply (anti_symm String.le); by apply str_ltb_leb.
Qed.

(** Without two packages of one name and version, the sorted list does not
    depend on the input order nor on the sort. *)
Lemma sort_pkgs_unique k1 k2 l1 l2 :
  l1 ≡ₚ l2 →
  (∀ p q, p ∈ l1 → q ∈ l1 → PackageVersion_Name p = PackageVersion_Name q →
     PackageVersion_Version p = PackageVersion_Version q → p = q) →
  sort_pkgs k1 l1 = sort_pkgs k2 l2.
Proof.
  intros Hperm Hties. apply (SortedBy_unique less_pkg).
  - intros p q. rewrite sort_pkgs_perm. intros Hp Hq Hpq Hqp.
    destruct (less_pkg_tie p q Hpq Hqp). auto.
  - apply sort_pkgs_sorted.
  - apply sort_pkgs_sorted.
  - by rewrite !sort_pkgs_perm.
Qed.
