(* ===== verification/SbomNpm.v ===== *)
(** * The npm lockfile parser

    src/engine/sbom/npm: [Parse] reads a package-lock.json (types.go,
    parser.go), [StrategyParser] chooses between it and the native sidecar
    (strategy.go). The sidecar is reached through the interface
    [NativeClient] the package declares. Logging is left out. *)

From S2P Require Import Prelude GoStrings GoText Json Domain Storage Sbom.
From stdpp Require Import options.

(** ** types.go *)

Record LockPackage := MkLockPackage {
  lp_Version : string;
  lp_Resolved : string;
  lp_Integrity : string;
  lp_Dev : bool;
  lp_Optional : bool;
  lp_Peer : bool;
  lp_Link : bool;
  lp_Dependencies : option (gmap string string);
  lp_DevDependencies : option (gmap string string);
  lp_PeerDependencies : option (gmap string string);
  lp_OptionalDependencies : option (gmap string string);
  lp_License : string;
}.

Record Lockfile := MkLockfile {
  lf_Name : string;
  lf_Version : string;
  lf_LockfileVersion : Z;
  lf_Requires : bool;
  lf_Packages : option (gmap string LockPackage);
}.

Definition zero_LockPackage : LockPackage :=
  MkLockPackage "" "" "" false false false false None None None None "".

Definition zero_Lockfile : Lockfile := MkLockfile "" "" 0 false None.

(** What the json tags say. *)
Definition LockPackage_tags : list string :=
  ["version"; "resolved"; "integrity"; "dev"; "optional"; "peer"; "link"; "dependencies";
   "devDependencies"; "peerDependencies"; "optionalDependencies"; "license"].

Definition set_LockPackage (tag : string) (p : LockPackage) (v : json) : option LockPackage :=
  let '(MkLockPackage ver res int dev opt peer link deps devd peerd optd lic) := p in
  let strings := decode_map (decode_string "") in
  if String.eqb tag "version" then
    x ← decode_string ver v; Some (MkLockPackage x res int dev opt peer link deps devd peerd optd lic)
  else if String.eqb tag "resolved" then
    x ← decode_string res v; Some (MkLockPackage ver x int dev opt peer link deps devd peerd optd lic)
  else if String.eqb tag "integrity" then
    x ← decode_string int v; Some (MkLockPackage ver res x dev opt peer link deps devd peerd optd lic)
  else if String.eqb tag "dev" then
    x ← decode_bool dev v; Some (MkLockPackage ver res int x opt peer link deps devd peerd optd lic)
  else if String.eqb tag "optional" then
    x ← decode_bool opt v; Some (MkLockPackage ver res int dev x peer link deps devd peerd optd lic)
  else if String.eqb tag "peer" then
    x ← decode_bool peer v; Some (MkLockPackage ver res int dev opt x link deps devd peerd optd lic)
  else if String.eqb tag "link" then
    x ← decode_bool link v; Some (MkLockPackage ver res int dev opt peer x deps devd peerd optd lic)
  else if String.eqb tag "dependencies" then
    x ← strings deps v; Some (MkLockPackage ver res int dev opt peer link x devd peerd optd lic)
  else if String.eqb tag "devDependencies" then
    x ← strings devd v; Some (MkLockPackage ver res int dev opt peer link deps x peerd optd lic)
  else if String.eqb tag "peerDependencies" then
    x ← strings peerd v; Some (MkLockPackage ver res int dev opt peer link deps devd x optd lic)
  else if String.eqb tag "optionalDependencies" then
    x ← strings optd v; Some (MkLockPackage ver res int dev opt peer link deps devd peerd x lic)
  else
    x ← decode_string lic v; Some (MkLockPackage ver res int dev opt peer link deps devd peerd optd x).

Definition Lockfile_tags : list string :=
  ["name"; "version"; "lockfileVersion"; "requires"; "packages"].

Definition set_Lockfile (tag : string) (f : Lockfile) (v : json) : option Lockfile :=
  let '(MkLockfile name ver lver req pkgs) := f in
  if String.eqb tag "name" then x ← decode_string name v; Some (MkLockfile x ver lver req pkgs)
  else if String.eqb tag "version" then
    x ← decode_string ver v; Some (MkLockfile name x lver req pkgs)
  else if String.eqb tag "lockfileVersion" then
    x ← decode_int lver v; Some (MkLockfile name ver x req pkgs)
  else if String.eqb tag "requires" then
    x ← decode_bool req v; Some (MkLockfile name ver lver x pkgs)
  else
    x ← decode_map (decode_struct LockPackage_tags set_LockPackage zero_LockPackage) pkgs v;
    Some (MkLockfile name ver lver req x).

Definition decode_Lockfile : Lockfile → json → option Lockfile :=
  decode_struct Lockfile_tags set_Lockfile.

(** ** parser.go *)

Definition marker : string := "node_modules/".

Definition shouldSkip (path : string) (entry : LockPackage) : bool :=
  if bool_decide (path = "") || lp_Link entry then true
  else if negb (Contains path "node_modules/") then true
  else false.

Definition extractName (path : string) : string :=
  match last_index path marker with
  | None => path
  | Some idx => str_drop (idx + String.length marker) path
  end.

Definition buildScope (e : LockPackage) : list string :=
  (if lp_Dev e then ["dev"] else []) ++
  (if lp_Optional e then ["optional"] else []) ++
  (if lp_Peer e then ["peer"] else []).

(** One turn of the loop over the packages; [None] is a [continue]. *)
Definition lockEntry (path : string) (entry : LockPackage) : option PackageVersion :=
  if shouldSkip path entry then None
  else if bool_decide (lp_Version entry = "") then None
  else
    let name := extractName path in
    Some (MkPackageVersion "npm" name (lp_Version entry)
            (CanonicalPURL "npm" name (lp_Version entry)) (buildScope entry) (lp_Integrity entry)).

Definition Parse (k : Call) (content : string) : result ParsedSBOM :=
  match ctx_Err k with
  | Some e => Err e
  | None =>
      match Unmarshal decode_Lockfile zero_Lockfile content with
      | Err e => Err (EWrap "%w: %v" [error_text e] (ESentinel npm_ErrMalformedLockfile))
      | Ok lf =>
          if bool_decide (lf_LockfileVersion lf ≠ 3%Z) then
            Err (EWrap "%w: got %d, expected 3" [pretty (lf_LockfileVersion lf)]
                   (ESentinel npm_ErrUnsupportedLockfileVersion))
          else match lf_Packages lf with
               | None => Err (ESentinel npm_ErrEmptyLockfile)
               | Some packages =>
                   let pkgs := omap (λ '(path, entry), lockEntry path entry)
                     (@map_range (call_rt k) _ _ _ _ packages) in
                   Ok (MkParsedSBOM "npm" (sort_pkgs k pkgs) "npm-package-lock-v3"
                         (Z.of_nat (String.length content)))
               end
      end
  end.

(** ** strategy.go *)

Definition StrategyGo : string := "go".
Definition StrategyNative : string := "native".

Record NativeClient := MkNativeClient {
  ParseNPMLockfile : Call → string → result ParsedSBOM;
  Ping : Call → option error;
}.

Record StrategyParser := MkStrategyParser {
  sp_strategy : string;
  sp_native : option NativeClient;
}.

(** [k] is the probe's call, under its own two-second context. *)
Definition EffectiveStrategy (k : Call) (requested : string) (client : option NativeClient) :
    string :=
  if bool_decide (requested ≠ StrategyNative) then requested
  else match client with
       | None => StrategyGo
       | Some c => match Ping c k with Some _ => StrategyGo | None => requested end
       end.

Definition StrategyParser_Parse (sp : StrategyParser) (k : Call) (content : string) :
    result ParsedSBOM :=
  if bool_decide (sp_strategy sp = StrategyNative) then
    match sp_native sp with
    | None => Err (ESentinel npm_ErrNativeUnconfigured)
    | Some c => ParseNPMLockfile c k content
    end
  else if bool_decide (sp_strategy sp = StrategyGo) || bool_decide (sp_strategy sp = "") then
    Parse k content
  else Err (EText ("npm parser: unknown strategy " +:+ sp_strategy sp) []).

(** * Properties *)

(** The entry is an installed third-party package: not a link, with a
    version, below some node_modules directory. *)
Definition installed (path : string) (e : LockPackage) : Prop :=
  lp_Link e = false ∧ lp_Version e ≠ "" ∧ ∃ pre name, path = pre +:+ marker +:+ name.

(** The package an entry stands for: named by what follows the last
    node_modules, at the entry's version. *)
Definition entry_package (row : string * LockPackage) (p : PackageVersion) : Prop :=
  let '(path, e) := row in
  (∃ pre, path = pre +:+ marker +:+ PackageVersion_Name p ∧
     ∀ pre' name', path = pre' +:+ marker +:+ name' → String.length pre' ≤ String.length pre) ∧
  PackageVersion_Ecosystem p = "npm" ∧
  PackageVersion_Version p = lp_Version e ∧
  PackageVersion_PURL p = npmPURL (PackageVersion_Name p) (lp_Version e) ∧
  PackageVersion_Integrity p = lp_Integrity e ∧
  (∀ s, s ∈ PackageVersion_Scope p ↔
     s = "dev" ∧ lp_Dev e = true ∨ s = "optional" ∧ lp_Optional e = true ∨
     s = "peer" ∧ lp_Peer e = true).

Lemma Contains_spec s sub : Contains s sub = true ↔ ∃ pre t, s = pre +:+ sub +:+ t.
Proof.
  unfold Contains. rewrite bool_decide_eq_true. split.
  - intros [i Hi]. exists (str_take i s), (str_drop (i + String.length sub) s).
    by rewrite index_Some_app.
  - intros (pre & t & ->). induction pre as [|a pre IH].
    + change ("" +:+ sub +:+ t) with (sub +:+ t). destruct (sub +:+ t) as [|b u] eqn:E; simpl.
      * assert (sub = "") as -> by (by destruct sub). done.
      * assert (HasPrefix (String b u) sub = true) as ->; [|by eexists].
        apply HasPrefix_spec. exists t. congruence.
    + rewrite string_app_cons. simpl. case_match; [by eexists|].
      destruct IH as [i ->]. by eexists.
Qed.

Lemma shouldSkip_false path e :
  shouldSkip path e = false ↔ lp_Link e = false ∧ ∃ pre name, path = pre +:+ marker +:+ name.
Proof.
  unfold shouldSkip. rewrite <- Contains_spec. case_bool_decide as Hp; simpl.
  { subst. split; [done|]. intros [_ H]. vm_compute in H. done. }
  unfold marker. destruct (lp_Link e); [naive_solver|]. destruct (Contains _ _); naive_solver.
Qed.

Lemma str_take_length n s : n ≤ String.length s → String.length (str_take n s) = n.
Proof. revert s. induction n; intros [|a s]; simpl; intros; f_equal; auto with lia. Qed.

Lemma last_index_bound s sub i : last_index s sub = Some i → i ≤ String.length s.
Proof.
  revert i. induction s as [|a s IH]; intros i; cbn [last_index].
  - destruct (HasPrefix "" sub); [|done]. intros [= <-]. lia.
  - destruct (last_index s sub) as [j|]; [intros [= <-]; simpl; specialize (IH j eq_refl); lia|].
    destruct (HasPrefix _ sub); [|done]. intros [= <-]. simpl. lia.
Qed.

Lemma extractName_spec path :
  (∃ pre name, path = pre +:+ marker +:+ name) →
  ∃ pre, path = pre +:+ marker +:+ extractName path ∧
    ∀ pre' name', path = pre' +:+ marker +:+ name' → String.length pre' ≤ String.length pre.
Proof.
  intros (pre & name & Hpath). unfold extractName.
  destruct (last_index path marker) as [i|] eqn:E.
  - exists (str_take i path). split; [by rewrite last_index_Some|].
    intros pre' name' Hp. rewrite str_take_length by (by eapply last_index_bound).
    by eapply last_index_is_last.
  - exfalso. rewrite last_index_None in E. by apply (E pre name).
Qed.

Lemma lockEntry_Some path e p :
  lockEntry path e = Some p → installed path e ∧ entry_package (path, e) p.
Proof.
  unfold lockEntry. destruct (shouldSkip path e) eqn:Hs; [done|].
  apply shouldSkip_false in Hs as [Hl Hp]. case_bool_decide; [done|]. intros [= <-].
  split; [by split_and!|]. split_and!; simpl; try done; [by apply extractName_spec|].
  intros s. unfold buildScope.
  rewrite !elem_of_app.
  destruct (lp_Dev e), (lp_Optional e), (lp_Peer e); set_solver.
Qed.

Lemma lockEntry_installed path e : installed path e → is_Some (lockEntry path e).
Proof.
  intros (Hl & Hv & Hp). unfold lockEntry.
  destruct (shouldSkip path e) eqn:Hs.
  - assert (shouldSkip path e = false) by (apply shouldSkip_false; done). congruence.
  - rewrite bool_decide_false by done. by eexists.
Qed.

(** The loop keeps one package per installed entry. *)
Lemma lockEntries_rows (l : list (string * LockPackage)) :
  NoDup l.*1 →
  ∃ rows, NoDup rows.*1 ∧
    (∀ path e, (path, e) ∈ rows ↔ (path, e) ∈ l ∧ installed path e) ∧
    Forall2 entry_package rows (omap (λ '(path, entry), lockEntry path entry) l).
Proof.
  induction l as [|[path e] l IH]; simpl; [exists []; split_and!; [done|set_solver|constructor]|].
  intros [Hp Hnd]%NoDup_cons. destruct (IH Hnd) as (rows & Hr & Hin & HF).
  destruct (lockEntry path e) as [p|] eqn:E.
  - apply lockEntry_Some in E as [Hi He]. exists ((path, e) :: rows). split_and!.
    + simpl. constructor; [|done]. intros (row & Heq & Hrow)%list_elem_of_fmap.
      destruct row as [path' e']. simpl in Heq. subst path'. apply Hin in Hrow as [Hrow _].
      apply Hp, list_elem_of_fmap. by exists (path, e').
    + intros path' e'. rewrite !elem_of_cons, Hin. naive_solver.
    + by constructor.
  - exists rows. split_and!; [done| |done]. intros path' e'. rewrite Hin, elem_of_cons.
    split; [naive_solver|]. intros [[Heq|?] Hi]; [|done]. simplify_eq.
    apply lockEntry_installed in Hi as [? ?]. congruence.
Qed.

(** Every package of the result comes from an entry. *)
Lemma SbomNpm_Parse_wf k content parsed : Parse k content = Ok parsed → parsed_wf parsed.
Proof.
  unfold Parse. repeat (case_match; try done). intros [= <-]. split_and!; [done..|].
  simpl. intros p. rewrite sort_pkgs_perm. intros ([path e] & _ & Hpe)%list_elem_of_omap.
  apply lockEntry_Some in Hpe as [_ (_ & ? & _)]. done.
Qed.

(** C36: the npm parser is exact. It accepts a lockfile that decodes, has
    version 3 and a packages object, and then lists one package for every
    installed entry and for nothing else (links, workspace sources, the
    root and entries without a version are left out), sorted by name and
    version, each named by the path behind the last node_modules; it
    rejects everything else with the sentinel of the first check that
    fails. *)
Theorem npm_Parse_exact k content :
  match Parse k content with
  | Ok parsed => ctx_Err k = None ∧
      ∃ lf packages rows ps,
        Unmarshal decode_Lockfile zero_Lockfile content = Ok lf ∧
        lf_LockfileVersion lf = 3%Z ∧ lf_Packages lf = Some packages ∧
        NoDup rows.*1 ∧
        (∀ path e, (path, e) ∈ rows ↔ packages !! path = Some e ∧ installed path e) ∧
        Forall2 entry_package rows ps ∧
        ParsedSBOM_Packages parsed ≡ₚ ps ∧ SortedBy less_pkg (ParsedSBOM_Packages parsed) ∧
        parsed_wf parsed
  | Err e =>
      ctx_Err k = Some e ∨ ctx_Err k = None ∧
      match Unmarshal decode_Lockfile zero_Lockfile content with
      | Err _ => errors_Is e npm_ErrMalformedLockfile = true
      | Ok lf =>
          if bool_decide (lf_LockfileVersion lf = 3%Z)
          then lf_Packages lf = None ∧ errors_Is e npm_ErrEmptyLockfile = true
          else errors_Is e npm_ErrUnsupportedLockfileVersion = true
      end
  end.
Proof.
  unfold Parse. destruct (ctx_Err k) as [e|] eqn:Hk; [by left|].
  destruct (Unmarshal _ _ content) as [lf|e] eqn:Hu; [|right; done].
  destruct (decide (lf_LockfileVersion lf = 3%Z)) as [Hv|Hv].
  2: { rewrite !bool_decide_true by done. rewrite bool_decide_false by done. by right. }
  rewrite bool_decide_false by tauto. destruct (lf_Packages lf) as [packages|] eqn:Hp.
  2: { right. by rewrite bool_decide_true. }
  destruct (lockEntries_rows (@map_range (call_rt k) _ _ _ _ packages)) as (rows & Hnd & Hin & HF).
  { apply map_range_NoDup_keys. }
  split; [done|]. exists lf, packages, rows. eexists. split_and!; [done..| |exact HF| | |].
  - intros path e. by rewrite Hin, elem_of_map_range.
  - apply sort_pkgs_perm.
  - apply sort_pkgs_sorted.
  - apply (SbomNpm_Parse_wf k content). unfold Parse. by rewrite Hk, Hu, bool_decide_false, Hp by tauto.
Qed.

(** On a lockfile whose installed entries of one name and version agree
    (as in every lockfile without nested duplicates), the parsed SBOM does
    not depend on the order in which Go ranges over the packages map nor on
    the unstable sort. *)
Theorem npm_Parse_deterministic k1 k2 content :
  call_err k1 = call_err k2 →
  (∀ lf packages path1 path2 e1 e2 p q,
     Unmarshal decode_Lockfile zero_Lockfile content = Ok lf → lf_Packages lf = Some packages →
     packages !! path1 = Some e1 → packages !! path2 = Some e2 →
     lockEntry path1 e1 = Some p → lockEntry path2 e2 = Some q →
     PackageVersion_Name p = PackageVersion_Name q →
     PackageVersion_Version p = PackageVersion_Version q → p = q) →
  Parse k1 content = Parse k2 content.
Proof.
  intros Hk Hties. unfold Parse, ctx_Err. rewrite Hk.
  destruct (call_err k2) as [[]|]; [done..|].
  destruct (Unmarshal _ _ content) as [lf|e]; [|done]. case_bool_decide; [done|].
  destruct (lf_Packages lf) as [packages|] eqn:Hpk; [|done]. f_equal. f_equal. apply sort_pkgs_unique.
  - apply omap_Permutation. by rewrite !map_range_perm.
  - intros p q ([path1 e1] & Hm1%elem_of_map_range & Hp)%list_elem_of_omap
      ([path2 e2] & Hm2%elem_of_map_range & Hq)%list_elem_of_omap.
    by apply (Hties _ _ path1 path2 e1 e2 p q eq_refl Hpk).
Qed.

(** The packages of a lockfile, in some order. *)
Lemma lockEntry_elem (packages : gmap string LockPackage) path e p :
  packages !! path = Some e → lockEntry path e = Some p →
  p ∈ omap (λ '(path, entry), lockEntry path entry) (map_to_list packages).
Proof.
  intros Hm Hp. apply list_elem_of_omap. exists (path, e). by rewrite elem_of_map_to_list.
Qed.

(** ** Concrete lockfiles *)

(** JSON text with the quotes written as apostrophes. *)
Definition json_text (s : string) : string :=
  str_map (λ a, if bool_decide (a = "'"%char) then ascii_of_N 34 else a) s.

Definition sample_lockfile : string := json_text
  "{'name':'app','lockfileVersion':3,'requires':true,'packages':{
     '':{'version':'0.1.0'},
     'packages/ui':{'version':'0.0.1'},
     'node_modules/ui':{'resolved':'packages/ui','link':true},
     'node_modules/axios':{'version':'1.11.0','integrity':'sha512-a'},
     'node_modules/axios/node_modules/@types/node':{'version':'20.1.0','dev':true}}}".

(** Two copies of one version: the nested one is a development dependency. *)
Definition nested_lockfile : string := json_text
  "{'lockfileVersion':3,'packages':{
     'node_modules/axios':{'version':'1.11.0','integrity':'sha512-a'},
     'node_modules/tool/node_modules/axios':{'version':'1.11.0','dev':true}}}".

Definition npm_call (rt : GoRuntime) : Call := MkCall rt None 0 all_executed.

Lemma npm_Parse_deterministic_witness :
  Parse (npm_call reference_runtime) sample_lockfile =
  Parse (npm_call reversed_runtime) sample_lockfile ∧
  ∃ parsed, Parse (npm_call reference_runtime) sample_lockfile = Ok parsed ∧
    PackageVersion_PURL <$> ParsedSBOM_Packages parsed =
      ["pkg:npm/%40types/node@20.1.0"; "pkg:npm/axios@1.11.0"].
Proof.
  split; [|eexists; split; [vm_compute; reflexivity|vm_compute; reflexivity]].
  apply (npm_Parse_deterministic (npm_call reference_runtime) (npm_call reversed_runtime)
    sample_lockfile eq_refl).
  intros lf packages path1 path2 e1 e2 p q Hu Hp H1 H2 Hp1 Hp2 Hn Hv.
  apply (lockEntry_elem packages) in Hp1, Hp2; [|done..].
  assert (omap (λ '(path, entry), lockEntry path entry) (map_to_list packages) =
    omap (λ '(path, entry), lockEntry path entry) (map_to_list (default ∅
      match Unmarshal decode_Lockfile zero_Lockfile sample_lockfile with
      | Ok lf => lf_Packages lf | Err _ => None end))) as Hl by (by rewrite Hu, Hp).
  rewrite Hl in Hp1, Hp2. clear -Hp1 Hp2 Hn. revert Hp1 Hp2 Hn. vm_compute (omap _ _).
  intros [->| ->%list_elem_of_singleton]%elem_of_cons [->| ->%list_elem_of_singleton]%elem_of_cons;
    simpl; congruence.
Defined.

(** The order of an SBOM is not deterministic in general: when two
    installed copies of one version differ (here the nested one is a
    development dependency), two runs of the parser on the same lockfile
    can list them in different orders. *)
Theorem npm_Parse_order_dependent :
  ∃ p q, p ≠ q ∧
    ParsedSBOM_Packages <$> result_value (Parse (npm_call reference_runtime) nested_lockfile) =
      Some [p; q] ∧
    ParsedSBOM_Packages <$> result_value (Parse (npm_call reversed_runtime) nested_lockfile) =
      Some [q; p].
Proof. do 2 eexists. split_and!; cycle 1; [vm_compute; reflexivity..|discriminate]. Qed.
