(* ===== verification/SbomCargo.v ===== *)
(** * The Cargo.lock parser

    src/engine/sbom/cargo. The TOML decoder is a third-party package and a
    parameter: what [toml.Decode] stores in the package array, or its
    error. *)

From S2P Require Import Prelude GoStrings Domain Storage Sbom.
From stdpp Require Import options.

Record LockPackage := MkLockPackage {
  lp_Name : string;
  lp_Version : string;
  lp_Source : string;
  lp_Checksum : string;
}.

Record Lockfile := MkLockfile { lf_Packages : list LockPackage }.

Class CargoTOML := { toml_Decode : string → result Lockfile }.

Definition registryPrefix : string := "registry+".
Definition gitPrefix : string := "git+".

Definition sourceScope (source : string) : list string :=
  if HasPrefix source gitPrefix then ["git"]
  else if HasPrefix source registryPrefix then []
  else ["source:" +:+ source].

(** One turn of the loop; [None] is a [continue]. *)
Definition lockEntry (p : LockPackage) : option PackageVersion :=
  if bool_decide (lp_Source p = "") then None
  else Some (MkPackageVersion "cargo" (lp_Name p) (lp_Version p)
               (CanonicalPURL "cargo" (lp_Name p) (lp_Version p))
               (sourceScope (lp_Source p)) (lp_Checksum p)).

Definition Parse `{CargoTOML} (k : Call) (content : string) : result ParsedSBOM :=
  match ctx_Err k with
  | Some e => Err e
  | None =>
      match toml_Decode content with
      | Err e => Err (EWrap "%w: %v" [error_text e] (ESentinel cargo_ErrMalformedLockfile))
      | Ok lf =>
          if bool_decide (length (lf_Packages lf) = 0) then Err (ESentinel cargo_ErrEmptyLockfile)
          else Ok (MkParsedSBOM "cargo" (sort_pkgs k (omap lockEntry (lf_Packages lf)))
                     "cargo-lock-v3" (Z.of_nat (String.length content)))
      end
  end.

Lemma SbomCargo_Parse_wf `{CargoTOML} k content parsed :
  Parse k content = Ok parsed → parsed_wf parsed.
Proof.
  unfold Parse. repeat (case_match; try done). intros [= <-]. split_and!; [done..|].
  simpl. intros p. rewrite sort_pkgs_perm. intros (x & _ & Hx)%list_elem_of_omap.
  unfold lockEntry in Hx. by case_bool_decide; simplify_eq/=.
Qed.
