(* ===== verification/SbomGomod.v ===== *)
(** * The go.sum parser

    src/engine/sbom/gomod: go.sum lines, go.mod replace directives, and
    their combination into an SBOM. *)

From S2P Require Import Prelude GoStrings GoText Domain Storage Sbom.
From stdpp Require Import options.

(** ** types.go *)

Record replaceTarget := MkReplaceTarget {
  rt_NewPath : string;
  rt_NewVersion : string;
}.

Record sumEntry := MkSumEntry {
  se_Module : string;
  se_Version : string;
  se_Hash : string;
  se_IsPrimary : bool;
}.

(** ** go.sum *)

Definition malformed (format : string) (args : list string) : error :=
  EWrap format args (ESentinel gomod_ErrMalformedLockfile).

(** The fields of one line. *)
Definition sumLine (lineno : Z) (parts : list string) : result sumEntry :=
  match parts with
  | [module; rawVersion; hash] =>
      if negb (HasPrefix hash "h1:") then
        Err (malformed "%w: go.sum line %d: hash field must use the h1 prefix" [pretty lineno])
      else if HasSuffix rawVersion "/go.mod" then
        Ok (MkSumEntry module (TrimSuffix rawVersion "/go.mod") hash false)
      else Ok (MkSumEntry module rawVersion hash true)
  | _ => Err (malformed "%w: go.sum line %d: expected 3 fields, got %d"
                [pretty lineno; pretty (length parts)])
  end.

Fixpoint gosumLoop (lines : list string) (lineno : Z) (out : list sumEntry) :
    result (list sumEntry) :=
  match lines with
  | [] => Ok out
  | text :: lines' =>
      let lineno := (lineno + 1)%Z in
      let line := TrimSpace text in
      if bool_decide (line = "") then gosumLoop lines' lineno out
      else match sumLine lineno (Fields line) with
           | Err e => Err e
           | Ok entry => gosumLoop lines' lineno (out ++ [entry])
           end
  end.

Definition parseGosum (content : string) : result (list sumEntry) :=
  let '(lines, tooLong) := Scanner content in
  match gosumLoop lines 0 [] with
  | Err e => Err e
  | Ok out => if (tooLong : bool) then Err (malformed "%w: go.sum scan: %v" ["token too long"])
              else Ok out
  end.

(** ** go.mod *)

Definition stripLineComment (s : string) : string :=
  match index s "//" with Some i => str_take i s | None => s end.

Definition parseReplaceDirective (line : string) : option (string * replaceTarget) :=
  match SplitN line "=>" 2 with
  | [l; r] =>
      match Fields l, Fields r with
      | src :: _, newPath :: rest =>
          let isLocal := HasPrefix newPath "." || HasPrefix newPath "/"
                         || bool_decide (length rest = 0) in
          Some (src, MkReplaceTarget newPath
                       (if isLocal then "" else default "" (head rest)))
      | _, _ => None
      end
  | _ => None
  end.

Definition addReplace (line : string) (out : gmap string replaceTarget) :
    gmap string replaceTarget :=
  match parseReplaceDirective line with
  | Some (src, tgt) => <[src := tgt]> out
  | None => out
  end.

Fixpoint replaceLoop (lines : list string) (inBlock : bool) (out : gmap string replaceTarget) :
    gmap string replaceTarget :=
  match lines with
  | [] => out
  | text :: lines' =>
      let line := TrimSpace (stripLineComment text) in
      if bool_decide (line = "") then replaceLoop lines' inBlock out
      else if inBlock then
        if bool_decide (line = ")") then replaceLoop lines' false out
        else replaceLoop lines' inBlock (addReplace line out)
      else if bool_decide (line = "replace (") then replaceLoop lines' true out
      else match CutPrefix line "replace " with
           | (rest, true) => replaceLoop lines' inBlock (addReplace (TrimSpace rest) out)
           | (_, false) => replaceLoop lines' inBlock out
           end
  end.

Definition parseGomodReplaces (content : string) : result (gmap string replaceTarget) :=
  if bool_decide (String.length content = 0) then Ok ∅
  else
    let '(lines, tooLong) := Scanner content in
    let out := replaceLoop lines false ∅ in
    if (tooLong : bool) then Err (malformed "%w: go.mod scan: %v" ["token too long"]) else Ok out.

(** ** Parse *)

Definition sumKey : Type := string * string.

(** One turn of the dedup loop: the maps [hashes] and [primary]. *)
Definition dedupStep (acc : gmap sumKey string * gmap sumKey bool) (e : sumEntry) :
    gmap sumKey string * gmap sumKey bool :=
  let '(hashes, primary) := acc in
  let key := (se_Module e, se_Version e) in
  if default false (primary !! key) then (hashes, primary)
  else (<[key := se_Hash e]> hashes, <[key := se_IsPrimary e]> primary).

Definition less_key (x y : sumKey) : bool :=
  if bool_decide (x.1 = y.1) then String.ltb x.2 y.2 else String.ltb x.1 y.1.

(** One turn of the loop over the keys; [None] is a [continue]. *)
Definition keyPackage (replaces : gmap string replaceTarget) (hashes : gmap sumKey string)
    (key : sumKey) : option PackageVersion :=
  let '(module, version) := key in
  let pkg name ver := MkPackageVersion "gomod" name ver (CanonicalPURL "gomod" name ver) []
                        (default "" (hashes !! key)) in
  match replaces !! module with
  | Some target =>
      if bool_decide (rt_NewVersion target = "") then None
      else Some (pkg (rt_NewPath target) (rt_NewVersion target))
  | None => Some (pkg module version)
  end.

Definition Parse (k : Call) (gosumContent gomodContent : string) : result ParsedSBOM :=
  match ctx_Err k with
  | Some e => Err e
  | None =>
      match parseGomodReplaces gomodContent with
      | Err e => Err e
      | Ok replaces =>
          match parseGosum gosumContent with
          | Err e => Err e
          | Ok entries =>
              let '(hashes, primary) := foldl dedupStep (∅, ∅) entries in
              let keys := @sort_slice (call_rt k) _ less_key
                            ((@map_range (call_rt k) _ _ _ _ hashes).*1) in
              Ok (MkParsedSBOM "gomod" (sort_pkgs k (omap (keyPackage replaces hashes) keys))
                    "go-sum-v1" (Z.of_nat (String.length gosumContent)))
          end
      end
  end.

(** * Properties *)

(** The hash a module version is recorded with: that of its first zip line,
    or of its last go.mod line when there is no zip line. *)
Definition lines_of (entries : list sumEntry) (key : sumKey) : list sumEntry :=
  filter (λ e, (se_Module e, se_Version e) = key) entries.

Definition recorded_hash (entries : list sumEntry) (key : sumKey) : option string :=
  match List.find se_IsPrimary (lines_of entries key) with
  | Some e => Some (se_Hash e)
  | None => se_Hash <$> last (lines_of entries key)
  end.

Lemma lines_of_snoc entries e key :
  lines_of (entries ++ [e]) key =
  lines_of entries key ++ (if bool_decide ((se_Module e, se_Version e) = key) then [e] else []).
Proof.
  unfold lines_of. rewrite filter_app. f_equal. rewrite filter_cons, filter_nil.
  by repeat case_decide; case_bool_decide.
Qed.

Lemma find_snoc {A} (f : A → bool) l x :
  List.find f (l ++ [x]) =
  match List.find f l with Some y => Some y | None => if f x then Some x else None end.
Proof. induction l as [|y l IH]; simpl; [done|]. by destruct (f y). Qed.

(** What the dedup loop has recorded. *)
Lemma dedup_spec entries :
  let '(hashes, primary) := foldl dedupStep (∅, ∅) entries in
  ∀ key, hashes !! key = recorded_hash entries key ∧
    default false (primary !! key) =
      bool_decide (is_Some (List.find se_IsPrimary (lines_of entries key))).
Proof.
  induction entries as [|e entries IH] using rev_ind; [done|].
  rewrite foldl_app. simpl. destruct (foldl dedupStep _ entries) as [hashes primary].
  unfold dedupStep. remember (se_Module e, se_Version e) as key0 eqn:Ekey0.
  destruct (IH key0) as [Hh0 Hp0].
  destruct (default false (primary !! key0)) eqn:E0; intros key;
    destruct (IH key) as [Hh Hp]; unfold recorded_hash in *; rewrite lines_of_snoc, <- Ekey0;
    (destruct (decide (key0 = key)) as [Hkey|Hkey];
      [rewrite !(bool_decide_true (key0 = key)) by done
      |rewrite !(bool_decide_false (key0 = key)), app_nil_r by done]).
  - rewrite <- Hkey in *. pose proof (eq_trans (eq_sym Hp0) E0) as [x Hx]%bool_decide_eq_true.
    rewrite find_snoc, Hx in *. split; [done|]. rewrite bool_decide_true by done. exact E0.
  - done.
  - rewrite <- Hkey in *.
    pose proof (eq_trans (eq_sym Hp0) E0) as Hx%bool_decide_eq_false%eq_None_not_Some.
    rewrite find_snoc, Hx, !lookup_insert_eq. simpl.
    destruct (se_IsPrimary e) eqn:Ei; [by rewrite bool_decide_true|].
    rewrite last_snoc. split; [done|]. by rewrite bool_decide_false by (by intros []).
  - by rewrite !lookup_insert_ne.
Qed.

Lemma recorded_hash_some entries key :
  is_Some (recorded_hash entries key) ↔ ∃ e, e ∈ entries ∧ key = (se_Module e, se_Version e).
Proof.
  unfold recorded_hash.
  assert (lines_of entries key ≠ [] ↔ ∃ e, e ∈ entries ∧ key = (se_Module e, se_Version e)) as <-.
  { unfold lines_of. split.
    - destruct (filter _ entries) as [|e es] eqn:E; [done|]. intros _. exists e.
      assert (e ∈ e :: es) as [? ?]%(λ H, eq_ind_r (λ l, e ∈ l) H E)%list_elem_of_filter by left. done.
    - intros (e & He & ->) Hn. assert (e ∈ (@nil sumEntry)) as Hin; [|by apply not_elem_of_nil in Hin].
      rewrite <- Hn. by apply list_elem_of_filter. }
  destruct (lines_of entries key) as [|x l]; [split; [by intros []|done]|].
  split; [done|]. intros _. destruct (List.find _ _); [by eexists|].
  destruct (last (x :: l)) eqn:E; [by eexists|]. by apply last_None in E.
Qed.

(** ** What the two files say

    The grammar of go.sum and of the directives of go.mod, over the words and
    the trimming of package strings. A line of go.sum records the hash of a
    module's zip file, or of its go.mod file. *)
Inductive sum_text : list string → list sumEntry → Prop :=
  | sum_end : sum_text [] []
  | sum_blank l ls es : TrimSpace l = "" → sum_text ls es → sum_text (l :: ls) es
  | sum_zip l ls es m v h :
      Fields (TrimSpace l) = [m; v; "h1:" +:+ h] → (∀ u, v ≠ u +:+ "/go.mod") →
      sum_text ls es → sum_text (l :: ls) (MkSumEntry m v ("h1:" +:+ h) true :: es)
  | sum_gomod l ls es m v h :
      Fields (TrimSpace l) = [m; v +:+ "/go.mod"; "h1:" +:+ h] →
      sum_text ls es → sum_text (l :: ls) (MkSumEntry m v ("h1:" +:+ h) false :: es).

(** A file of lines, none of them longer than the scanner takes. *)
Definition gosum_reads (content : string) (entries : list sumEntry) : Prop :=
  ∃ lines, Scanner content = (lines, false) ∧ sum_text lines entries.

Definition local_path (path : string) : Prop := ∃ t, path = "." +:+ t ∨ path = "/" +:+ t.

(** [old [version] => new version], or [=> directory], where [None] stands
    for the local directory. *)
Inductive directive (line src : string) : option sumKey → Prop :=
  | directive_version l r old new version more :
      Cut line "=>" = (l, r, true) → Fields l = src :: old → Fields r = new :: version :: more →
      ¬ local_path new → directive line src (Some (new, version))
  | directive_local l r old new more :
      Cut line "=>" = (l, r, true) → Fields l = src :: old → Fields r = new :: more →
      local_path new ∨ more = [] → directive line src None.

(** What is left of a line of go.mod without its comment. *)
Definition mod_line (l : string) : string := TrimSpace (Cut l "//").1.1.

(** The replace directives of go.mod, in their order: a block
    [replace ( ... )] has one on each line, [replace] before a directive is
    one of its own; all other lines are passed over. The flag says whether
    the lines start inside a block. *)
Inductive mod_text : bool → list string → list (string * option sumKey) → Prop :=
  | mod_end b : mod_text b [] []
  | mod_open l ls ds : mod_line l = "replace (" → mod_text true ls ds → mod_text false (l :: ls) ds
  | mod_close l ls ds : mod_line l = ")" → mod_text false ls ds → mod_text true (l :: ls) ds
  | mod_inside l ls ds src target :
      mod_line l ≠ ")" → directive (mod_line l) src target →
      mod_text true ls ds → mod_text true (l :: ls) ((src, target) :: ds)
  | mod_single l ls ds rest src target :
      mod_line l = "replace " +:+ rest → rest ≠ "(" → directive (TrimSpace rest) src target →
      mod_text false ls ds → mod_text false (l :: ls) ((src, target) :: ds)
  | mod_pass_inside l ls ds :
      mod_line l ≠ ")" → (∀ src target, ¬ directive (mod_line l) src target) →
      mod_text true ls ds → mod_text true (l :: ls) ds
  | mod_pass l ls ds :
      mod_line l ≠ "replace (" →
      (∀ rest src target, mod_line l = "replace " +:+ rest → ¬ directive (TrimSpace rest) src target) →
      mod_text false ls ds → mod_text false (l :: ls) ds.

Definition gomod_reads (content : string) (directives : list (string * option sumKey)) : Prop :=
  ∃ lines, Scanner content = (lines, false) ∧ mod_text false lines directives.

(** The module version a go.sum key stands for in the build, after the
    replace directives, of which the last one for a module counts: [None]
    for a module replaced by a local directory. *)
Definition resolved (directives : list (string * option sumKey)) (key : sumKey) : option sumKey :=
  default (Some key) ((list_to_map (reverse directives) : gmap string (option sumKey)) !! key.1).

(** *** go.sum *)

Lemma sumLine_reads lineno parts : 
  match sumLine lineno parts with
  | Ok e =>
      (∃ m v h, parts = [m; v; "h1:" +:+ h] ∧ (∀ u, v ≠ u +:+ "/go.mod") ∧ e = MkSumEntry m v ("h1:" +:+ h) true) ∨
      (∃ m v h, parts = [m; v +:+ "/go.mod"; "h1:" +:+ h] ∧ e = MkSumEntry m v ("h1:" +:+ h) false)
  | Err e => errors_Is e gomod_ErrMalformedLockfile = true ∧ ∀ m v h, parts ≠ [m; v; "h1:" +:+ h]
  end.
Proof.
  unfold sumLine. destruct parts as [|m [|v [|h [|]]]]; try (split; [by apply bool_decide_eq_true|done]).
  destruct (HasPrefix h "h1:") eqn:Hh; cbn [negb].
  2: { split; [by apply bool_decide_eq_true|]. intros m' v' h' [= -> -> ->].
       rewrite (proj2 (HasPrefix_spec _ _)) in Hh; eauto; done. }
  apply HasPrefix_spec in Hh as [h' ->]. destruct (HasSuffix v "/go.mod") eqn:Hv.
  - right. apply HasSuffix_spec in Hv as [u ->]. rewrite TrimSuffix_app. eauto.
  - left. exists m, v, h'. split_and!; [done| |done]. intros u ->. rewrite (proj2 (HasSuffix_spec _ _)) in Hv; eauto; done.
Qed.

Lemma gosumLoop_reads lines lineno out :
  match gosumLoop lines lineno out with
  | Ok res => ∃ es, res = out ++ es ∧ sum_text lines es
  | Err e => errors_Is e gomod_ErrMalformedLockfile = true ∧ ¬ ∃ es, sum_text lines es
  end.
Proof.
  revert lineno out. induction lines as [|l lines IH]; intros lineno out; cbn [gosumLoop].
  { exists []. split; [by rewrite app_nil_r|constructor]. }
  case_bool_decide as Hl.
  { specialize (IH (lineno + 1)%Z out). destruct (gosumLoop _ _ _) as [res|e].
    - destruct IH as (es & -> & Hes). exists es. split; [done|by constructor].
    - destruct IH as [He Hno]. split; [done|]. intros [es Hes]. inversion Hes; subst; try by eauto.
      all: by rewrite Hl in *. }
  pose proof (sumLine_reads (lineno + 1) (Fields (TrimSpace l))) as Hs. destruct (sumLine _ _) as [x|e].
  2: { destruct Hs as [He Hno]. split; [done|]. intros [es Hes]. inversion Hes; subst; naive_solver. }
  specialize (IH (lineno + 1)%Z (out ++ [x])). destruct (gosumLoop _ _ _) as [res|e].
  - destruct IH as (es & -> & Hes). exists (x :: es). split; [by rewrite <- app_assoc|].
    destruct Hs as [(m & v & h & Hf & Hv & ->)|(m & v & h & Hf & ->)]; by constructor.
  - destruct IH as [He Hno]. split; [done|]. intros [es Hes]. inversion Hes; subst; naive_solver.
Qed.

Lemma sum_text_unique lines es es' : sum_text lines es → sum_text lines es' → es = es'.
Proof.
  intros Hes. revert es'. induction Hes; intros es' Hes'; inversion Hes'; subst; try done.
  all: try match goal with H : Fields (TrimSpace ?l) = _, H' : TrimSpace ?l = "" |- _ => rewrite H' in H; done end.
  all: try by eauto.
  all: repeat match goal with H1 : Fields ?x = _, H2 : Fields ?x = _ |- _ => rewrite H1 in H2; simplify_eq end.
  all: try (f_equal; by eauto).
  all: try naive_solver.
  match goal with H : ?u +:+ "/go.mod" = ?v +:+ "/go.mod" |- _ =>
    apply (f_equal (λ s, TrimSuffix s "/go.mod")) in H; rewrite !TrimSuffix_app in H; subst end.
  f_equal. by eauto.
Qed.

Lemma parseGosum_reads content :
  match parseGosum content with
  | Ok es => gosum_reads content es
  | Err e => errors_Is e gomod_ErrMalformedLockfile = true ∧ ¬ ∃ es, gosum_reads content es
  end.
Proof.
  unfold parseGosum, gosum_reads. destruct (Scanner content) as [lines tooLong].
  pose proof (gosumLoop_reads lines 0 []) as Hl. destruct (gosumLoop lines 0 []) as [es|e].
  - destruct Hl as (es' & -> & Hes). destruct tooLong; [|by exists lines].
    split; [by apply bool_decide_eq_true|]. by intros (? & ? & [= ] & _).
  - destruct Hl as [He Hno]. split; [done|]. intros (es & ? & [= <- ->] & Hes). eauto.
Qed.

(** *** go.mod *)

Lemma mod_line_eq l : TrimSpace (stripLineComment l) = mod_line l.
Proof. unfold mod_line, stripLineComment, Cut. by destruct (index l "//"). Qed.

(** How the code records a target. *)
Definition recorded_target (t : replaceTarget) : option sumKey :=
  if bool_decide (rt_NewVersion t = "") then None else Some (rt_NewPath t, rt_NewVersion t).

Lemma local_path_spec path : HasPrefix path "." || HasPrefix path "/" = true ↔ local_path path.
Proof.
  rewrite orb_true_iff, !HasPrefix_spec. split.
  - intros [[t ->]|[t ->]]; exists t; auto.
  - intros [t [-> | ->]]; eauto.
Qed.

Lemma parseReplaceDirective_reads line :
  match parseReplaceDirective line with
  | Some (src, t) => directive line src (recorded_target t)
  | None => ∀ src target, ¬ directive line src target
  end.
Proof.
  unfold parseReplaceDirective. cbn [SplitN].
  assert (Cut line "=>" = match index line "=>" with
    | Some i => (str_take i line, str_drop (i + 2) line, true) | None => (line, "", false) end) as Hcut by done.
  cbn [String.length]. destruct (index line "=>") as [i|].
  2: { intros src target Hd. inversion Hd; congruence. }
  destruct (Fields (str_take i line)) as [|src old] eqn:Hl.
  { intros src target Hd. inversion Hd; congruence. }
  pose proof (Fields_words (str_drop (i + 2) line)) as Hw.
  destruct (Fields (str_drop (i + 2) line)) as [|new rest] eqn:Hr.
  { intros src' target Hd. inversion Hd; congruence. }
  unfold recorded_target. cbn [rt_NewVersion rt_NewPath].
  destruct (HasPrefix new "." || HasPrefix new "/") eqn:Hp; cbn [orb].
  { rewrite bool_decide_true by done. eapply directive_local; [done..|]. left. by apply local_path_spec. }
  destruct rest as [|version more]; cbn [length head default].
  { eapply directive_local; [done..|]. by right. }
  rewrite (bool_decide_false (S _ = 0)) by done. apply Forall_cons in Hw as [_ [Hv _]%Forall_cons].
  rewrite bool_decide_false by done. eapply directive_version; [done..|].
  rewrite <- local_path_spec. by rewrite Hp.
Qed.

Lemma directive_unique line src target src' target' :
  directive line src target → directive line src' target' → src = src' ∧ target = target'.
Proof.
  intros H1 H2. destruct H1 as [l r old new v more Hc Hl Hr Hn|l r old new more Hc Hl Hr Hn];
    destruct H2 as [l' r' old' new' v' more' Hc' Hl' Hr' Hn'|l' r' old' new' more' Hc' Hl' Hr' Hn'];
    rewrite Hc in Hc'; injection Hc' as <- <-; rewrite Hl in Hl'; rewrite Hr in Hr'; simplify_eq; naive_solver.
Qed.

Lemma addReplace_reads line src target out :
  directive line src target → recorded_target <$> addReplace line out = <[src := target]> (recorded_target <$> out).
Proof.
  intros Hd. unfold addReplace. pose proof (parseReplaceDirective_reads line) as Hp.
  destruct (parseReplaceDirective line) as [[src' t]|]; [|by destruct (Hp src target)].
  destruct (directive_unique _ _ _ _ _ Hp Hd) as [-> <-]. apply fmap_insert.
Qed.

Lemma addReplace_none line out : (∀ src target, ¬ directive line src target) → addReplace line out = out.
Proof.
  intros Hd. unfold addReplace. pose proof (parseReplaceDirective_reads line) as Hp.
  destruct (parseReplaceDirective line) as [[src t]|]; [|done]. by destruct (Hd src (recorded_target t)).
Qed.

Lemma CutPrefix_cases line p : 
  match CutPrefix line p with
  | (rest, true) => line = p +:+ rest
  | (_, false) => ∀ rest, line ≠ p +:+ rest
  end.
Proof.
  unfold CutPrefix. destruct (HasPrefix line p) eqn:Hp.
  - apply HasPrefix_spec in Hp as [t ->]. by rewrite str_drop_app.
  - intros rest ->. rewrite (proj2 (HasPrefix_spec _ _)) in Hp; eauto; done.
Qed.

(** Writing the directives one after the other. *)
Definition write_directives (m : gmap string (option sumKey)) (ds : list (string * option sumKey)) :
    gmap string (option sumKey) := foldl (λ m d, <[d.1 := d.2]> m) m ds.

Lemma replaceLoop_reads lines b ds out :
  mod_text b lines ds →
  recorded_target <$> replaceLoop lines b out = write_directives (recorded_target <$> out) ds.
Proof.
  intros Hm. revert out. induction Hm as [b|l ls ds Hl Hm IH|l ls ds Hl Hm IH|l ls ds src target Hl Hd Hm IH
    |l ls ds rest src target Hl Hrest Hd Hm IH|l ls ds Hl Hd Hm IH|l ls ds Hl Hd Hm IH]; intros out;
    cbn [replaceLoop]; rewrite ?mod_line_eq; [done|..].
  - rewrite Hl. apply IH.
  - rewrite Hl. apply IH.
  - rewrite bool_decide_false.
    2: { intros Hb. rewrite Hb in Hd. inversion Hd; simplify_eq/=. }
    rewrite bool_decide_false by done. rewrite IH. cbn [write_directives foldl]. by rewrite (addReplace_reads _ src target).
  - rewrite bool_decide_false by (by rewrite Hl). rewrite bool_decide_false.
    2: { rewrite Hl. intros Heq. apply (str_app_inj_l "replace ") in Heq. done. }
    pose proof (CutPrefix_cases (mod_line l) "replace ") as Hc. destruct (CutPrefix _ _) as [rest' []].
    + rewrite Hl in Hc. apply (str_app_inj_l "replace ") in Hc as <-.
      rewrite IH. cbn [write_directives foldl]. by rewrite (addReplace_reads _ src target).
    + by destruct (Hc rest).
  - case_bool_decide; [by apply IH|]. rewrite bool_decide_false by done. rewrite IH. by rewrite addReplace_none.
  - case_bool_decide; [by apply IH|]. rewrite bool_decide_false by done.
    pose proof (CutPrefix_cases (mod_line l) "replace ") as Hc. destruct (CutPrefix _ _) as [rest []]; [|by apply IH].
    rewrite IH. by rewrite addReplace_none by eauto.
Qed.

(** Every go.mod has a reading. *)
Lemma mod_text_total lines b : ∃ ds, mod_text b lines ds.
Proof.
  revert b. induction lines as [|l lines IH]; intros b; [exists []; constructor|].
  destruct (IH true) as [dt Ht], (IH false) as [df Hf]. destruct b.
  - destruct (decide (mod_line l = ")")) as [|Hl]; [exists df; by constructor|].
    pose proof (parseReplaceDirective_reads (mod_line l)) as Hp.
    destruct (parseReplaceDirective _) as [[src t]|]; [eexists; by eapply mod_inside|exists dt; by constructor].
  - destruct (decide (mod_line l = "replace (")) as [|Hl]; [exists dt; by constructor|].
    pose proof (CutPrefix_cases (mod_line l) "replace ") as Hc. destruct (CutPrefix _ _) as [rest []].
    2: { exists df. apply mod_pass; [done| |done]. intros rest' src target Hr. by destruct (Hc rest'). }
    pose proof (parseReplaceDirective_reads (TrimSpace rest)) as Hp.
    destruct (parseReplaceDirective _) as [[src t]|].
    + eexists. eapply mod_single; [exact Hc| |exact Hp|exact Hf]. intros ->. by destruct Hl.
    + exists df. apply mod_pass; [done| |done]. intros rest' src target Hr. rewrite Hc in Hr.
      apply (str_app_inj_l "replace ") in Hr as <-. apply Hp.
Qed.

Lemma write_directives_last ds m k :
  write_directives m ds !! k = match (list_to_map (reverse ds) : gmap string (option sumKey)) !! k with
    | Some t => Some t | None => m !! k end.
Proof.
  unfold write_directives. induction ds as [|[src t] ds IH] using rev_ind; [rewrite reverse_nil; cbn; by rewrite lookup_empty|].
  rewrite foldl_app, reverse_snoc. cbn [foldl list_to_map foldr fst snd uncurry].
  destruct (decide (src = k)) as [->|Hne]; [by rewrite !lookup_insert_eq|].
  by rewrite !lookup_insert_ne.
Qed.

Lemma parseGomodReplaces_reads content :
  match parseGomodReplaces content with
  | Ok replaces =>
      (∃ ds, gomod_reads content ds) ∧
      ∀ ds, gomod_reads content ds → recorded_target <$> replaces = write_directives ∅ ds
  | Err e => errors_Is e gomod_ErrMalformedLockfile = true ∧ ¬ ∃ ds, gomod_reads content ds
  end.
Proof.
  unfold parseGomodReplaces, gomod_reads. case_bool_decide as Hlen.
  { destruct content; [|done]. split; [exists [], []; split; [done|constructor]|].
    intros ds (lines & [= <-] & Hm). by inversion Hm. }
  destruct (Scanner content) as [lines []].
  { split; [by apply bool_decide_eq_true|]. by intros (? & ? & [= ] & _). }
  split; [destruct (mod_text_total lines false) as [ds Hds]; eauto|].
  intros ds (? & [= <-] & Hm). rewrite (replaceLoop_reads _ _ _ _ Hm). by rewrite fmap_empty.
Qed.

Lemma keyPackage_Some replaces ds hashes key p :
  recorded_target <$> replaces = write_directives ∅ ds →
  keyPackage replaces hashes key = Some p ↔ ∃ nv, resolved ds key = Some nv ∧
    p = MkPackageVersion "gomod" nv.1 nv.2 (CanonicalPURL "gomod" nv.1 nv.2) []
          (default "" (hashes !! key)).
Proof.
  intros Hr. apply (f_equal (λ m : gmap _ _, m !! key.1)) in Hr. rewrite lookup_fmap, write_directives_last, lookup_empty in Hr.
  unfold keyPackage, resolved. destruct key as [module version]. cbn [fst] in *.
  destruct (list_to_map (reverse ds) !! module) as [t|], (replaces !! module) as [rt|]; simplify_eq/=; [|naive_solver].
  unfold recorded_target. case_bool_decide; naive_solver.
Qed.

(** The package of a go.sum key, with the hash that is recorded for it. *)
Definition key_package (entries : list sumEntry) (directives : list (string * option sumKey)) (key : sumKey) :
    option PackageVersion :=
  nv ← resolved directives key;
  Some (MkPackageVersion "gomod" nv.1 nv.2 ("pkg:golang/" +:+ nv.1 +:+ "@" +:+ nv.2) []
          (default "" (recorded_hash entries key))).

(** C38: the go.sum parser is exact. It succeeds exactly when the context is
    live, every line of go.sum that is not blank has three words of which the
    last starts with h1: (the hash of a zip file, or of a go.mod file when
    the version has that suffix), and no line of either file reaches the
    scanner's limit; it then lists one package for every module version of
    go.sum that is not replaced by a local directory, under the path and
    version of the last replace directive of go.mod for the module, if there
    is one (whatever old version the directive names), with the hash of the
    module's first zip line (or of its last go.mod line when it has no zip
    line), sorted by name and version.
    Otherwise it returns the context's error or [ErrMalformedLockfile]. *)
Theorem gomod_Parse_exact k gosum gomod :
  match Parse k gosum gomod with
  | Ok parsed =>
      ctx_Err k = None ∧ (∃ directives, gomod_reads gomod directives) ∧
      ∃ entries keys, gosum_reads gosum entries ∧
        NoDup keys ∧ (∀ key, key ∈ keys ↔ ∃ e, e ∈ entries ∧ key = (se_Module e, se_Version e)) ∧
        SortedBy less_pkg (ParsedSBOM_Packages parsed) ∧ parsed_wf parsed ∧
        ∀ directives, gomod_reads gomod directives →
          ParsedSBOM_Packages parsed ≡ₚ omap (key_package entries directives) keys
  | Err e =>
      ctx_Err k = Some e ∨
      ctx_Err k = None ∧ errors_Is e gomod_ErrMalformedLockfile = true ∧
      ¬ ((∃ entries, gosum_reads gosum entries) ∧ ∃ directives, gomod_reads gomod directives)
  end.
Proof.
  unfold Parse. destruct (ctx_Err k) as [e|]; [by left|].
  pose proof (parseGomodReplaces_reads gomod) as Hr. destruct (parseGomodReplaces gomod) as [replaces|e].
  2: { right. naive_solver. }
  pose proof (parseGosum_reads gosum) as Hs. destruct (parseGosum gosum) as [entries|e].
  2: { right. naive_solver. }
  destruct Hr as [Htot Hr]. pose proof (dedup_spec entries) as Hd.
  destruct (foldl dedupStep (∅, ∅) entries) as [hashes primary].
  split; [done|]. split; [done|]. exists entries, (@sort_slice (call_rt k) _ less_key
    ((@map_range (call_rt k) _ _ _ _ hashes).*1)).
  assert (∀ key, key ∈ (@sort_slice (call_rt k) _ less_key ((@map_range (call_rt k) _ _ _ _ hashes).*1)) ↔
    is_Some (recorded_hash entries key)) as Hkeys.
  { intros key. rewrite sort_slice_perm, elem_of_map_range_keys. by rewrite (proj1 (Hd key)). }
  split_and!; [done| | | | |].
  - rewrite sort_slice_perm. apply map_range_NoDup_keys.
  - intros key. by rewrite Hkeys, recorded_hash_some.
  - apply sort_pkgs_sorted.
  - split_and!; [done..|]. simpl. intros p. rewrite sort_pkgs_perm.
    intros (key & _ & Hp)%list_elem_of_omap. unfold keyPackage in Hp. by repeat case_match; simplify_eq.
  - intros ds Hds. specialize (Hr ds Hds). simpl.
    rewrite sort_pkgs_perm. apply Permutation_refl', list_omap_ext, Forall_Forall2_diag.
    apply Forall_true. intros key. apply option_eq. intros p.
    rewrite (keyPackage_Some _ _ _ _ _ Hr), (proj1 (Hd key)). unfold key_package.
    destruct (resolved ds key); naive_solver.
Qed.

(** ** An example *)

Definition sample_gosum : string := concat_str ((λ l, l +:+ byte1 newline) <$> [
  "github.com/a/b v1.0.0 h1:zip="; "github.com/a/b v1.0.0/go.mod h1:mod=";
  "example.com/old v0.3.0/go.mod h1:old="; ""; "example.com/here v2.0.0 h1:here="]).

Definition sample_gomod : string := concat_str ((λ l, l +:+ byte1 newline) <$> [
  "module example.com/m // the main module"; "replace example.com/here => ./here";
  "replace ("; "  example.com/old v0.3.0 => example.com/new v0.4.0"; ")"]).

Lemma sample_gosum_reads : gosum_reads sample_gosum [
  MkSumEntry "github.com/a/b" "v1.0.0" "h1:zip=" true; MkSumEntry "github.com/a/b" "v1.0.0" "h1:mod=" false;
  MkSumEntry "example.com/old" "v0.3.0" "h1:old=" false; MkSumEntry "example.com/here" "v2.0.0" "h1:here=" true].
Proof. pose proof (parseGosum_reads sample_gosum) as H. vm_compute (parseGosum _) in H. exact H. Qed.

Example sample_gomod_Parse :
  ParsedSBOM_Packages <$> (match Parse (MkCall reference_runtime None 0 all_executed) sample_gosum sample_gomod with
    Ok p => Some p | Err _ => None end)
  = Some [MkPackageVersion "gomod" "example.com/new" "v0.4.0" "pkg:golang/example.com/new@v0.4.0" [] "h1:old=";
          MkPackageVersion "gomod" "github.com/a/b" "v1.0.0" "pkg:golang/github.com/a/b@v1.0.0" [] "h1:zip="].
Proof. vm_compute. reflexivity. Qed.

Lemma gomod_Parse_exact_witness :
  let k := MkCall reference_runtime None 0 all_executed in
  ∃ parsed, Parse k sample_gosum sample_gomod = Ok parsed ∧ length (ParsedSBOM_Packages parsed) = 2 ∧
    ∃ entries, gosum_reads sample_gosum entries ∧ SortedBy less_pkg (ParsedSBOM_Packages parsed).
Proof.
  pose proof (gomod_Parse_exact (MkCall reference_runtime None 0 all_executed) sample_gosum sample_gomod) as Hp.
  destruct (Parse _ sample_gosum sample_gomod) as [parsed|e] eqn:E; [|vm_compute in E; discriminate].
  exists parsed. split; [done|]. split; [vm_compute in E; injection E as <-; reflexivity|].
  destruct Hp as (_ & _ & entries & keys & Hr & _ & _ & Hs & _). by exists entries.
Defined.
