(* ===== verification/SbomPypi.v ===== *)
(** * The Python lockfile parsers

    src/engine/sbom/pypi: requirements.txt line by line, poetry.lock and
    uv.lock through a TOML decoder, which is a third-party package and a
    parameter. *)

From S2P Require Import Prelude GoStrings GoText Domain Storage Sbom.
From stdpp Require Import options.

Definition FormatRequirements : string := "requirements".
Definition FormatPoetry : string := "poetry".
Definition FormatUV : string := "uv".

(** The name and version of each element of the package array. *)
Class PypiTOML := { toml_Unmarshal : string → result (list (string * string)) }.

Section parser.
Context `{UnicodeCase}.

(** ** Names *)

Definition separator (r : string) : bool :=
  String.eqb r "_" || String.eqb r "." || String.eqb r "-".

Fixpoint normaliseLoop (rs : list string) (b : string) (prevDash : bool) : string :=
  match rs with
  | [] => b
  | r :: rs' =>
      if separator r then
        if negb prevDash && bool_decide (0 < String.length b)
        then normaliseLoop rs' (b +:+ "-") true
        else normaliseLoop rs' b prevDash
      else normaliseLoop rs' (b +:+ write_rune r) false
  end.

Definition normalisePyPIName (name : string) : string :=
  TrimRight (normaliseLoop (runes (ToLower name)) "" false) "-"%char.

(** ** requirements.txt *)

(** The raw name and the version of one line; [None] is a [continue]. *)
Definition requirement (text : string) : option (string * string) :=
  let line := TrimSpace text in
  if bool_decide (line = "") || HasPrefix line "#" then None
  else
    let line := match index line " #" with
                | Some idx => TrimSpace (str_take idx line)
                | None => line
                end in
    if HasPrefix line "-" || HasPrefix line "git+" || HasPrefix line "http://"
       || HasPrefix line "https://" || HasPrefix line "./" || HasPrefix line "/"
    then None
    else match index line "==" with
         | None | Some 0 => None
         | Some idx =>
             let nameRaw := TrimSpace (str_take idx line) in
             let version := TrimSpace (str_drop (idx + 2) line) in
             let version := match index version ";" with
                            | Some semi => TrimSpace (str_take semi version)
                            | None => version
                            end in
             let nameRaw := match index nameRaw "[" with
                            | Some br => str_take br nameRaw
                            | None => nameRaw
                            end in
             Some (nameRaw, version)
         end.

(** The end of both loops: normalise, drop the incomplete and what was
    seen. *)
Fixpoint pinLoop (pins : list (string * string)) (seen : gset string)
    (pkgs : list PackageVersion) : list PackageVersion :=
  match pins with
  | [] => pkgs
  | (nameRaw, version) :: pins' =>
      let name := normalisePyPIName nameRaw in
      let key := name +:+ "@" +:+ version in
      if bool_decide (name = "") || bool_decide (version = "") then pinLoop pins' seen pkgs
      else if bool_decide (key ∈ seen) then pinLoop pins' seen pkgs
      else pinLoop pins' ({[key]} ∪ seen)
             (pkgs ++ [MkPackageVersion "pypi" name version (CanonicalPURL "pypi" name version) [] ""])
  end.

Definition malformed (format : string) (args : list string) : error :=
  EWrap format args (ESentinel pypi_ErrMalformedLockfile).

Definition parseRequirements (content : string) : result (list PackageVersion) :=
  let '(lines, tooLong) := Scanner content in
  if (tooLong : bool) then Err (malformed "%w: requirements scan: %v" ["token too long"])
  else Ok (pinLoop (omap requirement lines) ∅ []).

(** ** poetry.lock and uv.lock *)

Definition parseTOMLPackages `{PypiTOML} (content : string) : result (list PackageVersion) :=
  match toml_Unmarshal content with
  | Err e => Err (malformed "%w: toml decode: %v" [error_text e])
  | Ok packages =>
      Ok (pinLoop ((λ '(n, v), (TrimSpace n, TrimSpace v)) <$> packages) ∅ [])
  end.

(** ** Parse *)

Definition Parse `{PypiTOML} (k : Call) (content format : string) : result ParsedSBOM :=
  let finish pkgs source :=
    match pkgs with
    | Err e => Err e
    | Ok pkgs => Ok (MkParsedSBOM "pypi" (sort_pkgs k pkgs) source
                       (Z.of_nat (String.length content)))
    end in
  match ctx_Err k with
  | Some e => Err e
  | None =>
      if bool_decide (format = FormatRequirements) then
        finish (parseRequirements content) "requirements-txt-v1"
      else if bool_decide (format = FormatPoetry) then
        finish (parseTOMLPackages content) "poetry-lock-v2"
      else if bool_decide (format = FormatUV) then
        finish (parseTOMLPackages content) "uv-lock-v1"
      else Err (malformed "%w: unknown format %q" [format])
  end.
End parser.

(** * Properties *)

(** PEP 503, as a function: lower the name, split it at runs of
    separators, join the pieces with dashes. *)
Definition pep503 `{UnicodeCase} (name : string) : string :=
  Join (FieldsFunc separator (write_rune <$> runes (ToLower name))) "-".

Lemma Join_prefix p x fs sep : Join ((p +:+ x) :: fs) sep = p +:+ Join (x :: fs) sep.
Proof. destruct fs; [done|]. simpl. by rewrite !str_app_assoc. Qed.

Lemma push_field_ne w fs : w ≠ "" → push_field w fs = w :: fs.
Proof. intros. unfold push_field. by rewrite bool_decide_false. Qed.

Lemma write_rune_separator r : separator (write_rune r) = separator r.
Proof.
  unfold write_rune. destruct r as [|a [|b r]]; [done| |done].
  destruct (is_ascii a) eqn:Ha; [done|].
  destruct (separator (String a "")) eqn:E; [|done]. exfalso. revert Ha.
  unfold separator in E. rewrite !orb_true_iff, !String.eqb_eq in E.
  by destruct E as [[[= ->]|[= ->]]|[= ->]].
Qed.

(** The loop, in its three states: nothing written yet, in the middle of a
    segment, behind a dash. *)
Lemma normaliseLoop_spec rs :
  (∀ r, r ∈ rs → ∃ a, rune_end r a) →
  let '(w, fs) := fields_of separator (write_rune <$> rs) in
  TrimRight (normaliseLoop rs "" false) "-" = Join (push_field w fs) "-" ∧
  (∀ b, b ≠ "" → TrimRight b "-" = b →
     TrimRight (normaliseLoop rs b false) "-" = Join ((b +:+ w) :: fs) "-" ∧
     TrimRight (normaliseLoop rs (b +:+ "-") true) "-" = Join (b :: push_field w fs) "-").
Proof.
  induction rs as [|r rs IH]; intros Hrs.
  { split; [done|]. intros b Hb Ht. rewrite str_app_nil_r. split; [done|].
    etrans; [apply (TrimRight_snoc b "-")|done]. }
  rewrite fmap_cons. cbn [fields_of normaliseLoop].
  destruct (fields_of separator (write_rune <$> rs)) as [w fs].
  destruct IH as [IH0 IH]; [intros; apply Hrs; by right|].
  destruct (Hrs r ltac:(left)) as [a Ha]. destruct (write_rune_end r a Ha) as [a' Hw].
  rewrite write_rune_separator. destruct (separator r) eqn:Hs.
  - split; [done|]. intros b Hb Ht. rewrite str_app_nil_r.
    rewrite bool_decide_true by (destruct b; simpl; [done|lia]). cbn [negb andb].
    split; [|by apply IH]. by apply IH.
  - assert (write_rune r ≠ byte1 "-") as Hd.
    { intros Heq. rewrite <- write_rune_separator, Heq in Hs. done. }
    pose proof (rune_end_ne _ _ Hw) as Hne.
    assert (∀ b, TrimRight (b +:+ write_rune r) "-" = b +:+ write_rune r) as Hclean
      by (intros b; by eapply TrimRight_rune).
    assert (∀ b, b +:+ write_rune r ≠ "") as Hne'.
    { intros [|]; [done|]. by rewrite string_app_cons. }
    assert (write_rune r +:+ w ≠ "") as Hrw by (by destruct (write_rune r)).
    rewrite push_field_ne by done. split.
    + by apply (IH (write_rune r)); [|apply (Hclean "")].
    + intros b Hb Ht. split.
      * rewrite <- str_app_assoc. by apply IH.
      * destruct (IH ((b +:+ "-") +:+ write_rune r)) as [-> _]; [done..|].
        rewrite !str_app_assoc, !Join_prefix, (Join_cons b) by done. by rewrite !Join_prefix.
Qed.

(** The one-pass normalisation of names computes PEP 503's
    canonicalisation (lower case, runs of dashes, dots and underscores
    collapsed to one dash), for every input, and so gives names that differ
    only in case and separators the same key; a separator inside a name is
    kept, so dj-ango and Django do not share one. *)
Theorem normalisePyPIName_is_pep503 `{UnicodeCase} name :
  normalisePyPIName name = pep503 name ∧
  normalisePyPIName "dj-ango" ≠ normalisePyPIName "Django".
Proof.
  split; [|done]. unfold normalisePyPIName, pep503, FieldsFunc.
  pose proof (normaliseLoop_spec (runes (ToLower name)) (runes_end _)) as Hl.
  destruct (fields_of separator _) as [w fs]. by destruct Hl as [-> _].
Qed.

Lemma pinLoop_wf `{UnicodeCase} pins seen pkgs p :
  p ∈ pinLoop pins seen pkgs → p ∈ pkgs ∨ PackageVersion_Ecosystem p = "pypi".
Proof.
  revert seen pkgs. induction pins as [|[n v] pins IH]; intros seen pkgs; simpl; [auto|].
  repeat case_match; intros [Hin|?]%IH; auto.
  apply elem_of_app in Hin as [?| ->%list_elem_of_singleton]; auto.
Qed.

Lemma SbomPypi_Parse_wf `{UnicodeCase, PypiTOML} k content format parsed :
  Parse k content format = Ok parsed → parsed_wf parsed.
Proof.
  unfold Parse, parseRequirements, parseTOMLPackages.
  repeat (case_match; try done); intros; simplify_eq;
    (split_and!; [done..|]); simpl; intros p; rewrite sort_pkgs_perm;
    intros [?%not_elem_of_nil|?]%pinLoop_wf; done.
Qed.

(** White space before the extras stays in the name. The requirement
    "requests [security]==2.8.1", which PEP 508 allows, is recorded under
    the name "requests" with a trailing space, which no IoC for requests
    names; without the space the name is right. *)
Theorem pypi_spaced_extras_keep_space `{UnicodeCase} :
  (∃ p, parseRequirements "requests [security]==2.8.1" = Ok [p] ∧
     PackageVersion_Name p = "requests ") ∧
  (∃ p, parseRequirements "requests[security]==2.8.1" = Ok [p] ∧
     PackageVersion_Name p = "requests").
Proof. split; eexists; split; vm_compute; reflexivity. Qed.
