(* ===== verification/SbomMaven.v ===== *)
(** * The JVM lockfile parsers

    src/engine/sbom/maven: pom.xml through [encoding/xml], and
    gradle.lockfile line by line. What the XML decoder stores in [pomDoc]
    is a parameter. *)

From S2P Require Import Prelude GoStrings GoText Domain Storage Sbom.
From stdpp Require Import options.

Definition FormatPom : string := "pom".
Definition FormatGradle : string := "gradle-lock".

Record pomProperty := MkPomProperty {
  prop_Local : string;
  prop_Value : string;
}.

Record pomDep := MkPomDep {
  dep_GroupID : string;
  dep_ArtifactID : string;
  dep_Version : string;
  dep_Scope : string;
  dep_Type : string;
}.

Record pomDoc := MkPomDoc {
  pom_Properties : list pomProperty;
  pom_Dependencies : list pomDep;
}.

Class PomXML := { xml_Unmarshal : string → result pomDoc }.

Definition malformed (format : string) (args : list string) : error :=
  EWrap format args (ESentinel maven_ErrMalformedLockfile).

Definition mavenPURL (group artifact version : string) : string :=
  "pkg:maven/" +:+ group +:+ "/" +:+ artifact +:+ "@" +:+ version.

(** ** pom.xml *)

Definition substituteProperty (version : string) (props : gmap string string) : string :=
  if negb (HasPrefix version "${") || negb (HasSuffix version "}") then version
  else
    let key := TrimSuffix (TrimPrefix version "${") "}" in
    match props !! key with
    | Some v => if bool_decide (v ≠ "") then v else version
    | None => version
    end.

Fixpoint pomLoop (props : gmap string string) (deps : list pomDep) (seen : gset string)
    (pkgs : list PackageVersion) : list PackageVersion :=
  match deps with
  | [] => pkgs
  | d :: deps' =>
      let group := TrimSpace (dep_GroupID d) in
      let artifact := TrimSpace (dep_ArtifactID d) in
      let version := substituteProperty (TrimSpace (dep_Version d)) props in
      let coord := group +:+ ":" +:+ artifact in
      let key := coord +:+ "@" +:+ version in
      if bool_decide (group = "") || bool_decide (artifact = "") || bool_decide (version = "")
      then pomLoop props deps' seen pkgs
      else if bool_decide (key ∈ seen) then pomLoop props deps' seen pkgs
      else pomLoop props deps' ({[key]} ∪ seen)
             (pkgs ++ [MkPackageVersion "maven" coord version (mavenPURL group artifact version)
                         (if bool_decide (dep_Scope d ≠ "") then [dep_Scope d] else []) ""])
  end.

Definition pomProps (entries : list pomProperty) : gmap string string :=
  foldl (λ props p, <[prop_Local p := TrimSpace (prop_Value p)]> props) ∅ entries.

Definition parsePom `{PomXML} (content : string) : result (list PackageVersion) :=
  match xml_Unmarshal content with
  | Err e => Err (malformed "%w: pom.xml decode: %v" [error_text e])
  | Ok doc => Ok (pomLoop (pomProps (pom_Properties doc)) (pom_Dependencies doc) ∅ [])
  end.

(** ** gradle.lockfile *)

(** The coordinate of one line; [None] is a [continue]. *)
Definition gradleLine (text : string) : option (string * string * string) :=
  let line := TrimSpace text in
  if bool_decide (line = "") || HasPrefix line "#" then None
  else match last_index line "=" with
       | None => None
       | Some eq =>
           let coord := str_take eq line in
           if negb (Contains coord ":") then None
           else match SplitN coord ":" 3 with
                | [g; a; v] =>
                    let group := TrimSpace g in
                    let artifact := TrimSpace a in
                    let version := TrimSpace v in
                    if bool_decide (group = "") || bool_decide (artifact = "")
                       || bool_decide (version = "")
                    then None
                    else Some (group, artifact, version)
                | _ => None
                end
       end.

Definition gradlePackage (c : string * string * string) : PackageVersion :=
  let '(group, artifact, version) := c in
  MkPackageVersion "maven" (group +:+ ":" +:+ artifact) version
    (mavenPURL group artifact version) [] "".

Definition gradleKey (c : string * string * string) : string :=
  let '(group, artifact, version) := c in group +:+ ":" +:+ artifact +:+ "@" +:+ version.

Fixpoint gradleLoop (lines : list string) (seen : gset string) (pkgs : list PackageVersion) :
    list PackageVersion :=
  match lines with
  | [] => pkgs
  | text :: lines' =>
      match gradleLine text with
      | None => gradleLoop lines' seen pkgs
      | Some c =>
          if bool_decide (gradleKey c ∈ seen) then gradleLoop lines' seen pkgs
          else gradleLoop lines' ({[gradleKey c]} ∪ seen) (pkgs ++ [gradlePackage c])
      end
  end.

Definition parseGradleLock (content : string) : result (list PackageVersion) :=
  let '(lines, tooLong) := Scanner content in
  if (tooLong : bool) then Err (malformed "%w: gradle lockfile scan: %v" ["token too long"])
  else Ok (gradleLoop lines ∅ []).

(** ** Parse *)

Definition Parse `{PomXML} (k : Call) (content format : string) : result ParsedSBOM :=
  let finish pkgs source :=
    match pkgs with
    | Err e => Err e
    | Ok pkgs => Ok (MkParsedSBOM "maven" (sort_pkgs k pkgs) source
                       (Z.of_nat (String.length content)))
    end in
  match ctx_Err k with
  | Some e => Err e
  | None =>
      if bool_decide (format = FormatPom) then finish (parsePom content) "maven-pom-v4"
      else if bool_decide (format = FormatGradle) then
        finish (parseGradleLock content) "gradle-lockfile-v1"
      else Err (malformed "%w: unknown format %q" [format])
  end.

(** * Properties *)

(** A lockfile as Gradle writes it: a coordinate and its configurations per
    line. *)
Definition gradle_row : Type := (string * string * string) * string.

Definition print_row (row : gradle_row) : string :=
  let '((group, artifact, version), tags) := row in
  group +:+ String ":" (artifact +:+ String ":" (version +:+ String "=" tags)).

Fixpoint print_gradle (rows : list gradle_row) : string :=
  match rows with
  | [] => ""
  | row :: rows' => print_row row +:+ String newline (print_gradle rows')
  end.

(** Visible ASCII, no colon in group and artifact, no equals sign in the
    configurations, not a comment, shorter than the scanner's limit. *)
Definition row_ok (row : gradle_row) : Prop :=
  let '((group, artifact, version), tags) := row in
  plain group = true ∧ plain artifact = true ∧ plain version = true ∧ plain tags = true ∧
  group ≠ "" ∧ artifact ≠ "" ∧ version ≠ "" ∧
  byte_in ":" group = false ∧ byte_in ":" artifact = false ∧ byte_in "=" tags = false ∧
  HasPrefix group "#" = false ∧ (Z.of_nat (String.length (print_row row)) < maxTokenSize)%Z.

Lemma print_row_plain row : row_ok row → plain (print_row row) = true.
Proof.
  destruct row as [[[g a] v] tags]. intros (Hg & Ha & Hv & Ht & _). unfold print_row.
  by rewrite plain_app, plain_cons, plain_app, plain_cons, plain_app, plain_cons, Hg, Ha, Hv, Ht.
Qed.

Lemma HasPrefix_hash s t : s ≠ "" → HasPrefix (s +:+ t) "#" = HasPrefix s "#".
Proof. by destruct s. Qed.

Lemma gradleLine_print row : row_ok row → gradleLine (print_row row) = Some row.1.
Proof.
  intros Hok. pose proof (print_row_plain row Hok) as Hplain.
  unfold gradleLine. rewrite TrimSpace_plain by done. clear Hplain.
  destruct row as [[[g a] v] tags].
  destruct Hok as (Hg & Ha & Hv & _ & Hg0 & Ha0 & Hv0 & Hgc & Hac & Hte & Hh & _).
  unfold print_row. rewrite HasPrefix_hash by done.
  rewrite Hh, bool_decide_false by (by destruct g). simpl orb. cbn iota.
  set (coord := g +:+ String ":" (a +:+ String ":" v)).
  assert (g +:+ String ":" (a +:+ String ":" (v +:+ String "=" tags)) = coord +:+ String "=" tags)
    as ->.
  { unfold coord. by rewrite str_app_assoc, string_app_cons, str_app_assoc, string_app_cons. }
  rewrite last_index_byte_app by done. rewrite str_take_app.
  assert (Contains coord ":" = true) as ->.
  { apply bool_decide_eq_true. unfold coord. rewrite index_byte_app by done. by eexists. }
  unfold coord. rewrite !SplitN_byte_app by done. simpl negb. cbn iota. simpl SplitN.
  rewrite !TrimSpace_plain by done. by rewrite !bool_decide_false.
Qed.

Lemma scan_print rows :
  Forall row_ok rows → Scanner (print_gradle rows) = (print_row <$> rows, false).
Proof.
  unfold Scanner. induction 1 as [|row rows Hok Hrows IH]; [done|]. simpl.
  pose proof (print_row_plain row Hok) as Hplain.
  change (String.append ?s ?t) with (s +:+ t).
  rewrite raw_lines_app by (by apply plain_byte_in). simpl. rewrite IH.
  rewrite bool_decide_false by (destruct row as [[[??]?]?]; unfold row_ok in Hok; lia).
  by rewrite dropCR_plain.
Qed.

Lemma gradleLoop_print rows seen pkgs :
  Forall row_ok rows → NoDup (gradleKey <$> rows.*1) →
  (∀ row, row ∈ rows → gradleKey row.1 ∉ seen) →
  gradleLoop (print_row <$> rows) seen pkgs = pkgs ++ (gradlePackage <$> rows.*1).
Proof.
  intros Hok. revert seen pkgs.
  induction Hok as [|row rows Hrow Hrows IH]; intros seen pkgs; [by rewrite app_nil_r|].
  rewrite !fmap_cons. intros [Hk Hnd]%NoDup_cons Hseen. cbn [gradleLoop].
  rewrite gradleLine_print by done.
  rewrite bool_decide_false by (apply Hseen; left). rewrite IH; [by rewrite <- app_assoc|done|].
  intros row' Hin. rewrite not_elem_of_union, not_elem_of_singleton. split.
  - intros Heq. apply Hk. rewrite <- Heq. by do 2 apply list_elem_of_fmap_2.
  - apply Hseen. by right.
Qed.

(** A Gradle lockfile survives parsing: from the printed form of any
    list of distinct coordinates with their configurations, the parser gets
    exactly those coordinates back, in order. *)
Theorem gradle_lock_roundtrip rows :
  Forall row_ok rows → NoDup (gradleKey <$> rows.*1) →
  parseGradleLock (print_gradle rows) = Ok (gradlePackage <$> rows.*1).
Proof.
  intros Hok Hnd. unfold parseGradleLock. rewrite scan_print by done.
  by rewrite gradleLoop_print by set_solver.
Qed.

Definition sample_rows : list gradle_row := [
  (("org.slf4j", "slf4j-api", "2.0.9"), "compileClasspath,runtimeClasspath");
  (("com.acme", "core", "1.0=rc1"), "testRuntimeClasspath")].

Lemma gradle_lock_roundtrip_witness :
  parseGradleLock (print_gradle sample_rows) = Ok (gradlePackage <$> sample_rows.*1).
Proof.
  apply (gradle_lock_roundtrip sample_rows).
  - repeat constructor; try discriminate.
  - vm_compute. repeat constructor; set_solver.
Defined.

Lemma SbomMaven_Parse_wf `{PomXML} k content format parsed :
  Parse k content format = Ok parsed → parsed_wf parsed.
Proof.
  assert (∀ props deps seen pkgs p, p ∈ pomLoop props deps seen pkgs →
    p ∈ pkgs ∨ PackageVersion_Ecosystem p = "maven") as Hpom.
  { intros props deps. induction deps as [|d deps IH]; intros seen pkgs p; simpl; [auto|].
    repeat case_match; intros [Hin|?]%IH; auto.
    all: apply elem_of_app in Hin as [?| ->%list_elem_of_singleton]; auto. }
  assert (∀ lines seen pkgs p, p ∈ gradleLoop lines seen pkgs →
    p ∈ pkgs ∨ PackageVersion_Ecosystem p = "maven") as Hgradle.
  { intros lines. induction lines as [|l lines IH]; intros seen pkgs p; simpl; [auto|].
    destruct (gradleLine l) as [[[g a] v]|]; [case_bool_decide|]; intros [Hin|?]%IH; auto.
    apply elem_of_app in Hin as [?| ->%list_elem_of_singleton]; auto. }
  unfold Parse, parsePom, parseGradleLock.
  repeat (case_match; try done); intros; simplify_eq;
    (split_and!; [done..|]); simpl; intros p; rewrite sort_pkgs_perm;
    (intros [?%not_elem_of_nil|?]%Hpom || intros [?%not_elem_of_nil|?]%Hgradle); done.
Qed.
