(* ===== verification/MemoryStore.v ===== *)
(** * The in-memory backend (engine/internal/storage/memory)

    Every method of [Store], the filters of the listings, and the proof
    that the store satisfies the storage contract. The RWMutex makes a
    method atomic; a method that mutates does so before it returns
    [ctx.Err()]. The two id counters are unbounded integers here (int64 in
    the code, incremented once per save). *)

From S2P Require Import Prelude GoStrings Domain Storage.
From stdpp Require Import options.

(** ** State *)

Record anomalyDedupKey := MkAnomalyDedupKey {
  dedup_Kind : string;
  dedup_PackageRef : string;
  dedup_DetectedAt : Time;
}.

#[global] Instance anomalyDedupKey_eq_dec : EqDecision anomalyDedupKey.
Proof. solve_decision. Defined.

#[global] Instance anomalyDedupKey_countable : Countable anomalyDedupKey.
Proof.
  refine (inj_countable'
    (λ k, (dedup_Kind k, dedup_PackageRef k, dedup_DetectedAt k : Z))
    (λ t, MkAnomalyDedupKey t.1.1 t.1.2 t.2) _).
  by intros [].
Defined.

Definition publisherKey : Type := string * string.

Record Store := MkStore {
  components : gmap string Component;
  sboms : gmap string SBOM;
  iocs : gmap string IoC;
  incidents : gmap string Incident;
  publishers : gmap publisherKey Publisher;
  profiles : gmap publisherKey PublisherProfile;
  publisherHistory : gmap string (list PublisherSnapshot);
  nextSnapshotID : Z;
  anomalies : gmap Z Anomaly;
  anomalyDedup : gmap anomalyDedupKey Z;
  nextAnomalyID : Z;
}.

Definition New : Store := MkStore ∅ ∅ ∅ ∅ ∅ ∅ ∅ 0 ∅ ∅ 0.

(** [return v, ctx.Err()]. *)
Definition ret {A} (k : Call) (v : A) : result A :=
  match ctx_Err k with None => Ok v | Some e => Err e end.

(** [for _, v := range m { if keep(v) { out = append(out, v) } }]. *)
Definition range_filter {K V} `{Countable K} (k : Call) (keep : V → bool) (m : gmap K V) : list V :=
  filter (λ v, keep v = true) (@map_range (call_rt k) _ _ _ _ m).*2.

Definition range_values {K V} `{Countable K} (k : Call) (m : gmap K V) : list V :=
  (@map_range (call_rt k) _ _ _ _ m).*2.

Definition sortSlice {A} (k : Call) (less : A → A → bool) (l : list A) : list A :=
  @sort_slice (call_rt k) A less l.

(** ** Components *)

Definition Store_UpsertComponent (k : Call) (c : Component) (s : Store) : Store * option error :=
  (MkStore (<[Component_Ref c := c]> (components s)) (sboms s) (iocs s) (incidents s)
     (publishers s) (profiles s) (publisherHistory s) (nextSnapshotID s) (anomalies s)
     (anomalyDedup s) (nextAnomalyID s), ctx_Err k).

Definition Store_GetComponent (k : Call) (ref : string) (s : Store) : result Component :=
  match components s !! ref with
  | None => Err (ESentinel ErrNotFound)
  | Some c => ret k c
  end.

Definition Store_ListComponents (k : Call) (s : Store) : result (list Component) :=
  let out := range_values k (components s) in
  ret k (sortSlice k (λ x y, String.ltb (Component_Ref x) (Component_Ref y)) out).

(** ** SBOMs *)

Definition Store_UpsertSBOM (k : Call) (b : SBOM) (s : Store) : Store * option error :=
  (MkStore (components s) (<[SBOM_ID b := b]> (sboms s)) (iocs s) (incidents s)
     (publishers s) (profiles s) (publisherHistory s) (nextSnapshotID s) (anomalies s)
     (anomalyDedup s) (nextAnomalyID s), ctx_Err k).

Definition Store_GetSBOM (k : Call) (id : string) (s : Store) : result SBOM :=
  match sboms s !! id with
  | None => Err (ESentinel ErrNotFound)
  | Some b => ret k b
  end.

Definition Store_ListSBOMsByComponent (k : Call) (ref : string) (s : Store) : result (list SBOM) :=
  let out := range_filter k (λ b, bool_decide (SBOM_ComponentRef b = ref)) (sboms s) in
  ret k (sortSlice k (λ x y, Before (SBOM_GeneratedAt x) (SBOM_GeneratedAt y)) out).

Fixpoint packageRows (ref name : string) (packages : list PackageVersion) : list SBOMPackageRef :=
  match packages with
  | [] => []
  | p :: packages' =>
      if bool_decide (PackageVersion_Name p ≠ name) then packageRows ref name packages'
      else MkSBOMPackageRef ref p :: packageRows ref name packages'
  end.

Fixpoint sbomRows (ecosystem name : string) (bs : list SBOM) : list SBOMPackageRef :=
  match bs with
  | [] => []
  | b :: bs' =>
      if bool_decide (SBOM_Ecosystem b ≠ ecosystem) then sbomRows ecosystem name bs'
      else packageRows (SBOM_ComponentRef b) name (SBOM_Packages b)
             ++ sbomRows ecosystem name bs'
  end.

Definition Store_ListSBOMPackages (k : Call) (ecosystem name : string) (s : Store) :
    result (list SBOMPackageRef) :=
  let out := sbomRows ecosystem name (range_values k (sboms s)) in
  ret k (sortSlice k (λ x y,
    if bool_decide (SBOMPackageRef_ComponentRef x = SBOMPackageRef_ComponentRef y) then
      String.ltb (PackageVersion_Version (SBOMPackageRef_Package x))
                 (PackageVersion_Version (SBOMPackageRef_Package y))
    else String.ltb (SBOMPackageRef_ComponentRef x) (SBOMPackageRef_ComponentRef y)) out).

(** ** IoCs *)

Definition Store_UpsertIoC (k : Call) (i : IoC) (s : Store) : Store * option error :=
  (MkStore (components s) (sboms s) (<[IoC_ID i := i]> (iocs s)) (incidents s)
     (publishers s) (profiles s) (publisherHistory s) (nextSnapshotID s) (anomalies s)
     (anomalyDedup s) (nextAnomalyID s), ctx_Err k).

Definition Store_GetIoC (k : Call) (id : string) (s : Store) : result IoC :=
  match iocs s !! id with
  | None => Err (ESentinel ErrNotFound)
  | Some i => ret k i
  end.

Definition Store_ListIoCs (k : Call) (s : Store) : result (list IoC) :=
  let out := range_values k (iocs s) in
  ret k (sortSlice k (λ x y, Before (IoC_PublishedAt x) (IoC_PublishedAt y)) out).

(** ** Incidents *)

Definition Store_UpsertIncident (k : Call) (i : Incident) (s : Store) : Store * option error :=
  (MkStore (components s) (sboms s) (iocs s) (<[Incident_ID i := i]> (incidents s))
     (publishers s) (profiles s) (publisherHistory s) (nextSnapshotID s) (anomalies s)
     (anomalyDedup s) (nextAnomalyID s), ctx_Err k).

Definition Store_GetIncident (k : Call) (id : string) (s : Store) : result Incident :=
  match incidents s !! id with
  | None => Err (ESentinel ErrNotFound)
  | Some i => ret k i
  end.

Definition Store_ListIncidents (k : Call) (s : Store) : result (list Incident) :=
  let out := range_values k (incidents s) in
  ret k (sortSlice k (λ x y, Before (Incident_OpenedAt x) (Incident_OpenedAt y)) out).

(** The inner loop of MatchedComponentRefsByIoC: [seen] and [out]. *)
Fixpoint collectRefs (refs : list string) (seen : gset string) (out : list string) :
    gset string * list string :=
  match refs with
  | [] => (seen, out)
  | ref :: refs' =>
      if bool_decide (ref ∈ seen) then collectRefs refs' seen out
      else collectRefs refs' ({[ref]} ∪ seen) (out ++ [ref])
  end.

Fixpoint collectIncidentRefs (iocID : string) (incs : list Incident)
    (seen : gset string) (out : list string) : gset string * list string :=
  match incs with
  | [] => (seen, out)
  | inc :: incs' =>
      if bool_decide (Incident_IoCID inc ≠ iocID) then collectIncidentRefs iocID incs' seen out
      else let '(seen, out) := collectRefs (Incident_AffectedComponentsSnapshot inc) seen out in
           collectIncidentRefs iocID incs' seen out
  end.

Definition Store_MatchedComponentRefsByIoC (k : Call) (iocID : string) (s : Store) :
    result (list string) :=
  let '(_, out) := collectIncidentRefs iocID (range_values k (incidents s)) ∅ [] in
  ret k (sortSlice k String.ltb out).

Definition matchesIndexedFilter (inc : Incident) (f : IncidentFilter) : bool :=
  let ok := existsb (λ st, bool_decide (Incident_State inc = st)) (IncidentFilter_States f) in
  if bool_decide (0 < length (IncidentFilter_States f)) && negb ok then false
  else if match IncidentFilter_From f with
          | Some from => Before (Incident_OpenedAt inc) from | None => false end then false
  else if match IncidentFilter_To f with
          | Some to => After (Incident_OpenedAt inc) to | None => false end then false
  else true.

Definition matchesEcosystemFilter (inc : Incident) (f : IncidentFilter)
    (iocs : gmap string IoC) : bool :=
  if bool_decide (length (IncidentFilter_Ecosystems f) = 0) then true
  else match iocs !! Incident_IoCID inc with
       | None => false
       | Some ioc =>
           existsb (λ eco, bool_decide (eco ≠ "") && bool_decide (IoC_Ecosystem ioc = eco))
             (IncidentFilter_Ecosystems f)
       end.

Definition matchesSearchFilter `{UnicodeCase} (inc : Incident) (f : IncidentFilter) : bool :=
  if bool_decide (IncidentFilter_Search f = "") then true
  else
    let q := ToLower (IncidentFilter_Search f) in
    if Contains (ToLower (Incident_ID inc)) q then true
    else if Contains (ToLower (Incident_IoCID inc)) q then true
    else existsb (λ ref, Contains (ToLower ref) q) (Incident_AffectedComponentsSnapshot inc).

Definition matchesOwnerFilter (inc : Incident) (f : IncidentFilter)
    (components : gmap string Component) : bool :=
  if bool_decide (IncidentFilter_Owner f = "") then true
  else existsb (λ ref,
         match components !! ref with
         | None => false
         | Some c => bool_decide (Component_Owner c = IncidentFilter_Owner f)
         end) (Incident_AffectedComponentsSnapshot inc).

(** [if limit > 0 && len(out) > limit { out = out[:limit] }]. *)
Definition cut {A} (limit : Z) (out : list A) : list A :=
  if bool_decide (0 < limit)%Z && bool_decide (limit < Z.of_nat (length out))%Z
  then take (Z.to_nat limit) out else out.

Definition Store_ListIncidentsFiltered `{UnicodeCase} (k : Call) (f : IncidentFilter) (s : Store) :
    result (list Incident) :=
  let candidates := range_filter k (λ inc, matchesIndexedFilter inc f) (incidents s) in
  let out := filter (λ inc,
    matchesEcosystemFilter inc f (iocs s) && matchesSearchFilter inc f
      && matchesOwnerFilter inc f (components s) = true) candidates in
  let out := sortSlice k (λ x y, After (Incident_OpenedAt x) (Incident_OpenedAt y)) out in
  ret k (cut (IncidentFilter_Limit f) out).

Definition Store_AppendRemediation (k : Call) (incidentID : string) (r : Remediation)
    (s : Store) : Store * option error :=
  match incidents s !! incidentID with
  | None => (s, Some (ESentinel ErrNotFound))
  | Some inc =>
      let inc := MkIncident (Incident_ID inc) (Incident_IoCID inc) (Incident_State inc)
        (Incident_OpenedAt inc) (Incident_LastTransitionedAt inc)
        (Incident_AffectedComponentsSnapshot inc) (Incident_Remediations inc ++ [r]) in
      (MkStore (components s) (sboms s) (iocs s) (<[incidentID := inc]> (incidents s))
         (publishers s) (profiles s) (publisherHistory s) (nextSnapshotID s) (anomalies s)
         (anomalyDedup s) (nextAnomalyID s), ctx_Err k)
  end.

Definition Store_ListRemediations (k : Call) (incidentID : string) (s : Store) :
    result (list Remediation) :=
  match incidents s !! incidentID with
  | None => Err (ESentinel ErrNotFound)
  | Some inc => ret k (Incident_Remediations inc)
  end.

(** ** Publishers *)

Definition Store_UpsertPublisher (k : Call) (p : Publisher) (s : Store) : Store * option error :=
  (MkStore (components s) (sboms s) (iocs s) (incidents s)
     (<[(Publisher_Ecosystem p, Publisher_Name p) := p]> (publishers s)) (profiles s)
     (publisherHistory s) (nextSnapshotID s) (anomalies s) (anomalyDedup s)
     (nextAnomalyID s), ctx_Err k).

Definition Store_GetPublisher (k : Call) (ecosystem name : string) (s : Store) :
    result Publisher :=
  match publishers s !! (ecosystem, name) with
  | None => Err (ESentinel ErrNotFound)
  | Some p => ret k p
  end.

Definition Store_UpsertPublisherProfile (k : Call) (p : PublisherProfile) (s : Store) :
    Store * option error :=
  let key := (Publisher_Ecosystem (PublisherProfile_Publisher p),
              Publisher_Name (PublisherProfile_Publisher p)) in
  (MkStore (components s) (sboms s) (iocs s) (incidents s) (publishers s)
     (<[key := p]> (profiles s)) (publisherHistory s) (nextSnapshotID s) (anomalies s)
     (anomalyDedup s) (nextAnomalyID s), ctx_Err k).

Definition Store_GetPublisherProfile (k : Call) (ecosystem name : string) (s : Store) :
    result PublisherProfile :=
  match profiles s !! (ecosystem, name) with
  | None => Err (ESentinel ErrNotFound)
  | Some p => ret k p
  end.

Definition Store_ListPublishers (k : Call) (ecosystem : string) (s : Store) :
    result (list Publisher) :=
  let out := (filter (λ kv, kv.1.1 = ecosystem)
                (@map_range (call_rt k) _ _ _ _ (publishers s))).*2 in
  ret k (sortSlice k (λ x y, String.ltb (Publisher_Name x) (Publisher_Name y)) out).

Definition Store_SavePublisherSnapshot (k : Call) (snap : PublisherSnapshot) (s : Store) :
    Store * option error :=
  let next := (nextSnapshotID s + 1)%Z in
  let at_ := if IsZero (PublisherSnapshot_SnapshotAt snap) then UTC (call_now k)
             else UTC (PublisherSnapshot_SnapshotAt snap) in
  let published := UTC <$> PublisherSnapshot_LatestVersionPublishedAt snap in
  let snap := MkPublisherSnapshot next (PublisherSnapshot_PackageRef snap) at_
    (PublisherSnapshot_Maintainers snap) (PublisherSnapshot_LatestVersion snap) published
    (PublisherSnapshot_PublishMethod snap) (PublisherSnapshot_SourceRepoURL snap)
    (PublisherSnapshot_RawData snap) in
  let ref := PublisherSnapshot_PackageRef snap in
  (MkStore (components s) (sboms s) (iocs s) (incidents s) (publishers s) (profiles s)
     (<[ref := default [] (publisherHistory s !! ref) ++ [snap]]> (publisherHistory s))
     next (anomalies s) (anomalyDedup s) (nextAnomalyID s), ctx_Err k).

Definition Store_GetPublisherHistory (k : Call) (packageRef : string) (limit : Z) (s : Store) :
    result (list PublisherSnapshot) :=
  match publisherHistory s !! packageRef with
  | None => ret k []
  | Some all =>
      let out := sortSlice k (λ x y,
        After (PublisherSnapshot_SnapshotAt x) (PublisherSnapshot_SnapshotAt y)) all in
      ret k (if bool_decide (0 < limit)%Z && bool_decide (limit < Z.of_nat (length out))%Z
             then take (Z.to_nat limit) out else out)
  end.

(** The running maximum over [hist[1:]]. *)
Fixpoint latestAfter (latest : Time) (rest : list PublisherSnapshot) : Time :=
  match rest with
  | [] => latest
  | sn :: rest' =>
      latestAfter (if After (PublisherSnapshot_SnapshotAt sn) latest
                   then PublisherSnapshot_SnapshotAt sn else latest) rest'
  end.

Fixpoint staleCandidates (olderThan : Time) (entries : list (string * list PublisherSnapshot)) :
    list (string * Time) :=
  match entries with
  | [] => []
  | (ref, hist) :: entries' =>
      match hist with
      | [] => staleCandidates olderThan entries'
      | first :: rest =>
          let latest := latestAfter (PublisherSnapshot_SnapshotAt first) rest in
          if Before latest olderThan then (ref, latest) :: staleCandidates olderThan entries'
          else staleCandidates olderThan entries'
      end
  end.

(** The output loop, which breaks once [limit] refs are out. *)
Fixpoint takeRefs (limit : Z) (cands : list (string * Time)) (out : list string) : list string :=
  match cands with
  | [] => out
  | c :: cands' =>
      let out := out ++ [c.1] in
      if bool_decide (0 < limit)%Z && bool_decide (limit ≤ Z.of_nat (length out))%Z then out
      else takeRefs limit cands' out
  end.

Definition Store_ListPackagesNeedingRefresh (k : Call) (olderThan : Time) (limit : Z)
    (s : Store) : result (list string) :=
  let cands := staleCandidates olderThan (@map_range (call_rt k) _ _ _ _ (publisherHistory s)) in
  let cands := sortSlice k (λ x y, Before x.2 y.2) cands in
  ret k (takeRefs limit cands []).

(** ** Anomalies *)

Definition Store_SaveAnomaly (k : Call) (a : Anomaly) (s : Store) : Store * result Z :=
  let at_ := if IsZero (Anomaly_DetectedAt a) then UTC (call_now k)
             else UTC (Anomaly_DetectedAt a) in
  let dk := MkAnomalyDedupKey (Anomaly_Kind a) (Anomaly_PackageRef a) at_ in
  match anomalyDedup s !! dk with
  | Some existing => (s, ret k existing)
  | None =>
      let id := (nextAnomalyID s + 1)%Z in
      let a := MkAnomaly id (Anomaly_Kind a) (Anomaly_PackageRef a) at_
                 (Anomaly_Confidence a) (Anomaly_Explanation a) (Anomaly_Evidence a) in
      (MkStore (components s) (sboms s) (iocs s) (incidents s) (publishers s) (profiles s)
         (publisherHistory s) (nextSnapshotID s) (<[id := a]> (anomalies s))
         (<[dk := id]> (anomalyDedup s)) id, ret k id)
  end.

Definition Store_GetAnomaly (k : Call) (id : Z) (s : Store) : result Anomaly :=
  match anomalies s !! id with
  | None => Err (ESentinel ErrNotFound)
  | Some a => ret k a
  end.

(** The four [continue] guards of the listing loop. *)
Definition anomalyPasses (filter : AnomalyFilter) (a : Anomaly) : bool :=
  if bool_decide (AnomalyFilter_PackageRef filter ≠ "")
     && bool_decide (Anomaly_PackageRef a ≠ AnomalyFilter_PackageRef filter) then false
  else if bool_decide (AnomalyFilter_Kind filter ≠ "")
     && bool_decide (Anomaly_Kind a ≠ AnomalyFilter_Kind filter) then false
  else if match AnomalyFilter_From filter with
          | Some from => Before (Anomaly_DetectedAt a) from | None => false end then false
  else if match AnomalyFilter_To filter with
          | Some to => After (Anomaly_DetectedAt a) to | None => false end then false
  else true.

Definition Store_ListAnomalies (k : Call) (filter : AnomalyFilter) (s : Store) :
    result (list Anomaly) :=
  let out := range_filter k (anomalyPasses filter) (anomalies s) in
  let out := sortSlice k (λ x y, After (Anomaly_DetectedAt x) (Anomaly_DetectedAt y)) out in
  ret k (cut (AnomalyFilter_Limit filter) out).

#[global] Instance Store_Storage `{UnicodeCase} : Storage Store := {|
  UpsertComponent := Store_UpsertComponent;
  GetComponent := Store_GetComponent;
  ListComponents := Store_ListComponents;
  UpsertSBOM := Store_UpsertSBOM;
  GetSBOM := Store_GetSBOM;
  ListSBOMsByComponent := Store_ListSBOMsByComponent;
  ListSBOMPackages := Store_ListSBOMPackages;
  UpsertIoC := Store_UpsertIoC;
  GetIoC := Store_GetIoC;
  ListIoCs := Store_ListIoCs;
  UpsertIncident := Store_UpsertIncident;
  GetIncident := Store_GetIncident;
  ListIncidents := Store_ListIncidents;
  ListIncidentsFiltered := Store_ListIncidentsFiltered;
  MatchedComponentRefsByIoC := Store_MatchedComponentRefsByIoC;
  AppendRemediation := Store_AppendRemediation;
  ListRemediations := Store_ListRemediations;
  UpsertPublisher := Store_UpsertPublisher;
  GetPublisher := Store_GetPublisher;
  UpsertPublisherProfile := Store_UpsertPublisherProfile;
  GetPublisherProfile := Store_GetPublisherProfile;
  ListPublishers := Store_ListPublishers;
  SavePublisherSnapshot := Store_SavePublisherSnapshot;
  GetPublisherHistory := Store_GetPublisherHistory;
  ListPackagesNeedingRefresh := Store_ListPackagesNeedingRefresh;
  SaveAnomaly := Store_SaveAnomaly;
  GetAnomaly := Store_GetAnomaly;
  ListAnomalies := Store_ListAnomalies;
|}.

(** * The store satisfies the contract *)

(** ** What the store keeps: everything *)

Definition memory_keeping : Keeping := {|
  keep_time t := t;
  keep_text s := s;
  keep_annotations m := m;
  keep_object m := m;
  keep_maintainers l := l;
  keep_raw s := s;
  keep_ioc i := i;
  listed l := l;
  text_less := String.ltb;
  row_cap := None;
  accepts_text _ := True;
  accepts_component _ := True;
  accepts_sbom _ := True;
  accepts_ioc _ := True;
  accepts_remediation _ := True;
  accepts_snapshot _ := True;
  accepts_anomaly _ := True;
|}.
#[local] Existing Instance memory_keeping.

Lemma memory_keeping_laws : KeepingLaws.
Proof.
  refine {| text_less_swo := less_by_string_swo id |}; simpl; auto with lia.
  - intros i _ _. by apply Forall_forall.
  - intros i _ _. by split.
Qed.

Lemma keep_component_id c : keep_component c = c.
Proof. by destruct c. Qed.
Lemma keep_sbom_id b : keep_sbom b = b.
Proof. by destruct b. Qed.
Lemma keep_incident_id i : keep_incident i = i.
Proof. by destruct i. Qed.
Lemma keep_remediation_id r : keep_remediation r = r.
Proof. by destruct r. Qed.
Lemma keep_incident_filter_id f : keep_incident_filter f = f.
Proof. by destruct f as [? ? [] [] ? ? ?]. Qed.
Lemma keep_anomaly_filter_id f : keep_anomaly_filter f = f.
Proof. by destruct f as [? ? [] [] ?]. Qed.
Lemma listed_incidents_id (l : list Incident) : listed_incident <$> l = l.
Proof. induction l as [|[] l IH]; [done|]. by rewrite fmap_cons, IH. Qed.

(** ** Abstraction and invariant *)

Definition Store_view (s : Store) : View :=
  MkView (components s) (sboms s) (iocs s) (incidents s) (publishers s) (profiles s)
    (publisherHistory s) (anomalies s).

Definition dedup_key (a : Anomaly) : anomalyDedupKey :=
  MkAnomalyDedupKey (Anomaly_Kind a) (Anomaly_PackageRef a) (Anomaly_DetectedAt a).

Record Store_inv (s : Store) : Prop := {
  mi_wf : view_wf (Store_view s);
  mi_dedup dk id : anomalyDedup s !! dk = Some id ↔
    ∃ a, anomalies s !! id = Some a ∧ dedup_key a = dk;
  mi_next id a : anomalies s !! id = Some a → (id ≤ nextAnomalyID s)%Z;
}.

Definition Store_answered (k : Call) : Prop := call_err k = None.

(** ** Shared lemmas *)

Lemma ctx_Err_None k : ctx_Err k = None ↔ Store_answered k.
Proof. unfold ctx_Err, Store_answered. by destruct (call_err k). Qed.

Lemma ctx_Err_not_found k e : ctx_Err k = Some e → errors_Is e ErrNotFound = false.
Proof. unfold ctx_Err. destruct (call_err k) as [[]|]; by intros [= <-]. Qed.

Lemma Returns_ret {A} k (ans : Prop) (v : A) (P : A → Prop) :
  (ans → Store_answered k) → P v → Returns ans (ret k v) P.
Proof.
  intros Ha Hv. unfold ret. destruct (ctx_Err k) eqn:E; [|done]. simpl.
  intros H%Ha%ctx_Err_None. congruence.
Qed.

Lemma Looks_ret {A} k (ans : Prop) (v : A) :
  (ans → Store_answered k) → Looks ans (ret k v) (Some v).
Proof.
  intros Ha. unfold ret. destruct (ctx_Err k) as [e|] eqn:E; [|done]. split.
  - rewrite (ctx_Err_not_found k) by done. done.
  - intros H%Ha%ctx_Err_None. congruence.
Qed.

Lemma Looks_lookup {A} k (ans : Prop) (o : option A) :
  (ans → Store_answered k) →
  Looks ans match o with None => Err (ESentinel ErrNotFound) | Some a => ret k a end o.
Proof. intros Ha. destruct o; [by apply Looks_ret|]. done. Qed.

Lemma Wrote_ctx k (inv' accepted : Prop) v v' upd :
  inv' → accepted → v' = upd v → Wrote inv' (Store_answered k) accepted v v' (ctx_Err k) upd.
Proof. intros ? ? ->. split; [done|by rewrite <- ctx_Err_None|done|by left|]. by intros ->%ctx_Err_None. Qed.
#[local] Hint Resolve Returns_ret Looks_ret Looks_lookup Wrote_ctx : go_lists.

Lemma range_values_perm {K V} `{Countable K} k (m : gmap K V) : range_values k m ≡ₚ values m.
Proof. unfold range_values, values. by rewrite (@map_range_perm (call_rt k)). Qed.

Lemma range_filter_perm {K V} `{Countable K} k keep (m : gmap K V) :
  range_filter k keep m ≡ₚ filter (λ v, keep v = true) (values m).
Proof. unfold range_filter, values. by rewrite (@map_range_perm (call_rt k)). Qed.

Lemma sortSlice_perm {A} k (less : A → A → bool) l : sortSlice k less l ≡ₚ l.
Proof. apply (@sort_slice_perm (call_rt k)). Qed.

Lemma sortSlice_sorted {A} k (less : A → A → bool) l :
  StrictWeakOrder less → SortedBy less (sortSlice k less l).
Proof. apply (@sort_slice_sorted (call_rt k)). Qed.

Lemma cut_limited {A} limit (l : list A) : cut limit l = limited limit l.
Proof.
  unfold cut, limited. case_bool_decide; [|done]. simpl. case_bool_decide; [done|].
  symmetry. apply take_ge. lia.
Qed.

(** ** The listing loops *)

Lemma packageRows_spec ref name ps :
  packageRows ref name ps =
  MkSBOMPackageRef ref <$> filter (λ p, PackageVersion_Name p = name) ps.
Proof.
  induction ps as [|p ps IH]; [done|]. simpl. case_bool_decide as Hp.
  - by rewrite filter_cons_False.
  - rewrite filter_cons_True by done. by rewrite IH.
Qed.

Lemma sbomRows_spec eco name bs : sbomRows eco name bs = bs ≫= sbom_rows eco name.
Proof.
  induction bs as [|b bs IH]; [done|]. simpl. unfold sbom_rows at 1. rewrite IH.
  case_bool_decide as Hb.
  - by rewrite bool_decide_false.
  - rewrite bool_decide_true by done. by rewrite packageRows_spec.
Qed.

Lemma collectRefs_spec refs seen out :
  NoDup out → (∀ r, r ∈ out ↔ r ∈ seen) →
  let '(seen', out') := collectRefs refs seen out in
  NoDup out' ∧ (∀ r, r ∈ out' ↔ r ∈ seen') ∧ (∀ r, r ∈ out' ↔ r ∈ out ∨ r ∈ refs).
Proof.
  revert seen out. induction refs as [|ref refs IH]; intros seen out Hnd Hs; simpl.
  { split_and!; [done..|]. set_solver. }
  case_bool_decide as Hin.
  - specialize (IH seen out Hnd Hs). destruct (collectRefs refs seen out) as [seen' out'].
    destruct IH as (? & ? & Hout). split_and!; [done..|]. intros r. rewrite Hout.
    set_unfold. specialize (Hs ref). naive_solver.
  - specialize (IH ({[ref]} ∪ seen) (out ++ [ref])).
    destruct (collectRefs refs ({[ref]} ∪ seen) (out ++ [ref])) as [seen' out'].
    destruct IH as (? & ? & Hout).
    + apply NoDup_app. split_and!; [done| |apply NoDup_singleton].
      intros x Hx Hx'. apply list_elem_of_singleton in Hx'. subst. by apply Hin, Hs.
    + set_solver.
    + split_and!; [done..|]. set_solver.
Qed.

Lemma collectIncidentRefs_spec ioc incs seen out :
  NoDup out → (∀ r, r ∈ out ↔ r ∈ seen) →
  let out' := (collectIncidentRefs ioc incs seen out).2 in
  NoDup out' ∧ ∀ r, r ∈ out' ↔ r ∈ out ∨
    ∃ inc, inc ∈ incs ∧ Incident_IoCID inc = ioc ∧ r ∈ Incident_AffectedComponentsSnapshot inc.
Proof.
  revert seen out. induction incs as [|inc incs IH]; intros seen out Hnd Hs; simpl.
  { split; [done|]. set_solver. }
  case_bool_decide as Hioc.
  - destruct (IH seen out Hnd Hs) as [? Hout]. split; [done|]. intros r. rewrite Hout.
    set_solver.
  - pose proof (collectRefs_spec (Incident_AffectedComponentsSnapshot inc) seen out Hnd Hs) as Hc.
    destruct (collectRefs _ seen out) as [seen' out']. destruct Hc as (Hnd' & Hs' & Hout').
    destruct (IH seen' out' Hnd' Hs') as [? Hout]. split; [done|]. intros r.
    rewrite Hout, Hout'. set_solver.
Qed.

(** ** The filters *)

Lemma existsb_bool {A} (p : A → bool) l : existsb p l = true ↔ ∃ x, x ∈ l ∧ p x = true.
Proof. rewrite existsb_exists. by setoid_rewrite <- list_elem_of_In. Qed.

Lemma optional_before (o : option Time) t :
  match o with Some b => Before t b | None => false end = false ↔
  ∀ b, o = Some b → (b ≤ t)%Z.
Proof.
  destruct o as [b|]; [|naive_solver]. unfold Before. rewrite bool_decide_eq_false.
  split; [intros ? ? [= <-]; lia|]. intros H. specialize (H b eq_refl). lia.
Qed.

Lemma optional_after (o : option Time) t :
  match o with Some b => After t b | None => false end = false ↔
  ∀ b, o = Some b → (t ≤ b)%Z.
Proof.
  destruct o as [b|]; [|naive_solver]. unfold After. rewrite bool_decide_eq_false.
  split; [intros ? ? [= <-]; lia|]. intros H. specialize (H b eq_refl). lia.
Qed.

Lemma if_false_else (b c : bool) : (if b then false else c) = true ↔ b = false ∧ c = true.
Proof. destruct b; naive_solver. Qed.

Lemma matchesIndexedFilter_true inc f :
  matchesIndexedFilter inc f = true ↔
  (IncidentFilter_States f = [] ∨ Incident_State inc ∈ IncidentFilter_States f) ∧
  (∀ t, IncidentFilter_From f = Some t → (t ≤ Incident_OpenedAt inc)%Z) ∧
  (∀ t, IncidentFilter_To f = Some t → (Incident_OpenedAt inc ≤ t)%Z).
Proof.
  unfold matchesIndexedFilter.
  rewrite !if_false_else, optional_before, optional_after.
  assert (∀ P Q Q' R : Prop, (P ↔ Q) → (P ∧ Q' ∧ R ∧ true = true ↔ Q ∧ Q' ∧ R)) as Hcong
    by naive_solver.
  apply Hcong. rewrite andb_false_iff, bool_decide_eq_false, negb_false_iff, existsb_bool.
  setoid_rewrite bool_decide_eq_true. destruct (IncidentFilter_States f); simpl.
  - split; [by left|]. left. lia.
  - split; [intros [?|(? & ? & ->)]; [lia|by right]|]. intros [?|?]; [done|]. right. eauto.
Qed.

Lemma matchesEcosystemFilter_true inc f m :
  matchesEcosystemFilter inc f m = true ↔
  IncidentFilter_Ecosystems f = [] ∨
  ∃ ioc, m !! Incident_IoCID inc = Some ioc ∧ IoC_Ecosystem ioc ≠ "" ∧
    IoC_Ecosystem ioc ∈ IncidentFilter_Ecosystems f.
Proof.
  unfold matchesEcosystemFilter. case_bool_decide as Hl.
  { apply nil_length_inv in Hl. tauto. }
  assert (IncidentFilter_Ecosystems f ≠ []) by (intros E; by rewrite E in Hl).
  destruct (m !! Incident_IoCID inc) as [ioc|]; [|naive_solver].
  rewrite existsb_bool. setoid_rewrite andb_true_iff. setoid_rewrite bool_decide_eq_true.
  split; [naive_solver|]. intros [?|(? & [= <-] & ? & ?)]; [done|]. eauto.
Qed.

Lemma matchesSearchFilter_true `{UnicodeCase} inc f :
  matchesSearchFilter inc f = true ↔
  IncidentFilter_Search f = "" ∨
  ∃ text, text ∈ Incident_ID inc :: Incident_IoCID inc :: Incident_AffectedComponentsSnapshot inc ∧
    Contains (ToLower text) (ToLower (IncidentFilter_Search f)) = true.
Proof.
  unfold matchesSearchFilter. case_bool_decide; [tauto|].
  setoid_rewrite elem_of_cons. setoid_rewrite elem_of_cons.
  destruct (Contains (ToLower (Incident_ID inc)) _) eqn:E1; [naive_solver|].
  destruct (Contains (ToLower (Incident_IoCID inc)) _) eqn:E2; [naive_solver|].
  rewrite existsb_bool. split; [naive_solver|].
  intros [?|(? & [->|[->|?]] & ?)]; [done|congruence|congruence|]. eauto.
Qed.

Lemma matchesOwnerFilter_true inc f m :
  matchesOwnerFilter inc f m = true ↔
  IncidentFilter_Owner f = "" ∨
  ∃ ref c, ref ∈ Incident_AffectedComponentsSnapshot inc ∧ m !! ref = Some c ∧
    Component_Owner c = IncidentFilter_Owner f.
Proof.
  unfold matchesOwnerFilter. case_bool_decide; [tauto|]. rewrite existsb_bool. split.
  - intros (ref & Hin & Hm). right. exists ref. destruct (m !! ref) as [c|]; [|done].
    exists c. by rewrite bool_decide_eq_true in Hm.
  - intros [?|(ref & c & Hin & Hm & Ho)]; [done|]. exists ref. split; [done|].
    rewrite Hm. by apply bool_decide_eq_true.
Qed.

Lemma incident_filters_spec `{UnicodeCase} s f inc :
  matchesIndexedFilter inc f = true ∧
  matchesEcosystemFilter inc f (iocs s) && matchesSearchFilter inc f
    && matchesOwnerFilter inc f (components s) = true ↔
  incident_matches (Store_view s) f inc.
Proof.
  rewrite !andb_true_iff, matchesIndexedFilter_true, matchesEcosystemFilter_true,
    matchesSearchFilter_true, matchesOwnerFilter_true. split.
  - intros [(? & ? & ?) [[? ?] ?]]. by split.
  - intros []. by split_and!.
Qed.

Lemma anomalyPasses_true f a : anomalyPasses f a = true ↔ anomaly_matches f a.
Proof.
  unfold anomalyPasses. rewrite !if_false_else, optional_before, optional_after.
  rewrite !andb_false_iff, !bool_decide_eq_false. split.
  - intros ([?|?] & [?|?] & ? & ? & _); split; try done;
      first [left; by apply dec_stable | right; by apply dec_stable].
  - intros [[?|?] [?|?] ? ?]; split_and!; try done; tauto.
Qed.

(** A listing built as filter, sort, cut is the specified one. *)
Lemma newest_first_listing {A} k (P : A → Prop) (at_ : A → Time) limit records l :
  (∀ x, x ∈ l ↔ x ∈ records ∧ P x) → l ⊆+ records →
  newest_first P at_ limit records
    (cut limit (sortSlice k (λ x y, After (at_ x) (at_ y)) l)).
Proof.
  intros Hl Hsub. exists (sortSlice k (λ x y, After (at_ x) (at_ y)) l). split_and!.
  - intros x. by rewrite sortSlice_perm.
  - by rewrite sortSlice_perm.
  - apply sortSlice_sorted. apply greater_by_Z_swo.
  - apply cut_limited.
Qed.

(** ** Stale packages *)

Lemma latestAfter_spec t0 rest (hist : list PublisherSnapshot) :
  (∃ s, s ∈ hist ∧ PublisherSnapshot_SnapshotAt s = t0) →
  (∀ s, s ∈ hist → s ∈ rest ∨ (PublisherSnapshot_SnapshotAt s ≤ t0)%Z) →
  rest ⊆ hist → newest_snapshot hist (latestAfter t0 rest).
Proof.
  revert t0. induction rest as [|sn rest IH]; intros t0 Ht0 Hmax Hsub; simpl.
  - split; [done|]. intros s Hs. destruct (Hmax s Hs) as [?%not_elem_of_nil|?]; done.
  - apply IH; unfold After; [case_bool_decide; [set_solver|done]| |set_solver].
    intros s Hs. destruct (Hmax s Hs) as [[->|?]%elem_of_cons|?]; [|by left|].
    + right. case_bool_decide; lia.
    + right. case_bool_decide; lia.
Qed.

Lemma newest_snapshot_unique hist t t' :
  newest_snapshot hist t → newest_snapshot hist t' → t = t'.
Proof.
  intros [(s & Hs & <-) Hm] [(s' & Hs' & <-) Hm'].
  specialize (Hm s' Hs'). specialize (Hm' s Hs). unfold Time in *. lia.
Qed.

Lemma staleCandidates_spec olderThan entries ref t :
  (ref, t) ∈ staleCandidates olderThan entries ↔
  ∃ hist, (ref, hist) ∈ entries ∧ newest_snapshot hist t ∧ (t < olderThan)%Z.
Proof.
  induction entries as [|[r hist] entries IH]; simpl; [set_solver|].
  assert (∀ P : Prop, (P ↔ newest_snapshot hist t ∧ r = ref ∧ (t < olderThan)%Z) →
    P ∨ (ref, t) ∈ staleCandidates olderThan entries ↔
    ∃ hist0, (ref, hist0) ∈ (r, hist) :: entries ∧ newest_snapshot hist0 t ∧ (t < olderThan)%Z)
    as Hcons.
  { intros P ->. rewrite IH. setoid_rewrite elem_of_cons. naive_solver. }
  destruct hist as [|first rest].
  - rewrite <- (Hcons False); [tauto|]. split; [done|].
    intros [[(? & ?%not_elem_of_nil & _) _] _]. done.
  - assert (newest_snapshot (first :: rest)
      (latestAfter (PublisherSnapshot_SnapshotAt first) rest)) as Hn.
    { apply latestAfter_spec; [set_solver| |set_solver]. intros s [->|?]%elem_of_cons; [by right|by left]. }
    unfold Before. case_bool_decide as Hold.
    + rewrite elem_of_cons. apply Hcons. split; [intros [= -> ->]; done|].
      intros (Hn' & -> & _). f_equal. by eapply newest_snapshot_unique.
    + rewrite <- (Hcons False); [tauto|]. split; [done|]. intros (Hn' & _ & ?).
      by rewrite (newest_snapshot_unique _ _ _ Hn Hn') in Hold.
Qed.

Lemma staleCandidates_sublist olderThan entries :
  (staleCandidates olderThan entries).*1 `sublist_of` entries.*1.
Proof.
  induction entries as [|[r [|first rest]] entries IH]; simpl; [done|by constructor|].
  case_match; simpl; by constructor.
Qed.

Lemma takeRefs_limited limit cands out :
  (0 < limit → Z.of_nat (length out) < limit)%Z →
  takeRefs limit cands out = limited limit (out ++ cands.*1).
Proof.
  revert out. induction cands as [|c cands IH]; intros out Hlen; cbn [takeRefs].
  - rewrite fmap_nil, app_nil_r. unfold limited. case_bool_decide; [|done].
    rewrite take_ge; [done|lia].
  - replace (out ++ (c :: cands).*1) with ((out ++ [c.1]) ++ cands.*1)
      by (by rewrite <- (assoc_L (++))).
    case_bool_decide as Hpos; simpl.
    + case_bool_decide as Hfull.
      * rewrite length_app in Hfull. simpl in Hfull. specialize (Hlen Hpos).
        unfold limited. rewrite bool_decide_true by done.
        rewrite take_app_le by (rewrite length_app; simpl; lia).
        rewrite take_ge; [done|]. rewrite length_app; simpl; lia.
      * apply IH. lia.
    + apply IH. lia.
Qed.

(** ** Every write keeps the invariant *)

Lemma keyed_insert {K V} `{Countable K} (key : V → K) (m : gmap K V) (v : V) k x :
  (∀ k x, m !! k = Some x → key x = k) →
  <[key v := v]> m !! k = Some x → key x = k.
Proof. intros Hm [[<- <-]|[_ ?]]%lookup_insert_Some; [done|]. by apply Hm. Qed.

(** A write that leaves the anomalies alone. *)
Lemma Store_inv_frame s s' :
  Store_inv s → view_wf (Store_view s') → anomalies s' = anomalies s →
  anomalyDedup s' = anomalyDedup s → nextAnomalyID s' = nextAnomalyID s → Store_inv s'.
Proof.
  intros [Hwf Hdd Hn] Hwf' Ha Hd Hnext.
  split; rewrite ?Ha, ?Hd, ?Hnext; [done|exact Hdd|exact Hn].
Qed.

Ltac store_write Hinv :=
  apply (Store_inv_frame _ _ Hinv); try done;
  destruct (mi_wf _ Hinv); split; simpl; eauto using keyed_insert.

Lemma Store_UpsertComponent_inv k c s : Store_inv s → Store_inv (Store_UpsertComponent k c s).1.
Proof. intros Hinv. store_write Hinv. Qed.

Lemma Store_UpsertSBOM_inv k b s : Store_inv s → Store_inv (Store_UpsertSBOM k b s).1.
Proof. intros Hinv. store_write Hinv. Qed.

Lemma Store_UpsertIoC_inv k i s : Store_inv s → Store_inv (Store_UpsertIoC k i s).1.
Proof. intros Hinv. store_write Hinv. Qed.

Lemma Store_UpsertIncident_inv k i s : Store_inv s → Store_inv (Store_UpsertIncident k i s).1.
Proof. intros Hinv. store_write Hinv. Qed.

Lemma Store_UpsertPublisher_inv k p s : Store_inv s → Store_inv (Store_UpsertPublisher k p s).1.
Proof.
  intros Hinv. store_write Hinv. intros ??.
  by apply (keyed_insert (λ p, (Publisher_Ecosystem p, Publisher_Name p))).
Qed.

Lemma Store_UpsertPublisherProfile_inv k p s :
  Store_inv s → Store_inv (Store_UpsertPublisherProfile k p s).1.
Proof. intros Hinv. store_write Hinv. Qed.

Lemma Store_SavePublisherSnapshot_inv k p s :
  Store_inv s → Store_inv (Store_SavePublisherSnapshot k p s).1.
Proof. intros Hinv. store_write Hinv. Qed.

Lemma Store_AppendRemediation_inv k id r s :
  Store_inv s → Store_inv (Store_AppendRemediation k id r s).1.
Proof.
  intros Hinv. unfold Store_AppendRemediation.
  destruct (incidents s !! id) as [inc|] eqn:Hi; [|done].
  pose proof (wf_incidents _ (mi_wf _ Hinv) _ _ Hi) as Hid. simpl in Hid. subst id.
  store_write Hinv. intros k' x. simpl.
  apply (keyed_insert Incident_ID (incidents s) (MkIncident (Incident_ID inc) _ _ _ _ _ _)).
  done.
Qed.

Lemma Store_SaveAnomaly_inv k a s : Store_inv s → Store_inv (Store_SaveAnomaly k a s).1.
Proof.
  intros Hinv. unfold Store_SaveAnomaly. case_match eqn:Hdk; [done|]. simpl.
  pose proof (mi_next _ Hinv) as Hnext.
  assert (anomalies s !! (nextAnomalyID s + 1)%Z = None) as Hfresh.
  { destruct (anomalies s !! (nextAnomalyID s + 1)%Z) eqn:E; [|done].
    apply Hnext in E. lia. }
  split; simpl.
  - destruct (mi_wf _ Hinv). split; simpl; eauto.
    intros ??. by apply (keyed_insert Anomaly_ID _ (MkAnomaly (nextAnomalyID s + 1) _ _ _ _ _ _)).
  - intros dk id. rewrite lookup_insert_Some, (mi_dedup _ Hinv). split.
    + intros [[<- <-]|(Hne & x & Hx & <-)].
      * eexists. rewrite lookup_insert_eq. by split.
      * exists x. rewrite lookup_insert_ne; [done|]. intros <-. congruence.
    + intros (x & Hx & <-). apply lookup_insert_Some in Hx as [[<- <-]|[? Hx]]; [by left|].
      right. split; [|by eauto]. intros Heq. apply eq_None_not_Some in Hdk. apply Hdk.
      exists id. apply (mi_dedup _ Hinv). exists x. split; [done|]. by rewrite <- Heq.
  - intros id x [[<- <-]|[? Hx]]%lookup_insert_Some; [lia|]. apply Hnext in Hx. lia.
Qed.

Lemma New_inv : Store_inv New.
Proof.
  split; simpl.
  - by split; intros ??; simpl; rewrite lookup_empty.
  - intros dk id. rewrite lookup_empty. setoid_rewrite lookup_empty. naive_solver.
  - intros ??. by rewrite lookup_empty.
Qed.

(** ** The laws that take work *)

Lemma alter_lookup_insert {K V} `{Countable K} (f : V → V) (m : gmap K V) i x :
  m !! i = Some x → alter f i m = <[i := f x]> m.
Proof. intros Hi. by rewrite <- (alter_insert_eq m), insert_id. Qed.

(** A listing that ranges over a map, filters and sorts. *)
Lemma Returns_listing {A} k (ans : Prop) (less : A → A → bool) out records :
  StrictWeakOrder less → out ≡ₚ records → (ans → Store_answered k) →
  Returns ans (ret k (sortSlice k less out))
    (λ l, l ≡ₚ records ∧ SortedBy less l).
Proof.
  intros ? Hout ?. apply Returns_ret; [done|]. split; [by rewrite sortSlice_perm|].
  by apply sortSlice_sorted.
Qed.

Lemma Store_ListIncidentsFiltered_law `{UnicodeCase} k f s :
  Returns (Store_answered k) (Store_ListIncidentsFiltered k f s)
    (newest_first (incident_matches (Store_view s) f) Incident_OpenedAt
       (IncidentFilter_Limit f) (values (incidents s))).
Proof.
  apply Returns_ret; [done|]. apply newest_first_listing.
  - intros inc. rewrite list_elem_of_filter, range_filter_perm, list_elem_of_filter.
    rewrite <- incident_filters_spec. tauto.
  - etrans; [apply sublist_submseteq, sublist_filter|].
    rewrite range_filter_perm. apply sublist_submseteq, sublist_filter.
Qed.

Lemma Store_MatchedComponentRefsByIoC_law k (ans : Prop) ioc s :
  (ans → Store_answered k) →
  Returns ans (Store_MatchedComponentRefsByIoC k ioc s) (λ l,
    NoDup l ∧ SortedBy String.ltb l ∧
    ∀ ref, ref ∈ l ↔ ∃ id i, incidents s !! id = Some i ∧
      Incident_IoCID i = ioc ∧ ref ∈ Incident_AffectedComponentsSnapshot i).
Proof.
  intros Hans. unfold Store_MatchedComponentRefsByIoC.
  pose proof (collectIncidentRefs_spec ioc (range_values k (incidents s)) ∅ []
    NoDup_nil_2 ltac:(set_solver)) as Hc.
  destruct (collectIncidentRefs _ _ _ _) as [seen out]. simpl in Hc. destruct Hc as [Hnd Hout].
  apply Returns_ret; [done|]. split_and!.
  - by rewrite sortSlice_perm.
  - apply sortSlice_sorted. apply (less_by_string_swo id).
  - intros ref. rewrite sortSlice_perm, Hout. setoid_rewrite range_values_perm.
    setoid_rewrite elem_of_values. set_solver.
Qed.

Lemma Store_AppendRemediation_law k id r s :
  Store_inv s →
  let '(s', err) := Store_AppendRemediation k id r s in
  match incidents s !! id with
  | Some _ => Wrote (Store_inv s') (Store_answered k) True (Store_view s) (Store_view s') err
                (append_remediation id r)
  | None => Store_inv s' ∧ Store_view s' = Store_view s ∧ err ≠ None ∧
      (Store_answered k → True → ∃ e, err = Some e ∧ errors_Is e ErrNotFound = true)
  end.
Proof.
  intros Hinv. pose proof (Store_AppendRemediation_inv k id r s Hinv) as Hinv'.
  unfold Store_AppendRemediation in *. destruct (incidents s !! id) as [inc|] eqn:Hi; simpl in *.
  - apply Wrote_ctx; [done..|]. unfold append_remediation, Store_view. simpl. f_equal.
    by rewrite (alter_lookup_insert _ _ _ _ Hi).
  - split_and!; [done..|]. intros _ _. eexists. by split.
Qed.

Lemma Store_ListPublishers_law k eco s :
  Store_inv s →
  Returns (Store_answered k) (Store_ListPublishers k eco s) (λ l,
    l ≡ₚ filter (λ p, Publisher_Ecosystem p = eco) (values (publishers s)) ∧
    SortedBy (λ x y, String.ltb (Publisher_Name x) (Publisher_Name y)) l).
Proof.
  intros Hinv. apply Returns_listing; [apply less_by_string_swo| |done].
  rewrite (@map_range_perm (call_rt k)). unfold values.
  assert (∀ l : list (string * string * Publisher),
    (∀ kv, kv ∈ l → publishers s !! kv.1 = Some kv.2) →
    (filter (λ kv, kv.1.1 = eco) l).*2 =
    filter (λ p, Publisher_Ecosystem p = eco) l.*2) as Hl.
  { induction l as [|[[e n] p] l IH]; [done|]. intros Hin.
    pose proof (wf_publishers _ (mi_wf _ Hinv) _ _ (Hin (e, n, p) ltac:(left))) as Hkey.
    simpl in Hkey. injection Hkey as <- <-. rewrite fmap_cons. simpl.
    rewrite !filter_cons. simpl. specialize (IH ltac:(intros; apply Hin; by right)).
    case_decide; [|done]. by rewrite fmap_cons, IH. }
  apply reflexive_eq, Hl. intros [key p]. by rewrite elem_of_map_to_list.
Qed.

Lemma Store_GetPublisherHistory_law k (ans : Prop) ref limit s :
  (ans → Store_answered k) →
  Returns ans (Store_GetPublisherHistory k ref limit s) (λ l,
    ∃ full, full ≡ₚ default [] (publisherHistory s !! ref) ∧
      SortedBy (λ x y, After (PublisherSnapshot_SnapshotAt x)
                         (PublisherSnapshot_SnapshotAt y)) full ∧
      l = limited limit full).
Proof.
  intros Hans. unfold Store_GetPublisherHistory.
  destruct (publisherHistory s !! ref) as [all|]; simpl.
  - apply Returns_ret; [done|]. exists (sortSlice k (λ x y, After (PublisherSnapshot_SnapshotAt x)
      (PublisherSnapshot_SnapshotAt y)) all). split_and!.
    + by rewrite sortSlice_perm.
    + apply sortSlice_sorted. apply greater_by_Z_swo.
    + apply (cut_limited limit).
  - apply Returns_ret; [done|]. exists []. split_and!; [done|constructor|].
    unfold limited. by case_bool_decide; rewrite ?take_nil.
Qed.

Lemma Store_ListPackagesNeedingRefresh_law k olderThan limit s :
  Returns (Store_answered k) (Store_ListPackagesNeedingRefresh k olderThan limit s)
    (stale_first (Store_view s) olderThan limit).
Proof.
  apply Returns_ret; [done|].
  set (cands := staleCandidates olderThan _).
  exists (sortSlice k (λ x y, Before x.2 y.2) cands). split_and!.
  - rewrite sortSlice_perm.
    eapply sublist_NoDup; [apply (@map_range_NoDup_keys (call_rt k))|apply staleCandidates_sublist].
  - intros ref t. rewrite sortSlice_perm. unfold cands. rewrite staleCandidates_spec.
    setoid_rewrite (@elem_of_map_range (call_rt k)). done.
  - apply sortSlice_sorted. apply (less_by_Z_swo snd).
  - rewrite takeRefs_limited; [done|]. simpl. lia.
Qed.

(** The dedup index answers for the stored anomalies. *)
Lemma dedup_lookup s a' :
  Store_inv s →
  match anomalyDedup s !! dedup_key a' with
  | Some id => ∃ x, anomalies s !! id = Some x ∧ anomaly_key x = anomaly_key a'
  | None => (∀ id x, anomalies s !! id = Some x → anomaly_key x ≠ anomaly_key a') ∧
            anomalies s !! (nextAnomalyID s + 1)%Z = None
  end.
Proof.
  intros Hinv.
  assert (∀ x, dedup_key x = dedup_key a' ↔ anomaly_key x = anomaly_key a') as Hkey.
  { intros x. unfold dedup_key, anomaly_key. split; intros Hx; injection Hx; congruence. }
  destruct (anomalyDedup s !! dedup_key a') as [id|] eqn:Hdk.
  - apply (mi_dedup _ Hinv) in Hdk as (x & Hx & Hd). exists x. by rewrite <- Hkey.
  - split.
    + intros id x Hx Hk. apply Hkey in Hk. apply eq_None_not_Some in Hdk. apply Hdk.
      exists id. apply (mi_dedup _ Hinv). eauto.
    + destruct (anomalies s !! (nextAnomalyID s + 1)%Z) eqn:E; [|done].
      apply (mi_next _ Hinv) in E. lia.
Qed.

Lemma Store_SaveAnomaly_law k a s :
  Store_inv s →
  let '(s', r) := Store_SaveAnomaly k a s in
  let a' := stamped (call_now k) a in
  Store_inv s' ∧
  ((∃ id x, anomalies s !! id = Some x ∧ anomaly_key x = anomaly_key a' ∧
      Store_view s' = Store_view s ∧ Returns (Store_answered k ∧ True) r (λ n, n = id)) ∨
   (∀ id x, anomalies s !! id = Some x → anomaly_key x ≠ anomaly_key a') ∧
   ∃ id, anomalies s !! id = None ∧
     Wrote (Store_inv s') (Store_answered k) True (Store_view s) (Store_view s') (result_error r)
       (put_anomaly (with_id id a')) ∧
     Returns (Store_answered k ∧ True) r (λ n, n = id)).
Proof.
  intros Hinv. pose proof (Store_SaveAnomaly_inv k a s Hinv) as Hinv'.
  pose proof (dedup_lookup s (stamped (call_now k) a) Hinv) as Hdk.
  unfold Store_SaveAnomaly in *. change (MkAnomalyDedupKey _ _ _) with
    (dedup_key (stamped (call_now k) a)) in *.
  destruct (anomalyDedup s !! _) as [id|]; simpl in *; (split; [done|]).
  - left. destruct Hdk as (x & Hx & Hk). exists id, x.
    split_and!; [done..|]. apply Returns_ret; [tauto|done].
  - right. destruct Hdk as [Hnew Hfresh]. split; [done|].
    exists (nextAnomalyID s + 1)%Z. split_and!; [done| |apply Returns_ret; [tauto|done]].
    replace (result_error (ret k (nextAnomalyID s + 1)%Z)) with (ctx_Err k)
      by (unfold ret; by destruct (ctx_Err k)).
    by apply Wrote_ctx.
Qed.

(** ** The instance *)

#[global] Instance Store_StorageLaws `{UnicodeCase} : StorageLaws Store.
Proof.
  refine {| store_keeping := memory_keeping; store_keeping_laws := memory_keeping_laws;
    view := Store_view; store_inv := Store_inv; answered := Store_answered |}.
  all: try (intros *; refine (λ _, Looks_lookup _ _ _ _); tauto).
  - intros s. apply mi_wf.
  - done.
  - done.
  - done.
  - intros s id i _ _. by apply Forall_forall.
  - done.
  - intros k c s Hinv. rewrite keep_component_id.
    apply Wrote_ctx; [by apply (Store_UpsertComponent_inv k)|done..].
  - intros k s _. apply Returns_listing; [apply less_by_string_swo|apply range_values_perm|done].
  - intros k b s Hinv. rewrite keep_sbom_id.
    apply Wrote_ctx; [by apply (Store_UpsertSBOM_inv k)|done..].
  - intros k ref s _. apply Returns_listing; [apply less_by_Z_swo| |tauto].
    rewrite range_filter_perm. apply reflexive_eq, list_filter_iff.
    intros b. apply bool_decide_eq_true.
  - intros k eco name s _ _. apply Returns_ret; [tauto|].
    rewrite sortSlice_perm, sbomRows_spec. by rewrite range_values_perm.
  - intros k i s Hinv. apply Wrote_ctx; [by apply (Store_UpsertIoC_inv k)|done..].
  - intros k s _. apply Returns_listing; [apply less_by_Z_swo|apply range_values_perm|done].
  - intros k i s Hinv. by split; [apply Store_UpsertIncident_inv|].
  - intros k id r s Hinv. split; [by apply Store_AppendRemediation_inv|].
    simpl. unfold Store_AppendRemediation. by case_match.
  - intros k i s Hinv _. rewrite keep_incident_id.
    apply Wrote_ctx; [by apply (Store_UpsertIncident_inv k)|by apply Forall_forall|done].
  - intros k s _. rewrite listed_incidents_id.
    apply Returns_listing; [apply less_by_Z_swo|apply range_values_perm|done].
  - intros k f s _ _ Hans. rewrite listed_incidents_id, keep_incident_filter_id.
    pose proof (Store_ListIncidentsFiltered_law k f s) as Hl. simpl.
    destruct (Store_ListIncidentsFiltered k f s) as [l|e]; [by exists l|by destruct Hl].
  - intros k ioc s _. apply Store_MatchedComponentRefsByIoC_law. tauto.
  - intros k id r s Hinv _ _. rewrite keep_remediation_id. by apply Store_AppendRemediation_law.
  - intros k id s _. simpl. unfold Store_ListRemediations.
    destruct (incidents s !! id); [apply Looks_ret; tauto|done].
  - intros k sn s Hinv. exists (nextSnapshotID s + 1)%Z.
    apply Wrote_ctx; [by apply (Store_SavePublisherSnapshot_inv k)|done..].
  - intros k ref limit s _. apply Store_GetPublisherHistory_law. tauto.
  - intros k olderThan limit s _. apply Store_ListPackagesNeedingRefresh_law.
  - intros k a s. apply Store_SaveAnomaly_law.
  - intros k f s _. rewrite keep_anomaly_filter_id.
    apply Returns_ret; [tauto|]. apply newest_first_listing.
    + intros a. rewrite range_filter_perm, list_elem_of_filter, anomalyPasses_true. simpl. tauto.
    + rewrite range_filter_perm. apply sublist_submseteq, sublist_filter.
Defined.

#[global] Instance Store_PublisherLaws `{UnicodeCase} : PublisherLaws Store.
Proof.
  split.
  all: try (intros *; refine (λ _, Looks_lookup _ _ _ _); tauto).
  - intros k p s Hinv. apply Wrote_ctx; [by apply (Store_UpsertPublisher_inv k)|done..].
  - intros k p s Hinv. apply Wrote_ctx; [by apply (Store_UpsertPublisherProfile_inv k)|done..].
  - intros k eco s. apply Store_ListPublishers_law.
Qed.

(** * Properties of the backend *)

(** ** Every history of writes refines the contract *)

Inductive write_op :=
  | WComponent (c : Component)
  | WSBOM (b : SBOM)
  | WIoC (i : IoC)
  | WIncident (i : Incident)
  | WRemediation (incidentID : string) (r : Remediation)
  | WPublisher (p : Publisher)
  | WProfile (p : PublisherProfile)
  | WSnapshot (s : PublisherSnapshot)
  | WAnomaly (a : Anomaly).

Definition exec_write (k : Call) (op : write_op) (s : Store) : Store :=
  match op with
  | WComponent c => (Store_UpsertComponent k c s).1
  | WSBOM b => (Store_UpsertSBOM k b s).1
  | WIoC i => (Store_UpsertIoC k i s).1
  | WIncident i => (Store_UpsertIncident k i s).1
  | WRemediation id r => (Store_AppendRemediation k id r s).1
  | WPublisher p => (Store_UpsertPublisher k p s).1
  | WProfile p => (Store_UpsertPublisherProfile k p s).1
  | WSnapshot sn => (Store_SavePublisherSnapshot k sn s).1
  | WAnomaly a => (Store_SaveAnomaly k a s).1
  end.

(** What a write means on the abstract state. Saving a snapshot or an
    anomaly picks an id; an anomaly already on record is not stored again. *)
Inductive spec_write (k : Call) : write_op → View → View → Prop :=
  | spec_component c v : spec_write k (WComponent c) v (put_component c v)
  | spec_sbom b v : spec_write k (WSBOM b) v (put_sbom b v)
  | spec_ioc i v : spec_write k (WIoC i) v (put_ioc i v)
  | spec_incident i v : spec_write k (WIncident i) v (put_incident i v)
  | spec_remediation id r v : spec_write k (WRemediation id r) v (append_remediation id r v)
  | spec_publisher p v : spec_write k (WPublisher p) v (put_publisher p v)
  | spec_profile p v : spec_write k (WProfile p) v (put_profile p v)
  | spec_snapshot sn id v :
      spec_write k (WSnapshot sn) v (push_snapshot (keep_snapshot (call_now k) id sn) v)
  | spec_anomaly_known a id x v :
      v_anomalies v !! id = Some x → anomaly_key x = anomaly_key (stamped (call_now k) a) →
      spec_write k (WAnomaly a) v v
  | spec_anomaly_new a id v :
      (∀ id' x, v_anomalies v !! id' = Some x →
         anomaly_key x ≠ anomaly_key (stamped (call_now k) a)) →
      v_anomalies v !! id = None →
      spec_write k (WAnomaly a) v (put_anomaly (with_id id (stamped (call_now k) a)) v).

Lemma exec_write_inv k op s : Store_inv s → Store_inv (exec_write k op s).
Proof.
  intros Hinv. destruct op; simpl.
  - by apply (Store_UpsertComponent_inv k).
  - by apply (Store_UpsertSBOM_inv k).
  - by apply (Store_UpsertIoC_inv k).
  - by apply (Store_UpsertIncident_inv k).
  - by apply (Store_AppendRemediation_inv k).
  - by apply (Store_UpsertPublisher_inv k).
  - by apply (Store_UpsertPublisherProfile_inv k).
  - by apply (Store_SavePublisherSnapshot_inv k).
  - by apply (Store_SaveAnomaly_inv k).
Qed.

Lemma Store_AppendRemediation_view k id r s :
  Store_view (Store_AppendRemediation k id r s).1 = append_remediation id r (Store_view s).
Proof.
  unfold Store_AppendRemediation, append_remediation, Store_view. simpl.
  destruct (incidents s !! id) as [inc|] eqn:Hi; simpl; f_equal.
  - by rewrite (alter_lookup_insert _ _ _ _ Hi).
  - symmetry. apply map_eq. intros j. rewrite lookup_alter. case_decide; [|done].
    subst. by rewrite Hi.
Qed.

Lemma exec_write_spec k op s :
  Store_inv s → spec_write k op (Store_view s) (Store_view (exec_write k op s)).
Proof.
  intros Hinv. destruct op as [c|b|i|i|id r|p|p|sn|a]; simpl.
  - apply spec_component.
  - apply spec_sbom.
  - apply spec_ioc.
  - apply spec_incident.
  - rewrite Store_AppendRemediation_view. apply spec_remediation.
  - apply spec_publisher.
  - apply spec_profile.
  - pose proof (spec_snapshot k sn (nextSnapshotID s + 1) (Store_view s)) as Hs.
    exact Hs.
  - pose proof (dedup_lookup s (stamped (call_now k) a) Hinv) as Hdk.
    unfold Store_SaveAnomaly. change (MkAnomalyDedupKey _ _ _) with
      (dedup_key (stamped (call_now k) a)) in *.
    destruct (anomalyDedup s !! _) as [id|]; simpl in *.
    + destruct Hdk as (x & Hx & Hk). by eapply (spec_anomaly_known k a id x).
    + destruct Hdk as [Hnew Hfresh].
      exact (spec_anomaly_new k a (nextAnomalyID s + 1) (Store_view s) Hnew Hfresh).
Qed.

Fixpoint run_writes (ops : list (Call * write_op)) (s : Store) : Store :=
  match ops with
  | [] => s
  | (k, op) :: ops' => run_writes ops' (exec_write k op s)
  end.

Inductive spec_writes : list (Call * write_op) → View → View → Prop :=
  | spec_writes_nil v : spec_writes [] v v
  | spec_writes_cons k op ops v1 v2 v3 :
      spec_write k op v1 v2 → spec_writes ops v2 v3 → spec_writes ((k, op) :: ops) v1 v3.

Lemma run_writes_spec ops s :
  Store_inv s →
  Store_inv (run_writes ops s) ∧ spec_writes ops (Store_view s) (Store_view (run_writes ops s)).
Proof.
  revert s. induction ops as [|[k op] ops IH]; intros s Hinv; simpl; [split; [done|constructor]|].
  destruct (IH (exec_write k op s)) as [? ?]; [by apply exec_write_inv|].
  split; [done|]. econstructor; [by apply exec_write_spec|done].
Qed.

(** C8: the in-memory store refines the abstract state: along every sequence
    of writes from an empty store, under any clock and any cancellation,
    the store keeps its invariant (every record under its own key, the
    dedup index in step with the anomalies, fresh ids unused) and its
    contents are what the contract's abstract writes produce, in order. *)
Theorem memory_store_refines_contract ops :
  Store_inv (run_writes ops New) ∧
  spec_writes ops (MkView ∅ ∅ ∅ ∅ ∅ ∅ ∅ ∅) (Store_view (run_writes ops New)).
Proof. apply (run_writes_spec ops New), New_inv. Qed.

(** ** Reads *)

Lemma ret_ctx {A} k1 k2 (v : A) : call_err k1 = call_err k2 → ret k1 v = ret k2 v.
Proof. intros Hk. unfold ret, ctx_Err. by rewrite Hk. Qed.

(** Two sorts of the same records agree when the key is injective on them. *)
Lemma sortSlice_unique {A} k1 k2 (f : A → string) l1 l2 :
  l1 ≡ₚ l2 → (∀ x y, x ∈ l1 → y ∈ l1 → f x = f y → x = y) →
  sortSlice k1 (λ x y, String.ltb (f x) (f y)) l1 =
  sortSlice k2 (λ x y, String.ltb (f x) (f y)) l2.
Proof.
  intros Hl Hf. pose proof (less_by_string_swo f) as Hswo.
  apply (SortedBy_unique (λ x y, String.ltb (f x) (f y))).
  - intros x y. rewrite !sortSlice_perm. intros Hx Hy Hxy Hyx. apply Hf; [done..|].
    apply (anti_symm String.le); by apply str_ltb_leb.
  - by apply sortSlice_sorted.
  - by apply sortSlice_sorted.
  - by rewrite !sortSlice_perm.
Qed.

(** The component listing and the list of components an IoC has matched
    are deterministic: they do not depend on the order in which Go ranges
    over a map nor on how the unstable sort breaks ties. *)
Lemma listings_deterministic k1 k2 s :
  Store_inv s → call_err k1 = call_err k2 →
  Store_ListComponents k1 s = Store_ListComponents k2 s ∧
  ∀ ioc, Store_MatchedComponentRefsByIoC k1 ioc s = Store_MatchedComponentRefsByIoC k2 ioc s.
Proof.
  intros Hinv Hk. split.
  - unfold Store_ListComponents. rewrite (ret_ctx k1 k2) by done. f_equal.
    apply sortSlice_unique; [by rewrite !range_values_perm|].
    intros x y. rewrite !range_values_perm, !elem_of_values. intros [kx Hx] [ky Hy] Heq.
    pose proof (wf_components _ (mi_wf _ Hinv)) as Hwf. simpl in Hwf.
    rewrite (Hwf _ _ Hx), (Hwf _ _ Hy) in Heq. congruence.
  - intros ioc. unfold Store_MatchedComponentRefsByIoC.
    pose proof (collectIncidentRefs_spec ioc (range_values k1 (incidents s)) ∅ []
      NoDup_nil_2 ltac:(set_solver)) as H1.
    pose proof (collectIncidentRefs_spec ioc (range_values k2 (incidents s)) ∅ []
      NoDup_nil_2 ltac:(set_solver)) as H2.
    destruct (collectIncidentRefs ioc (range_values k1 _) _ _) as [s1 o1].
    destruct (collectIncidentRefs ioc (range_values k2 _) _ _) as [s2 o2].
    destruct H1 as [Hnd1 Ho1], H2 as [Hnd2 Ho2]. simpl in *.
    rewrite (ret_ctx k1 k2) by done. f_equal.
    apply (sortSlice_unique k1 k2 id); [|done]. apply NoDup_Permutation; [done..|].
    intros r. rewrite Ho1, Ho2. by setoid_rewrite range_values_perm.
Qed.

(** Saving an anomaly is idempotent: saving again what was saved (same
    kind, package and detection time, whatever id, confidence or evidence
    the second report carries) stores nothing and returns the first id. *)
Theorem SaveAnomaly_idempotent k1 k2 a b s id s' :
  Store_inv s → (Anomaly_DetectedAt a ≠ 0)%Z → anomaly_key b = anomaly_key a →
  Store_SaveAnomaly k1 a s = (s', Ok id) →
  Store_SaveAnomaly k2 b s' = (s', ret k2 id) ∧
  ∃ x, anomalies s' !! id = Some x ∧ anomaly_key x = anomaly_key a.
Proof.
  intros Hinv Hat Hkey. injection Hkey as Hkind Hpkg Htime.
  assert (IsZero (Anomaly_DetectedAt a) = false) as Hz by (by apply bool_decide_eq_false).
  assert (IsZero (Anomaly_DetectedAt b) = false) as Hz' by (by rewrite Htime).
  unfold Store_SaveAnomaly. rewrite Hz, Hz', Hkind, Hpkg, Htime.
  unfold UTC. set (dk := MkAnomalyDedupKey _ _ _).
  destruct (anomalyDedup s !! dk) as [old|] eqn:Hdk.
  - unfold ret at 1. destruct (ctx_Err k1); [done|]. intros [= <- <-]. rewrite Hdk.
    split; [done|]. apply (mi_dedup _ Hinv) in Hdk as (x & Hx & Hd). exists x.
    split; [done|]. unfold dk, dedup_key in Hd. injection Hd. unfold anomaly_key. congruence.
  - unfold ret at 1. destruct (ctx_Err k1); [done|]. intros [= <- <-]. simpl.
    rewrite lookup_insert_eq. split; [done|]. eexists. by rewrite lookup_insert_eq.
Qed.

(** ** Witnesses *)

Definition plain_call : Call := MkCall reference_runtime None 100 all_executed.

Definition plain_anomaly : Anomaly :=
  MkAnomaly 0 AnomalyKindVersionJump "npm:axios" 7 ConfidenceHigh "" ∅.


Lemma SaveAnomaly_idempotent_witness :
  let s' := (Store_SaveAnomaly plain_call plain_anomaly New).1 in
  Store_SaveAnomaly plain_call plain_anomaly s' = (s', ret plain_call 1%Z) ∧
  ∃ x, anomalies s' !! 1%Z = Some x ∧ anomaly_key x = anomaly_key plain_anomaly.
Proof.
  apply (SaveAnomaly_idempotent plain_call plain_call plain_anomaly plain_anomaly New 1%Z
    (Store_SaveAnomaly plain_call plain_anomaly New).1).
  - apply New_inv.
  - discriminate.
  - reflexivity.
  - reflexivity.
Defined.
