(* ===== verification/Wire.v ===== *)
(** * Wire types and conversions (engine/api/gen, engine/internal/api)

    The structs the OpenAPI generator emits for the bodies the handlers
    read and write, and the functions between them and the domain. A
    pointer field is an [option]; their JSON is in ApiBodies.v (requests) and
    ApiJson.v (answers). *)

From S2P Require Import Prelude GoStrings Domain.
From stdpp Require Import options.

(** ** api.gen.go *)

Record gen_Component := MkGenComponent {
  gen_Component_Annotations : option (gmap string string);
  gen_Component_Kind : string;
  gen_Component_Lifecycle : option string;
  gen_Component_Name : string;
  gen_Component_Namespace : string;
  gen_Component_Owner : option string;
  gen_Component_Ref : string;
  gen_Component_System : option string;
  gen_Component_Tags : option (list string);
}.

Record gen_IoCBodyAnomaly := MkGenIoCBodyAnomaly {
  gen_IoCBodyAnomaly_Confidence : string;
  gen_IoCBodyAnomaly_Evidence : option (gmap string any);
  gen_IoCBodyAnomaly_Explanation : option string;
  gen_IoCBodyAnomaly_Kind : string;
  gen_IoCBodyAnomaly_PackageRef : string;
}.

Record gen_IoCPackageRange := MkGenIoCPackageRange {
  gen_IoCPackageRange_Constraint : string;
  gen_IoCPackageRange_Name : string;
}.

Record gen_IoCPackageVersion := MkGenIoCPackageVersion {
  gen_IoCPackageVersion_Name : string;
  gen_IoCPackageVersion_Purl : string;
  gen_IoCPackageVersion_Version : string;
}.

Record gen_PackageVersion := MkGenPackageVersion {
  gen_PackageVersion_Ecosystem : string;
  gen_PackageVersion_Integrity : option string;
  gen_PackageVersion_Name : string;
  gen_PackageVersion_Purl : string;
  gen_PackageVersion_Scope : option (list string);
  gen_PackageVersion_Version : string;
}.

Record gen_Publisher := MkGenPublisher {
  gen_Publisher_Ecosystem : string;
  gen_Publisher_FirstSeen : option Time;
  gen_Publisher_LastSeen : option Time;
  gen_Publisher_Name : string;
}.

Record gen_PublisherSignal := MkGenPublisherSignal {
  gen_PublisherSignal_Description : option string;
  gen_PublisherSignal_DetectedAt : Time;
  gen_PublisherSignal_Evidence : option (gmap string any);
  gen_PublisherSignal_Package : option gen_PackageVersion;
  gen_PublisherSignal_Publisher : gen_Publisher;
  gen_PublisherSignal_Severity : string;
  gen_PublisherSignal_Type : string;
}.

(** [Signals] is neither read nor written by the conversions. *)
Record gen_IoCPublisherAnomaly := MkGenIoCPublisherAnomaly {
  gen_IoCPublisherAnomaly_PublisherName : string;
  gen_IoCPublisherAnomaly_Signals : option (list gen_PublisherSignal);
}.

Record gen_IoC := MkGenIoC {
  gen_IoC_AnomalyBody : option gen_IoCBodyAnomaly;
  gen_IoC_Description : option string;
  gen_IoC_Ecosystem : string;
  gen_IoC_Id : string;
  gen_IoC_Kind : string;
  gen_IoC_PackageRange : option gen_IoCPackageRange;
  gen_IoC_PackageVersion : option gen_IoCPackageVersion;
  gen_IoC_PublishedAt : Time;
  gen_IoC_PublisherAnomaly : option gen_IoCPublisherAnomaly;
  gen_IoC_Severity : string;
  gen_IoC_Source : option string;
}.

Record gen_SBOM := MkGenSBOM {
  gen_SBOM_CommitSha : option string;
  gen_SBOM_ComponentRef : string;
  gen_SBOM_Ecosystem : string;
  gen_SBOM_GeneratedAt : Time;
  gen_SBOM_Id : string;
  gen_SBOM_Packages : option (list gen_PackageVersion);
  gen_SBOM_SourceBytes : option Z;
  gen_SBOM_SourceFormat : string;
}.

Record gen_SBOMSubmission := MkGenSBOMSubmission {
  gen_SBOMSubmission_CommitSha : option string;
  gen_SBOMSubmission_Content : string;
  gen_SBOMSubmission_Ecosystem : string;
  gen_SBOMSubmission_SourceFormat : string;
}.

Definition SBOMSubmissionSourceFormatNpmPackageLockV3 : string := "npm-package-lock-v3".

Record gen_Remediation := MkGenRemediation {
  gen_Remediation_ActorRef : option string;
  gen_Remediation_Details : option (gmap string any);
  gen_Remediation_ExecutedAt : Time;
  gen_Remediation_Id : string;
  gen_Remediation_IncidentId : string;
  gen_Remediation_Kind : string;
}.

Record gen_Incident := MkGenIncident {
  gen_Incident_AffectedComponentsSnapshot : option (list string);
  gen_Incident_Id : string;
  gen_Incident_IocId : string;
  gen_Incident_LastTransitionedAt : Time;
  gen_Incident_OpenedAt : Time;
  gen_Incident_Remediations : option (list gen_Remediation);
  gen_Incident_State : string;
}.

Record gen_IncidentDetail := MkGenIncidentDetail {
  gen_IncidentDetail_AffectedComponents : option (list gen_Component);
  gen_IncidentDetail_Incident : gen_Incident;
  gen_IncidentDetail_Ioc : option gen_IoC;
}.

Record gen_Anomaly := MkGenAnomaly {
  gen_Anomaly_Confidence : string;
  gen_Anomaly_DetectedAt : Time;
  gen_Anomaly_Evidence : option (gmap string any);
  gen_Anomaly_Explanation : string;
  gen_Anomaly_Id : Z;
  gen_Anomaly_Kind : string;
  gen_Anomaly_PackageRef : string;
}.

Record gen_Maintainer := MkGenMaintainer {
  gen_Maintainer_Email : option string;
  gen_Maintainer_Name : option string;
  gen_Maintainer_Username : option string;
}.

Record gen_PublisherSnapshot := MkGenPublisherSnapshot {
  gen_PublisherSnapshot_Id : Z;
  gen_PublisherSnapshot_LatestVersion : option string;
  gen_PublisherSnapshot_LatestVersionPublishedAt : option Time;
  gen_PublisherSnapshot_Maintainers : option (list gen_Maintainer);
  gen_PublisherSnapshot_PackageRef : string;
  gen_PublisherSnapshot_PublishMethod : option string;
  gen_PublisherSnapshot_SnapshotAt : Time;
  gen_PublisherSnapshot_SourceRepoURL : option string;
}.

(** ** Optional fields *)

(** [if s != "" { out.F = &s }]. *)
Definition optionalNonEmpty (s : string) : option string :=
  if bool_decide (s = "") then None else Some s.

(** [if len(l) > 0 { out.F = &l }]. *)
Definition optionalList {A} (l : list A) : option (list A) :=
  if bool_decide (0 < length l) then Some l else None.

Definition optionalMap {A} (m : gmap string A) : option (gmap string A) :=
  if bool_decide (0 < size m) then Some m else None.

(** ** server.go *)

Definition toGenComponent (c : Component) : gen_Component := {|
  gen_Component_Annotations := optionalMap (Component_Annotations c);
  gen_Component_Kind := Component_Kind c;
  gen_Component_Lifecycle := optionalNonEmpty (Component_Lifecycle c);
  gen_Component_Name := Component_Name c;
  gen_Component_Namespace := Component_Namespace c;
  gen_Component_Owner := optionalNonEmpty (Component_Owner c);
  gen_Component_Ref := Component_Ref c;
  gen_Component_System := optionalNonEmpty (Component_System c);
  gen_Component_Tags := optionalList (Component_Tags c);
|}.

Definition fromGenComponent (g : gen_Component) : Component := {|
  Component_Ref := gen_Component_Ref g;
  Component_Kind := gen_Component_Kind g;
  Component_Namespace := gen_Component_Namespace g;
  Component_Name := gen_Component_Name g;
  Component_Owner := default "" (gen_Component_Owner g);
  Component_System := default "" (gen_Component_System g);
  Component_Lifecycle := default "" (gen_Component_Lifecycle g);
  Component_Tags := default [] (gen_Component_Tags g);
  Component_Annotations := default ∅ (gen_Component_Annotations g);
|}.

(** ** handlers_ioc.go *)

Definition fromGenIoC (g : gen_IoC) : IoC := {|
  IoC_ID := gen_IoC_Id g;
  IoC_Kind := gen_IoC_Kind g;
  IoC_Severity := gen_IoC_Severity g;
  IoC_Ecosystem := gen_IoC_Ecosystem g;
  IoC_Source := default "" (gen_IoC_Source g);
  IoC_PublishedAt := gen_IoC_PublishedAt g;
  IoC_Description := default "" (gen_IoC_Description g);
  IoC_PackageVersion :=
    (λ b, MkIoCPackageVersion (gen_IoCPackageVersion_Name b) (gen_IoCPackageVersion_Version b)
            (gen_IoCPackageVersion_Purl b)) <$> gen_IoC_PackageVersion g;
  IoC_PackageRange :=
    (λ b, MkIoCPackageRange (gen_IoCPackageRange_Name b) (gen_IoCPackageRange_Constraint b))
      <$> gen_IoC_PackageRange g;
  IoC_PublisherAnomaly :=
    (λ b, MkIoCPublisherAnomaly (gen_IoCPublisherAnomaly_PublisherName b) [])
      <$> gen_IoC_PublisherAnomaly g;
  IoC_AnomalyBody := None;
|}.

Definition toGenIoC (i : IoC) : gen_IoC := {|
  gen_IoC_AnomalyBody := None;
  gen_IoC_Description := optionalNonEmpty (IoC_Description i);
  gen_IoC_Ecosystem := IoC_Ecosystem i;
  gen_IoC_Id := IoC_ID i;
  gen_IoC_Kind := IoC_Kind i;
  gen_IoC_PackageRange :=
    (λ b, MkGenIoCPackageRange (IoCPackageRange_Constraint b) (IoCPackageRange_Name b))
      <$> IoC_PackageRange i;
  gen_IoC_PackageVersion :=
    (λ b, MkGenIoCPackageVersion (IoCPackageVersion_Name b) (IoCPackageVersion_PURL b)
            (IoCPackageVersion_Version b)) <$> IoC_PackageVersion i;
  gen_IoC_PublishedAt := IoC_PublishedAt i;
  gen_IoC_PublisherAnomaly :=
    (λ b, MkGenIoCPublisherAnomaly (IoCPublisherAnomaly_PublisherName b) None)
      <$> IoC_PublisherAnomaly i;
  gen_IoC_Severity := IoC_Severity i;
  gen_IoC_Source := optionalNonEmpty (IoC_Source i);
|}.

(** ** handlers_sbom.go *)

Definition toGenPackageVersion (p : PackageVersion) : gen_PackageVersion := {|
  gen_PackageVersion_Ecosystem := PackageVersion_Ecosystem p;
  gen_PackageVersion_Integrity := optionalNonEmpty (PackageVersion_Integrity p);
  gen_PackageVersion_Name := PackageVersion_Name p;
  gen_PackageVersion_Purl := PackageVersion_PURL p;
  gen_PackageVersion_Scope := optionalList (PackageVersion_Scope p);
  gen_PackageVersion_Version := PackageVersion_Version p;
|}.

Definition toGenSBOM (b : SBOM) : gen_SBOM := {|
  gen_SBOM_CommitSha := optionalNonEmpty (SBOM_CommitSHA b);
  gen_SBOM_ComponentRef := SBOM_ComponentRef b;
  gen_SBOM_Ecosystem := SBOM_Ecosystem b;
  gen_SBOM_GeneratedAt := SBOM_GeneratedAt b;
  gen_SBOM_Id := SBOM_ID b;
  gen_SBOM_Packages :=
    if bool_decide (0 < length (SBOM_Packages b))
    then Some (toGenPackageVersion <$> SBOM_Packages b) else None;
  gen_SBOM_SourceBytes :=
    if bool_decide (0 < SBOM_SourceBytes b)%Z then Some (SBOM_SourceBytes b) else None;
  gen_SBOM_SourceFormat := SBOM_SourceFormat b;
|}.

(** ** handlers_incident.go *)

Definition toGenRemediation (r : Remediation) : gen_Remediation := {|
  gen_Remediation_ActorRef := optionalNonEmpty (Remediation_ActorRef r);
  gen_Remediation_Details := optionalMap (Remediation_Details r);
  gen_Remediation_ExecutedAt := Remediation_ExecutedAt r;
  gen_Remediation_Id := Remediation_ID r;
  gen_Remediation_IncidentId := Remediation_IncidentID r;
  gen_Remediation_Kind := Remediation_Kind r;
|}.

Definition toGenIncident (inc : Incident) : gen_Incident := {|
  gen_Incident_AffectedComponentsSnapshot :=
    optionalList (Incident_AffectedComponentsSnapshot inc);
  gen_Incident_Id := Incident_ID inc;
  gen_Incident_IocId := Incident_IoCID inc;
  gen_Incident_LastTransitionedAt := Incident_LastTransitionedAt inc;
  gen_Incident_OpenedAt := Incident_OpenedAt inc;
  gen_Incident_Remediations :=
    if bool_decide (0 < length (Incident_Remediations inc))
    then Some (toGenRemediation <$> Incident_Remediations inc) else None;
  gen_Incident_State := Incident_State inc;
|}.

(** ** handlers_anomaly.go, handlers_publisher.go *)

Definition anomalyToWire (a : Anomaly) : gen_Anomaly := {|
  gen_Anomaly_Confidence := Anomaly_Confidence a;
  gen_Anomaly_DetectedAt := Anomaly_DetectedAt a;
  gen_Anomaly_Evidence := optionalMap (Anomaly_Evidence a);
  gen_Anomaly_Explanation := Anomaly_Explanation a;
  gen_Anomaly_Id := Anomaly_ID a;
  gen_Anomaly_Kind := Anomaly_Kind a;
  gen_Anomaly_PackageRef := Anomaly_PackageRef a;
|}.

Definition maintainerToWire (m : Maintainer) : gen_Maintainer := {|
  gen_Maintainer_Email := optionalNonEmpty (Maintainer_Email m);
  gen_Maintainer_Name := optionalNonEmpty (Maintainer_Name m);
  gen_Maintainer_Username := optionalNonEmpty (Maintainer_Username m);
|}.

Definition snapshotToWire (snap : PublisherSnapshot) : gen_PublisherSnapshot := {|
  gen_PublisherSnapshot_Id := PublisherSnapshot_ID snap;
  gen_PublisherSnapshot_LatestVersion := optionalNonEmpty (PublisherSnapshot_LatestVersion snap);
  gen_PublisherSnapshot_LatestVersionPublishedAt :=
    PublisherSnapshot_LatestVersionPublishedAt snap;
  gen_PublisherSnapshot_Maintainers :=
    if bool_decide (0 < length (PublisherSnapshot_Maintainers snap))
    then Some (maintainerToWire <$> PublisherSnapshot_Maintainers snap) else None;
  gen_PublisherSnapshot_PackageRef := PublisherSnapshot_PackageRef snap;
  gen_PublisherSnapshot_PublishMethod := optionalNonEmpty (PublisherSnapshot_PublishMethod snap);
  gen_PublisherSnapshot_SnapshotAt := PublisherSnapshot_SnapshotAt snap;
  gen_PublisherSnapshot_SourceRepoURL :=
    match PublisherSnapshot_SourceRepoURL snap with
    | Some url => optionalNonEmpty url
    | None => None
    end;
|}.

(** * Properties *)

Lemma default_optionalNonEmpty s : default "" (optionalNonEmpty s) = s.
Proof. unfold optionalNonEmpty. by case_bool_decide. Qed.

Lemma default_optionalList {A} (l : list A) : default [] (optionalList l) = l.
Proof. unfold optionalList. case_bool_decide; [done|]. destruct l; [done|simpl in *; lia]. Qed.

Lemma default_optionalMap {A} (m : gmap string A) : default ∅ (optionalMap m) = m.
Proof.
  unfold optionalMap. case_bool_decide; [done|]. symmetry. apply map_size_empty_iff. lia.
Qed.

#[global] Instance optionalNonEmpty_inj : Inj (=) (=) optionalNonEmpty.
Proof. intros s t H. by rewrite <- (default_optionalNonEmpty s), H, default_optionalNonEmpty. Qed.

#[global] Instance optionalList_inj A : Inj (=) (=) (@optionalList A).
Proof. intros s t H. by rewrite <- (default_optionalList s), H, default_optionalList. Qed.

#[global] Instance optionalMap_inj A : Inj (=) (=) (@optionalMap A).
Proof. intros s t H. by rewrite <- (default_optionalMap s), H, default_optionalMap. Qed.

(** Registering what the API returned for a component stores the same
    component: the wire form keeps every field, absent ones included. *)
Lemma component_wire_roundtrip c : fromGenComponent (toGenComponent c) = c.
Proof.
  destruct c. unfold fromGenComponent. simpl.
  by rewrite !default_optionalNonEmpty, default_optionalList, default_optionalMap.
Qed.

(** What the IoC wire form keeps. *)
Definition ioc_on_wire (i : IoC) : IoC :=
  MkIoC (IoC_ID i) (IoC_Kind i) (IoC_Severity i) (IoC_Ecosystem i) (IoC_Source i)
    (IoC_PublishedAt i) (IoC_Description i) (IoC_PackageVersion i) (IoC_PackageRange i)
    ((λ b, MkIoCPublisherAnomaly (IoCPublisherAnomaly_PublisherName b) [])
       <$> IoC_PublisherAnomaly i) None.

Lemma ioc_wire i : fromGenIoC (toGenIoC i) = ioc_on_wire i.
Proof.
  destruct i as [id k sev eco src at_ d pv pr pa ab].
  unfold fromGenIoC, ioc_on_wire. simpl. rewrite !default_optionalNonEmpty.
  f_equal; [by destruct pv as [[]|]|by destruct pr as [[]|]|by destruct pa as [[]|]].
Qed.

(** An IoC keyed by package version or range survives the wire exactly;
    one that carries the package-keyed anomaly body (the form the anomaly
    detectors emit) comes back without any body and is refused by
    [Validate]. *)
Theorem ioc_wire_roundtrip i b :
  ioc_carries i b →
  match b with
  | BodyPackageVersion _ | BodyPackageRange _ => fromGenIoC (toGenIoC i) = i
  | BodyPublisherAnomaly body =>
      ioc_carries (fromGenIoC (toGenIoC i))
        (BodyPublisherAnomaly (MkIoCPublisherAnomaly (IoCPublisherAnomaly_PublisherName body) []))
  | BodyAnomaly _ => IoC_Validate (fromGenIoC (toGenIoC i)) ≠ None
  end.
Proof.
  rewrite ioc_wire. destruct i as [id k sev eco src at_ d pv pr pa ab].
  destruct b as [x|x|x|x]; intros [Hk Hb]; simpl in Hk, Hb; by simplify_eq.
Qed.

Definition sample_anomaly_ioc : IoC :=
  MkIoC "IOC9" IoCKindPublisherAnomaly SeverityHigh "npm" "" 5 "" None None None
    (Some (MkIoCBodyAnomaly AnomalyKindVersionJump ConfidenceHigh "" "npm:axios" ∅)).

Lemma ioc_wire_roundtrip_witness :
  IoC_Validate (fromGenIoC (toGenIoC sample_anomaly_ioc)) ≠ None.
Proof.
  apply (ioc_wire_roundtrip sample_anomaly_ioc
    (BodyAnomaly (MkIoCBodyAnomaly AnomalyKindVersionJump ConfidenceHigh "" "npm:axios" ∅))).
  split; reflexivity.
Defined.

#[global] Instance toGenRemediation_inj : Inj (=) (=) toGenRemediation.
Proof.
  intros [] [] H. unfold toGenRemediation in H. simpl in H. injection H. intros.
  repeat match goal with
  | H : optionalNonEmpty _ = _ |- _ => apply (inj optionalNonEmpty) in H
  | H : optionalMap _ = _ |- _ => apply (inj optionalMap) in H
  end. congruence.
Qed.

(** The response for an incident determines the stored incident: nothing
    (state, times, snapshot, audit log entry or its order) is lost or
    conflated on the way out. *)
Lemma incident_wire_lossless i j : toGenIncident i = toGenIncident j → i = j.
Proof.
  destruct i as [? ? ? ? ? s1 r1], j as [? ? ? ? ? s2 r2]. intros H.
  unfold toGenIncident in H. simpl in H. injection H. clear H.
  intros ? Hr ? ? ? ? Hs%(inj optionalList).
  assert (r1 = r2) as ->; [|congruence].
  apply (inj (fmap toGenRemediation)).
  destruct r1, r2; simpl in Hr; by simplify_eq/=.
Qed.

