(* ===== verification/ApiBodies.v ===== *)
(** * Request bodies (engine/api/gen, engine/internal/api)

    [decodeJSON] of server.go, which takes the first JSON value of the body
    and refuses unknown fields, at each type that an operation reads: the
    generated structs of api.gen.go with their tags. *)

From S2P Require Import Prelude GoStrings GoText Json JsonEncode GoTime Domain GoJson Wire.
From stdpp Require Import options.

Definition decodeJSON {A} (decode : A → json → option A) (zero : A) (body : string) : result A :=
  Decode decode zero body.

(** ** Optional fields *)

Definition optional_string : option string → json → option (option string) := decode_pointer decode_string "".
Definition optional_time : option Time → json → option (option Time) := decode_pointer decode_time 0%Z.
Definition optional_int : option Z → json → option (option Z) := decode_pointer decode_int 0%Z.
Definition optional_strings : option (list string) → json → option (option (list string)) :=
  decode_pointer (decode_slice decode_string "") [].
Definition optional_string_map : option (gmap string string) → json → option (option (gmap string string)) :=
  decode_pointer decode_string_map ∅.
Definition optional_any_map : option (gmap string any) → json → option (option (gmap string any)) :=
  decode_pointer decode_any_map ∅.

(** ** Components *)

Definition set_gen_Component (name : string) (c : gen_Component) (v : json) : option gen_Component :=
  let '(MkGenComponent ann kind life nm ns owner ref sys tags) := c in
  if String.eqb name "annotations" then
    x ← optional_string_map ann v; Some (MkGenComponent x kind life nm ns owner ref sys tags)
  else if String.eqb name "kind" then x ← decode_string kind v; Some (MkGenComponent ann x life nm ns owner ref sys tags)
  else if String.eqb name "lifecycle" then x ← optional_string life v; Some (MkGenComponent ann kind x nm ns owner ref sys tags)
  else if String.eqb name "name" then x ← decode_string nm v; Some (MkGenComponent ann kind life x ns owner ref sys tags)
  else if String.eqb name "namespace" then x ← decode_string ns v; Some (MkGenComponent ann kind life nm x owner ref sys tags)
  else if String.eqb name "owner" then x ← optional_string owner v; Some (MkGenComponent ann kind life nm ns x ref sys tags)
  else if String.eqb name "ref" then x ← decode_string ref v; Some (MkGenComponent ann kind life nm ns owner x sys tags)
  else if String.eqb name "system" then x ← optional_string sys v; Some (MkGenComponent ann kind life nm ns owner ref x tags)
  else x ← optional_strings tags v; Some (MkGenComponent ann kind life nm ns owner ref sys x).

Definition Component_fields : list string :=
  ["annotations"; "kind"; "lifecycle"; "name"; "namespace"; "owner"; "ref"; "system"; "tags"].

Definition zero_Component : gen_Component := MkGenComponent None "" None "" "" None "" None None.

Definition decode_gen_Component : gen_Component → json → option gen_Component :=
  decode_strict Component_fields set_gen_Component.

(** ** SBOM submissions *)

Definition set_gen_SBOMSubmission (name : string) (b : gen_SBOMSubmission) (v : json) : option gen_SBOMSubmission :=
  let '(MkGenSBOMSubmission sha content eco fmt) := b in
  if String.eqb name "commitSha" then x ← optional_string sha v; Some (MkGenSBOMSubmission x content eco fmt)
  else if String.eqb name "content" then x ← decode_bytes content v; Some (MkGenSBOMSubmission sha x eco fmt)
  else if String.eqb name "ecosystem" then x ← decode_string eco v; Some (MkGenSBOMSubmission sha content x fmt)
  else x ← decode_string fmt v; Some (MkGenSBOMSubmission sha content eco x).

Definition decode_gen_SBOMSubmission : gen_SBOMSubmission → json → option gen_SBOMSubmission :=
  decode_strict ["commitSha"; "content"; "ecosystem"; "sourceFormat"] set_gen_SBOMSubmission.

Definition zero_SBOMSubmission : gen_SBOMSubmission := MkGenSBOMSubmission None "" "" "".

(** ** IoCs *)

Definition set_gen_IoCPackageVersion (name : string) (b : gen_IoCPackageVersion) (v : json) : option gen_IoCPackageVersion :=
  let '(MkGenIoCPackageVersion nm purl ver) := b in
  if String.eqb name "name" then x ← decode_string nm v; Some (MkGenIoCPackageVersion x purl ver)
  else if String.eqb name "purl" then x ← decode_string purl v; Some (MkGenIoCPackageVersion nm x ver)
  else x ← decode_string ver v; Some (MkGenIoCPackageVersion nm purl x).

Definition decode_gen_IoCPackageVersion : gen_IoCPackageVersion → json → option gen_IoCPackageVersion :=
  decode_strict ["name"; "purl"; "version"] set_gen_IoCPackageVersion.

Definition set_gen_IoCPackageRange (name : string) (b : gen_IoCPackageRange) (v : json) : option gen_IoCPackageRange :=
  let '(MkGenIoCPackageRange cst nm) := b in
  if String.eqb name "constraint" then x ← decode_string cst v; Some (MkGenIoCPackageRange x nm)
  else x ← decode_string nm v; Some (MkGenIoCPackageRange cst x).

Definition decode_gen_IoCPackageRange : gen_IoCPackageRange → json → option gen_IoCPackageRange :=
  decode_strict ["constraint"; "name"] set_gen_IoCPackageRange.

Definition set_gen_IoCBodyAnomaly (name : string) (b : gen_IoCBodyAnomaly) (v : json) : option gen_IoCBodyAnomaly :=
  let '(MkGenIoCBodyAnomaly conf ev expl kind ref) := b in
  if String.eqb name "confidence" then x ← decode_string conf v; Some (MkGenIoCBodyAnomaly x ev expl kind ref)
  else if String.eqb name "evidence" then x ← optional_any_map ev v; Some (MkGenIoCBodyAnomaly conf x expl kind ref)
  else if String.eqb name "explanation" then x ← optional_string expl v; Some (MkGenIoCBodyAnomaly conf ev x kind ref)
  else if String.eqb name "kind" then x ← decode_string kind v; Some (MkGenIoCBodyAnomaly conf ev expl x ref)
  else x ← decode_string ref v; Some (MkGenIoCBodyAnomaly conf ev expl kind x).

Definition decode_gen_IoCBodyAnomaly : gen_IoCBodyAnomaly → json → option gen_IoCBodyAnomaly :=
  decode_strict ["confidence"; "evidence"; "explanation"; "kind"; "packageRef"] set_gen_IoCBodyAnomaly.

Definition set_gen_PackageVersion (name : string) (p : gen_PackageVersion) (v : json) : option gen_PackageVersion :=
  let '(MkGenPackageVersion eco integ nm purl scope ver) := p in
  if String.eqb name "ecosystem" then x ← decode_string eco v; Some (MkGenPackageVersion x integ nm purl scope ver)
  else if String.eqb name "integrity" then x ← optional_string integ v; Some (MkGenPackageVersion eco x nm purl scope ver)
  else if String.eqb name "name" then x ← decode_string nm v; Some (MkGenPackageVersion eco integ x purl scope ver)
  else if String.eqb name "purl" then x ← decode_string purl v; Some (MkGenPackageVersion eco integ nm x scope ver)
  else if String.eqb name "scope" then x ← optional_strings scope v; Some (MkGenPackageVersion eco integ nm purl x ver)
  else x ← decode_string ver v; Some (MkGenPackageVersion eco integ nm purl scope x).

Definition decode_gen_PackageVersion : gen_PackageVersion → json → option gen_PackageVersion :=
  decode_strict ["ecosystem"; "integrity"; "name"; "purl"; "scope"; "version"] set_gen_PackageVersion.

Definition set_gen_Publisher (name : string) (p : gen_Publisher) (v : json) : option gen_Publisher :=
  let '(MkGenPublisher eco first last nm) := p in
  if String.eqb name "ecosystem" then x ← decode_string eco v; Some (MkGenPublisher x first last nm)
  else if String.eqb name "firstSeen" then x ← optional_time first v; Some (MkGenPublisher eco x last nm)
  else if String.eqb name "lastSeen" then x ← optional_time last v; Some (MkGenPublisher eco first x nm)
  else x ← decode_string nm v; Some (MkGenPublisher eco first last x).

Definition decode_gen_Publisher : gen_Publisher → json → option gen_Publisher :=
  decode_strict ["ecosystem"; "firstSeen"; "lastSeen"; "name"] set_gen_Publisher.

Definition set_gen_PublisherSignal (name : string) (s : gen_PublisherSignal) (v : json) : option gen_PublisherSignal :=
  let '(MkGenPublisherSignal desc at_ ev pkg pub sev ty) := s in
  if String.eqb name "description" then x ← optional_string desc v; Some (MkGenPublisherSignal x at_ ev pkg pub sev ty)
  else if String.eqb name "detectedAt" then x ← decode_time at_ v; Some (MkGenPublisherSignal desc x ev pkg pub sev ty)
  else if String.eqb name "evidence" then x ← optional_any_map ev v; Some (MkGenPublisherSignal desc at_ x pkg pub sev ty)
  else if String.eqb name "package" then
    x ← decode_pointer decode_gen_PackageVersion (MkGenPackageVersion "" None "" "" None "") pkg v;
    Some (MkGenPublisherSignal desc at_ ev x pub sev ty)
  else if String.eqb name "publisher" then x ← decode_gen_Publisher pub v; Some (MkGenPublisherSignal desc at_ ev pkg x sev ty)
  else if String.eqb name "severity" then x ← decode_string sev v; Some (MkGenPublisherSignal desc at_ ev pkg pub x ty)
  else x ← decode_string ty v; Some (MkGenPublisherSignal desc at_ ev pkg pub sev x).

Definition decode_gen_PublisherSignal : gen_PublisherSignal → json → option gen_PublisherSignal :=
  decode_strict ["description"; "detectedAt"; "evidence"; "package"; "publisher"; "severity"; "type"]
    set_gen_PublisherSignal.

Definition zero_PublisherSignal : gen_PublisherSignal :=
  MkGenPublisherSignal None 0 None None (MkGenPublisher "" None None "") "" "".

Definition set_gen_IoCPublisherAnomaly (name : string) (b : gen_IoCPublisherAnomaly) (v : json) :
    option gen_IoCPublisherAnomaly :=
  let '(MkGenIoCPublisherAnomaly nm signals) := b in
  if String.eqb name "publisherName" then x ← decode_string nm v; Some (MkGenIoCPublisherAnomaly x signals)
  else x ← decode_pointer (decode_slice decode_gen_PublisherSignal zero_PublisherSignal) [] signals v;
       Some (MkGenIoCPublisherAnomaly nm x).

Definition decode_gen_IoCPublisherAnomaly : gen_IoCPublisherAnomaly → json → option gen_IoCPublisherAnomaly :=
  decode_strict ["publisherName"; "signals"] set_gen_IoCPublisherAnomaly.

Definition set_gen_IoC (name : string) (i : gen_IoC) (v : json) : option gen_IoC :=
  let '(MkGenIoC ab desc eco id kind pr pv pub pa sev src) := i in
  if String.eqb name "anomalyBody" then
    x ← decode_pointer decode_gen_IoCBodyAnomaly (MkGenIoCBodyAnomaly "" None None "" "") ab v;
    Some (MkGenIoC x desc eco id kind pr pv pub pa sev src)
  else if String.eqb name "description" then
    x ← optional_string desc v; Some (MkGenIoC ab x eco id kind pr pv pub pa sev src)
  else if String.eqb name "ecosystem" then
    x ← decode_string eco v; Some (MkGenIoC ab desc x id kind pr pv pub pa sev src)
  else if String.eqb name "id" then
    x ← decode_string id v; Some (MkGenIoC ab desc eco x kind pr pv pub pa sev src)
  else if String.eqb name "kind" then
    x ← decode_string kind v; Some (MkGenIoC ab desc eco id x pr pv pub pa sev src)
  else if String.eqb name "packageRange" then
    x ← decode_pointer decode_gen_IoCPackageRange (MkGenIoCPackageRange "" "") pr v;
    Some (MkGenIoC ab desc eco id kind x pv pub pa sev src)
  else if String.eqb name "packageVersion" then
    x ← decode_pointer decode_gen_IoCPackageVersion (MkGenIoCPackageVersion "" "" "") pv v;
    Some (MkGenIoC ab desc eco id kind pr x pub pa sev src)
  else if String.eqb name "publishedAt" then
    x ← decode_time pub v; Some (MkGenIoC ab desc eco id kind pr pv x pa sev src)
  else if String.eqb name "publisherAnomaly" then
    x ← decode_pointer decode_gen_IoCPublisherAnomaly (MkGenIoCPublisherAnomaly "" None) pa v;
    Some (MkGenIoC ab desc eco id kind pr pv pub x sev src)
  else if String.eqb name "severity" then
    x ← decode_string sev v; Some (MkGenIoC ab desc eco id kind pr pv pub pa x src)
  else x ← optional_string src v; Some (MkGenIoC ab desc eco id kind pr pv pub pa sev x).

Definition IoC_fields : list string :=
  ["anomalyBody"; "description"; "ecosystem"; "id"; "kind"; "packageRange"; "packageVersion"; "publishedAt";
   "publisherAnomaly"; "severity"; "source"].

Definition decode_gen_IoC : gen_IoC → json → option gen_IoC := decode_strict IoC_fields set_gen_IoC.

Definition zero_IoC : gen_IoC := MkGenIoC None None "" "" "" None None 0 None "" None.

(** [BlastRadiusRequest]. *)
Definition decode_BlastRadiusRequest : list gen_IoC → json → option (list gen_IoC) :=
  decode_strict ["iocs"] (λ _, decode_slice decode_gen_IoC zero_IoC).

(** ** Incidents *)

Record IncidentTransitionRequest := MkIncidentTransitionRequest {
  itr_ActorRef : option string;
  itr_Note : option string;
  itr_To : string;
}.

Definition set_IncidentTransitionRequest (name : string) (r : IncidentTransitionRequest) (v : json) :
    option IncidentTransitionRequest :=
  let '(MkIncidentTransitionRequest actor note to_) := r in
  if String.eqb name "actorRef" then x ← optional_string actor v; Some (MkIncidentTransitionRequest x note to_)
  else if String.eqb name "note" then x ← optional_string note v; Some (MkIncidentTransitionRequest actor x to_)
  else x ← decode_string to_ v; Some (MkIncidentTransitionRequest actor note x).

Definition decode_IncidentTransitionRequest : IncidentTransitionRequest → json → option IncidentTransitionRequest :=
  decode_strict ["actorRef"; "note"; "to"] set_IncidentTransitionRequest.

Definition zero_IncidentTransitionRequest : IncidentTransitionRequest := MkIncidentTransitionRequest None None "".

Definition set_gen_Remediation (name : string) (r : gen_Remediation) (v : json) : option gen_Remediation :=
  let '(MkGenRemediation actor details at_ id inc kind) := r in
  if String.eqb name "actorRef" then x ← optional_string actor v; Some (MkGenRemediation x details at_ id inc kind)
  else if String.eqb name "details" then x ← optional_any_map details v; Some (MkGenRemediation actor x at_ id inc kind)
  else if String.eqb name "executedAt" then x ← decode_time at_ v; Some (MkGenRemediation actor details x id inc kind)
  else if String.eqb name "id" then x ← decode_string id v; Some (MkGenRemediation actor details at_ x inc kind)
  else if String.eqb name "incidentId" then x ← decode_string inc v; Some (MkGenRemediation actor details at_ id x kind)
  else x ← decode_string kind v; Some (MkGenRemediation actor details at_ id inc x).

Definition decode_gen_Remediation : gen_Remediation → json → option gen_Remediation :=
  decode_strict ["actorRef"; "details"; "executedAt"; "id"; "incidentId"; "kind"] set_gen_Remediation.

Definition zero_Remediation : gen_Remediation := MkGenRemediation None None 0 "" "" "".

(** ** Tokens *)

Record AuthTokenRequest := MkAuthTokenRequest {
  atr_Subject : string;
  atr_Scope : option string;
  atr_TtlSeconds : option Z;
}.

Definition set_AuthTokenRequest (name : string) (r : AuthTokenRequest) (v : json) : option AuthTokenRequest :=
  let '(MkAuthTokenRequest subject scope ttl) := r in
  if String.eqb name "scope" then x ← optional_string scope v; Some (MkAuthTokenRequest subject x ttl)
  else if String.eqb name "subject" then x ← decode_string subject v; Some (MkAuthTokenRequest x scope ttl)
  else x ← optional_int ttl v; Some (MkAuthTokenRequest subject scope x).

Definition decode_AuthTokenRequest : AuthTokenRequest → json → option AuthTokenRequest :=
  decode_strict ["scope"; "subject"; "ttl_seconds"] set_AuthTokenRequest.

Definition zero_AuthTokenRequest : AuthTokenRequest := MkAuthTokenRequest "" None None.
