(* ===== verification/Engine.v ===== *)
(** * The engine's effects

    A request handler reads and writes storage, reads the clock, mints
    ULIDs and publishes events. A computation is a function on the
    [World]: the store, the events published so far (in order; Bus.v says
    what a subscriber sees of them) and a tick that indexes the
    environment's answers. The environment is arbitrary: for every tick it
    says how a storage call is answered, what the clock shows and which
    ULID is minted.

    [wp] is the predicate-transformer view of a computation, with one rule
    per effect; the rules of the storage effects are derived from the
    storage laws, so that client proofs never look inside a backend. *)

From S2P Require Import Prelude GoStrings GoText Domain Storage.
From stdpp Require Import options.

Class Env := {
  call_at : nat → Call;
  ulid_make : nat → string;
}.

(** ULIDs are distinct and made of letters and digits. *)
Record ulids_ok `{Env} : Prop := {
  ulid_inj : Inj (=) (=) ulid_make;
  ulid_plain t : plain (ulid_make t) = true;
}.

Record World (St : Type) := MkWorld {
  w_store : St;
  w_events : list DomainEvent;
  w_tick : nat;
}.
Arguments MkWorld {_} _ _ _.
Arguments w_store {_} _.
Arguments w_events {_} _.
Arguments w_tick {_} _.

Definition M (St A : Type) : Type := World St → A * World St.

#[global] Instance M_ret St : MRet (M St) := λ A a w, (a, w).
#[global] Instance M_bind St : MBind (M St) := λ A B f m w, let '(a, w') := m w in f a w'.

Definition tick {St} (w : World St) : World St :=
  MkWorld (w_store w) (w_events w) (S (w_tick w)).

Section effects.
Context {St : Type} `{Env}.

(** The call the next effect is answered with. *)
Definition this_call (w : World St) : Call := call_at (w_tick w).

Definition st_read {A} (op : Call → St → result A) : M St (result A) := λ w,
  (op (this_call w) (w_store w), tick w).

Definition st_write {A} (op : Call → St → St * A) : M St A := λ w,
  let '(s', err) := op (this_call w) (w_store w) in
  (err, MkWorld s' (w_events w) (S (w_tick w))).

(** [time.Now().UTC()]. *)
Definition time_Now : M St Time := λ w, (UTC (call_now (this_call w)), tick w).

(** [ulid.Make().String()]. *)
Definition ulid_Make : M St string := λ w, (ulid_make (w_tick w), tick w).

(** [s.events.Publish(e)]. *)
Definition publish (e : DomainEvent) : M St unit := λ w,
  ((), MkWorld (w_store w) (w_events w ++ [e]) (S (w_tick w))).

(** Ranging over a map: an order of the environment's choice. *)
Definition range_order {K V} `{Countable K} (m : gmap K V) : M St (list (K * V)) := λ w,
  (@map_range (call_rt (this_call w)) _ _ _ _ m, tick w).

Definition sort_with {A} (less : A → A → bool) (l : list A) : M St (list A) := λ w,
  (@sort_slice (call_rt (this_call w)) A less l, tick w).
End effects.

(** ** Weakest preconditions *)

Definition wp {St A} (m : M St A) (Φ : A → World St → Prop) (w : World St) : Prop :=
  Φ (m w).1 (m w).2.

Section wp_rules.
Context {St : Type} `{Env}.
Implicit Types w : World St.

Lemma wp_ret {A} (a : A) Φ w : Φ a w → wp (mret a : M St A) Φ w.
Proof. done. Qed.

Lemma wp_bind {A B} (m : M St A) (f : A → M St B) Φ w :
  wp m (λ a, wp (f a) Φ) w → wp (m ≫= f) Φ w.
Proof. unfold wp, mbind, M_bind. by destruct (m w). Qed.

Lemma wp_mono {A} (m : M St A) (Φ Ψ : A → World St → Prop) w :
  wp m Φ w → (∀ a w', Φ a w' → Ψ a w') → wp m Ψ w.
Proof. unfold wp. auto. Qed.

Lemma wp_time_Now Φ w :
  Φ (UTC (call_now (this_call w))) (tick w) → wp time_Now Φ w.
Proof. done. Qed.

Lemma wp_ulid_Make Φ w : Φ (ulid_make (w_tick w)) (tick w) → wp ulid_Make Φ w.
Proof. done. Qed.

Lemma wp_publish e Φ w :
  Φ () (MkWorld (w_store w) (w_events w ++ [e]) (S (w_tick w))) → wp (publish e) Φ w.
Proof. done. Qed.

Lemma wp_range_order {K V} `{Countable K} (m : gmap K V) Φ w :
  (∀ l, l ≡ₚ map_to_list m → Φ l (tick w)) → wp (range_order m) Φ w.
Proof. intros HΦ. apply HΦ. apply map_range_perm. Qed.

Lemma wp_sort_with {A} (less : A → A → bool) l Φ w :
  (∀ l', l' ≡ₚ l → (StrictWeakOrder less → SortedBy less l') → Φ l' (tick w)) →
  wp (sort_with less l) Φ w.
Proof. intros HΦ. apply HΦ; [apply sort_slice_perm|apply sort_slice_sorted]. Qed.

Context `{UnicodeCase, !Storage St, !StorageLaws St}.

(** A read returns a value that satisfies its law, or fails. *)
Lemma wp_read {A} (ans : Prop) (op : Call → St → result A) (P : A → Prop) Φ w :
  Returns ans (op (this_call w) (w_store w)) P →
  (∀ a, P a → Φ (Ok a) (tick w)) →
  (∀ e, ¬ ans → Φ (Err e) (tick w)) →
  wp (st_read op) Φ w.
Proof. unfold wp, st_read. simpl. intros Hop HOk HErr. by destruct (op _ _); auto. Qed.

(** A lookup finds the record, or fails with a known cause. *)
Lemma wp_look {A} (ans : Prop) (op : Call → St → result A) (found : option A) Φ w :
  Looks ans (op (this_call w) (w_store w)) found →
  (∀ a, found = Some a → Φ (Ok a) (tick w)) →
  (∀ e, errors_Is e ErrNotFound = true → found = None → Φ (Err e) (tick w)) →
  (∀ e, errors_Is e ErrNotFound = false → ¬ ans → Φ (Err e) (tick w)) →
  wp (st_read op) Φ w.
Proof.
  unfold wp, st_read. simpl. intros Hop HOk HMissing HErr.
  destruct (op _ _) as [a|e]; [auto|]. destruct Hop as [HNF Hans].
  destruct (errors_Is e ErrNotFound) eqn:E; [auto|]. apply HErr; [done|].
  intros Ha. specialize (Hans Ha). congruence.
Qed.

(** A write updates the view; or it is refused and changes nothing; or it
    fails leaving the view updated or not. *)
Lemma wp_write (op : Call → St → St * option error) (upd : View → View) (accepted : Prop) Φ w :
  (let '(s', err) := op (this_call w) (w_store w) in
   Wrote (store_inv s') (answered (this_call w)) accepted (view (w_store w)) (view s') err upd) →
  (∀ s', store_inv s' → accepted → view s' = upd (view (w_store w)) →
     Φ None (MkWorld s' (w_events w) (S (w_tick w)))) →
  (∀ s' e, store_inv s' →
     (answered (this_call w) → ¬ accepted ∧ view s' = view (w_store w)) →
     view s' = upd (view (w_store w)) ∨ view s' = view (w_store w) →
     Φ (Some e) (MkWorld s' (w_events w) (S (w_tick w)))) →
  wp (st_write op) Φ w.
Proof.
  unfold wp, st_write. destruct (op _ _) as [s' err] eqn:E. simpl.
  intros [Hinv Hok Hacc Hview Href] HOk HErr. destruct err as [e|].
  - apply HErr; [done| |naive_solver]. intros Ha. split; [|by apply Href].
    intros Hac. by specialize (Hok Ha Hac).
  - apply HOk; [done|by apply Hacc|]. by destruct Hview as [?|[? ?]].
Qed.

(** The same rules for calls that are answered. *)
Lemma wp_read_ok {A} (ans : Prop) (op : Call → St → result A) (P : A → Prop) Φ w :
  Returns ans (op (this_call w) (w_store w)) P → ans →
  (∀ a, P a → Φ (Ok a) (tick w)) → wp (st_read op) Φ w.
Proof. intros Hop Hans HOk. eapply wp_read; [done|done|]. intros e Hno. by destruct (Hno Hans). Qed.

Lemma wp_look_some {A} (ans : Prop) (op : Call → St → result A) (a : A) Φ w :
  Looks ans (op (this_call w) (w_store w)) (Some a) → ans →
  Φ (Ok a) (tick w) → wp (st_read op) Φ w.
Proof.
  intros Hop Hans HOk. eapply wp_look; [done|by intros ? [= <-]|done|].
  intros e _ Hno. by destruct (Hno Hans).
Qed.

Lemma wp_look_none {A} (ans : Prop) (op : Call → St → result A) Φ w :
  Looks ans (op (this_call w) (w_store w)) None → ans →
  (∀ e, errors_Is e ErrNotFound = true → Φ (Err e) (tick w)) → wp (st_read op) Φ w.
Proof.
  intros Hop Hans HErr. eapply wp_look; [done|done|by auto|].
  intros e _ Hno. by destruct (Hno Hans).
Qed.

Lemma wp_write_ok (op : Call → St → St * option error) (upd : View → View) (accepted : Prop) Φ w :
  answered (this_call w) → accepted →
  (let '(s', err) := op (this_call w) (w_store w) in
   Wrote (store_inv s') (answered (this_call w)) accepted (view (w_store w)) (view s') err upd) →
  (∀ s', store_inv s' → view s' = upd (view (w_store w)) →
     Φ None (MkWorld s' (w_events w) (S (w_tick w)))) →
  wp (st_write op) Φ w.
Proof.
  intros Hans Hacc Hop HOk. eapply wp_write; [exact Hop|auto|].
  intros s' e _ Hno. by destruct (Hno Hans).
Qed.
End wp_rules.
