(* ===== verification/Samples.v ===== *)
(** * A concrete environment

    An executable instance of every parameter of the development: the
    reference runtime, a clock that shows the tick, distinct identifiers,
    calls that are all answered, the in-memory store. The witnesses of the
    theorems evaluate in it. *)

From S2P Require Import Prelude GoStrings GoText Domain Matcher Storage MemoryStore Engine.
From stdpp Require Import options.

Definition sample_case : UnicodeCase := {| lower_unicode s := s |}.

Fixpoint unary (n : nat) : string :=
  match n with 0 => "" | S n' => String "I"%char (unary n') end.

Lemma unary_length n : String.length (unary n) = n.
Proof. induction n as [|n IH]; simpl; congruence. Qed.

Definition sample_call (t : nat) : Call := MkCall reference_runtime None (Z.of_nat t + 100) all_executed.

Definition sample_env : Env := {|
  call_at := sample_call;
  ulid_make t := "ULID-" +:+ unary t;
|}.

Lemma sample_ulid_inj : Inj (=) (=) (@ulid_make sample_env).
Proof.
  intros n m Hnm. apply (f_equal String.length) in Hnm.
  cbn [ulid_make sample_env] in Hnm. rewrite !str_length_app, !unary_length in Hnm. lia.
Qed.

Lemma sample_ulids_ok : @ulids_ok sample_env.
Proof.
  split; [apply sample_ulid_inj|]. intros t. change (plain (unary t) = true).
  induction t as [|t IH]; [done|exact IH].
Qed.

#[export] Existing Instance sample_case.
#[export] Existing Instance sample_env.
#[export] Existing Instance exact_semver.

Definition sample_ref : string := "kind:Component/default/web".

Definition sample_component : Component :=
  MkComponent sample_ref "Component" "default" "web" "team-a" "" "" [] ∅.

(** A store with one component and its SBOM. *)
Definition sample_store : Store :=
  (Store_UpsertSBOM (sample_call 0) sample_sbom
    (Store_UpsertComponent (sample_call 0) sample_component New).1).1.

Lemma sample_store_inv : Store_inv sample_store.
Proof. apply Store_UpsertSBOM_inv, Store_UpsertComponent_inv, New_inv. Qed.

Definition sample_world : World Store := MkWorld sample_store [] 0.

Lemma sample_answered (k : nat) :
  @answered Store _ _ Store_StorageLaws (@call_at sample_env k).
Proof. done. Qed.

Lemma sample_sboms id b : sboms sample_store !! id = Some b → b = sample_sbom ∧ id = "SBOM1".
Proof. simpl. intros [[<- <-]|[_ ?]]%lookup_insert_Some; [done|]. by rewrite lookup_empty in *. Qed.
