(* ===== verification/Conformance.v ===== *)
(** * The storage conformance suite (engine/internal/storage/storagetest)

    The contract tests that every backend runs, as programs of the engine
    monad over any backend: a test that fails a requirement stops and yields
    [false]. A test starts from an empty store; closing it is left out. The
    theorem of this file is that the in-memory store passes the suite
    ([memory_test.go]) whatever the clock shows and however maps are ranged
    over and ties are sorted. *)

From S2P Require Import Prelude GoStrings GoText Json JsonEncode Domain Storage MemoryStore Engine Samples.
From stdpp Require Import options.

(** ** Requirements *)

Section suite.
Context {St : Type} `{Env, !Storage St}.

Definition require (b : bool) (k : M St bool) : M St bool := if b then k else mret false.

(** [require.NoError] on an error, and on a result. *)
Definition no_error (err : option error) (k : M St bool) : M St bool :=
  match err with None => k | Some _ => mret false end.

Definition no_error_of {A} (r : result A) (k : A → M St bool) : M St bool :=
  match r with Ok a => k a | Err _ => mret false end.

(** [require.True(t, errors.Is(err, storage.ErrNotFound))]. *)
Definition not_found {A} (r : result A) (k : M St bool) : M St bool :=
  match r with Ok _ => mret false | Err e => require (errors_Is e ErrNotFound) k end.

Definition equal {A} `{EqDecision A} (x y : A) (k : M St bool) : M St bool := require (bool_decide (x = y)) k.

Definition len {A} (l : list A) (n : nat) (k : M St bool) : M St bool := require (length l =? n)%nat k.

(** ** The tests *)

Definition bare_component (ref : string) : Component := MkComponent ref "" "" "" "" "" "" [] ∅.

Definition testComponent : M St bool :=
  let c := MkComponent "kind:Component/default/web-app" "Component" "default" "web-app" "team:platform" "" "" [] ∅ in
  err ← st_write (λ k, UpsertComponent k c); no_error err $
  got ← st_read (λ k, GetComponent k (Component_Ref c)); no_error_of got $ λ got,
  equal (Component_Ref c) (Component_Ref got) $
  let c := MkComponent "kind:Component/default/web-app" "Component" "default" "web-app" "team:security" "" "" [] ∅ in
  err ← st_write (λ k, UpsertComponent k c); no_error err $
  got ← st_read (λ k, GetComponent k (Component_Ref c)); no_error_of got $ λ got,
  equal "team:security" (Component_Owner got) $
  missing ← st_read (λ k, GetComponent k "kind:Component/default/missing"); not_found missing $
  err ← st_write (λ k, UpsertComponent k (bare_component "kind:Component/default/a")); no_error err $
  err ← st_write (λ k, UpsertComponent k (bare_component "kind:Component/default/z")); no_error err $
  list ← st_read (λ k, ListComponents k); no_error_of list $ λ list,
  len list 3 $
  equal (Some "kind:Component/default/a") (Component_Ref <$> list !! 0) $
  equal (Some "kind:Component/default/z") (Component_Ref <$> list !! 2) $
  mret true.

Definition bare_sbom (id ref ecosystem : string) (at_ : Time) (packages : list PackageVersion) : SBOM :=
  MkSBOM id ref "" ecosystem at_ packages "" 0.

Definition testSBOM : M St bool :=
  now ← time_Now;
  let ref := "kind:Component/default/web-app" in
  let s1 := bare_sbom "sbom-1" ref "npm" (Add now (-2 * Hour)) [] in
  let s2 := bare_sbom "sbom-2" ref "npm" (Add now (-1 * Hour)) [] in
  let other := bare_sbom "sbom-3" "kind:Component/default/api" "npm" now [] in
  err ← st_write (λ k, UpsertSBOM k s1); no_error err $
  err ← st_write (λ k, UpsertSBOM k s2); no_error err $
  err ← st_write (λ k, UpsertSBOM k other); no_error err $
  got ← st_read (λ k, GetSBOM k "sbom-1"); no_error_of got $ λ got,
  equal ref (SBOM_ComponentRef got) $
  byComp ← st_read (λ k, ListSBOMsByComponent k ref); no_error_of byComp $ λ byComp,
  len byComp 2 $
  equal (Some "sbom-1") (SBOM_ID <$> byComp !! 0) $
  equal (Some "sbom-2") (SBOM_ID <$> byComp !! 1) $
  missing ← st_read (λ k, GetSBOM k "missing"); not_found missing $
  mret true.

Definition testIoC : M St bool :=
  now ← time_Now;
  let i := MkIoC "ioc-1" IoCKindPackageVersion SeverityCritical "npm" "" now ""
    (Some (MkIoCPackageVersion "axios" "1.11.0" "pkg:npm/axios@1.11.0")) None None None in
  err ← st_write (λ k, UpsertIoC k i); no_error err $
  got ← st_read (λ k, GetIoC k (IoC_ID i)); no_error_of got $ λ got,
  equal SeverityCritical (IoC_Severity got) $
  equal (Some "axios") (IoCPackageVersion_Name <$> IoC_PackageVersion got) $
  list ← st_read (λ k, ListIoCs k); no_error_of list $ λ list,
  len list 1 $
  missing ← st_read (λ k, GetIoC k "missing"); not_found missing $
  mret true.

Definition testIncident : M St bool :=
  now ← time_Now;
  let inc := MkIncident "inc-1" "ioc-1" StatePending now now ["kind:Component/default/web"] [] in
  err ← st_write (λ k, UpsertIncident k inc); no_error err $
  got ← st_read (λ k, GetIncident k (Incident_ID inc)); no_error_of got $ λ got,
  equal StatePending (Incident_State got) $
  let '(got, err) := Transition got StateTriaged (Add now Minute) in no_error err $
  err ← st_write (λ k, UpsertIncident k got); no_error err $
  got ← st_read (λ k, GetIncident k (Incident_ID inc)); no_error_of got $ λ got,
  equal StateTriaged (Incident_State got) $
  equal ["kind:Component/default/web"] (Incident_AffectedComponentsSnapshot got) $
  missing ← st_read (λ k, GetIncident k "missing"); not_found missing $
  mret true.

Definition testRemediation : M St bool :=
  now ← time_Now;
  let inc := MkIncident "inc-2" "ioc-2" StatePending now now [] [] in
  err ← st_write (λ k, UpsertIncident k inc); no_error err $
  let r1 := MkRemediation "r1" "inc-2" RemediationNotify now "user:alice" ∅ in
  err ← st_write (λ k, AppendRemediation k "inc-2" r1); no_error err $
  let r2 := MkRemediation "r2" "inc-2" RemediationPinVersion (Add now Minute) "user:bob" ∅ in
  err ← st_write (λ k, AppendRemediation k "inc-2" r2); no_error err $
  rs ← st_read (λ k, ListRemediations k "inc-2"); no_error_of rs $ λ rs,
  len rs 2 $
  equal (Some "r1") (Remediation_ID <$> rs !! 0) $
  equal (Some "r2") (Remediation_ID <$> rs !! 1) $
  got ← st_read (λ k, GetIncident k "inc-2"); no_error_of got $ λ got,
  len (Incident_Remediations got) 2 $
  missing ← st_read (λ k, ListRemediations k "missing"); not_found missing $
  err ← st_write (λ k, AppendRemediation k "missing" r1);
  require (if err is Some e then errors_Is e ErrNotFound else false) $
  mret true.

Definition bare_publisher (ecosystem name : string) : Publisher := MkPublisher ecosystem name 0 0.

Definition testPublisher : M St bool :=
  now ← time_Now;
  let p := MkPublisher "npm" "axios-maintainer" (Add now (-365 * 24 * Hour)) now in
  err ← st_write (λ k, UpsertPublisher k p); no_error err $
  got ← st_read (λ k, GetPublisher k "npm" "axios-maintainer"); no_error_of got $ λ got,
  equal (Publisher_Ecosystem p) (Publisher_Ecosystem got) $
  equal (Publisher_Name p) (Publisher_Name got) $
  let profile := MkPublisherProfile p 5 100 2 false true ["legit@example.com"] None in
  err ← st_write (λ k, UpsertPublisherProfile k profile); no_error err $
  gotProfile ← st_read (λ k, GetPublisherProfile k "npm" "axios-maintainer"); no_error_of gotProfile $ λ gotProfile,
  equal 5%Z (PublisherProfile_PackageCount gotProfile) $
  equal ["legit@example.com"] (PublisherProfile_MaintainerEmails gotProfile) $
  err ← st_write (λ k, UpsertPublisher k (bare_publisher "npm" "z-dev")); no_error err $
  err ← st_write (λ k, UpsertPublisher k (bare_publisher "pypi" "py-dev")); no_error err $
  npmList ← st_read (λ k, ListPublishers k "npm"); no_error_of npmList $ λ npmList,
  len npmList 2 $
  pypiList ← st_read (λ k, ListPublishers k "pypi"); no_error_of pypiList $ λ pypiList,
  len pypiList 1 $
  missing ← st_read (λ k, GetPublisher k "npm" "missing"); not_found missing $
  missing ← st_read (λ k, GetPublisherProfile k "npm" "missing"); not_found missing $
  mret true.

Definition quoted_document : string :=
  "{" +:+ quote "name" +:+ ":" +:+ quote "axios" +:+ "}".

Definition testPublisherSnapshot : M St bool :=
  now ← time_Now;
  let older := Add now (-2 * Hour) in
  let older2 := Add now (-90 * Minute) in
  let pubAt := Add now (-30 * 24 * Hour) in
  let url := "https://github.com/axios/axios" in
  let snap at_ version method := MkPublisherSnapshot 0 "npm:axios" at_
    [MkMaintainer "a@example.com" "Maintainer A" "maint-a"] version (Some pubAt) method (Some url) quoted_document in
  let axiosOlder := snap older "1.10.0" "token" in
  let axiosNewer := snap now "1.11.0" "oidc-trusted-publisher" in
  err ← st_write (λ k, SavePublisherSnapshot k axiosOlder); no_error err $
  err ← st_write (λ k, SavePublisherSnapshot k axiosNewer); no_error err $
  hist ← st_read (λ k, GetPublisherHistory k "npm:axios" 0); no_error_of hist $ λ hist,
  len hist 2 $
  match hist with
  | h0 :: h1 :: _ =>
      require (After (PublisherSnapshot_SnapshotAt h0) (PublisherSnapshot_SnapshotAt h1)) $
      equal "1.11.0" (PublisherSnapshot_LatestVersion h0) $
      equal "oidc-trusted-publisher" (PublisherSnapshot_PublishMethod h0) $
      equal (Some "Maintainer A") (Maintainer_Name <$> PublisherSnapshot_Maintainers h0 !! 0) $
      equal (Some url) (PublisherSnapshot_SourceRepoURL h0) $
      require (negb (PublisherSnapshot_ID h0 =? 0)%Z) $
      require (negb (PublisherSnapshot_ID h0 =? PublisherSnapshot_ID h1)%Z) $
      limited ← st_read (λ k, GetPublisherHistory k "npm:axios" 1); no_error_of limited $ λ limited,
      len limited 1 $
      equal (Some "1.11.0") (PublisherSnapshot_LatestVersion <$> limited !! 0) $
      miss ← st_read (λ k, GetPublisherHistory k "npm:unknown-pkg" 0); no_error_of miss $ λ miss,
      len miss 0 $
      let cargoSnap := MkPublisherSnapshot 0 "cargo:tokio" now [] "" None "" None "" in
      err ← st_write (λ k, SavePublisherSnapshot k cargoSnap); no_error err $
      stale ← st_read (λ k, ListPackagesNeedingRefresh k older2 0); no_error_of stale $ λ stale,
      len stale 0 $
      stale2 ← st_read (λ k, ListPackagesNeedingRefresh k (Add now Minute) 0); no_error_of stale2 $ λ stale2,
      len stale2 2 $
      stale3 ← st_read (λ k, ListPackagesNeedingRefresh k (Add now Minute) 1); no_error_of stale3 $ λ stale3,
      len stale3 1 $
      mret true
  | _ => mret false
  end.

(** [Time.Truncate]. *)
Definition Truncate (t : Time) (d : Duration) : Time := (t - t mod d)%Z.

Definition Microsecond : Duration := 1000%Z.

Definition any_anomaly : AnomalyFilter := MkAnomalyFilter "" "" None None 0.

Definition testAnomaly : M St bool :=
  now ← time_Now;
  let now := Truncate now Microsecond in
  let earlier := Add now (-2 * Hour) in
  let a1 := MkAnomaly 0 AnomalyKindMaintainerEmailDrift "npm:axios" now ConfidenceHigh
    "new maintainer email registered 3h before publish"
    (<["new_email" := AString "x@bad.io"]> (<["publish_age_hours" := AFloat "3"]> ∅)) in
  let a2 := MkAnomaly 0 AnomalyKindOIDCPublishingRegression "npm:axios" earlier ConfidenceMedium
    "publish_method went OIDC → token" ∅ in
  let a3 := MkAnomaly 0 AnomalyKindVersionJump "npm:left-pad" now ConfidenceLow ""
    (<["old_major" := AFloat "1"]> (<["new_major" := AFloat "99"]> ∅)) in
  id1 ← st_write (λ k, SaveAnomaly k a1); no_error_of id1 $ λ id1,
  require (negb (id1 =? 0)%Z) $
  id2 ← st_write (λ k, SaveAnomaly k a2); no_error_of id2 $ λ id2,
  require (negb (id1 =? id2)%Z) $
  id3 ← st_write (λ k, SaveAnomaly k a3); no_error_of id3 $ λ id3,
  id1again ← st_write (λ k, SaveAnomaly k a1); no_error_of id1again $ λ id1again,
  equal id1 id1again $
  got ← st_read (λ k, GetAnomaly k id1); no_error_of got $ λ got,
  equal AnomalyKindMaintainerEmailDrift (Anomaly_Kind got) $
  equal "npm:axios" (Anomaly_PackageRef got) $
  equal ConfidenceHigh (Anomaly_Confidence got) $
  require (if Anomaly_Evidence got !! "new_email" is Some (AString s) then String.eqb s "x@bad.io" else false) $
  missing ← st_read (λ k, GetAnomaly k 999999); not_found missing $
  all ← st_read (λ k, ListAnomalies k any_anomaly); no_error_of all $ λ all,
  len all 3 $
  require (match all with a :: b :: _ => negb (Before (Anomaly_DetectedAt a) (Anomaly_DetectedAt b)) | _ => false end) $
  axiosOnly ← st_read (λ k, ListAnomalies k (MkAnomalyFilter "npm:axios" "" None None 0)); no_error_of axiosOnly $ λ axiosOnly,
  len axiosOnly 2 $
  require (forallb (λ a, String.eqb (Anomaly_PackageRef a) "npm:axios") axiosOnly) $
  regressionOnly ← st_read (λ k, ListAnomalies k (MkAnomalyFilter "" AnomalyKindOIDCPublishingRegression None None 0));
  no_error_of regressionOnly $ λ regressionOnly,
  len regressionOnly 1 $
  equal (Some id2) (Anomaly_ID <$> regressionOnly !! 0) $
  let window := Add now (-1 * Minute) in
  recent ← st_read (λ k, ListAnomalies k (MkAnomalyFilter "" "" (Some window) None 0)); no_error_of recent $ λ recent,
  len recent 2 $
  require (forallb (λ a, negb (Before (Anomaly_DetectedAt a) window)) recent) $
  limited ← st_read (λ k, ListAnomalies k (MkAnomalyFilter "" "" None None 1)); no_error_of limited $ λ limited,
  len limited 1 $
  mret true.

Definition owned_component (name owner : string) : Component :=
  MkComponent ("kind:Component/default/" +:+ name) "Component" "default" name owner "" "" [] ∅.

Definition version_ioc (id severity ecosystem name version : string) (at_ : Time) : IoC :=
  MkIoC id IoCKindPackageVersion severity ecosystem "test" at_ "" (Some (MkIoCPackageVersion name version "")) None None None.

Definition mkInc (id iocID state : string) (opened : Time) (snapshot : list string) (k : M St bool) : M St bool :=
  err ← st_write (λ c, UpsertIncident c (MkIncident id iocID state opened opened snapshot [])); no_error err k.

Definition any_incident : IncidentFilter := MkIncidentFilter [] [] None None "" "" 0.

Definition testIncidentFilter : M St bool :=
  now ← time_Now;
  let now := Truncate now Microsecond in
  err ← st_write (λ k, UpsertComponent k (owned_component "billing" "team-payments")); no_error err $
  err ← st_write (λ k, UpsertComponent k (owned_component "web-app" "team-platform")); no_error err $
  err ← st_write (λ k, UpsertComponent k (owned_component "reporting" "team-data")); no_error err $
  err ← st_write (λ k, UpsertIoC k (version_ioc "ioc-npm" SeverityHigh "npm" "axios" "1.11.0" now)); no_error err $
  err ← st_write (λ k, UpsertIoC k (version_ioc "ioc-gomod" SeverityCritical "gomod" "github.com/spf13/cobra" "1.8.0" now));
  no_error err $
  mkInc "inc-A-pending-old" "ioc-npm" StatePending (Add now (-3 * Hour)) ["kind:Component/default/billing"] $
  mkInc "inc-B-triaged-mid" "ioc-npm" StateTriaged (Add now (-90 * Minute)) ["kind:Component/default/web-app"] $
  mkInc "inc-C-pending-recent" "ioc-gomod" StatePending (Add now (-30 * Minute)) ["kind:Component/default/reporting"] $
  all ← st_read (λ k, ListIncidentsFiltered k any_incident); no_error_of all $ λ all,
  len all 3 $
  equal (Some "inc-C-pending-recent") (Incident_ID <$> all !! 0) $
  statePending ← st_read (λ k, ListIncidentsFiltered k (MkIncidentFilter [StatePending] [] None None "" "" 0));
  no_error_of statePending $ λ statePending,
  len statePending 2 $
  gomodOnly ← st_read (λ k, ListIncidentsFiltered k (MkIncidentFilter [] ["gomod"] None None "" "" 0));
  no_error_of gomodOnly $ λ gomodOnly,
  len gomodOnly 1 $
  equal (Some "inc-C-pending-recent") (Incident_ID <$> gomodOnly !! 0) $
  let from := Add now (-2 * Hour) in
  since2h ← st_read (λ k, ListIncidentsFiltered k (MkIncidentFilter [] [] (Some from) None "" "" 0));
  no_error_of since2h $ λ since2h,
  len since2h 2 $
  searchGomod ← st_read (λ k, ListIncidentsFiltered k (MkIncidentFilter [] [] None None "gomod" "" 0));
  no_error_of searchGomod $ λ searchGomod,
  len searchGomod 1 $
  teamPlatform ← st_read (λ k, ListIncidentsFiltered k (MkIncidentFilter [] [] None None "" "team-platform" 0));
  no_error_of teamPlatform $ λ teamPlatform,
  len teamPlatform 1 $
  equal (Some "inc-B-triaged-mid") (Incident_ID <$> teamPlatform !! 0) $
  limited ← st_read (λ k, ListIncidentsFiltered k (MkIncidentFilter [] [] None None "" "" 1));
  no_error_of limited $ λ limited,
  len limited 1 $
  mret true.

Definition bare_package (ecosystem name version : string) : PackageVersion := MkPackageVersion ecosystem name version "" [] "".

Definition testListSBOMPackages : M St bool :=
  now ← time_Now;
  let webRef := "kind:Component/default/web-app" in
  let apiRef := "kind:Component/default/api" in
  err ← st_write (λ k, UpsertSBOM k (bare_sbom "sbom-web" webRef "npm" now
    [bare_package "npm" "axios" "1.11.0"; bare_package "npm" "lodash" "4.17.21"])); no_error err $
  err ← st_write (λ k, UpsertSBOM k (bare_sbom "sbom-api" apiRef "npm" now
    [bare_package "npm" "axios" "1.10.0"])); no_error err $
  err ← st_write (λ k, UpsertSBOM k (bare_sbom "sbom-api-go" apiRef "gomod" now
    [bare_package "gomod" "axios" "1.11.0"])); no_error err $
  got ← st_read (λ k, ListSBOMPackages k "npm" "axios"); no_error_of got $ λ got,
  len got 2 $
  require (bool_decide ([webRef; apiRef] ≡ₚ SBOMPackageRef_ComponentRef <$> got)) $
  require (forallb (λ r, String.eqb "npm" (PackageVersion_Ecosystem (SBOMPackageRef_Package r)) &&
                         String.eqb "axios" (PackageVersion_Name (SBOMPackageRef_Package r))) got) $
  miss ← st_read (λ k, ListSBOMPackages k "npm" "no-such-package"); no_error_of miss $ λ miss,
  len miss 0 $
  mret true.

Definition testMatchedComponentRefsByIoC : M St bool :=
  now ← time_Now;
  let webRef := "kind:Component/default/web-app" in
  let apiRef := "kind:Component/default/api" in
  let billingRef := "kind:Component/default/billing" in
  mkInc "inc-1" "ioc-axios" StatePending now [webRef] $
  mkInc "inc-2" "ioc-axios" StateClosed now [apiRef] $
  mkInc "inc-3" "ioc-other" StatePending now [billingRef] $
  got ← st_read (λ k, MatchedComponentRefsByIoC k "ioc-axios"); no_error_of got $ λ got,
  equal [apiRef; webRef] got $
  miss ← st_read (λ k, MatchedComponentRefsByIoC k "ioc-never-seen"); no_error_of miss $ λ miss,
  len miss 0 $
  mret true.

(** ** The suite *)

Definition suite : list (string * M St bool) := [
  ("Component", testComponent); ("SBOM", testSBOM); ("IoC", testIoC); ("Incident", testIncident);
  ("Remediation", testRemediation); ("Publisher", testPublisher); ("PublisherSnapshot", testPublisherSnapshot);
  ("Anomaly", testAnomaly); ("IncidentFilter", testIncidentFilter); ("ListSBOMPackages", testListSBOMPackages);
  ("MatchedComponentRefsByIoC", testMatchedComponentRefsByIoC)].

(** [Run]: every test on a store of its own; the names of those that failed. *)
Fixpoint run_tests (newStore : St) (tests : list (string * M St bool)) (n : nat) : list string :=
  match tests with
  | [] => []
  | (name, test) :: tests' =>
      let '(ok, w) := test (MkWorld newStore [] n) in
      (if ok then [] else [name]) ++ run_tests newStore tests' (w_tick w)
  end.

Definition Run (newStore : St) : list string := run_tests newStore suite 0.
End suite.

(** * The in-memory store passes *)

(** ** Lists that are determined *)

Lemma sorted_is {A} (less : A → A → bool) `{!StrictWeakOrder less} l l' :
  StronglySorted (λ x y, less x y = true) l' → l ≡ₚ l' → SortedBy less l → l = l'.
Proof.
  intros Hs Hp Hl. apply (SortedBy_unique less); [|done| |done].
  - assert (∀ x y, x ∈ l' → y ∈ l' → less x y = false → less y x = false → x = y) as Hties.
    { clear Hp Hl. induction Hs as [|a l' _ IH Hall]; [set_solver|]. rewrite Forall_forall in Hall.
      intros x y [->|Hx]%elem_of_cons [->|Hy]%elem_of_cons ? ?; [done|apply Hall in Hy; congruence|
        apply Hall in Hx; congruence|by apply IH]. }
    intros x y. rewrite Hp. apply Hties.
  - assert (Sorted (λ x y, less y x = false) l'); [|done].
    clear Hp. apply StronglySorted_Sorted in Hs. induction Hs as [|a l' Hs IH Ha]; [constructor|].
    constructor; [done|]. destruct Ha; constructor. by apply swo_asym.
Qed.
Section passes.
Context `{UnicodeCase, Env}.

(** Calls that are answered, by a clock that is past the first hours of the
    year 1. *)
Record quiet : Prop := {
  q_answered n : call_err (call_at n) = None;
  q_clock n : (3 * Hour < call_now (call_at n))%Z;
}.
Context (Hquiet : quiet).

(** The test passes from the store [s]. *)
Definition Runs (s : Store) (m : M Store bool) : Prop :=
  Store_inv s → ∀ n, wp m (λ ok _, ok = true) (MkWorld s [] n).

Lemma Runs_ret s : Runs s (mret true).
Proof. by intros _ n. Qed.

Lemma Runs_now s f : (∀ now, (3 * Hour < now)%Z → Runs s (f now)) → Runs s (time_Now ≫= f).
Proof using Hquiet. intros Hf Hs n. apply wp_bind, wp_time_Now, Hf, Hs. apply q_clock, Hquiet. Qed.

Lemma Runs_write {A} (op : Call → Store → Store * A) s s' (x : A) f :
  (∀ k, call_err k = None → op k s = (s', x)) → (∀ k, Store_inv s → Store_inv (op k s).1) →
  Runs s' (f x) → Runs s (st_write op ≫= f).
Proof using Hquiet.
  intros Hop Hinv Hf Hs n. apply wp_bind. unfold wp, st_write. cbn [w_store w_events w_tick].
  change (this_call (MkWorld s [] n)) with (call_at n).
  specialize (Hop (call_at n) (q_answered Hquiet n)). specialize (Hinv (call_at n) Hs).
  rewrite Hop in Hinv |- *. by apply Hf.
Qed.

Lemma Runs_read {A} (op : Call → Store → result A) s (P : A → Prop) f :
  (∀ k, Store_inv s → Returns (call_err k = None) (op k s) P) → (∀ a, P a → Runs s (f (Ok a))) →
  Runs s (st_read op ≫= f).
Proof using Hquiet.
  intros Hop Hf Hs n. apply wp_bind. eapply wp_read_ok; [by apply Hop|apply (q_answered Hquiet n)|].
  intros a Ha. by apply (Hf a Ha Hs).
Qed.

Lemma Runs_look {A} (op : Call → Store → result A) s r f :
  (∀ k, call_err k = None → op k s = r) → Runs s (f r) → Runs s (st_read op ≫= f).
Proof using Hquiet.
  intros Hop Hf Hs n. apply wp_bind. unfold wp, st_read. cbn [fst snd w_store].
  change (this_call (MkWorld s [] n)) with (call_at n).
  rewrite (Hop _ (q_answered Hquiet n)). by apply (Hf Hs).
Qed.

End passes.

(** ** Running a test *)

Lemma Runs_require `{UnicodeCase} s b k : b = true → Runs s k → Runs s (require b k).
Proof. by intros ->. Qed.

Lemma Runs_equal `{UnicodeCase} {A} `{EqDecision A} s (x y : A) k : x = y → Runs s k → Runs s (equal x y k).
Proof. intros Hx Hk. apply Runs_require; [by apply bool_decide_eq_true|done]. Qed.

Lemma Runs_len `{UnicodeCase} {A} s (l : list A) n k : length l = n → Runs s k → Runs s (len l n k).
Proof. intros Hl Hk. apply Runs_require; [by apply Nat.eqb_eq|done]. Qed.

(** What an operation makes of an explicit store, when the call is answered. *)
Ltac store_step :=
  let rt := fresh "rt" in let ce := fresh "ce" in let nw := fresh "nw" in let db := fresh "db" in
  let Hk := fresh "Hk" in
  intros [rt ce nw db] Hk; cbn [call_err] in Hk; subst ce;
  match goal with |- ?l = _ => let v := eval hnf in l in change l with v end;
  cbv [MemoryStore.ret ctx_Err call_err fmap option_fmap option_map];
  cbn [components sboms iocs incidents publishers profiles publisherHistory nextSnapshotID anomalies anomalyDedup
       nextAnomalyID New Component_Ref SBOM_ID IoC_ID Incident_ID Publisher_Ecosystem Publisher_Name
       PublisherProfile_Publisher PublisherSnapshot_PackageRef Incident_IoCID Incident_State Incident_OpenedAt
       Incident_LastTransitionedAt Incident_AffectedComponentsSnapshot Incident_Remediations app]; reflexivity.

Ltac write_with inv := eapply Runs_write; [done|store_step|intros; by apply inv|]; cbn [no_error].

Ltac look :=
  eapply Runs_look; [done|store_step|];
  match goal with |- context [?m !! ?k] =>
    let v := eval vm_compute in (m !! k) in replace (m !! k) with v by (vm_compute; reflexivity) end;
  cbn [no_error_of not_found].

Ltac comparison := apply bool_decide_eq_true; cbn; unfold UTC in *; lia.

Ltac passed :=
  lazymatch goal with
  | |- Runs _ (mret true) => apply Runs_ret
  | |- Runs _ (equal _ _ _) => apply Runs_equal; [reflexivity|passed]
  | |- Runs _ (require _ _) => try (apply Runs_require; [first [reflexivity|comparison]|passed])
  | |- Runs _ (len _ _ _) => apply Runs_len; [reflexivity|passed]
  | |- _ => idtac
  end.

Lemma Returns_answered {A} (ans ans' : Prop) (r : result A) P : Returns ans r P → (ans' → ans) → Returns ans' r P.
Proof. destruct r; simpl; tauto. Qed.

(** A read whose result satisfies a law of the contract. *)
Ltac read_by law :=
  eapply Runs_read;
  [done
  |let k := fresh "k" in let Hs := fresh "Hs" in intros k Hs; eapply Returns_answered;
   [first [apply (law k _ Hs)|apply (law k _ _ Hs)|apply law]|done]
  |]; cbn [no_error_of].

(** The records of an explicit map. *)
Ltac compute_values H :=
  match type of H with context [values ?m] =>
    let v := eval vm_compute in (values m) in replace (values m) with v in H by (vm_compute; reflexivity) end.

Ltac compute_filter H :=
  match type of H with context [@filter ?A ?B ?i ?P ?d ?l] =>
    let v := eval vm_compute in (@filter A B i P d l) in
    replace (@filter A B i P d l) with v in H by (vm_compute; reflexivity) end.

Ltac packages_read Hwf :=
  eapply Runs_read;
  [done
  |let k := fresh "k" in let Hs := fresh "Hs" in intros k Hs; eapply Returns_answered;
   [apply (ListSBOMPackages_law (St := Store) k); [exact Hs|exact Hwf]|done]
  |]; cbn [no_error_of].

Ltac compute_rows H :=
  match type of H with _ ≡ₚ ?rows =>
    let v := eval vm_compute in rows in replace rows with v in H by (vm_compute; reflexivity) end.

Ltac stored_incidents H :=
  match type of H with context [v_incidents (view ?s)] =>
    let m := eval cbv [v_incidents view Store_StorageLaws Store_view incidents] in (v_incidents (view s)) in change (v_incidents (view s)) with m in H end.

(** The entries of an explicit map, one goal each. *)
Ltac explicit_lookup H :=
  lazymatch type of H with
  | <[_:=_]> _ !! _ = Some _ =>
      apply lookup_insert_Some in H as [[_ <-]|[_ H]]; [|explicit_lookup H]
  | _ => by apply lookup_empty_Some in H
  end.

(** Two explicit lists with the same elements. *)
Ltac perm :=
  lazymatch goal with
  | |- [] ≡ₚ [] => reflexivity
  | |- ?a :: ?l ≡ₚ ?r =>
      first
        [ apply perm_skip
        | lazymatch r with ?b :: _ :: ?r' => change (a :: l ≡ₚ [b] ++ a :: r'); apply Permutation_cons_app end
        | lazymatch r with ?b :: ?c :: _ :: ?r' => change (a :: l ≡ₚ [b; c] ++ a :: r'); apply Permutation_cons_app end ];
      cbn [app]; perm
  end.

Ltac strictly_sorted :=
  lazymatch goal with
  | |- StronglySorted _ [] => apply SSorted_nil
  | |- StronglySorted _ (_ :: _) =>
      apply SSorted_cons;
      [strictly_sorted|repeat (apply List.Forall_cons; [first [reflexivity|by apply bool_decide_eq_true|comparison]|]); apply List.Forall_nil]
  end.

(** A listing in its order. *)
Ltac determined swo l' Hp Hs :=
  lazymatch type of Hs with SortedBy _ ?l =>
    let E := fresh in
    assert (l = l') as E by (refine (@sorted_is _ _ swo l l' _ _ Hs); [strictly_sorted|rewrite Hp; perm]);
    subst l
  end.

(** ** Listings of the store *)

Lemma cut_perm {A} limit (l l' : list A) : l ≡ₚ l' → length (cut limit l) = length (cut limit l').
Proof.
  intros Hl%Permutation_length. unfold cut. rewrite Hl. destruct (_ && _); [|done]. by rewrite !length_take, Hl.
Qed.

Lemma GetPublisherHistory_is k ref limit s all l :
  call_err k = None → publisherHistory s !! ref = Some all →
  StronglySorted (λ x y, After (PublisherSnapshot_SnapshotAt x) (PublisherSnapshot_SnapshotAt y) = true) l →
  all ≡ₚ l → Store_GetPublisherHistory k ref limit s = Ok (cut limit l).
Proof.
  intros Hk Hall Hl Hp. unfold Store_GetPublisherHistory. rewrite Hall.
  set (less := λ x y, After (PublisherSnapshot_SnapshotAt x) (PublisherSnapshot_SnapshotAt y)).
  assert (sortSlice k less all = l) as ->.
  { pose proof (greater_by_Z_swo PublisherSnapshot_SnapshotAt) as Hswo.
    apply (sorted_is less); [done|by rewrite sortSlice_perm|by apply sortSlice_sorted]. }
  unfold MemoryStore.ret, ctx_Err. by rewrite Hk.
Qed.

Lemma GetPublisherHistory_unknown k ref limit s :
  call_err k = None → publisherHistory s !! ref = None → Store_GetPublisherHistory k ref limit s = Ok [].
Proof. intros Hk Hnone. unfold Store_GetPublisherHistory, MemoryStore.ret, ctx_Err. by rewrite Hnone, Hk. Qed.

Lemma staleCandidates_perm olderThan l l' : l ≡ₚ l' → staleCandidates olderThan l ≡ₚ staleCandidates olderThan l'.
Proof.
  induction 1 as [|[ref [|sn hist]] l l' _ IH|[r1 [|s1 h1]] [r2 [|s2 h2]] l|l1 l2 l3 _ IH1 _ IH2];
    simpl; repeat case_match; try done; [by rewrite IH|by apply perm_swap|by rewrite IH1].
Qed.

Lemma ListPackagesNeedingRefresh_length k olderThan limit s :
  call_err k = None →
  ∃ refs, Store_ListPackagesNeedingRefresh k olderThan limit s = Ok refs ∧
    length refs = length (cut limit (staleCandidates olderThan (map_to_list (publisherHistory s)))).
Proof.
  intros Hk. unfold Store_ListPackagesNeedingRefresh, MemoryStore.ret, ctx_Err. rewrite Hk. eexists. split; [done|].
  rewrite takeRefs_limited by (simpl; lia). cbn [app]. rewrite <- cut_limited.
  assert (∀ {A B} (g : A → B) l, length (cut limit (g <$> l)) = length (cut limit l)) as Hmap.
  { intros A B g l. unfold cut. rewrite length_fmap. destruct (_ && _); [by rewrite !length_take, length_fmap|apply length_fmap]. }
  rewrite Hmap. apply cut_perm. rewrite sortSlice_perm. apply staleCandidates_perm, (@map_range_perm (call_rt k)).
Qed.

Ltac write_snapshot H :=
  eapply Runs_write;
  [done
  |let Hk := fresh "Hk" in intros k Hk;
   cbn [SavePublisherSnapshot Store_Storage]; unfold Store_SavePublisherSnapshot, ctx_Err, IsZero;
   cbn [PublisherSnapshot_SnapshotAt]; rewrite (bool_decide_false _ H), Hk; cbn; reflexivity
  |intros; by apply Store_SavePublisherSnapshot_inv|]; cbn [no_error].

Ltac read_history limit all l :=
  eapply (Runs_look ltac:(eassumption) _ _ (Ok (cut limit l)));
  [let k := fresh "k" in let Hk := fresh "Hk" in intros k Hk;
   apply (GetPublisherHistory_is k _ _ _ all l Hk); [vm_compute; reflexivity|strictly_sorted|perm]
  |]; cbn [no_error_of]; let v := eval vm_compute in (cut limit l) in change (cut limit l) with v.

Lemma ListIncidentsFiltered_is `{UnicodeCase} k f s l :
  call_err k = None →
  StronglySorted (λ x y, After (Incident_OpenedAt x) (Incident_OpenedAt y) = true) l →
  filter (λ inc, matchesIndexedFilter inc f && (matchesEcosystemFilter inc f (iocs s) && matchesSearchFilter inc f
    && matchesOwnerFilter inc f (components s)) = true) (values (incidents s)) ≡ₚ l →
  Store_ListIncidentsFiltered k f s = Ok (cut (IncidentFilter_Limit f) l).
Proof.
  intros Hk Hl Hp. unfold Store_ListIncidentsFiltered, MemoryStore.ret, ctx_Err. rewrite Hk. do 2 f_equal.
  pose proof (greater_by_Z_swo Incident_OpenedAt) as Hswo.
  apply (@sorted_is _ _ Hswo _ l); [done| |by apply sortSlice_sorted].
  rewrite sortSlice_perm, <- Hp, range_filter_perm, list_filter_filter.
  erewrite list_filter_iff; [done|]. intros inc. cbv beta. rewrite (andb_true_iff (matchesIndexedFilter inc f)). tauto.
Qed.

Lemma SaveAnomaly_new k a s :
  call_err k = None → Anomaly_DetectedAt a ≠ 0%Z →
  anomalyDedup s !! MkAnomalyDedupKey (Anomaly_Kind a) (Anomaly_PackageRef a) (Anomaly_DetectedAt a) = None →
  Store_SaveAnomaly k a s =
    let id := (nextAnomalyID s + 1)%Z in
    (MkStore (components s) (sboms s) (iocs s) (incidents s) (publishers s) (profiles s) (publisherHistory s)
       (nextSnapshotID s)
       (<[id := MkAnomaly id (Anomaly_Kind a) (Anomaly_PackageRef a) (Anomaly_DetectedAt a) (Anomaly_Confidence a)
                  (Anomaly_Explanation a) (Anomaly_Evidence a)]> (anomalies s))
       (<[MkAnomalyDedupKey (Anomaly_Kind a) (Anomaly_PackageRef a) (Anomaly_DetectedAt a) := id]> (anomalyDedup s)) id,
     Ok id).
Proof.
  intros Hk Ht Hnew. unfold Store_SaveAnomaly, MemoryStore.ret, ctx_Err, IsZero, UTC.
  by rewrite (bool_decide_false _ Ht), Hnew, Hk.
Qed.

Lemma SaveAnomaly_again k a s id :
  call_err k = None → Anomaly_DetectedAt a ≠ 0%Z →
  anomalyDedup s !! MkAnomalyDedupKey (Anomaly_Kind a) (Anomaly_PackageRef a) (Anomaly_DetectedAt a) = Some id →
  Store_SaveAnomaly k a s = (s, Ok id).
Proof.
  intros Hk Ht Hknown. unfold Store_SaveAnomaly, MemoryStore.ret, ctx_Err, IsZero, UTC.
  by rewrite (bool_decide_false _ Ht), Hknown, Hk.
Qed.

Lemma Runs_anomalies `{UnicodeCase, Env} s f rows g :
  quiet → filter (λ a, anomalyPasses f a = true) (values (anomalies s)) ≡ₚ rows →
  (∀ full, full ≡ₚ rows → SortedBy (λ x y, After (Anomaly_DetectedAt x) (Anomaly_DetectedAt y)) full →
     Runs s (g (Ok (cut (AnomalyFilter_Limit f) full)))) →
  Runs s (st_read (λ k, ListAnomalies k f) ≫= g).
Proof.
  intros Hquiet Hrows Hg.
  apply (Runs_read Hquiet _ _ (λ l, ∃ full, full ≡ₚ rows ∧
    SortedBy (λ x y, After (Anomaly_DetectedAt x) (Anomaly_DetectedAt y)) full ∧
    l = cut (AnomalyFilter_Limit f) full)); [|intros l (full & Hp & Hs & ->); by apply Hg].
  intros k _. cbn [ListAnomalies Store_Storage]. unfold Store_ListAnomalies, MemoryStore.ret, ctx_Err.
  destruct (call_err k) eqn:Hk; simpl; [congruence|]. eexists. split_and!; [| |done].
  - by rewrite sortSlice_perm, range_filter_perm.
  - apply sortSlice_sorted, greater_by_Z_swo.
Qed.

Lemma newest_two {A} (at_ : A → Time) x y l :
  SortedBy (λ x y, After (at_ x) (at_ y)) (x :: y :: l) → negb (Before (at_ x) (at_ y)) = true.
Proof.
  intros Hs. apply Sorted_inv in Hs as [_ Hs]. apply HdRel_inv in Hs. apply negb_true_iff. exact Hs.
Qed.

Lemma forallb_perm {A} (p : A → bool) l l' : l ≡ₚ l' → forallb p l' = true → forallb p l = true.
Proof. intros Hl. rewrite <- !Is_true_true, !forallb_True. by rewrite Hl. Qed.

(** A refresh lists [n] packages; the comparisons of times are arithmetic. *)
Lemma Runs_stale `{UnicodeCase, Env} s olderThan limit n f :
  quiet →
  length (cut limit (staleCandidates olderThan (map_to_list (publisherHistory s)))) = n →
  (∀ refs, length refs = n → Runs s (f (Ok refs))) →
  Runs s (st_read (λ k, ListPackagesNeedingRefresh k olderThan limit) ≫= f).
Proof.
  intros Hquiet Hn Hf. apply (Runs_read Hquiet _ _ (λ refs, length refs = n)); [|done]. intros k _.
  unfold Returns. destruct (ListPackagesNeedingRefresh k olderThan limit s) as [refs|] eqn:E; [|intros Hk];
    unfold ListPackagesNeedingRefresh in E; cbn [Store_Storage] in E.
  - destruct (call_err k) eqn:Hk.
    + unfold Store_ListPackagesNeedingRefresh, MemoryStore.ret, ctx_Err in E. by rewrite Hk in E.
    + destruct (ListPackagesNeedingRefresh_length k olderThan limit s Hk) as (refs' & E' & Hl). rewrite E in E'. injection E' as ->. by rewrite Hl.
  - destruct (ListPackagesNeedingRefresh_length k olderThan limit s Hk) as (refs' & E' & _). congruence.
Qed.

Ltac read_stale n :=
  eapply (Runs_stale _ _ _ n);
  [done|match goal with |- context [map_to_list ?m] =>
     let v := eval vm_compute in (map_to_list m) in replace (map_to_list m) with v by (vm_compute; reflexivity) end;
   cbn [staleCandidates latestAfter PublisherSnapshot_SnapshotAt]; unfold Before, After, UTC;
   repeat (match goal with |- context [bool_decide ?P] =>
     first [rewrite (bool_decide_true P) by lia|rewrite (bool_decide_false P) by lia] end); reflexivity
  |let refs := fresh "refs" in let Hn := fresh "Hn" in intros refs Hn; cbn [no_error_of]; apply Runs_len; [exact Hn|]].

Lemma Before_true a b : (a < b)%Z → Before a b = true.
Proof. apply bool_decide_eq_true. Qed.

Lemma Before_false a b : (b ≤ a)%Z → Before a b = false.
Proof. intros. apply bool_decide_eq_false. lia. Qed.

Ltac evaluate :=
  lazy -[Before After Z.lt];
  repeat match goal with |- context [Before ?a ?b] =>
    first [rewrite (Before_true a b) by lia|rewrite (Before_false a b) by lia] end;
  lazy; first [reflexivity|discriminate].

Ltac selects :=
  lazymatch goal with |- filter _ (values ?m) ≡ₚ _ =>
    let v := eval vm_compute in (values m) in replace (values m) with v by (vm_compute; reflexivity) end;
  repeat match goal with |- context [filter ?P (?a :: ?l)] =>
    first [rewrite (filter_cons_True P a l) by (vm_compute; reflexivity)
          |rewrite (filter_cons_False P a l) by (vm_compute; discriminate)
          |rewrite (filter_cons_True P a l) by evaluate|rewrite (filter_cons_False P a l) by evaluate] end;
  rewrite filter_nil; perm.

(** The incidents a filter selects, the comparisons of times being arithmetic. *)
Ltac read_incidents l :=
  lazymatch goal with |- Runs _ (st_read (λ k, ListIncidentsFiltered k ?f) ≫= _) =>
    eapply (Runs_look ltac:(eassumption) _ _ (Ok (cut (IncidentFilter_Limit f) l)));
    [let k := fresh "k" in let Hk := fresh "Hk" in intros k Hk;
     apply (ListIncidentsFiltered_is k f _ l Hk); [strictly_sorted|selects]
    |cbn [no_error_of]; let v := eval vm_compute in (cut (IncidentFilter_Limit f) l) in
     change (cut (IncidentFilter_Limit f) l) with v]
  end.

Ltac save_anomaly law :=
  eapply Runs_write;
  [done
  |let k := fresh "k" in let Hk := fresh "Hk" in intros k Hk; apply (law _ _ _); cbn; [exact Hk|done|];
   rewrite ?lookup_insert_ne by done; first [apply lookup_empty|apply lookup_insert_eq]
  |intros; by apply Store_SaveAnomaly_inv|];
  cbn [no_error_of components sboms iocs incidents publishers profiles publisherHistory nextSnapshotID anomalies
       anomalyDedup nextAnomalyID New Anomaly_Kind Anomaly_PackageRef Anomaly_DetectedAt Anomaly_Confidence
       Anomaly_Explanation Anomaly_Evidence].

Ltac read_anomalies rows full Hp Hs :=
  eapply (Runs_anomalies _ _ rows);
  [done|selects|intros full Hp Hs; cbn [no_error_of AnomalyFilter_Limit any_anomaly];
   try change (cut 0 full) with full; apply Runs_len; [by rewrite ?(cut_perm _ _ _ Hp), ?Hp|]].

Section tests.
Context `{UnicodeCase, Env} (Hquiet : quiet).

Lemma testComponent_passes : Runs New testComponent.
Proof using Hquiet.
  unfold testComponent.
  write_with Store_UpsertComponent_inv. look. passed. cbv zeta.
  write_with Store_UpsertComponent_inv. look. passed. look. passed.
  do 2 write_with Store_UpsertComponent_inv.
  read_by ListComponents_law. intros l [Hp Hs]. compute_values Hp.
  determined (less_by_string_swo Component_Ref) [bare_component "kind:Component/default/a";
    MkComponent "kind:Component/default/web-app" "Component" "default" "web-app" "team:security" "" "" [] ∅;
    bare_component "kind:Component/default/z"] Hp Hs. passed.
Qed.
Lemma testSBOM_passes : Runs New testSBOM.
Proof using Hquiet.
  unfold testSBOM. apply Runs_now; [done|]. intros now _. cbv zeta.
  assert (Add now (-2 * Hour) < Add now (-1 * Hour))%Z as Hlt by (unfold Add, Hour, Minute, Second; lia).
  revert Hlt. generalize (Add now (-2 * Hour)), (Add now (-1 * Hour)). intros t1 t2 Hlt.
  do 3 write_with Store_UpsertSBOM_inv. look. passed.
  read_by ListSBOMsByComponent_law. intros l [Hp Hs]. compute_values Hp. compute_filter Hp.
  determined (less_by_Z_swo SBOM_GeneratedAt)
    [bare_sbom "sbom-1" "kind:Component/default/web-app" "npm" t1 []; bare_sbom "sbom-2" "kind:Component/default/web-app" "npm" t2 []]
    Hp Hs.
  passed. look. passed.
Qed.

Lemma testIoC_passes : Runs New testIoC.
Proof using Hquiet.
  unfold testIoC. apply Runs_now; [done|]. intros now _. cbv zeta.
  write_with Store_UpsertIoC_inv. look. passed.
  read_by ListIoCs_law. intros l [Hp _]. compute_values Hp. apply Permutation_length in Hp.
  apply Runs_len; [exact Hp|]. look. passed.
Qed.

Lemma testIncident_passes : Runs New testIncident.
Proof using Hquiet.
  unfold testIncident. apply Runs_now; [done|]. intros now _. cbv zeta.
  write_with Store_UpsertIncident_inv. look. passed.
  generalize (Add now Minute). intros t.
  match goal with |- context [Transition ?i ?n t] =>
    let v := eval vm_compute in (Transition i n t) in change (Transition i n t) with v end.
  cbn [no_error]. write_with Store_UpsertIncident_inv. look. passed. look. passed.
Qed.

Lemma testPublisher_passes : Runs New testPublisher.
Proof using Hquiet.
  unfold testPublisher. apply Runs_now; [done|]. intros now _. cbv zeta.
  generalize (Add now (-365 * 24 * Hour)). intros t.
  write_with Store_UpsertPublisher_inv. look. passed.
  write_with Store_UpsertPublisherProfile_inv. look. passed.
  do 2 write_with Store_UpsertPublisher_inv.
  read_by ListPublishers_law. intros l [Hp _]. compute_values Hp. compute_filter Hp.
  apply Permutation_length in Hp. apply Runs_len; [exact Hp|]. clear l Hp.
  read_by ListPublishers_law. intros l [Hp _]. compute_values Hp. compute_filter Hp.
  apply Permutation_length in Hp. apply Runs_len; [exact Hp|]. look. passed. look. passed.
Qed.

Lemma testRemediation_passes : Runs New testRemediation.
Proof using Hquiet.
  unfold testRemediation. apply Runs_now; [done|]. intros now _. cbv zeta.
  generalize (Add now Minute). intros t.
  write_with Store_UpsertIncident_inv.
  write_with Store_AppendRemediation_inv.
  write_with Store_AppendRemediation_inv.
  eapply Runs_look; [done|store_step|]. cbn [no_error_of]. passed. look. passed. look. passed.
  write_with Store_AppendRemediation_inv. passed.
Qed.

Lemma testListSBOMPackages_passes : Runs New testListSBOMPackages.
Proof using Hquiet.
  unfold testListSBOMPackages. apply Runs_now; [done|]. intros now _. cbv zeta.
  do 3 write_with Store_UpsertSBOM_inv.
  match goal with |- Runs ?s _ => assert (sboms_wf (Store_view s)) as Hwf end.
  { intros id b Hb. cbn [v_sboms Store_view sboms] in Hb.
    repeat (apply lookup_insert_Some in Hb as [[_ <-]|[_ Hb]]; [split_and!; [done|done|set_solver]|]).
    by apply lookup_empty_Some in Hb. }
  packages_read Hwf. intros l Hl. compute_rows Hl.
  apply Runs_len; [by apply Permutation_length in Hl|].
  apply Runs_require; [apply bool_decide_eq_true; rewrite Hl; cbn [fmap list_fmap SBOMPackageRef_ComponentRef]; perm|].
  apply Runs_require; [apply Is_true_true, forallb_True; rewrite Hl; repeat constructor|].
  packages_read Hwf. intros l' Hl'. compute_rows Hl'.
  apply Runs_len; [by apply Permutation_length in Hl'|]. passed.
Qed.

Lemma testMatchedComponentRefsByIoC_passes : Runs New testMatchedComponentRefsByIoC.
Proof using Hquiet.
  unfold testMatchedComponentRefsByIoC, mkInc. apply Runs_now; [done|]. intros now _. cbv zeta.
  do 3 write_with Store_UpsertIncident_inv.
  read_by MatchedComponentRefsByIoC_law. intros l (Hnd & Hs & Hl). stored_incidents Hl.
  assert (l ≡ₚ ["kind:Component/default/web-app"; "kind:Component/default/api"]) as Hp.
  { apply NoDup_Permutation; [done|apply (bool_decide_unpack _); reflexivity|]. intros ref. rewrite Hl. split.
    - intros (id & i & Hi & Hioc & Href). explicit_lookup Hi; simpl in *; set_solver.
    - intros [->| ->%list_elem_of_singleton]%elem_of_cons; [exists "inc-1"|exists "inc-2"]; eexists;
        (split; [vm_compute; reflexivity|split; [reflexivity|simpl; set_solver]]). }
  determined (less_by_string_swo id) ["kind:Component/default/api"; "kind:Component/default/web-app"] Hp Hs.
  passed.
  read_by MatchedComponentRefsByIoC_law. intros l (_ & _ & Hl'). stored_incidents Hl'.
  assert (l = []) as ->; [|passed].
  apply elem_of_nil_inv. intros ref (id & i & Hi & Hioc & _)%Hl'. explicit_lookup Hi; done.
Qed.
Lemma testPublisherSnapshot_passes : Runs New testPublisherSnapshot.
Proof using Hquiet.
  unfold testPublisherSnapshot. apply Runs_now; [done|]. intros now Hnow. cbv zeta.
  assert (Add now (-2 * Hour) ≠ 0 ∧ Add now (-2 * Hour) < Add now (-90 * Minute) < now ∧ now < Add now Minute)%Z as Ht
    by (unfold Add, Hour, Minute, Second in *; lia).
  assert (now ≠ 0%Z) as Hnz by (unfold Hour, Minute, Second in *; lia).
  revert Ht. generalize (Add now (-2 * Hour)), (Add now (-90 * Minute)), (Add now Minute), (Add now (-30 * 24 * Hour)).
  intros older cutoff later published (Holder & Hlt & Hlater). clear Hnow.
  write_snapshot Holder. write_snapshot Hnz.
  set (stored id at_ version method := MkPublisherSnapshot id "npm:axios" at_
    [MkMaintainer "a@example.com" "Maintainer A" "maint-a"] version (Some published) method
    (Some "https://github.com/axios/axios") quoted_document).
  set (newer := stored 2%Z now "1.11.0" "oidc-trusted-publisher"). set (older' := stored 1%Z older "1.10.0" "token").
  read_history 0%Z [older'; newer] [newer; older']. passed.
  read_history 1%Z [older'; newer] [newer; older']. passed.
  eapply Runs_look; [done|intros k Hk; by apply (GetPublisherHistory_unknown k _ _ _ Hk)|]. passed.
  write_snapshot Hnz. read_stale 0. read_stale 2. read_stale 1. passed.
Qed.
Lemma testIncidentFilter_passes : Runs New testIncidentFilter.
Proof using Hquiet.
  unfold testIncidentFilter, mkInc. apply Runs_now; [done|]. intros now0 _. cbv zeta.
  generalize (Truncate now0 Microsecond). intros now.
  do 3 write_with Store_UpsertComponent_inv.
  do 2 write_with Store_UpsertIoC_inv.
  assert (Add now (-3 * Hour) < Add now (-2 * Hour) < Add now (-90 * Minute) ∧
          Add now (-90 * Minute) < Add now (-30 * Minute))%Z as Ht by (unfold Add, Hour, Minute, Second; lia).
  revert Ht. generalize (Add now (-3 * Hour)), (Add now (-2 * Hour)), (Add now (-90 * Minute)), (Add now (-30 * Minute)).
  intros old from mid recent Ht.
  do 3 write_with Store_UpsertIncident_inv.
  set (mk id ioc state opened refs := MkIncident id ioc state opened opened refs []).
  set (A := mk "inc-A-pending-old" "ioc-npm" StatePending old ["kind:Component/default/billing"]).
  set (B := mk "inc-B-triaged-mid" "ioc-npm" StateTriaged mid ["kind:Component/default/web-app"]).
  set (C := mk "inc-C-pending-recent" "ioc-gomod" StatePending recent ["kind:Component/default/reporting"]).
  read_incidents [C; B; A]. passed.
  read_incidents [C; A]. passed.
  read_incidents [C]. passed.
  read_incidents [C; B]. passed.
  read_incidents [C]. passed.
  read_incidents [B]. passed.
  read_incidents [C; B; A]. passed.
Qed.
Lemma testAnomaly_passes : Runs New testAnomaly.
Proof using Hquiet.
  unfold testAnomaly. apply Runs_now; [done|]. intros now0 Hnow0. cbv zeta.
  assert (2 * Hour < Truncate now0 Microsecond)%Z as Hnow.
  { unfold Truncate, Microsecond. pose proof (Z.mod_pos_bound now0 1000 ltac:(lia)).
    unfold Hour, Minute, Second in *. lia. }
  revert Hnow. generalize (Truncate now0 Microsecond). intros now Hnow.
  assert (now ≠ 0 ∧ Add now (-2 * Hour) ≠ 0 ∧ Add now (-2 * Hour) < Add now (-1 * Minute) < now)%Z as Ht
    by (unfold Add, Hour, Minute, Second in *; lia).
  revert Ht. generalize (Add now (-2 * Hour)), (Add now (-1 * Minute)). clear Hnow Hnow0.
  intros earlier window (Hnz & Hez & Ht).
  set (E1 := <["new_email" := AString "x@bad.io"]> (<["publish_age_hours" := AFloat "3"]> ∅)).
  set (E3 := <["old_major" := AFloat "1"]> (<["new_major" := AFloat "99"]> ∅)).
  assert (E1 !! "new_email" = Some (AString "x@bad.io")) as HE1 by apply lookup_insert_eq. clearbody E1 E3.
  save_anomaly SaveAnomaly_new. passed.
  save_anomaly SaveAnomaly_new. passed.
  save_anomaly SaveAnomaly_new.
  save_anomaly SaveAnomaly_again. passed.
  look. passed. apply Runs_require; [cbn [Anomaly_Evidence]; by rewrite HE1|]. look. passed.
  set (A1 := MkAnomaly 1 AnomalyKindMaintainerEmailDrift "npm:axios" now ConfidenceHigh
    "new maintainer email registered 3h before publish"
    E1).
  set (A2 := MkAnomaly 2 AnomalyKindOIDCPublishingRegression "npm:axios" earlier ConfidenceMedium
    "publish_method went OIDC → token" ∅).
  set (A3 := MkAnomaly 3 AnomalyKindVersionJump "npm:left-pad" now ConfidenceLow "" E3).
  read_anomalies [A1; A2; A3] full Hp Hs.
  apply Runs_require.
  { destruct full as [|x [|y full]]; [by apply Permutation_length in Hp..|]. by apply newest_two in Hs. }
  read_anomalies [A1; A2] full2 Hp2 Hs2.
  apply Runs_require; [by apply (forallb_perm _ _ _ Hp2)|].
  read_anomalies [A2] full3 Hp3 Hs3. apply Permutation_singleton_r in Hp3 as ->. passed.
  read_anomalies [A1; A3] full4 Hp4 Hs4.
  apply Runs_require; [apply (forallb_perm _ _ _ Hp4); cbn; by rewrite Before_false by lia|].
  read_anomalies [A1; A2; A3] full5 Hp5 Hs5. passed.
Qed.
Lemma run_tests_passes tests n :
  Forall (λ t, Runs New t.2) tests → run_tests New tests n = [].
Proof.
  intros Hall. revert n. induction Hall as [|[name test] tests Ht _ IH]; intros n; [done|]. cbn [run_tests snd] in *.
  specialize (Ht New_inv n). unfold wp in Ht. destruct (test _) as [ok w]. simpl in Ht. subst ok. apply IH.
Qed.

(** C11: the in-memory store passes the whole storage contract suite that
    every backend runs, whatever the clock shows (past its first hours),
    however the runtime ranges over maps and breaks ties when it sorts:
    no test of the suite fails a requirement. *)
Theorem memory_store_passes_suite : Run New = [].
Proof using Hquiet.
  apply run_tests_passes. unfold suite. repeat apply List.Forall_cons; try apply List.Forall_nil; cbn [snd].
  - apply testComponent_passes.
  - apply testSBOM_passes.
  - apply testIoC_passes.
  - apply testIncident_passes.
  - apply testRemediation_passes.
  - apply testPublisher_passes.
  - apply testPublisherSnapshot_passes.
  - apply testAnomaly_passes.
  - apply testIncidentFilter_passes.
  - apply testListSBOMPackages_passes.
  - apply testMatchedComponentRefsByIoC_passes.
Qed.
End tests.

(** The year 2026, a nanosecond per tick. *)
Definition late_env : Env := {|
  call_at t := MkCall reference_runtime None (63902908800000000000 + Z.of_nat t) (call_db (sample_call t));
  ulid_make t := unary t;
|}.

Lemma memory_store_passes_suite_witness : @Run Store late_env Store_Storage New = [].
Proof.
  apply (@memory_store_passes_suite sample_case late_env). split; intros n; [reflexivity|].
  cbn [call_now call_at late_env]. unfold Hour, Minute, Second. lia.
Defined.
