(* ===== verification/Detector.v ===== *)
(** * The detector interface

    src/engine/anomaly/detector.go. A detector runs in the engine's monad
    because it may read the clock and range over maps; [Pure] is the part
    of its contract that the orchestrator relies on: it neither stores nor
    publishes. *)

From S2P Require Import Prelude GoStrings Domain Storage Engine.
From stdpp Require Import options.

Record Detector (St : Type) := MkDetector {
  Kind : string;
  Detect : string → list PublisherSnapshot → M St (result (list Anomaly));
}.
Arguments MkDetector {_} _ _.
Arguments Kind {_} _.
Arguments Detect {_} _ _ _.

(** Storage and events are as before, whatever the computation answers. *)
Definition leaves_world {St A} (m : M St A) : Prop := ∀ w,
  w_store (m w).2 = w_store w ∧ w_events (m w).2 = w_events w ∧ w_tick w ≤ w_tick (m w).2.

Class Pure {St} (d : Detector St) := {
  Detect_pure ref history : leaves_world (Detect d ref history);
}.

(** [fmt.Sprintf("%v")] of a slice of strings. *)
Definition print_strings (l : list string) : string := "[" +:+ Join l " " +:+ "]".

Definition evidence_of (l : list (string * any)) : gmap string any := list_to_map l.
