(* ===== verification/MaintainerDrift.v ===== *)
(** * Maintainer e-mail drift

    src/engine/anomaly/maintainerdrift: a maintainer address that the
    previous snapshot did not have. *)

From S2P Require Import Prelude GoStrings GoText Domain Storage Engine Detector.
From stdpp Require Import options.

Definition highWindow : Duration := 7 * 24 * Hour.
Definition mediumWindow : Duration := 14 * 24 * Hour.

Section detector.
Context {St : Type} `{Env, UnicodeCase}.

(** The key an address is compared under. *)
Definition email_key (m : Maintainer) : string := ToLower (TrimSpace (Maintainer_Email m)).

Definition emailSet (ms : list Maintainer) : gset string :=
  foldl (λ out m, if bool_decide (email_key m = "") then out else {[email_key m]} ∪ out) ∅ ms.

(** Every address of the older snapshots, the empty one included. *)
Definition everSeenSet (older : list PublisherSnapshot) : gset string :=
  foldl (λ seen snap,
    foldl (λ seen m, {[email_key m]} ∪ seen) seen (PublisherSnapshot_Maintainers snap)) ∅ older.

Definition classifyConfidence (now : Time) (latestPublishedAt : option Time)
    (newEmails : list string) (everSeen : gset string) : string * any :=
  let ageHours := match latestPublishedAt with
                  | Some t => AHours (Sub now t)
                  | None => AFloat "-1"
                  end in
  let allFirstSeen := forallb (λ e, bool_decide (e ∉ everSeen)) newEmails in
  match latestPublishedAt with
  | None => (ConfidenceLow, ageHours)
  | Some t =>
      if bool_decide (Sub now t ≤ highWindow)%Z && allFirstSeen then (ConfidenceHigh, ageHours)
      else if bool_decide (Sub now t ≤ mediumWindow)%Z then (ConfidenceMedium, ageHours)
      else (ConfidenceLow, ageHours)
  end.

Definition Detect (packageRef : string) (history : list PublisherSnapshot) :
    M St (result (list Anomaly)) :=
  match history with
  | newest :: previous :: _ =>
      let prior := emailSet (PublisherSnapshot_Maintainers previous) in
      let current := emailSet (PublisherSnapshot_Maintainers newest) in
      let everSeen := everSeenSet (tail history) in
      emails ← range_order (gset_to_gmap () current);
      let newEmails := filter (λ email, email ∉ prior) emails.*1 in
      if bool_decide (length newEmails = 0) then mret (Ok [])
      else
        now ← time_Now;
        let '(conf, ageHours) := classifyConfidence now
          (PublisherSnapshot_LatestVersionPublishedAt newest) newEmails everSeen in
        detectedAt ← time_Now;
        mret (Ok [MkAnomaly 0 AnomalyKindMaintainerEmailDrift packageRef detectedAt conf
          ("new maintainer email(s) " +:+ print_strings newEmails
             +:+ " appeared on the latest snapshot of " +:+ packageRef)
          (evidence_of [
             ("new_emails", AStrings newEmails);
             ("prior_email_count", AInt (Z.of_nat (size prior)));
             ("current_email_count", AInt (Z.of_nat (size current)));
             ("latest_version", AString (PublisherSnapshot_LatestVersion newest));
             ("latest_publish_age_h", ageHours)])])
  | _ => mret (Ok [])
  end.

Definition New : Detector St := MkDetector AnomalyKindMaintainerEmailDrift Detect.
End detector.

(** * Properties *)

Section properties.
Context {St : Type} `{Env, UnicodeCase}.

(** The snapshot lists the address [e], up to case and white space. *)
Definition lists_email (snap : PublisherSnapshot) (e : string) : Prop :=
  e ≠ "" ∧ ∃ m, m ∈ PublisherSnapshot_Maintainers snap ∧ email_key m = e.

Lemma elem_of_emailSet ms e : e ∈ emailSet ms ↔ e ≠ "" ∧ ∃ m, m ∈ ms ∧ email_key m = e.
Proof.
  unfold emailSet.
  assert (∀ acc : gset string, e ∈ foldl (λ out m, if bool_decide (email_key m = "") then out
    else {[email_key m]} ∪ out) acc ms ↔ e ∈ acc ∨ e ≠ "" ∧ ∃ m, m ∈ ms ∧ email_key m = e) as Hgen.
  { induction ms as [|m ms IH]; intros acc; simpl; [set_solver|].
    rewrite IH. case_bool_decide; set_solver. }
  rewrite Hgen. set_solver.
Qed.

Lemma elem_of_everSeen older e :
  e ∈ everSeenSet older ↔ ∃ snap m, snap ∈ older ∧
    m ∈ PublisherSnapshot_Maintainers snap ∧ email_key m = e.
Proof.
  unfold everSeenSet.
  assert (∀ (ms : list Maintainer) (acc : gset string), e ∈ foldl (λ seen m, {[email_key m]} ∪ seen) acc ms ↔
    e ∈ acc ∨ ∃ m, m ∈ ms ∧ email_key m = e) as Hms.
  { induction ms as [|m ms IH]; intros acc; simpl; [set_solver|]. rewrite IH. set_solver. }
  assert (∀ acc : gset string, e ∈ foldl (λ seen snap, foldl (λ seen m, {[email_key m]} ∪ seen) seen
    (PublisherSnapshot_Maintainers snap)) acc older ↔
    e ∈ acc ∨ ∃ snap m, snap ∈ older ∧ m ∈ PublisherSnapshot_Maintainers snap ∧ email_key m = e)
    as Hgen.
  { induction older as [|snap older IH]; intros acc; simpl; [set_solver|].
    rewrite IH, Hms. set_solver. }
  rewrite Hgen. set_solver.
Qed.

Lemma gset_to_gmap_keys (X : gset string) e : is_Some (gset_to_gmap () X !! e) ↔ e ∈ X.
Proof. unfold is_Some. setoid_rewrite lookup_gset_to_gmap_Some. naive_solver. Qed.

Lemma classifyConfidence_spec now pub emails everSeen :
  (classifyConfidence now pub emails everSeen).1 =
  match pub with
  | None => ConfidenceLow
  | Some t =>
      if decide (Sub now t ≤ highWindow ∧ Forall (λ e, e ∉ everSeen) emails)%Z then ConfidenceHigh
      else if decide (Sub now t ≤ mediumWindow)%Z then ConfidenceMedium else ConfidenceLow
  end.
Proof.
  unfold classifyConfidence. destruct pub as [t|]; [|done].
  assert (forallb (λ e, bool_decide (e ∉ everSeen)) emails = true ↔
    Forall (λ e, e ∉ everSeen) emails) as Hf.
  { rewrite forallb_forall, Forall_forall. setoid_rewrite bool_decide_eq_true.
    by setoid_rewrite list_elem_of_In. }
  destruct (forallb _ emails); repeat case_bool_decide; repeat case_decide; naive_solver.
Qed.

(** The addresses the loop collects, in the order of the map. *)
Definition fresh_emails (k : Call) (newest previous : PublisherSnapshot) : list string :=
  filter (λ email, email ∉ emailSet (PublisherSnapshot_Maintainers previous))
    (@map_range (call_rt k) _ _ _ _
       (gset_to_gmap () (emailSet (PublisherSnapshot_Maintainers newest)))).*1.

Lemma fresh_emails_NoDup k newest previous : NoDup (fresh_emails k newest previous).
Proof. apply NoDup_filter, map_range_NoDup_keys. Qed.

Lemma elem_of_fresh_emails k newest previous e :
  e ∈ fresh_emails k newest previous ↔ lists_email newest e ∧ ¬ lists_email previous e.
Proof.
  unfold fresh_emails, lists_email.
  rewrite list_elem_of_filter, elem_of_map_range_keys, gset_to_gmap_keys, !elem_of_emailSet. tauto.
Qed.

Lemma Detect_eq ref newest previous older (w : World St) :
  let emails := fresh_emails (this_call w) newest previous in
  (Detect ref (newest :: previous :: older) w).1 =
  if bool_decide (length emails = 0) then Ok [] else
    let '(conf, ageHours) := classifyConfidence (UTC (call_now (call_at (S (w_tick w)))))
      (PublisherSnapshot_LatestVersionPublishedAt newest) emails
      (everSeenSet (previous :: older)) in
    Ok [MkAnomaly 0 AnomalyKindMaintainerEmailDrift ref (UTC (call_now (call_at (S (S (w_tick w))))))
      conf ("new maintainer email(s) " +:+ print_strings emails
         +:+ " appeared on the latest snapshot of " +:+ ref)
      (evidence_of [
         ("new_emails", AStrings emails);
         ("prior_email_count", AInt (Z.of_nat (size (emailSet (PublisherSnapshot_Maintainers previous)))));
         ("current_email_count", AInt (Z.of_nat (size (emailSet (PublisherSnapshot_Maintainers newest)))));
         ("latest_version", AString (PublisherSnapshot_LatestVersion newest));
         ("latest_publish_age_h", ageHours)])].
Proof.
  intros emails. unfold Detect, range_order, mbind, M_bind. cbv beta iota zeta. cbn [tail].
  fold (fresh_emails (this_call w) newest previous). fold emails.
  case_bool_decide; [done|]. unfold time_Now. cbv beta iota. by destruct (classifyConfidence _ _ _ _).
Qed.

(** E-mail drift is detected exactly. The detector reports one anomaly
    when the newest snapshot lists an address that the previous one does
    not, and nothing otherwise; the evidence names exactly the new
    addresses, each once; confidence is high when the latest version is at
    most seven days old and no older snapshot ever listed any of them,
    medium when it is at most fourteen days old, low otherwise or when the
    publish time is unknown. *)
Theorem maintainerdrift_Detect_exact ref history (w : World St) :
  let r := (Detect ref history w).1 in
  match history with
  | newest :: previous :: older =>
      (r = Ok [] ∧ ∀ e, lists_email newest e → lists_email previous e) ∨
      ∃ a emails, r = Ok [a] ∧ emails ≠ [] ∧ NoDup emails ∧
        (∀ e, e ∈ emails ↔ lists_email newest e ∧ ¬ lists_email previous e) ∧
        Anomaly_Kind a = AnomalyKindMaintainerEmailDrift ∧ Anomaly_PackageRef a = ref ∧
        Anomaly_Evidence a !! "new_emails" = Some (AStrings emails) ∧
        Anomaly_Confidence a =
          match PublisherSnapshot_LatestVersionPublishedAt newest with
          | None => ConfidenceLow
          | Some t =>
              let age := Sub (UTC (call_now (call_at (S (w_tick w))))) t in
              if decide (age ≤ highWindow ∧
                   Forall (λ e, e ∉ everSeenSet (previous :: older)) emails)%Z
              then ConfidenceHigh
              else if decide (age ≤ mediumWindow)%Z then ConfidenceMedium else ConfidenceLow
          end
  | _ => r = Ok []
  end.
Proof.
  destruct history as [|newest [|previous older]]; [done..|]. intros r.
  pose proof (Detect_eq ref newest previous older w) as Hr. fold r in Hr. simpl in Hr.
  pose proof (fresh_emails_NoDup (this_call w) newest previous) as Hnd.
  pose proof (elem_of_fresh_emails (this_call w) newest previous) as Hin.
  destruct (fresh_emails (this_call w) newest previous) as [|e0 emails] eqn:He.
  - left. split; [done|]. intros e Hl.
    destruct (decide (e ∈ emailSet (PublisherSnapshot_Maintainers previous)))
      as [Hp%elem_of_emailSet|Hp]; [done|].
    exfalso. apply (not_elem_of_nil e), Hin. split; [done|].
    intros Hl'. by apply Hp, elem_of_emailSet.
  - right. destruct (classifyConfidence _ _ _ _) as [conf age] eqn:Hc.
    rewrite bool_decide_false in Hr by done. eexists _, (e0 :: emails).
    split_and!; [exact Hr|done..|].
    simpl. change conf with (conf, age).1. rewrite <- Hc. apply classifyConfidence_spec.
Qed.
End properties.

(** ** The order of the addresses *)

#[local] Instance ascii_case : UnicodeCase := {| lower_unicode := id |}.

Definition env_with (rt : GoRuntime) : Env :=
  {| call_at _ := MkCall rt None 1000 all_executed; ulid_make _ := "" |}.

Definition snapshot_of (emails : list string) : PublisherSnapshot :=
  MkPublisherSnapshot 1 "npm:axios" 900 ((λ e, MkMaintainer e "" "") <$> emails) "1.0.0"
    (Some 900%Z) "token" None "".

Definition two_new_emails : list PublisherSnapshot :=
  [snapshot_of ["a@x.org"; "b@x.org"]; snapshot_of []].

(** The detector is not a function of its history: when two addresses
    are new, two runs at the same instant on the same history can report
    different explanations and evidence, because the addresses are listed
    in the order in which Go ranges over a map. *)
Theorem maintainerdrift_depends_on_map_order :
  ∃ a b, (@Detect unit (env_with reference_runtime) _ "npm:axios" two_new_emails
            (MkWorld () [] 0)).1 = Ok [a] ∧
    (@Detect unit (env_with reversed_runtime) _ "npm:axios" two_new_emails
       (MkWorld () [] 0)).1 = Ok [b] ∧
    Anomaly_Explanation a ≠ Anomaly_Explanation b ∧
    Anomaly_Evidence a ≠ Anomaly_Evidence b.
Proof.
  do 2 eexists. split_and!; [vm_compute; reflexivity..|vm_compute; discriminate|].
  intros Heq. apply (f_equal (lookup "new_emails")) in Heq. vm_compute in Heq. discriminate.
Qed.
