(* ===== verification/OidcRegression.v ===== *)
(** * OIDC publishing regression

    src/engine/anomaly/oidcregression: the newest version was published with
    a token although an older one used a trusted publisher. *)

From S2P Require Import Prelude GoStrings GoText Domain Storage Engine Detector.
From stdpp Require Import options.

Definition publishMethodOIDC : string := "oidc-trusted-publisher".
Definition publishMethodToken : string := "token".

(** [%q] of a string without characters to escape. *)
Definition quoted (s : string) : string :=
  String (ascii_of_N 34) (s +:+ String (ascii_of_N 34) "").

(** The position of the first OIDC snapshot, counted from [i]. *)
Fixpoint firstOIDC (i : Z) (older : list PublisherSnapshot) : option Z :=
  match older with
  | [] => None
  | snap :: older' =>
      if bool_decide (PublisherSnapshot_PublishMethod snap = publishMethodOIDC) then Some i
      else firstOIDC (i + 1) older'
  end.

Section detector.
Context {St : Type} `{Env}.

Definition Detect (packageRef : string) (history : list PublisherSnapshot) :
    M St (result (list Anomaly)) :=
  match history with
  | newest :: previous :: _ =>
      if bool_decide (PublisherSnapshot_PublishMethod newest ≠ publishMethodToken)
      then mret (Ok [])
      else match firstOIDC 1 (tail history) with
           | None => mret (Ok [])
           | Some priorOIDCAtIndex =>
               let conf :=
                 if bool_decide (PublisherSnapshot_PublishMethod previous = publishMethodOIDC)
                 then ConfidenceHigh else ConfidenceMedium in
               detectedAt ← time_Now;
               mret (Ok [MkAnomaly 0 AnomalyKindOIDCPublishingRegression packageRef detectedAt conf
                 (packageRef +:+ " publish_method regressed from " +:+ quoted publishMethodOIDC
                    +:+ " to " +:+ quoted publishMethodToken +:+ " (latest version "
                    +:+ PublisherSnapshot_LatestVersion newest +:+ ")")
                 (evidence_of [
                    ("newest_publish_method", AString (PublisherSnapshot_PublishMethod newest));
                    ("previous_publish_method", AString (PublisherSnapshot_PublishMethod previous));
                    ("latest_version", AString (PublisherSnapshot_LatestVersion newest));
                    ("oidc_seen_at_index", AInt priorOIDCAtIndex)])])
           end
  | _ => mret (Ok [])
  end.

Definition New : Detector St := MkDetector AnomalyKindOIDCPublishingRegression Detect.
End detector.

(** * Properties *)

Definition oidc (snap : PublisherSnapshot) : Prop :=
  PublisherSnapshot_PublishMethod snap = publishMethodOIDC.

Lemma firstOIDC_None i older : firstOIDC i older = None ↔ Forall (λ s, ¬ oidc s) older.
Proof.
  revert i. induction older as [|s older IH]; intros i; simpl; [done|].
  rewrite Forall_cons. unfold oidc at 1. case_bool_decide; [naive_solver|]. rewrite IH. tauto.
Qed.

Lemma firstOIDC_Some i older n :
  firstOIDC i older = Some n → ∃ j s, n = (i + Z.of_nat j)%Z ∧ older !! j = Some s ∧ oidc s ∧
    ∀ j' s', j' < j → older !! j' = Some s' → ¬ oidc s'.
Proof.
  revert i. induction older as [|s older IH]; intros i; simpl; [done|].
  case_bool_decide as Hs.
  - intros [= <-]. exists 0, s. split_and!; [lia|done|done|]. intros j' s'. lia.
  - intros (j & s' & -> & Hj & Ho & Hbefore)%IH. exists (S j), s'. split_and!; [lia|done|done|].
    intros [|j'] s'' Hlt Hj'; simpl in Hj'; [by simplify_eq|]. eapply Hbefore; [|done]. lia.
Qed.

(** A publishing regression is detected exactly: one anomaly when the
    newest snapshot was published with a token and some older one by a
    trusted publisher, nothing otherwise; the evidence gives the position
    of the most recent trusted snapshot, and confidence is high exactly
    when that is the previous one, medium otherwise. *)
Theorem oidc_Detect_exact {St} `{Env} ref history (w : World St) :
  let r := (Detect ref history w).1 in
  match history with
  | newest :: previous :: older =>
      (r = Ok [] ∧ (PublisherSnapshot_PublishMethod newest ≠ publishMethodToken ∨
                    Forall (λ s, ¬ oidc s) (previous :: older))) ∨
      ∃ a i s, r = Ok [a] ∧ PublisherSnapshot_PublishMethod newest = publishMethodToken ∧
        history !! i = Some s ∧ oidc s ∧ 0 < i ∧
        (∀ j s', 0 < j < i → history !! j = Some s' → ¬ oidc s') ∧
        Anomaly_Kind a = AnomalyKindOIDCPublishingRegression ∧ Anomaly_PackageRef a = ref ∧
        Anomaly_Evidence a !! "oidc_seen_at_index" = Some (AInt (Z.of_nat i)) ∧
        Anomaly_Confidence a = if bool_decide (i = 1) then ConfidenceHigh else ConfidenceMedium
  | _ => r = Ok []
  end.
Proof.
  destruct history as [|newest [|previous older]]; [done..|]. intros r. unfold r, Detect.
  case_bool_decide as Ht; [by left; auto|]. cbn [tail].
  destruct (firstOIDC 1 (previous :: older)) as [n|] eqn:Hf.
  2: { left. split; [done|]. right. by apply firstOIDC_None in Hf. }
  right. apply firstOIDC_Some in Hf as (j & s & -> & Hj & Ho & Hbefore).
  eexists _, (S j), s. split_and!; [done|done|done|done|lia| |done|done| |].
  - intros [|j'] s' Hlt Hj'; [lia|]. eapply Hbefore; [|done]. lia.
  - simpl. unfold evidence_of. simpl. rewrite !lookup_insert_ne, lookup_insert_eq by done.
    do 2 f_equal. lia.
  - simpl. destruct j as [|j].
    + simpl in Hj. simplify_eq. by rewrite !bool_decide_true.
    + rewrite (bool_decide_false (S (S j) = 1)) by lia. rewrite bool_decide_false; [done|].
      apply (Hbefore 0); [lia|done].
Qed.
