(* ===== verification/VersionJump.v ===== *)
(** * Version jumps

    src/engine/anomaly/versionjump: a release that breaks more than the
    package's history suggests. The accessors of a parsed version belong to
    the third-party semver package. Its uint64 numbers are narrowed to
    int64 and subtracted with wrap-around, as the code does. *)

From S2P Require Import Prelude GoStrings GoText Json Domain Matcher Storage Engine Detector.
From stdpp Require Import options.

Class SemverFields `{Semver} := {
  Major : Version → Z;
  Minor : Version → Z;
  Prerelease : Version → string;
  Equal : Version → Version → bool;
  Original : Version → string;
}.

Section detector.
Context `{SemverFields}.

(** The loop runs over the reversed history, oldest first. *)
Fixpoint extractLoop (oldest_first : list PublisherSnapshot) (out : list Version) : list Version :=
  match oldest_first with
  | [] => out
  | snap :: rest =>
      let raw := PublisherSnapshot_LatestVersion snap in
      if bool_decide (raw = "") then extractLoop rest out
      else match NewVersion raw with
           | None => extractLoop rest out
           | Some v =>
               if bool_decide (Prerelease v ≠ "") then extractLoop rest out
               else match last out with
                    | Some u => if Equal u v then extractLoop rest out
                                else extractLoop rest (out ++ [v])
                    | None => extractLoop rest (out ++ [v])
                    end
           end
  end.

Definition extractVersionsOldestFirst (history : list PublisherSnapshot) : list Version :=
  extractLoop (reverse history) [].

Definition breakingDelta (prev curr : Version) : Z :=
  let prevMajor := wrap64 (Major prev) in
  let currMajor := wrap64 (Major curr) in
  if bool_decide (prevMajor = 0%Z) && bool_decide (currMajor = 0%Z)
  then wrap64 (wrap64 (Minor curr) - wrap64 (Minor prev))
  else if bool_decide (prevMajor = 0%Z) && bool_decide (1 ≤ currMajor)%Z then 1%Z
  else wrap64 (currMajor - prevMajor).

Fixpoint jumpsOf (versions : list Version) : list Z :=
  match versions with
  | prev :: (curr :: _) as rest => breakingDelta prev curr :: jumpsOf rest
  | _ => []
  end.

Definition maxOrZero (xs : list Z) : Z :=
  foldl (λ m x, if bool_decide (m < x)%Z then x else m) 0%Z xs.

Definition isUnusualVsHistory (latestJump : Z) (historical : list Z) : bool :=
  if bool_decide (latestJump < 2)%Z then false
  else
    let histMax := maxOrZero historical in
    bool_decide (2 ≤ latestJump)%Z && bool_decide (wrap64 (2 * histMax) < latestJump)%Z.

Definition classify (latestJump : Z) (historical : list Z) : string :=
  let patchOrMinor := length (filter (λ j, j = 0%Z) historical) in
  if bool_decide (5 ≤ patchOrMinor) && bool_decide (5 ≤ latestJump)%Z then ConfidenceHigh
  else if bool_decide (2 ≤ length historical) && bool_decide (2 ≤ latestJump)%Z
  then ConfidenceMedium
  else ConfidenceLow.

Context {St : Type} `{Env}.

(** The last two versions and the jumps, when there are any. *)
Definition Detect (packageRef : string) (history : list PublisherSnapshot) :
    M St (result (list Anomaly)) :=
  let versions := extractVersionsOldestFirst history in
  match reverse versions with
  | curr :: prev :: _ =>
      let jumps := jumpsOf versions in
      let latestJump := default 0%Z (last jumps) in
      if bool_decide (latestJump ≤ 0)%Z then mret (Ok [])
      else
        let historical := take (length jumps - 1) jumps in
        if negb (isUnusualVsHistory latestJump historical) then mret (Ok [])
        else
          let conf := classify latestJump historical in
          detectedAt ← time_Now;
          mret (Ok [MkAnomaly 0 AnomalyKindVersionJump packageRef detectedAt conf
            (packageRef +:+ " jumped from " +:+ Original prev +:+ " to " +:+ Original curr
               +:+ " — breaking-delta " +:+ pretty latestJump +:+ " vs historical max "
               +:+ pretty (maxOrZero historical) +:+ " over " +:+ pretty (length historical)
               +:+ " prior jump(s)")
            (evidence_of [
               ("previous_version", AString (Original prev));
               ("current_version", AString (Original curr));
               ("breaking_delta", AInt latestJump);
               ("historical_max_delta", AInt (maxOrZero historical));
               ("historical_jump_count", AInt (Z.of_nat (length historical)))])])
  | _ => mret (Ok [])
  end.

Definition New : Detector St := MkDetector AnomalyKindVersionJump Detect.
End detector.

(** * Properties *)

Section properties.
Context `{SemverFields} {St : Type} `{Env}.

(** How much a release breaks, on unbounded integers. *)
Definition breaking (prev curr : Version) : Z :=
  if decide (Major prev = 0%Z) then
    if decide (Major curr = 0%Z) then (Minor curr - Minor prev)%Z else 1%Z
  else (Major curr - Major prev)%Z.

Definition small (v : Version) : Prop :=
  (0 ≤ Major v < 2 ^ 61)%Z ∧ (0 ≤ Minor v < 2 ^ 61)%Z.

Lemma breakingDelta_small prev curr :
  small prev → small curr → breakingDelta prev curr = breaking prev curr.
Proof.
  intros [Hp1 Hp2] [Hc1 Hc2]. unfold breakingDelta, breaking.
  assert (∀ z, (- 2 ^ 61 ≤ z < 2 ^ 61)%Z → wrap64 z = z) as Hw.
  { intros z Hz. apply wrap64_id. unfold MinInt64, MaxInt64. lia. }
  rewrite !(Hw (Major _)), !(Hw (Minor _)) by lia.
  repeat case_bool_decide; repeat case_decide; simpl; try lia; apply Hw; lia.
Qed.

(** Two versions in a row. *)
Definition adjacent (vs : list Version) (x y : Version) : Prop :=
  ∃ i, vs !! i = Some x ∧ vs !! S i = Some y.

Lemma elem_of_jumpsOf vs j :
  Forall small vs → j ∈ jumpsOf vs ↔ ∃ x y, adjacent vs x y ∧ j = breaking x y.
Proof.
  intros Hs. induction Hs as [|x [|y vs] Hx Hs IH]; simpl.
  - split; [by intros ?%not_elem_of_nil|]. by intros (x & y & (i & Hi & _) & _).
  - split; [by intros ?%not_elem_of_nil|]. intros (a & b & (i & _ & Hi) & _). by destruct i.
  - rewrite elem_of_cons, IH. inversion_clear Hs. rewrite breakingDelta_small by done. split.
    + intros [->|(a & b & (i & Ha & Hb) & ->)].
      * exists x, y. split; [by exists 0|done].
      * exists a, b. split; [by exists (S i)|done].
    + intros (a & b & ([|i] & Ha & Hb) & ->); simpl in *; simplify_eq; [by left|].
      right. exists a, b. split; [by exists i|done].
Qed.

Lemma jumpsOf_snoc vs prev curr :
  jumpsOf (vs ++ [prev; curr]) = jumpsOf (vs ++ [prev]) ++ [breakingDelta prev curr].
Proof.
  induction vs as [|x vs IH]; [done|]. destruct vs as [|y vs]; [done|]. simpl in *. by rewrite IH.
Qed.

Lemma jumpsOf_length vs v : length (jumpsOf (vs ++ [v])) = length vs.
Proof.
  induction vs as [|x vs IH]; [done|]. destruct vs as [|y vs]; [done|]. simpl in *. by rewrite IH.
Qed.

Lemma maxOrZero_lt xs d :
  (0 < d)%Z → (2 * maxOrZero xs < d)%Z ↔ ∀ x, x ∈ xs → (2 * x < d)%Z.
Proof.
  intros Hd. unfold maxOrZero.
  assert (∀ m, (2 * foldl (λ m x, if bool_decide (m < x) then x else m) m xs < d ↔
    2 * m < d ∧ ∀ x, x ∈ xs → 2 * x < d)%Z) as Hgen.
  { induction xs as [|x xs IH]; intros m; simpl; [set_solver|].
    rewrite IH. setoid_rewrite elem_of_cons.
    case_bool_decide; split; intros [? Hall]; (split; [|]); naive_solver lia. }
  rewrite Hgen. split; [naive_solver|]. split; [lia|done].
Qed.

Lemma maxOrZero_range xs b :
  (0 ≤ b)%Z → (∀ x, x ∈ xs → (x ≤ b)%Z) → (0 ≤ maxOrZero xs ≤ b)%Z.
Proof.
  intros Hb. unfold maxOrZero.
  assert (∀ m, (0 ≤ m ≤ b → (∀ x, x ∈ xs → x ≤ b) →
    0 ≤ foldl (λ m x, if bool_decide (m < x) then x else m) m xs ≤ b)%Z) as Hgen.
  { induction xs as [|x xs IH]; intros m Hm Hall; simpl; [done|].
    apply IH; [|set_solver]. case_bool_decide; [|lia]. specialize (Hall x ltac:(left)). lia. }
  intros. apply Hgen; [lia|done].
Qed.

(** The latest release breaks at least two steps and more than twice as much
    as any release before it. *)
Definition jumped (pre : list Version) (prev curr : Version) : Prop :=
  (2 ≤ breaking prev curr)%Z ∧
  ∀ x y, adjacent (pre ++ [prev]) x y → (2 * breaking x y < breaking prev curr)%Z.

Lemma breaking_bound x y : small x → small y → (breaking x y < 2 ^ 61)%Z.
Proof. intros [? ?] [? ?]. unfold breaking. repeat case_decide; lia. Qed.

Lemma isUnusual_spec pre prev curr :
  Forall small (pre ++ [prev; curr]) →
  isUnusualVsHistory (breaking prev curr) (jumpsOf (pre ++ [prev])) = true ↔ jumped pre prev curr.
Proof.
  intros Hs. assert (Forall small (pre ++ [prev])) as Hs'.
  { rewrite Forall_app, !Forall_cons in Hs |- *. rewrite Forall_nil. tauto. }
  unfold isUnusualVsHistory, jumped. case_bool_decide as Hd; [split; [done|lia]|].
  rewrite andb_true_iff, !bool_decide_eq_true.
  assert (0 ≤ maxOrZero (jumpsOf (pre ++ [prev])) ≤ 2 ^ 61)%Z as Hm.
  { apply maxOrZero_range; [done|]. intros j. rewrite elem_of_jumpsOf by done.
    intros (x & y & (i & Hx & Hy) & ->).
    by apply Z.lt_le_incl, breaking_bound; eapply (Forall_lookup_1 small). }
  rewrite wrap64_id by (unfold MinInt64, MaxInt64; lia).
  rewrite maxOrZero_lt by lia. setoid_rewrite elem_of_jumpsOf; [|done]. naive_solver.
Qed.

(** C39: a version jump is detected exactly. With version numbers below 2^61
    (the code narrows and subtracts them in 64 bits), the detector looks at
    the distinct stable versions in order and reports one anomaly when the
    latest release breaks at least two steps (majors, or minors before 1.0,
    going stable counting as one) and more than twice as much as every
    earlier release, nothing otherwise; confidence is high with five or more
    earlier releases that broke nothing and a jump of at least five, medium
    with two earlier jumps, low otherwise. *)
Theorem versionjump_Detect_exact ref history (w : World St) :
  Forall small (extractVersionsOldestFirst history) →
  let r := (Detect ref history w).1 in
  (r = Ok [] ∧ ∀ pre prev curr,
     extractVersionsOldestFirst history = pre ++ [prev; curr] → ¬ jumped pre prev curr) ∨
  ∃ a pre prev curr, r = Ok [a] ∧
    extractVersionsOldestFirst history = pre ++ [prev; curr] ∧ jumped pre prev curr ∧
    Anomaly_Kind a = AnomalyKindVersionJump ∧ Anomaly_PackageRef a = ref ∧
    Anomaly_Evidence a !! "breaking_delta" = Some (AInt (breaking prev curr)) ∧
    Anomaly_Confidence a =
      (let calm := length (filter (λ j, j = 0%Z) (jumpsOf (pre ++ [prev]))) in
       if decide (5 ≤ calm ∧ (5 ≤ breaking prev curr)%Z) then ConfidenceHigh
       else if decide (2 ≤ length pre) then ConfidenceMedium else ConfidenceLow).
Proof.
  intros Hs r. unfold r, Detect.
  destruct (reverse (extractVersionsOldestFirst history)) as [|curr [|prev rpre]] eqn:Hrev.
  1,2: left; split; [done|]; intros pre prev0 curr0 Heq; rewrite Heq, reverse_app in Hrev; done.
  assert (extractVersionsOldestFirst history = reverse rpre ++ [prev; curr]) as Hvs.
  { by rewrite <- (reverse_involutive (extractVersionsOldestFirst history)), Hrev,
      !reverse_cons, <- app_assoc. }
  rewrite Hvs in *. clear Hrev. set (pre := reverse rpre) in *.
  rewrite jumpsOf_snoc, last_snoc, length_app, take_app_length'
    by (simpl; lia). cbn [default from_option]. unfold id.
  assert (small prev ∧ small curr) as [Hp Hc].
  { rewrite Forall_app, !Forall_cons in Hs. tauto. }
  rewrite breakingDelta_small by done. pose proof (isUnusual_spec pre prev curr Hs) as Hu.
  case_bool_decide as Hpos.
  { left. split; [done|]. intros pre0 prev0 curr0 Heq.
    apply app_inj_2 in Heq as [-> [= -> ->]]; [|done]. intros [? _]. lia. }
  destruct (isUnusualVsHistory _ _) eqn:E; simpl.
  - right. eexists _, pre, prev, curr. split_and!; [done|done|by apply Hu|done|done| |].
    + simpl. unfold evidence_of. simpl. by rewrite !lookup_insert_ne, lookup_insert_eq by done.
    + simpl. unfold classify. rewrite jumpsOf_length. destruct Hu as [[Hd _] _]; [done|].
      repeat case_bool_decide; repeat case_decide; simpl; try done; lia.
  - left. split; [done|]. intros pre0 prev0 curr0 Heq.
    apply app_inj_2 in Heq as [-> [= -> ->]]; [|done]. intros Hj. by apply Hu in Hj.
Qed.
End properties.

(** ** A witness

    Versions of three numbers, and a package that goes from 1.0.1 to
    7.0.0. *)
Definition parse_dotted (s : string) : option (Z * Z * string) :=
  match Split s "."%char with
  | [a; b; c] => x ← digits_value a 0; y ← digits_value b 0; Some (x, y, s)
  | _ => None
  end.

Definition dotted_semver : Semver := {|
  Constraints := unit;
  Version := Z * Z * string;
  NewConstraint _ := Ok tt;
  NewVersion := parse_dotted;
  Check _ _ := true;
|}.

#[local] Existing Instance dotted_semver.

#[local] Instance dotted_fields : SemverFields := {|
  Major v := v.1.1;
  Minor v := v.1.2;
  Prerelease _ := "";
  Equal u v := bool_decide (u = v);
  Original v := v.2;
|}.

#[local] Instance still_env : Env :=
  {| call_at _ := MkCall reference_runtime None 1000 all_executed; ulid_make _ := "" |}.

Definition version_snapshot (v : string) : PublisherSnapshot :=
  MkPublisherSnapshot 1 "npm:axios" 900 [] v None "token" None "".

Definition jumping_history : list PublisherSnapshot :=
  version_snapshot <$> ["7.0.0"; "1.0.1"; "1.0.1"; "1.0.0"].

Lemma versionjump_Detect_exact_witness :
  ∃ a, (Detect "npm:axios" jumping_history (MkWorld () [] 0)).1 = Ok [a] ∧
    Anomaly_Evidence a !! "breaking_delta" = Some (AInt 6) ∧
    Anomaly_Confidence a = ConfidenceLow.
Proof.
  destruct (versionjump_Detect_exact "npm:axios" jumping_history (MkWorld () [] 0))
    as [[Hr _]|(a & pre & prev & curr & Hr & Hvs & _ & _ & _ & He & Hc)].
  - change (extractVersionsOldestFirst jumping_history) with
      [(1, 0, "1.0.0"); (1, 0, "1.0.1"); (7, 0, "7.0.0")]%Z.
    repeat (apply Forall_cons; split; [split; simpl; lia|]). by apply Forall_nil.
  - vm_compute in Hr. discriminate.
  - exists a. split; [exact Hr|]. change (extractVersionsOldestFirst jumping_history) with
      ([(1, 0, "1.0.0")]%Z ++ [(1, 0, "1.0.1"); (7, 0, "7.0.0")]%Z) in Hvs.
    apply app_inj_2 in Hvs as [<- [= <- <-]]; [|reflexivity]. split; [exact He|exact Hc].
Defined.
