(* ===== verification/Matching.v ===== *)
(** * Matching and opening incidents (engine/internal/api/matching.go)

    The forward path (one new IoC against the stored SBOMs, through the
    bulk package lookup), the retroactive path (one new SBOM against the
    stored IoCs), and the shared routine that opens one incident per fresh
    (IoC, component) pair. Proved against the storage laws. *)

From S2P Require Import Prelude GoStrings GoText Domain Matcher Storage MemoryStore Engine Samples.
From stdpp Require Import options.

(** ** Definitions *)

Definition iocLookupKey (ioc : IoC) : option (string * string) :=
  if bool_decide (IoC_Kind ioc = IoCKindPackageVersion) then
    match IoC_PackageVersion ioc with
    | None => None
    | Some b => Some (IoC_Ecosystem ioc, IoCPackageVersion_Name b)
    end
  else if bool_decide (IoC_Kind ioc = IoCKindPackageRange) then
    match IoC_PackageRange ioc with
    | None => None
    | Some b => Some (IoC_Ecosystem ioc, IoCPackageRange_Name b)
    end
  else if bool_decide (IoC_Kind ioc = IoCKindPublisherAnomaly) then
    match IoC_AnomalyBody ioc with
    | None => None
    | Some b =>
        let ref := IoCBodyAnomaly_PackageRef b in
        let idx := Index ref ":" in
        if bool_decide (idx ≤ 0)%Z
           || bool_decide (idx = Z.of_nat (String.length ref) - 1)%Z then None
        else Some (str_take (Z.to_nat idx) ref, str_drop (S (Z.to_nat idx)) ref)
    end
  else None.

(** The one-package SBOM a row is wrapped in. *)
Definition synthetic (ecosystem : string) (p : PackageVersion) : SBOM :=
  MkSBOM "" "" "" ecosystem 0 [p] "" 0.

Fixpoint matchLoop `{Semver} (ioc : IoC) (ecosystem : string) (pkgs : list SBOMPackageRef)
    (seen : gset string) (out : list string) : list string :=
  match pkgs with
  | [] => out
  | p :: pkgs' =>
      let ref := SBOMPackageRef_ComponentRef p in
      if bool_decide (ref ∈ seen) then matchLoop ioc ecosystem pkgs' seen out
      else if negb (Match_Matched (Evaluate ioc (synthetic ecosystem (SBOMPackageRef_Package p))))
      then matchLoop ioc ecosystem pkgs' seen out
      else matchLoop ioc ecosystem pkgs' ({[ref]} ∪ seen) (out ++ [ref])
  end.

Definition matchPackagesAgainstIoC `{Semver} (ioc : IoC) (ecosystem : string)
    (pkgs : list SBOMPackageRef) : list string :=
  matchLoop ioc ecosystem pkgs ∅ [].

Definition isNonTerminal (state : string) : bool :=
  bool_decide (state ≠ StateClosed) && bool_decide (state ≠ StateDismissed).

Record matchPair := MkMatchPair {
  matchPair_IoCID : string;
  matchPair_ComponentRef : string;
}.

#[global] Instance matchPair_eq_dec : EqDecision matchPair.
Proof. solve_decision. Defined.

(** The index of non-terminal incidents. *)
Abbreviation openIndex := (gmap (string * string) Incident).

Definition indexIncident (open : openIndex) (inc : Incident) : openIndex :=
  if negb (isNonTerminal (Incident_State inc)) then open
  else foldl (λ open r, <[(Incident_IoCID inc, r) := inc]> open) open
         (Incident_AffectedComponentsSnapshot inc).

Definition newIncident (id : string) (p : matchPair) (now : Time) : Incident :=
  MkIncident id (matchPair_IoCID p) StatePending now now [matchPair_ComponentRef p] [].

Definition incidentOpened (inc : Incident) (now : Time) : DomainEvent :=
  IncidentOpenedEvent (Incident_ID inc) (Incident_IoCID inc)
    (Incident_AffectedComponentsSnapshot inc) now.

Section server.
Context {St : Type} `{Env, UnicodeCase, !Storage St, Semver}.

Fixpoint openLoop (now : Time) (pairs : list matchPair) (open : openIndex)
    (opened : list string) : M St (list string * option error) :=
  match pairs with
  | [] => mret (opened, None)
  | p :: pairs' =>
      let key := (matchPair_IoCID p, matchPair_ComponentRef p) in
      if bool_decide (is_Some (open !! key)) then openLoop now pairs' open opened
      else
        id ← ulid_Make;
        let incident := newIncident id p now in
        err ← st_write (λ k, UpsertIncident k incident);
        match err with
        | Some e => mret (opened, Some e)
        | None =>
            publish (incidentOpened incident now);;
            openLoop now pairs' (<[key := incident]> open) (opened ++ [id])
        end
  end.

Definition openIncidentsForMatches (pairs : list matchPair) : M St (list string * option error) :=
  if bool_decide (length pairs = 0) then mret ([], None)
  else
    existing ← st_read (λ k, ListIncidents k);
    match existing with
    | Err e => mret ([], Some e)
    | Ok existing =>
        let open := foldl indexIncident ∅ existing in
        now ← time_Now;
        openLoop now pairs open []
    end.

Fixpoint retroLoop (sbom : SBOM) (iocs : list IoC) (pairs : list matchPair)
    (matchedIoCs : gset string) : list matchPair * gset string :=
  match iocs with
  | [] => (pairs, matchedIoCs)
  | ioc :: iocs' =>
      if negb (Match_Matched (Evaluate ioc sbom)) then retroLoop sbom iocs' pairs matchedIoCs
      else if bool_decide (IoC_ID ioc ∈ matchedIoCs) then retroLoop sbom iocs' pairs matchedIoCs
      else retroLoop sbom iocs'
             (pairs ++ [MkMatchPair (IoC_ID ioc) (SBOM_ComponentRef sbom)])
             ({[IoC_ID ioc]} ∪ matchedIoCs)
  end.

Definition retroactiveMatch (sbom : SBOM) : M St (result (list matchPair * list string)) :=
  iocs ← st_read (λ k, ListIoCs k);
  match iocs with
  | Err e => mret (Err e)
  | Ok iocs =>
      let '(pairs, matchedIoCs) := retroLoop sbom iocs [] ∅ in
      ids ← range_order (gset_to_gmap () matchedIoCs);
      mret (Ok (pairs, ids.*1))
  end.

Definition forwardMatch (ioc : IoC) : M St (result (list matchPair * list string)) :=
  match iocLookupKey ioc with
  | None => mret (Ok ([], []))
  | Some (eco, name) =>
      pkgs ← st_read (λ k, ListSBOMPackages k eco name);
      match pkgs with
      | Err e => mret (Err e)
      | Ok pkgs =>
          let matchedComponents := matchPackagesAgainstIoC ioc eco pkgs in
          mret (Ok (MkMatchPair (IoC_ID ioc) <$> matchedComponents, matchedComponents))
      end
  end.
End server.

(** * Properties *)

(** ** Opening incidents *)

(** An incident someone still has to act on: neither closed nor dismissed. *)
Definition actionable (inc : Incident) : Prop :=
  Incident_State inc ≠ StateClosed ∧ Incident_State inc ≠ StateDismissed.

#[global] Instance actionable_dec inc : Decision (actionable inc).
Proof. unfold actionable. apply _. Defined.

Lemma isNonTerminal_actionable inc : isNonTerminal (Incident_State inc) = true ↔ actionable inc.
Proof. unfold isNonTerminal. by rewrite andb_true_iff, !bool_decide_eq_true. Qed.

(** Some actionable incident covers the pair. *)
Definition open_for (v : View) (p : matchPair) : Prop :=
  ∃ id inc, v_incidents v !! id = Some inc ∧ actionable inc ∧
    Incident_IoCID inc = matchPair_IoCID p ∧
    matchPair_ComponentRef p ∈ Incident_AffectedComponentsSnapshot inc.

(** What the routine should open: the pairs that are not covered, each
    once, in order. [seen] holds the pairs dealt with so far. *)
Fixpoint fresh_pairs (covered : matchPair → bool) (seen : list matchPair)
    (pairs : list matchPair) : list matchPair :=
  match pairs with
  | [] => []
  | p :: pairs' =>
      if covered p || bool_decide (p ∈ seen) then fresh_pairs covered seen pairs'
      else p :: fresh_pairs covered (p :: seen) pairs'
  end.

Definition pair_key (p : matchPair) : string * string :=
  (matchPair_IoCID p, matchPair_ComponentRef p).

#[global] Instance pair_key_inj : Inj (=) (=) pair_key.
Proof. intros [] [] [= -> ->]. done. Qed.

Lemma indexIncident_lookup open inc key :
  is_Some (indexIncident open inc !! key) ↔
  is_Some (open !! key) ∨
  (actionable inc ∧ Incident_IoCID inc = key.1 ∧
   key.2 ∈ Incident_AffectedComponentsSnapshot inc).
Proof.
  rewrite <- isNonTerminal_actionable. unfold indexIncident. destruct (isNonTerminal (Incident_State inc)); simpl; [|naive_solver].
  generalize (Incident_AffectedComponentsSnapshot inc) as refs. intros refs. revert open.
  induction refs as [|r refs IH]; intros open; simpl; [set_solver|].
  rewrite IH. destruct key as [i r']. simpl.
  destruct (decide ((Incident_IoCID inc, r) = (i, r'))) as [Heq|Hne].
  - rewrite Heq, lookup_insert_eq. simplify_eq. set_solver.
  - rewrite lookup_insert_ne by done. set_unfold. naive_solver.
Qed.

Lemma index_lookup open incs key :
  is_Some (foldl indexIncident open incs !! key) ↔
  is_Some (open !! key) ∨ ∃ inc, inc ∈ incs ∧ actionable inc ∧
    Incident_IoCID inc = key.1 ∧ key.2 ∈ Incident_AffectedComponentsSnapshot inc.
Proof.
  revert open. induction incs as [|inc incs IH]; intros open; simpl; [set_solver|].
  rewrite IH, indexIncident_lookup. set_solver.
Qed.

Definition put_incidents (incs : list Incident) (v : View) : View :=
  foldl (λ v inc, put_incident inc v) v incs.

(** ULIDs are not reused: the ones still to be minted name no record. *)
Definition ids_fresh `{Env} (v : View) (t : nat) : Prop :=
  ∀ t', t ≤ t' → v_incidents v !! ulid_make t' = None ∧ v_sboms v !! ulid_make t' = None ∧
    remediation_fresh v (ulid_make t').

Lemma ids_fresh_later `{Env} v t t' : ids_fresh v t → t ≤ t' → ids_fresh v t'.
Proof. intros Hf Hle u Hu. apply Hf. lia. Qed.

(** Replacing or adding an incident under an id already minted. *)
Lemma ids_fresh_put_incident `{Env} v t i :
  ids_fresh v t → (∀ u, t ≤ u → Incident_ID i ≠ ulid_make u) →
  (∀ u r, t ≤ u → r ∈ Incident_Remediations i → Remediation_ID r ≠ ulid_make u) →
  ids_fresh (put_incident i v) t.
Proof.
  intros Hf Hid Hrem u Hu. destruct (Hf u Hu) as (Hi & Hs & Hr). simpl. split_and!; [|done|].
  - rewrite lookup_insert_ne; [done|]. by apply Hid.
  - intros id j r. simpl. intros [[_ <-]|[_ Hj]]%lookup_insert_Some Hin; [by apply Hrem|by eapply Hr].
Qed.

Section open_incidents.
Context {St : Type} `{Env, UnicodeCase, !Storage St, !StorageLaws St, Semver}.
Implicit Types w : World St.

(** The incidents opened for [ps] from tick [t] on: each takes three
    effects, the ULID, the write and the event. *)
Fixpoint new_incidents (t : nat) (now : Time) (ps : list matchPair) : list Incident :=
  match ps with
  | [] => []
  | p :: ps' => newIncident (ulid_make t) p now :: new_incidents (3 + t) now ps'
  end.

(** The effect of opening incidents for the pairs [fresh] from tick [t],
    view [v] and events [evs]: all of them, or the first [n] when a storage
    call fails (and then the next record may be stored without its event). *)
Definition Opened (now : Time) (t : nat) (v : View) (evs : list DomainEvent)
    (fresh : list matchPair) (opened : list string)
    (r : list string * option error) (w' : World St) : Prop :=
  ∃ n, let news := new_incidents t (keep_time now) (take n fresh) in
    r.1 = opened ++ (Incident_ID <$> news) ∧
    w_events w' = evs ++ ((λ inc, incidentOpened inc now) <$> news) ∧
    store_inv (w_store w') ∧
    match r.2 with
    | None => n = length fresh ∧ w_tick w' = 3 * n + t ∧
        view (w_store w') = put_incidents news v
    | Some _ => n ≤ length fresh ∧ 3 * n + t ≤ w_tick w' ∧ (∃ k, ¬ answered (call_at k)) ∧
        (view (w_store w') = put_incidents news v ∨
         view (w_store w') = put_incidents (new_incidents t (keep_time now) (take (S n) fresh)) v ∧
         3 * n + t < w_tick w')
    end.

(** The backend takes the ids of the pair. *)
Definition pair_accepted (p : matchPair) : Prop :=
  accepts_text (matchPair_IoCID p) ∧ accepts_text (matchPair_ComponentRef p).

Lemma newIncident_accepted id p now :
  plain id = true → pair_accepted p → accepts_incident (newIncident id p now).
Proof. intros Hid [? ?]. repeat constructor; [by apply accepts_plain|done|by apply accepts_plain|done]. Qed.

Lemma openLoop_spec now pairs open opened covered seen w :
  ulids_ok → store_inv (w_store w) → ids_fresh (view (w_store w)) (w_tick w) →
  Forall pair_accepted pairs →
  (∀ p, is_Some (open !! pair_key p) ↔ covered p = true ∨ p ∈ seen) →
  wp (openLoop now pairs open opened)
    (Opened now (w_tick w) (view (w_store w)) (w_events w)
       (fresh_pairs covered seen pairs) opened) w.
Proof.
  intros Hulid. revert open opened seen w.
  induction pairs as [|p pairs IH]; intros open opened seen w Hinv Hfresh Hacc Hopen;
    cbn [openLoop fresh_pairs].
  { apply wp_ret. exists 0. simpl. rewrite !app_nil_r. split_and!; done. }
  case_bool_decide as Hkey.
  { apply Hopen in Hkey. assert (covered p || bool_decide (p ∈ seen) = true) as ->.
    { apply orb_true_iff. by rewrite bool_decide_eq_true. }
    apply Forall_cons in Hacc as [_ ?]. by apply IH. }
  apply Forall_cons in Hacc as [Hp Hacc].
  assert (covered p || bool_decide (p ∈ seen) = false) as ->.
  { apply orb_false_iff. rewrite bool_decide_eq_false, <- not_true_iff_false.
    split; intros ?; apply Hkey, Hopen; auto. }
  apply wp_bind, wp_ulid_Make, wp_bind.
  eapply (wp_write _ (put_incident (newIncident (ulid_make (w_tick w)) p (keep_time now))));
    [apply UpsertIncident_law; [done|]| |].
  { unfold stored_remediations. simpl. by destruct (Hfresh (w_tick w)) as [-> _]. }
  - intros s' Hs' _ Hview. apply wp_bind, wp_publish. simpl in *.
    eapply wp_mono; [apply (IH _ _ (p :: seen)); [done| |done|]|].
    { simpl. rewrite Hview. apply ids_fresh_put_incident; [eapply ids_fresh_later; [exact Hfresh|lia]| |].
      - intros u Hu Heq%(ulid_inj Hulid). simpl in *. lia.
      - intros u r _ Hr. by apply not_elem_of_nil in Hr. }
    { intros q. destruct (decide (p = q)) as [->|Hne].
      - unfold pair_key. rewrite lookup_insert_eq. set_solver.
      - rewrite lookup_insert_ne by (intros Heq; by apply (inj pair_key) in Heq).
        rewrite Hopen. set_solver. }
    intros [ids err] w' (n & Hids & Hev & Hinv' & Hres). exists (S n). simpl in *.
    rewrite Hids, Hev, <- !(assoc_L (++)). split_and!; try done.
    destruct err; simpl in *; rewrite Hview in Hres; naive_solver lia.
  - intros s' e Hs' Hans Hview. apply wp_ret. exists 0. simpl in *. rewrite !app_nil_r.
    split_and!; [done..|lia|lia| |].
    { eexists. intros [[] _]%Hans. by apply newIncident_accepted; [apply ulid_plain|]. }
    destruct Hview; [right|left]; [split; [done|lia]|done].
Qed.

(** The executable form of [open_for]. *)
Definition covers (p : matchPair) (inc : Incident) : bool :=
  bool_decide (actionable inc) && bool_decide (Incident_IoCID inc = matchPair_IoCID p)
  && bool_decide (matchPair_ComponentRef p ∈ Incident_AffectedComponentsSnapshot inc).

Definition open_forb (v : View) (p : matchPair) : bool :=
  existsb (covers p) (values (v_incidents v)).

Lemma covers_true p inc :
  covers p inc = true ↔ actionable inc ∧
    Incident_IoCID inc = matchPair_IoCID p ∧
    matchPair_ComponentRef p ∈ Incident_AffectedComponentsSnapshot inc.
Proof. unfold covers. rewrite !andb_true_iff, !bool_decide_eq_true. tauto. Qed.

Lemma open_forb_spec v p : open_forb v p = true ↔ open_for v p.
Proof.
  unfold open_forb, open_for. rewrite existsb_exists.
  setoid_rewrite <- list_elem_of_In. setoid_rewrite elem_of_values.
  setoid_rewrite covers_true. naive_solver.
Qed.

Lemma elem_of_listed (l : list Incident) i :
  i ∈ listed_incident <$> l ↔ ∃ j, i = listed_incident j ∧ j ∈ l.
Proof. apply list_elem_of_fmap. Qed.

Lemma openIncidentsForMatches_spec pairs w :
  ulids_ok → store_inv (w_store w) → ids_fresh (view (w_store w)) (w_tick w) →
  Forall pair_accepted pairs →
  wp (openIncidentsForMatches pairs) (λ r w', ∃ now t, w_tick w ≤ t ∧
    Opened now t (view (w_store w)) (w_events w)
      (fresh_pairs (open_forb (view (w_store w))) [] pairs) [] r w') w.
Proof.
  intros Hulid Hinv Hfresh Hacc. unfold openIncidentsForMatches. case_bool_decide as Hlen.
  { apply nil_length_inv in Hlen as ->. apply wp_ret. exists 0%Z, (w_tick w).
    split; [lia|]. exists 0. simpl. rewrite app_nil_r. split_and!; done. }
  apply wp_bind. eapply wp_read; [by apply ListIncidents_law| |].
  - intros existing [Hperm _]. apply wp_bind, wp_time_Now.
    eapply wp_mono; [apply openLoop_spec; [done|done| |done|]|].
    { eapply ids_fresh_later; [exact Hfresh|simpl; lia]. }
    + intros p. rewrite index_lookup. rewrite open_forb_spec. unfold open_for.
      setoid_rewrite Hperm. setoid_rewrite elem_of_listed. setoid_rewrite elem_of_values.
      rewrite lookup_empty. simpl. split.
      * intros [[? ?]|?]; [done|]. left. naive_solver.
      * intros [?|?%not_elem_of_nil]; [|done]. right. naive_solver.
    + intros r w' HO. do 2 eexists. split; [|exact HO]. simpl. lia.
  - intros e Hans. apply wp_ret. exists 0%Z, (S (w_tick w)). split; [lia|].
    exists 0. simpl. rewrite app_nil_r. split_and!; try done; [lia..|by eexists|by left].
Qed.
End open_incidents.

(** ** What opening achieves *)

(** At most one actionable incident per (IoC, component). *)
Definition unique_open (v : View) : Prop :=
  ∀ id1 id2 i1 i2 p,
    v_incidents v !! id1 = Some i1 → v_incidents v !! id2 = Some i2 →
    covers p i1 = true → covers p i2 = true → id1 = id2.

Lemma elem_of_fresh_pairs covered seen pairs p :
  p ∈ fresh_pairs covered seen pairs ↔ p ∈ pairs ∧ covered p = false ∧ p ∉ seen.
Proof.
  revert seen. induction pairs as [|q pairs IH]; intros seen; simpl; [set_solver|].
  destruct (covered q) eqn:Hq; simpl.
  { rewrite IH. split; [set_solver|]. intros (Hin & ? & ?).
    apply elem_of_cons in Hin as [->|?]; [congruence|done]. }
  case_bool_decide as Hs; simpl.
  - rewrite IH. set_solver.
  - rewrite elem_of_cons, IH. destruct (decide (p = q)) as [->|]; set_solver.
Qed.

Lemma fresh_pairs_NoDup covered seen pairs : NoDup (fresh_pairs covered seen pairs).
Proof.
  revert seen. induction pairs as [|q pairs IH]; intros seen; simpl; [constructor|].
  case_match; [done|]. constructor; [|done]. rewrite elem_of_fresh_pairs. set_solver.
Qed.

Section new_incidents_lemmas.
Context `{Env}.

Lemma elem_of_new_incidents t now ps inc :
  inc ∈ new_incidents t now ps ↔
  ∃ i p, ps !! i = Some p ∧ inc = newIncident (ulid_make (3 * i + t)) p now.
Proof.
  revert t. induction ps as [|p ps IH]; intros t; simpl; [set_solver|].
  rewrite elem_of_cons, IH. split.
  - intros [->|(i & q & Hi & ->)]; [by exists 0, p|]. exists (S i), q.
    split; [done|]. f_equal. f_equal. lia.
  - intros ([|i] & q & Hi & ->); simpl in Hi; [left; by simplify_eq|]. right.
    exists i, q. split; [done|]. f_equal. f_equal. lia.
Qed.

Lemma new_incidents_pairs t now ps :
  (λ inc, (Incident_IoCID inc, Incident_AffectedComponentsSnapshot inc)) <$>
    new_incidents t now ps =
  (λ p, (matchPair_IoCID p, [matchPair_ComponentRef p])) <$> ps.
Proof. revert t. induction ps as [|p ps IH]; intros t; simpl; [done|]. by rewrite IH. Qed.

Lemma covers_newIncident id p now q : covers q (newIncident id p now) = true ↔ q = p.
Proof.
  rewrite covers_true. simpl. rewrite list_elem_of_singleton. destruct p, q; simpl.
  split; [intros (_ & -> & ->); done|]. by intros [= -> ->].
Qed.

(** The ids are distinct from one another and from the stored ones. *)
Lemma new_incidents_NoDup t now ps :
  Inj (=) (=) ulid_make → NoDup (Incident_ID <$> new_incidents t now ps).
Proof.
  intros Hinj. revert t. induction ps as [|p ps IH]; intros t; simpl; constructor; [|done].
  rewrite list_elem_of_fmap. intros (inc & Heq & (i & q & _ & ->)%elem_of_new_incidents).
  simpl in Heq. apply (inj ulid_make) in Heq. lia.
Qed.
End new_incidents_lemmas.

Lemma put_incidents_other incs v :
  v_components (put_incidents incs v) = v_components v ∧
  v_sboms (put_incidents incs v) = v_sboms v ∧
  v_iocs (put_incidents incs v) = v_iocs v.
Proof. revert v. induction incs as [|i incs IH]; intros v; [done|]. apply (IH (put_incident i v)). Qed.

Lemma put_incidents_lookup incs v id inc :
  NoDup (Incident_ID <$> incs) →
  (∀ i, i ∈ incs → v_incidents v !! Incident_ID i = None) →
  v_incidents (put_incidents incs v) !! id = Some inc ↔
  v_incidents v !! id = Some inc ∨ inc ∈ incs ∧ Incident_ID inc = id.
Proof.
  revert v. induction incs as [|i incs IH]; intros v Hnd Hfresh; [set_solver|].
  apply NoDup_cons in Hnd as [Hi Hnd]. change (put_incidents (i :: incs) v) with
    (put_incidents incs (put_incident i v)). rewrite IH; [|done|].
  - simpl. rewrite lookup_insert_Some, elem_of_cons. specialize (Hfresh i ltac:(left)).
    split; [naive_solver|]. intros [Hold|[[->|Hin] <-]]; [|naive_solver|naive_solver].
    left. right. split; [|done]. intros <-. congruence.
  - intros j Hj. simpl. rewrite lookup_insert_ne; [apply Hfresh; by right|].
    intros Heq. apply Hi. rewrite Heq. by apply list_elem_of_fmap_2.
Qed.

Section opened_view.
Context `{Env}.
Context (Hinj : Inj (=) (=) ulid_make).

(** The incidents after opening [ps] are the old ones and the new ones. *)
Lemma opened_lookup t now ps v id inc :
  ids_fresh v t →
  v_incidents (put_incidents (new_incidents t now ps) v) !! id = Some inc ↔
  v_incidents v !! id = Some inc ∨ inc ∈ new_incidents t now ps ∧ Incident_ID inc = id.
Proof using Hinj.
  intros Hfresh. apply put_incidents_lookup; [by apply new_incidents_NoDup|].
  intros i (n & p & _ & ->)%elem_of_new_incidents. simpl. apply Hfresh. lia.
Qed.

(** The ids still to be minted stay fresh. *)
Lemma ids_fresh_opened v t0 t t' now ps :
  ids_fresh v t0 → t0 ≤ t → t0 ≤ t' → (∀ i, i < length ps → 3 * i + t < t') →
  ids_fresh (put_incidents (new_incidents t now ps) v) t'.
Proof using Hinj.
  intros Hf Hle Hle' Hlen u Hu. destruct (put_incidents_other (new_incidents t now ps) v) as (_ & -> & _).
  destruct (Hf u ltac:(lia)) as (Hi & Hs & Hr).
  assert (ids_fresh v t) as Hft by (by eapply ids_fresh_later).
  split_and!; [|done|].
  - apply eq_None_not_Some. intros [inc E]. rewrite opened_lookup in E by done.
    destruct E as [Hold|[(i & p & Hip & ->)%elem_of_new_incidents Heq]]; [congruence|].
    simpl in Heq. apply (inj ulid_make) in Heq. apply lookup_lt_Some, Hlen in Hip. lia.
  - intros id j r. rewrite opened_lookup by done.
    intros [Hj|[(i & p & _ & ->)%elem_of_new_incidents _]] Hin; [by eapply Hr|].
    by apply not_elem_of_nil in Hin.
Qed.

Lemma opened_open_for t now ps v p :
  ids_fresh v t →
  open_for (put_incidents (new_incidents t now ps) v) p ↔ open_for v p ∨ p ∈ ps.
Proof using Hinj.
  intros Hfresh. unfold open_for. setoid_rewrite opened_lookup; [|done].
  setoid_rewrite <- covers_true. split.
  - intros (id & inc & [Hold|[Hnew Hid]] & Hc); [left; eauto|].
    right. apply elem_of_new_incidents in Hnew as (i & q & Hq & ->).
    apply covers_newIncident in Hc as ->. by eapply list_elem_of_lookup_2.
  - intros [(id & inc & Hold & Hc)|[i Hi]%list_elem_of_lookup].
    + exists id, inc. auto.
    + do 2 eexists. split; [right; split; [apply elem_of_new_incidents; by exists i, p|done]|].
      by apply covers_newIncident.
Qed.

Lemma opened_unique t now ps v :
  ids_fresh v t → NoDup ps → (∀ p, p ∈ ps → ¬ open_for v p) →
  unique_open v → unique_open (put_incidents (new_incidents t now ps) v).
Proof using Hinj.
  intros Hfresh Hnd Hnew Huniq id1 id2 i1 i2 p.
  rewrite !opened_lookup by done.
  assert (∀ id inc i q, v_incidents v !! id = Some inc → covers p inc = true →
    ps !! i = Some q → covers p (newIncident (ulid_make (3 * i + t)) q now) = true → False) as Hcross.
  { intros id inc i q Hid Hc Hq ->%covers_newIncident.
    apply (Hnew q); [by eapply list_elem_of_lookup_2|].
    exists id, inc. split; [done|]. by apply covers_true. }
  intros [H1|[(n1 & q1 & Hq1 & ->)%elem_of_new_incidents <-]]
         [H2|[(n2 & q2 & Hq2 & ->)%elem_of_new_incidents <-]] Hc1 Hc2.
  - by eapply Huniq.
  - exfalso. eauto.
  - exfalso. eauto.
  - apply covers_newIncident in Hc1, Hc2. subst.
    assert (n1 = n2) as -> by (by eapply NoDup_lookup). done.
Qed.
End opened_view.

Section opening.
Context {St : Type} `{Env, UnicodeCase, !Storage St, !StorageLaws St, Semver}.
Implicit Types w : World St.

(** The summary clients use: what a successful call did to the view. *)
Lemma openIncidents_summary pairs w :
  ulids_ok → store_inv (w_store w) → ids_fresh (view (w_store w)) (w_tick w) →
  Forall pair_accepted pairs →
  wp (openIncidentsForMatches pairs) (λ r w',
    store_inv (w_store w') ∧ w_tick w ≤ w_tick w' ∧
    ((∀ k, answered (call_at k)) → r.2 = None) ∧
    ∃ now t ps, w_tick w ≤ t ∧ (∀ i, i < length ps → 3 * i + t < w_tick w') ∧
      (∀ p, p ∈ ps → p ∈ pairs ∧ ¬ open_for (view (w_store w)) p) ∧ NoDup ps ∧
      view (w_store w') = put_incidents (new_incidents t now ps) (view (w_store w)) ∧
      (r.2 = None → ∀ p, p ∈ pairs → p ∈ ps ∨ open_for (view (w_store w)) p)) w.
Proof.
  intros Hulid Hinv Hfresh Hacc. eapply wp_mono; [by apply openIncidentsForMatches_spec|].
  intros r w' (now & t & Ht & n & _ & _ & Hinv' & Hr).
  set (fresh := fresh_pairs _ [] pairs) in *.
  assert (∀ m p, p ∈ take m fresh → p ∈ pairs ∧ ¬ open_for (view (w_store w)) p) as Hsub.
  { intros m p Hp. apply elem_of_take in Hp as (i & Hi & _).
    apply list_elem_of_lookup_2, elem_of_fresh_pairs in Hi as (? & Hc & _).
    rewrite <- open_forb_spec, Hc. done. }
  assert (∀ m, NoDup (take m fresh)) as Hnd.
  { intros m. eapply sublist_NoDup; [apply fresh_pairs_NoDup|]. apply sublist_take. }
  destruct r as [ids [e|]]; simpl in *.
  - destruct Hr as (Hn & Htick & [k Hk] & Hview). split_and!; [done|lia|naive_solver|].
    assert (∃ m, (∀ i, i < length (take m fresh) → 3 * i + t < w_tick w') ∧ view (w_store w') =
      put_incidents (new_incidents t (keep_time now) (take m fresh)) (view (w_store w))) as (m & Hlen & Hv).
    { destruct Hview as [?|[? ?]]; [exists n|exists (S n)]; split; [|done| |done];
        intros i; rewrite length_take; lia. }
    exists (keep_time now), t, (take m fresh). split_and!; try done. naive_solver.
  - destruct Hr as (-> & Htick & Hview). rewrite firstn_all in Hview.
    split_and!; [done|lia|done|]. specialize (Hsub (length fresh)). specialize (Hnd (length fresh)).
    rewrite firstn_all in Hsub, Hnd.
    exists (keep_time now), t, fresh. split_and!; try done; [lia..|]. intros _ p Hp.
    unfold fresh. rewrite elem_of_fresh_pairs, <- open_forb_spec.
    destruct (open_forb (view (w_store w)) p); [by right|left]. set_solver.
Qed.

(** C3: opening incidents is exact. When the call succeeds (as it does
    whenever storage answers), the pairs that are covered by an actionable
    incident afterwards are those covered before and those requested; no
    stored incident is changed; at most one actionable incident per pair
    stays at most one; and what was added is one pending incident per
    uncovered pair, each announced by one [incident.opened] event, in
    order. *)
Theorem openIncidentsForMatches_exact pairs w :
  ulids_ok → store_inv (w_store w) → ids_fresh (view (w_store w)) (w_tick w) →
  Forall pair_accepted pairs →
  wp (openIncidentsForMatches pairs) (λ r w',
    ((∀ k, answered (call_at k)) → r.2 = None) ∧
    (r.2 = None →
     let v := view (w_store w) in
     let v' := view (w_store w') in
     (∀ p, open_for v' p ↔ open_for v p ∨ p ∈ pairs) ∧
     (∀ id inc, v_incidents v !! id = Some inc → v_incidents v' !! id = Some inc) ∧
     (unique_open v → unique_open v') ∧
     ∃ now news, r.1 = Incident_ID <$> news ∧ NoDup r.1 ∧
       w_events w' = w_events w ++ ((λ inc, incidentOpened inc now) <$> news) ∧
       (∀ id inc, v_incidents v' !! id = Some inc ↔
          v_incidents v !! id = Some inc ∨ inc ∈ news ∧ Incident_ID inc = id) ∧
       Forall (λ inc, Incident_State inc = StatePending ∧ Incident_Remediations inc = []) news ∧
       (λ inc, (Incident_IoCID inc, Incident_AffectedComponentsSnapshot inc)) <$> news =
       (λ p, (matchPair_IoCID p, [matchPair_ComponentRef p])) <$>
         fresh_pairs (open_forb v) [] pairs)) w.
Proof.
  intros Hulid Hinv Hfresh Hacc. pose proof (ulid_inj Hulid) as Hinj.
  eapply wp_mono; [by apply openIncidentsForMatches_spec|].
  intros [ids err] w' (now & t & Ht & n & Hids & Hev & Hinv' & Hr).
  set (fresh := fresh_pairs _ [] pairs) in *. simpl in *.
  destruct err as [e|]; [destruct Hr as (_ & _ & [k Hk] & _); split; [naive_solver|done]|].
  split; [done|]. intros _. destruct Hr as (-> & Htick & Hview). rewrite firstn_all in *.
  assert (ids_fresh (view (w_store w)) t) as Hfresh' by (intros t' ?; apply Hfresh; lia).
  rewrite Hview. split_and!.
  - intros p. rewrite opened_open_for by done. unfold fresh.
    rewrite elem_of_fresh_pairs, <- !open_forb_spec.
    destruct (open_forb (view (w_store w)) p); set_solver.
  - intros id inc Hid. apply opened_lookup; auto.
  - apply opened_unique; [done..|apply fresh_pairs_NoDup|]. intros p Hp.
    apply elem_of_fresh_pairs in Hp as (_ & Hc & _). by rewrite <- open_forb_spec, Hc.
  - exists now, (new_incidents t (keep_time now) fresh). subst ids. split_and!; try done.
    + by apply new_incidents_NoDup.
    + intros id inc. by apply opened_lookup.
    + apply Forall_forall. intros inc (i & p & _ & ->)%elem_of_new_incidents. done.
    + apply new_incidents_pairs.
Qed.

(** A second call with the same pairs, right after a successful one,
    opens nothing, publishes nothing and leaves the stored records as they
    are. *)
Theorem openIncidentsForMatches_idempotent pairs w w' ids r2 w2 :
  ulids_ok → store_inv (w_store w) → ids_fresh (view (w_store w)) (w_tick w) →
  Forall pair_accepted pairs →
  openIncidentsForMatches pairs w = ((ids, None), w') →
  openIncidentsForMatches pairs w' = (r2, w2) →
  r2.1 = [] ∧ w_events w2 = w_events w' ∧ view (w_store w2) = view (w_store w').
Proof.
  intros Hulid Hinv Hfresh Hacc Hrun Hrun2. pose proof (ulid_inj Hulid) as Hinj.
  pose proof (openIncidents_summary pairs w Hulid Hinv Hfresh Hacc) as Hs. unfold wp in Hs. rewrite Hrun in Hs.
  simpl in Hs. destruct Hs as (Hinv' & Htick & _ & now & t & ps & Ht & Hlen & _ & _ & Hview & Hcov).
  assert (ids_fresh (view (w_store w')) (w_tick w')) as Hfresh'.
  { rewrite Hview. apply (ids_fresh_opened Hinj _ (w_tick w)); done. }
  pose proof (openIncidentsForMatches_spec pairs w' Hulid Hinv' Hfresh' Hacc) as Hs2. unfold wp in Hs2.
  rewrite Hrun2 in Hs2. destruct Hs2 as (now2 & t2 & _ & n & Hids & Hev & _ & Hr).
  assert (fresh_pairs (open_forb (view (w_store w'))) [] pairs = []) as Hnil.
  { destruct (fresh_pairs _ [] pairs) as [|p l] eqn:E; [done|]. exfalso.
    assert (p ∈ p :: l) as Hp by left. rewrite <- E in Hp.
    apply elem_of_fresh_pairs in Hp as (Hp & Hc & _).
    assert (open_for (view (w_store w')) p) as Ho%open_forb_spec; [|congruence].
    rewrite Hview. apply opened_open_for; [done| |by apply or_comm, Hcov].
    intros t' ?. apply Hfresh. lia. }
  rewrite Hnil in *. simpl in *. rewrite !take_nil in *. simpl in *.
  rewrite app_nil_r in Hev. split_and!; [done..|].
  destruct (r2.2); [destruct Hr as (_ & _ & _ & [?|[? _]])|destruct Hr as (_ & _ & ?)]; done.
Qed.
End opening.

(** ** The two matching directions *)

(** The component [ref] has a stored SBOM on which the IoC fires. *)
Definition affected `{Semver} (v : View) (ioc : IoC) (ref : string) : Prop :=
  ∃ id b, v_sboms v !! id = Some b ∧ SBOM_ComponentRef b = ref ∧
    Match_Matched (Evaluate ioc b) = true.

(** The IoC names an ecosystem; a package-keyed anomaly carries it in its
    package reference [ecosystem:name], which must name a package. *)
Definition ioc_keyed (ioc : IoC) : Prop :=
  if bool_decide (IoC_Kind ioc = IoCKindPublisherAnomaly) then
    ∀ body eco, IoC_AnomalyBody ioc = Some body → byte_in ":"%char eco = false →
      IoCBodyAnomaly_PackageRef body ≠ eco +:+ ":"
  else IoC_Ecosystem ioc ≠ "".

Section matching.
Context `{Semver}.

Lemma matchLoop_spec ioc eco pkgs seen out :
  NoDup out → (∀ r, r ∈ out ↔ r ∈ seen) →
  NoDup (matchLoop ioc eco pkgs seen out) ∧
  ∀ r, r ∈ matchLoop ioc eco pkgs seen out ↔ r ∈ out ∨
    ∃ row, row ∈ pkgs ∧ SBOMPackageRef_ComponentRef row = r ∧
      Match_Matched (Evaluate ioc (synthetic eco (SBOMPackageRef_Package row))) = true.
Proof.
  revert seen out. induction pkgs as [|row pkgs IH]; intros seen out Hnd Hseen; simpl.
  { split; [done|]. set_solver. }
  case_bool_decide as Hin.
  { destruct (IH seen out Hnd Hseen) as [? Hout]. split; [done|]. intros r. rewrite Hout.
    apply Hseen in Hin. setoid_rewrite elem_of_cons. naive_solver. }
  destruct (Match_Matched (Evaluate ioc _)) eqn:Hm; simpl.
  - destruct (IH ({[SBOMPackageRef_ComponentRef row]} ∪ seen)
      (out ++ [SBOMPackageRef_ComponentRef row])) as [? Hout]; [|set_solver|].
    { apply NoDup_app. split_and!; [done| |apply NoDup_singleton].
      intros x Hx ->%list_elem_of_singleton. by apply Hin, Hseen. }
    split; [done|]. intros r. rewrite Hout, elem_of_app, list_elem_of_singleton.
    setoid_rewrite elem_of_cons. naive_solver.
  - destruct (IH seen out Hnd Hseen) as [? Hout]. split; [done|]. intros r. rewrite Hout.
    setoid_rewrite elem_of_cons. split; [naive_solver|].
    intros [?|(row' & [->|?] & ? & ?)]; [by left|congruence|]. right. eauto.
Qed.

(** The key of a package-keyed anomaly is its reference, cut at the colon. *)
Lemma anomaly_key_cut eco name :
  byte_in ":"%char eco = false → eco ≠ "" → name ≠ "" →
  let ref := eco +:+ ":" +:+ name in
  let idx := Index ref ":" in
  bool_decide (idx ≤ 0)%Z || bool_decide (idx = Z.of_nat (String.length ref) - 1)%Z = false ∧
  str_take (Z.to_nat idx) ref = eco ∧ str_drop (S (Z.to_nat idx)) ref = name.
Proof.
  intros Hc He Hn. simpl. unfold Index.
  change (eco +:+ ":" +:+ name) with (eco +:+ String ":"%char name).
  rewrite index_byte_app by done. rewrite Nat2Z.id, str_length_app.
  assert (String.length eco ≠ 0) by (by destruct eco).
  assert (String.length name ≠ 0) by (by destruct name).
  split_and!; [|apply str_take_app|apply str_drop_sep].
  rewrite !bool_decide_false; [done|cbn [String.length]; lia|lia].
Qed.

#[local] Arguments str_drop : simpl never.
#[local] Arguments str_take : simpl never.

Lemma iocLookupKey_hit ioc b p :
  sbom_wf b → ioc_keyed ioc → p ∈ SBOM_Packages b →
  ecosystem_compatible ioc b → package_hit ioc p →
  iocLookupKey ioc = Some (SBOM_Ecosystem b, PackageVersion_Name p).
Proof.
  intros (Hne & Hcolon & Hpkgs) Hkeyed Hp Hcompat Hhit.
  pose proof (Hpkgs p Hp) as Heco. unfold iocLookupKey.
  assert (IoC_Kind ioc ≠ IoCKindPublisherAnomaly → SBOM_Ecosystem b = IoC_Ecosystem ioc) as Hsame.
  { intros ?. unfold ioc_keyed in Hkeyed. rewrite bool_decide_false in Hkeyed by done.
    by destruct Hcompat as [?|[?|?]]. }
  destruct Hhit as [t Hk Ht Hn|t c v Hk Ht Hc Hn|body Hk Hb Hr Href]; rewrite Hk in *; simpl.
  - rewrite Ht, Hn, Hsame by done. done.
  - rewrite Ht, Hn, Hsame by done. done.
  - assert (PackageVersion_Name p ≠ "") as Hname.
    { intros Hn. unfold ioc_keyed in Hkeyed. rewrite bool_decide_true in Hkeyed by done.
      apply (Hkeyed body (SBOM_Ecosystem b) Hb Hcolon). by rewrite <- Href, Heco, Hn. }
    rewrite Hb, <- Href, Heco.
    destruct (anomaly_key_cut (SBOM_Ecosystem b) (PackageVersion_Name p)) as (-> & -> & ->); done.
Qed.

Lemma iocLookupKey_ecosystem ioc eco name :
  iocLookupKey ioc = Some (eco, name) → IoC_Kind ioc ≠ IoCKindPublisherAnomaly →
  eco = IoC_Ecosystem ioc.
Proof. unfold iocLookupKey. repeat case_match; intros; simplify_eq; go_bool; done. Qed.
End matching.

(** What the bulk lookup finds for [ref]: a package row under the IoC's
    key on which the IoC fires. *)
Definition bulk_hit `{Semver} (v : View) (ioc : IoC) (ref : string) : Prop :=
  ∃ eco name id b p, iocLookupKey ioc = Some (eco, name) ∧ v_sboms v !! id = Some b ∧
    SBOM_ComponentRef b = ref ∧ SBOM_Ecosystem b = eco ∧ p ∈ SBOM_Packages b ∧
    PackageVersion_Name p = name ∧ Match_Matched (Evaluate ioc (synthetic eco p)) = true.

Section directions.
Context `{Semver}.

Lemma Evaluate_synthetic ioc b p :
  Match_Matched (Evaluate ioc (synthetic (SBOM_Ecosystem b) p)) = true ↔
  ecosystem_compatible ioc b ∧ package_hit ioc p.
Proof.
  rewrite Evaluate_Matched. simpl. setoid_rewrite list_elem_of_singleton.
  unfold ecosystem_compatible. simpl. naive_solver.
Qed.

(** The bulk lookup never invents a component ... *)
Lemma bulk_hit_sound v ioc ref : bulk_hit v ioc ref → affected v ioc ref.
Proof.
  intros (eco & name & id & b & p & _ & Hb & Href & <- & Hp & _ & Hm).
  exists id, b. split_and!; [done..|]. apply Evaluate_synthetic in Hm as [Hc Hh].
  apply Evaluate_Matched. eauto.
Qed.

(** ... and misses none when the IoC names its ecosystem and the SBOMs are
    well-formed. *)
Lemma bulk_hit_complete v ioc ref :
  sboms_wf v → ioc_keyed ioc → affected v ioc ref → bulk_hit v ioc ref.
Proof.
  intros Hwf Hk (id & b & Hb & Href & (Hc & p & Hp & Hh)%Evaluate_Matched).
  exists (SBOM_Ecosystem b), (PackageVersion_Name p), id, b, p.
  split_and!; try done.
  - apply iocLookupKey_hit; eauto.
  - by apply Evaluate_synthetic.
Qed.

Lemma elem_of_sbom_rows eco name (bs : list SBOM) row :
  row ∈ (bs ≫= sbom_rows eco name) ↔
  ∃ b, b ∈ bs ∧ SBOM_Ecosystem b = eco ∧ SBOMPackageRef_ComponentRef row = SBOM_ComponentRef b ∧
    SBOMPackageRef_Package row ∈ SBOM_Packages b ∧
    PackageVersion_Name (SBOMPackageRef_Package row) = name.
Proof.
  rewrite list_elem_of_bind. unfold sbom_rows. split.
  - intros (b & Hrow & Hb). case_bool_decide as He; [|by apply not_elem_of_nil in Hrow].
    apply list_elem_of_fmap in Hrow as (p & -> & [Hn Hp]%list_elem_of_filter). eauto 10.
  - intros (b & Hb & He & Href & Hp & Hn). exists b. split; [|done].
    rewrite bool_decide_true by done. apply list_elem_of_fmap.
    exists (SBOMPackageRef_Package row). split; [destruct row; simpl in *; congruence|].
    by apply list_elem_of_filter.
Qed.

(** The rows of the bulk lookup under the IoC's key, matched and
    de-duplicated, are the bulk hits. *)
Lemma matchPackages_spec ioc eco name pkgs v ref :
  iocLookupKey ioc = Some (eco, name) →
  pkgs ≡ₚ (values (v_sboms v) ≫= sbom_rows eco name) →
  ref ∈ matchPackagesAgainstIoC ioc eco pkgs ↔ bulk_hit v ioc ref.
Proof.
  intros Hkey Hpkgs. unfold matchPackagesAgainstIoC.
  destruct (matchLoop_spec ioc eco pkgs ∅ []) as [_ Hout]; [constructor|set_solver|].
  rewrite Hout. split.
  - intros [?%not_elem_of_nil|(row & Hrow & <- & Hm)]; [done|].
    rewrite Hpkgs in Hrow. apply elem_of_sbom_rows in Hrow as (b & Hb & He & Hr & Hp & Hn).
    apply elem_of_values in Hb as [id Hid].
    exists eco, name, id, b, (SBOMPackageRef_Package row). by split_and!.
  - intros (eco' & name' & id & b & p & Hk & Hid & Hr & He & Hp & Hn & Hm).
    rewrite Hkey in Hk. simplify_eq. right.
    exists (MkSBOMPackageRef (SBOM_ComponentRef b) p). split_and!; [|done..].
    rewrite Hpkgs. apply elem_of_sbom_rows. exists b. split_and!; try done.
    apply elem_of_values. eauto.
Qed.

(** [retroLoop] keeps one pair per matching IoC id, in order. *)
Lemma retroLoop_spec sbom iocs pairs ids :
  (∀ id, id ∈ ids ↔ MkMatchPair id (SBOM_ComponentRef sbom) ∈ pairs) →
  NoDup pairs →
  let '(pairs', ids') := retroLoop sbom iocs pairs ids in
  NoDup pairs' ∧
  (∀ id, id ∈ ids' ↔ MkMatchPair id (SBOM_ComponentRef sbom) ∈ pairs') ∧
  (∀ p, p ∈ pairs' ↔ p ∈ pairs ∨
     ∃ ioc, ioc ∈ iocs ∧ Match_Matched (Evaluate ioc sbom) = true ∧
       p = MkMatchPair (IoC_ID ioc) (SBOM_ComponentRef sbom)).
Proof.
  revert pairs ids. induction iocs as [|ioc iocs IH]; intros pairs ids Hids Hnd; simpl.
  { split_and!; [done..|]. set_solver. }
  destruct (Match_Matched (Evaluate ioc sbom)) eqn:Hm; simpl; [case_bool_decide as Hin|].
  - specialize (IH pairs ids Hids Hnd). destruct (retroLoop sbom iocs pairs ids).
    destruct IH as (? & ? & Hp). split_and!; [done..|]. intros p. rewrite Hp.
    apply Hids in Hin. setoid_rewrite elem_of_cons. naive_solver.
  - specialize (IH (pairs ++ [MkMatchPair (IoC_ID ioc) (SBOM_ComponentRef sbom)])
      ({[IoC_ID ioc]} ∪ ids)). destruct (retroLoop sbom iocs _ _).
    destruct IH as (? & ? & Hp).
    + intros id. rewrite elem_of_union, elem_of_singleton, elem_of_app, list_elem_of_singleton, Hids.
      split; [naive_solver|]. intros [?|[= ->]]; auto.
    + apply NoDup_app. split_and!; [done| |apply NoDup_singleton].
      intros x Hx ->%list_elem_of_singleton. by apply Hin, Hids.
    + split_and!; [done..|]. intros p. rewrite Hp, elem_of_app, list_elem_of_singleton.
      setoid_rewrite elem_of_cons. naive_solver.
  - specialize (IH pairs ids Hids Hnd). destruct (retroLoop sbom iocs pairs ids).
    destruct IH as (? & ? & Hp). split_and!; [done..|]. intros p. rewrite Hp.
    setoid_rewrite elem_of_cons. split; [naive_solver|].
    intros [?|(ioc' & [->|?] & ? & ?)]; [by left|congruence|]. right. eauto.
Qed.
End directions.

(** ** The IoC that is stored matches as the one submitted *)

Section same_target.
Context `{Semver}.

Lemma same_target_hit i j p : same_target i j → package_hit i p → package_hit j p.
Proof.
  intros [Hid Hk He Hv Hr Ha] [t Hkind Ht Hn Hver|t c v Hkind Ht Hc Hn Hver Hchk|body Hkind Hb Hne Href].
  - apply (hit_version _ _ t); congruence.
  - apply (hit_range _ _ t c v); congruence.
  - rewrite Hb in Ha. destruct (IoC_AnomalyBody j) as [b|] eqn:Hj; [|done]. simpl in Ha.
    injection Ha as Ha. apply (hit_anomaly _ _ b); congruence.
Qed.

Lemma same_target_sym i j : same_target i j → same_target j i.
Proof. intros []. by split. Qed.

Lemma same_target_matched i j b :
  same_target i j → Match_Matched (Evaluate i b) = true → Match_Matched (Evaluate j b) = true.
Proof.
  intros Hs. rewrite !Evaluate_Matched. intros (Hc & p & Hp & Hh). split.
  - unfold ecosystem_compatible in *. by rewrite <- (st_ecosystem _ _ Hs).
  - exists p. split; [done|]. by eapply same_target_hit.
Qed.

Lemma same_target_affected v i j ref : same_target i j → affected v i ref → affected v j ref.
Proof. intros Hs (id & b & ? & ? & ?). exists id, b. split_and!; [done..|]. by eapply same_target_matched. Qed.

Lemma same_target_keyed i j : same_target i j → ioc_keyed i → ioc_keyed j.
Proof.
  intros [Hid Hk He Hv Hr Ha]. unfold ioc_keyed. rewrite Hk, He. case_bool_decide; [|done].
  intros Hi body eco Hb Heco. rewrite Hb in Ha. destruct (IoC_AnomalyBody i) as [b|] eqn:Hj; [|done].
  simpl in Ha. injection Ha as <-. by apply Hi.
Qed.
End same_target.

(** The backend takes the key of the bulk lookup. *)
Definition key_accepted `{Keeping} (ioc : IoC) : Prop :=
  ∀ eco name, iocLookupKey ioc = Some (eco, name) → accepts_text eco ∧ accepts_text name.

Lemma str_cut_index s c :
  (0 ≤ Index s (String c ""))%Z →
  s = str_take (Z.to_nat (Index s (String c ""))) s +:+ String c (str_drop (S (Z.to_nat (Index s (String c "")))) s).
Proof.
  unfold Index. destruct (index s (String c "")) as [i|] eqn:Hi; [|lia]. intros _.
  rewrite Nat2Z.id. apply index_Some_app in Hi. simpl String.length in Hi.
  rewrite Nat.add_1_r in Hi. symmetry. exact Hi.
Qed.

Lemma stored_key_accepted `{KeepingLaws} ioc : accepts_ioc ioc → storable_ioc ioc → key_accepted ioc.
Proof.
  intros Ha Hs eco name. pose proof (accepts_target _ Ha Hs) as [He Ht]%Forall_cons.
  unfold target_texts in Ht. rewrite !Forall_app in Ht. destruct Ht as (Hv & Hr & Hb).
  unfold iocLookupKey. repeat case_bool_decide; try done.
  - destruct (IoC_PackageVersion ioc); [|done]. intros [= <- <-]. simpl in Hv.
    by apply Forall_cons in Hv as [? _].
  - destruct (IoC_PackageRange ioc); [|done]. intros [= <- <-]. simpl in Hr.
    by apply Forall_cons in Hr as [? _].
  - destruct (IoC_AnomalyBody ioc) as [b|]; [|done]. simpl in Hb. apply Forall_cons in Hb as [Hb _].
    destruct (bool_decide _ || bool_decide _) eqn:Hidx; [done|]. go_bool. intros [= <- <-].
    apply accepts_cut. pose proof (str_cut_index (IoCBodyAnomaly_PackageRef b) ":"%char ltac:(lia)) as Hcut.
    rewrite Hcut in Hb. exact Hb.
Qed.

Section match_effects.
Context {St : Type} `{Env, UnicodeCase, !Storage St, !StorageLaws St, Semver}.
Implicit Types w : World St.

(** Matching only reads. *)
Definition only_reads (w w' : World St) : Prop :=
  w_store w' = w_store w ∧ w_events w' = w_events w ∧ w_tick w ≤ w_tick w'.

Lemma forwardMatch_spec ioc w :
  store_inv (w_store w) → sboms_wf (view (w_store w)) → key_accepted ioc →
  wp (forwardMatch ioc) (λ r w', only_reads w w' ∧
    match r with
    | Ok (pairs, refs) => pairs = MkMatchPair (IoC_ID ioc) <$> refs ∧ NoDup refs ∧
        ∀ ref, ref ∈ refs ↔ bulk_hit (view (w_store w)) ioc ref
    | Err _ => ∃ k, ¬ answered (call_at k)
    end) w.
Proof.
  intros Hinv Hwf Hacc. unfold forwardMatch. destruct (iocLookupKey ioc) as [[eco name]|] eqn:Hkey.
  2:{ apply wp_ret. split; [done|]. split_and!; [done|constructor|].
      intros ref. split; [by intros ?%not_elem_of_nil|].
      intros (? & ? & ? & ? & ? & ? & _). congruence. }
  apply wp_bind. eapply wp_read; [by apply ListSBOMPackages_law| |].
  - intros pkgs Hpkgs. apply wp_ret. split; [split_and!; simpl; auto|].
    destruct (matchLoop_spec ioc eco pkgs ∅ []) as [Hnd _]; [constructor|set_solver|].
    split_and!; [done..|]. intros ref. by eapply matchPackages_spec.
  - intros e Hans. apply wp_ret. split; [split_and!; simpl; auto|]. eexists. intros Hk. apply Hans.
    split; [exact Hk|]. by apply Hacc.
Qed.

Lemma retroactiveMatch_spec sbom w :
  store_inv (w_store w) →
  wp (retroactiveMatch sbom) (λ r w', only_reads w w' ∧
    match r with
    | Ok (pairs, ids) =>
        NoDup pairs ∧ NoDup ids ∧
        (∀ p, p ∈ pairs ↔ ∃ key ioc, v_iocs (view (w_store w)) !! key = Some ioc ∧
           Match_Matched (Evaluate ioc sbom) = true ∧
           p = MkMatchPair (IoC_ID ioc) (SBOM_ComponentRef sbom)) ∧
        (∀ id, id ∈ ids ↔ MkMatchPair id (SBOM_ComponentRef sbom) ∈ pairs)
    | Err _ => ∃ k, ¬ answered (call_at k)
    end) w.
Proof.
  intros Hinv. unfold retroactiveMatch. apply wp_bind.
  eapply wp_read; [by apply ListIoCs_law| |].
  - intros iocs [Hiocs _]. pose proof (retroLoop_spec sbom iocs [] ∅ ltac:(set_solver)
      (NoDup_nil_2)) as Hloop.
    destruct (retroLoop sbom iocs [] ∅) as [pairs ids]. destruct Hloop as (Hnd & Hids & Hpairs).
    apply wp_bind, wp_range_order. intros l Hl. apply wp_ret.
    split; [split_and!; simpl; auto|]. split_and!; [done| | |].
    + rewrite Hl. apply NoDup_fst_map_to_list.
    + intros p. rewrite Hpairs. setoid_rewrite Hiocs. setoid_rewrite elem_of_values.
      split; [intros [?%not_elem_of_nil|?]; [done|naive_solver]|]. naive_solver.
    + intros id. rewrite <- Hids, Hl, list_elem_of_fmap. split.
      * intros ([id' []] & -> & Hin%elem_of_map_to_list).
        by apply lookup_gset_to_gmap_Some in Hin as [? _].
      * intros Hid. exists (id, ()). split; [done|]. apply elem_of_map_to_list.
        by apply lookup_gset_to_gmap_Some.
  - intros e Hans. apply wp_ret. split; [split_and!; simpl; auto|]. by eexists.
Qed.

(** C7: the bulk forward match is equivalent to matching the IoC against
    every stored SBOM: when it returns (it does whenever storage answers),
    the components it reports, each once, are exactly the affected ones,
    for an IoC that names its ecosystem and SBOMs as the parsers produce
    them; it changes nothing. *)
Theorem forwardMatch_equals_full_scan ioc w :
  store_inv (w_store w) → sboms_wf (view (w_store w)) → ioc_keyed ioc → key_accepted ioc →
  wp (forwardMatch ioc) (λ r w',
    w_store w' = w_store w ∧ w_events w' = w_events w ∧
    ((∀ k, answered (call_at k)) → result_error r = None) ∧
    ∀ pairs refs, r = Ok (pairs, refs) →
      pairs = MkMatchPair (IoC_ID ioc) <$> refs ∧ NoDup refs ∧
      ∀ ref, ref ∈ refs ↔ affected (view (w_store w)) ioc ref) w.
Proof.
  intros Hinv Hwf Hk Hacc. eapply wp_mono; [by apply forwardMatch_spec|].
  intros r w' [(Hs & He & _) Hr]. split_and!; [done..| |].
  - intros Hans. destruct r as [|e]; [done|]. destruct Hr as [k Hno].
    by destruct (Hno (Hans k)).
  - intros pairs refs ->. destruct Hr as (-> & Hnd & Hrefs). split_and!; [done..|].
    intros ref. rewrite Hrefs. split; [apply bulk_hit_sound|by apply bulk_hit_complete].
Qed.
End match_effects.

(** ** Witnesses *)

Lemma sample_sboms_wf : sboms_wf (Store_view sample_store).
Proof.
  intros id b [-> _]%sample_sboms. split_and!; [done..|].
  intros p ->%list_elem_of_singleton. done.
Qed.

Lemma sample_ids_fresh : ids_fresh (Store_view sample_store) 0.
Proof.
  intros t _. split_and!; [apply lookup_empty| |].
  - simpl. destruct (sboms sample_store !! ulid_make t) as [b|] eqn:E; [|done].
    by apply sample_sboms in E as [_ ?].
  - intros id i r [=].
Qed.

Definition sample_pair : matchPair := MkMatchPair "IOC1" sample_ref.

Lemma openIncidentsForMatches_exact_witness :
  wp (openIncidentsForMatches [sample_pair; sample_pair])
    (λ r w', r.2 = None ∧ length (w_events w') = 1 ∧
       open_for (Store_view (w_store w')) sample_pair) sample_world.
Proof.
  eapply wp_mono;
    [apply (openIncidentsForMatches_exact [sample_pair; sample_pair] sample_world);
     [apply sample_ulids_ok|apply sample_store_inv|apply sample_ids_fresh|apply Forall_forall; done]|].
  intros r w' [Hok Hres]. specialize (Hok sample_answered). split; [exact Hok|].
  destruct (Hres Hok) as (Hopen & _ & _ & now & news & _ & _ & Hev & _ & _ & Hnews). split.
  - apply (f_equal length) in Hnews. rewrite !length_fmap in Hnews.
    rewrite Hev. simpl. rewrite length_fmap. exact Hnews.
  - apply Hopen. right. left.
Defined.

Lemma openIncidentsForMatches_idempotent_witness :
  let w1 := (openIncidentsForMatches [sample_pair] sample_world).2 in
  let w2 := (openIncidentsForMatches [sample_pair] w1).2 in
  (openIncidentsForMatches [sample_pair] w1).1.1 = [] ∧ w_events w2 = w_events w1 ∧ view (w_store w2) = view (w_store w1).
Proof.
  apply (openIncidentsForMatches_idempotent [sample_pair] sample_world
    (openIncidentsForMatches [sample_pair] sample_world).2
    (openIncidentsForMatches [sample_pair] sample_world).1.1
    (openIncidentsForMatches [sample_pair]
      (openIncidentsForMatches [sample_pair] sample_world).2).1
    (openIncidentsForMatches [sample_pair]
      (openIncidentsForMatches [sample_pair] sample_world).2).2).
  - apply sample_ulids_ok.
  - apply sample_store_inv.
  - apply sample_ids_fresh.
  - apply Forall_forall. done.
  - vm_compute. reflexivity.
  - symmetry. apply surjective_pairing.
Defined.

Lemma forwardMatch_equals_full_scan_witness :
  wp (forwardMatch sample_ioc) (λ r w', result_error r = None ∧
    ∀ pairs refs, r = Ok (pairs, refs) → sample_ref ∈ refs) sample_world.
Proof.
  eapply wp_mono; [apply (forwardMatch_equals_full_scan sample_ioc sample_world);
    [apply sample_store_inv|apply sample_sboms_wf|discriminate|done]|].
  intros r w' (_ & _ & Hok & Hres). split; [exact (Hok sample_answered)|].
  intros pairs refs Hr. destruct (Hres pairs refs Hr) as (_ & _ & Hrefs). apply Hrefs.
  exists "SBOM1", sample_sbom. split_and!; reflexivity.
Defined.
