(* ===== verification/IocForward.v ===== *)
(** * Submitting an IoC from inside the engine (engine/internal/iocforward)

    The path the anomaly orchestrator uses: store the IoC, walk every
    registered component and its SBOMs, open incidents, publish. It is the
    algorithm the API used before the bulk lookup, and it is proved
    equivalent to the bulk lookup here. *)

From S2P Require Import Prelude GoStrings GoText Domain Matcher Storage MemoryStore Engine Samples Matching.
From stdpp Require Import options.

Record Result := MkResult {
  Result_OpenedIncidents : list string;
  Result_MatchedComponents : list string;
}.

Definition emptyResult : Result := MkResult [] [].

Section iocforward.
Context {St : Type} `{Env, UnicodeCase, !Storage St, Semver}.

(** The inner loop: the first SBOM that fires decides, unless the component
    was seen already. *)
Fixpoint anySBOMMatches (ioc : IoC) (seen : bool) (sboms : list SBOM) : bool :=
  match sboms with
  | [] => false
  | sbom :: sboms' =>
      if negb (Match_Matched (Evaluate ioc sbom)) then anySBOMMatches ioc seen sboms'
      else if seen then anySBOMMatches ioc seen sboms'
      else true
  end.

Fixpoint walkComponents (ioc : IoC) (comps : list Component) (seen : gset string)
    (pairs : list matchPair) (matched : list string) :
    M St (result (list matchPair * list string)) :=
  match comps with
  | [] => mret (Ok (pairs, matched))
  | c :: comps' =>
      let ref := Component_Ref c in
      sboms ← st_read (λ k, ListSBOMsByComponent k ref);
      match sboms with
      | Err e => mret (Err e)
      | Ok sboms =>
          if anySBOMMatches ioc (bool_decide (ref ∈ seen)) sboms then
            walkComponents ioc comps' ({[ref]} ∪ seen)
              (pairs ++ [MkMatchPair (IoC_ID ioc) ref]) (matched ++ [ref])
          else walkComponents ioc comps' seen pairs matched
      end
  end.

Definition forwardMatch (ioc : IoC) : M St (result (list matchPair * list string)) :=
  comps ← st_read (λ k, ListComponents k);
  match comps with
  | Err e => mret (Err e)
  | Ok comps => walkComponents ioc comps ∅ [] []
  end.

Definition isNonTerminal (state : string) : bool :=
  bool_decide (state ≠ StateClosed) && bool_decide (state ≠ StateDismissed).

Definition indexIncident (open : openIndex) (inc : Incident) : openIndex :=
  if negb (isNonTerminal (Incident_State inc)) then open
  else foldl (λ open r, <[(Incident_IoCID inc, r) := inc]> open) open
         (Incident_AffectedComponentsSnapshot inc).

(** [bus] says whether the caller passed a bus. *)
Fixpoint openLoop (bus : bool) (now : Time) (pairs : list matchPair) (open : openIndex)
    (opened : list string) : M St (list string * option error) :=
  match pairs with
  | [] => mret (opened, None)
  | p :: pairs' =>
      let key := (matchPair_IoCID p, matchPair_ComponentRef p) in
      if bool_decide (is_Some (open !! key)) then openLoop bus now pairs' open opened
      else
        id ← ulid_Make;
        let incident := newIncident id p now in
        err ← st_write (λ k, UpsertIncident k incident);
        match err with
        | Some e => mret (opened, Some e)
        | None =>
            (if bus then publish (incidentOpened incident now) else mret ());;
            openLoop bus now pairs' (<[key := incident]> open) (opened ++ [id])
        end
  end.

Definition openIncidentsForMatches (bus : bool) (pairs : list matchPair) :
    M St (list string * option error) :=
  if bool_decide (length pairs = 0) then mret ([], None)
  else
    existing ← st_read (λ k, ListIncidents k);
    match existing with
    | Err e => mret ([], Some e)
    | Ok existing =>
        let open := foldl indexIncident ∅ existing in
        now ← time_Now;
        openLoop bus now pairs open []
    end.

Definition Submit (bus : bool) (ioc : IoC) : M St (Result * option error) :=
  err ← st_write (λ k, UpsertIoC k ioc);
  match err with
  | Some e => mret (emptyResult, Some (EWrap "iocforward: upsert: %w" [] e))
  | None =>
      matched ← forwardMatch ioc;
      match matched with
      | Err e => mret (emptyResult, Some (EWrap "iocforward: match: %w" [] e))
      | Ok (pairs, matched) =>
          opened ← openIncidentsForMatches bus pairs;
          match opened with
          | (opened, Some e) =>
              mret (MkResult opened matched, Some (EWrap "iocforward: open: %w" [] e))
          | (opened, None) =>
              (if bus && bool_decide (0 < length matched) then
                 now ← time_Now;
                 publish (IoCMatchedEvent (IoC_ID ioc) matched now)
               else mret ());;
              mret (MkResult opened matched, None)
          end
      end
  end.
End iocforward.

(** * Properties *)

(** With a bus, the routine that opens incidents is the API's. *)
Lemma openLoop_same {St} `{Env, UnicodeCase, !Storage St} now pairs open opened (w : World St) :
  openLoop true now pairs open opened w = Matching.openLoop now pairs open opened w.
Proof.
  revert open opened w. induction pairs as [|p pairs IH]; intros open opened w; [done|].
  cbn [openLoop Matching.openLoop]. case_bool_decide; [apply IH|].
  unfold mbind, M_bind, ulid_Make. destruct (st_write _ _) as [[e|] w1]; [done|].
  unfold publish. apply IH.
Qed.

Lemma openIncidents_same {St} `{Env, UnicodeCase, !Storage St} pairs (w : World St) :
  openIncidentsForMatches true pairs w = Matching.openIncidentsForMatches pairs w.
Proof.
  unfold openIncidentsForMatches, Matching.openIncidentsForMatches. case_bool_decide; [done|].
  unfold mbind, M_bind. destruct (st_read _ w) as [[existing|e] w1]; [|done].
  apply openLoop_same.
Qed.

Section walk.
Context {St : Type} `{Env, UnicodeCase, !Storage St, !StorageLaws St, Semver}.
Implicit Types w : World St.

Lemma anySBOMMatches_spec ioc sboms :
  anySBOMMatches ioc false sboms = true ↔
  ∃ b, b ∈ sboms ∧ Match_Matched (Evaluate ioc b) = true.
Proof.
  induction sboms as [|b sboms IH]; simpl; [set_solver|].
  destruct (Match_Matched (Evaluate ioc b)) eqn:E; simpl; setoid_rewrite elem_of_cons.
  - naive_solver.
  - rewrite IH. naive_solver congruence.
Qed.

Lemma anySBOMMatches_seen ioc sboms : anySBOMMatches ioc true sboms = false.
Proof. induction sboms as [|b sboms IH]; simpl; [done|]. by case_match. Qed.

Lemma walkComponents_spec ioc comps seen matched w :
  store_inv (w_store w) → NoDup (Component_Ref <$> comps) →
  (∀ c, c ∈ comps → Component_Ref c ∉ seen) → (∀ c, c ∈ comps → accepts_text (Component_Ref c)) →
  wp (walkComponents ioc comps seen (MkMatchPair (IoC_ID ioc) <$> matched) matched) (λ r w',
    only_reads w w' ∧
    match r with
    | Ok (pairs, refs) => pairs = MkMatchPair (IoC_ID ioc) <$> refs ∧
        ∃ more, refs = matched ++ more ∧ more `sublist_of` (Component_Ref <$> comps) ∧
          ∀ ref, ref ∈ more ↔ ref ∈ (Component_Ref <$> comps) ∧ affected (view (w_store w)) ioc ref
    | Err _ => ∃ k, ¬ answered (call_at k)
    end) w.
Proof.
  revert seen matched w. induction comps as [|c comps IH]; intros seen matched w Hinv Hnd Hseen Hacc;
    cbn [walkComponents].
  { apply wp_ret. split; [done|]. split; [done|]. exists []. rewrite app_nil_r.
    split_and!; [done|constructor|]. set_solver. }
  apply NoDup_cons in Hnd as [Hc Hnd]. apply wp_bind.
  eapply wp_read; [by apply ListSBOMsByComponent_law| |].
  2:{ intros e Hans. apply wp_ret. split; [split_and!; simpl; auto|]. eexists. intros Hk.
      apply Hans. split; [exact Hk|]. apply Hacc. by left. }
  intros sboms [Hsboms _]. rewrite bool_decide_false by (apply Hseen; by left).
  assert (anySBOMMatches ioc false sboms = true ↔
    affected (view (w_store w)) ioc (Component_Ref c)) as Hany.
  { rewrite anySBOMMatches_spec. unfold affected. setoid_rewrite Hsboms.
    setoid_rewrite list_elem_of_filter. setoid_rewrite elem_of_values. naive_solver. }
  destruct (anySBOMMatches ioc false sboms).
  - change [MkMatchPair (IoC_ID ioc) (Component_Ref c)] with
      (MkMatchPair (IoC_ID ioc) <$> [Component_Ref c]). rewrite <- fmap_app.
    eapply wp_mono; [apply IH; [done|done| |set_solver]|].
    { intros c' Hc'. apply not_elem_of_union. split; [|apply Hseen; by right].
      intros Heq%elem_of_singleton. apply Hc. rewrite <- Heq. by apply list_elem_of_fmap_2. }
    intros r w' [(Hs & He & Ht) Hr]. split; [split_and!; simpl in *; auto; lia|].
    destruct r as [[pairs refs]|e]; [|done]. destruct Hr as (-> & more & -> & Hsub & Hmore).
    split; [done|]. exists (Component_Ref c :: more). rewrite <- (assoc_L (++)).
    split_and!; [done|by constructor|]. intros ref. simpl in Hmore.
    rewrite elem_of_cons, Hmore. simpl. rewrite elem_of_cons. naive_solver.
  - eapply wp_mono; [apply IH; [done|done|set_solver..]|].
    intros r w' [(Hs & He & Ht) Hr]. split; [split_and!; simpl in *; auto; lia|].
    destruct r as [[pairs refs]|e]; [|done]. destruct Hr as (-> & more & -> & Hsub & Hmore).
    split; [done|]. exists more. split_and!; [done|by constructor|]. intros ref.
    simpl in Hmore. rewrite Hmore. simpl. rewrite elem_of_cons. naive_solver congruence.
Qed.

(** Listing the components and taking their refs is listing the keys. *)
Lemma component_refs_keys v :
  view_wf v → Component_Ref <$> values (v_components v) = (map_to_list (v_components v)).*1.
Proof.
  intros Hwf. unfold values.
  assert (∀ kc, kc ∈ map_to_list (v_components v) → v_components v !! kc.1 = Some kc.2) as Hl
    by (intros [k c]; by rewrite elem_of_map_to_list).
  induction (map_to_list (v_components v)) as [|[k c] l IH]; [done|]. rewrite !fmap_cons. f_equal.
  - apply (wf_components _ Hwf), (Hl (k, c)). left.
  - apply IH. intros kc Hkc. apply Hl. by right.
Qed.

Lemma SortedBy_fmap {A B} (less : B → B → bool) (f : A → B) l :
  SortedBy (λ x y, less (f x) (f y)) l → SortedBy less (f <$> l).
Proof.
  induction 1 as [|c l Hl IH Hhd]; simpl; constructor; [done|]. destruct Hhd; simpl; by constructor.
Qed.

Lemma forwardMatch_walk_spec ioc w :
  store_inv (w_store w) →
  wp (forwardMatch ioc) (λ r w', only_reads w w' ∧
    match r with
    | Ok (pairs, refs) => pairs = MkMatchPair (IoC_ID ioc) <$> refs ∧
        SortedBy text_less refs ∧ NoDup refs ∧
        ∀ ref, ref ∈ refs ↔
          is_Some (v_components (view (w_store w)) !! ref) ∧ affected (view (w_store w)) ioc ref
    | Err _ => ∃ k, ¬ answered (call_at k)
    end) w.
Proof.
  intros Hinv. unfold forwardMatch. apply wp_bind.
  eapply wp_read; [by apply ListComponents_law| |].
  2:{ intros e Hans. apply wp_ret. split; [split_and!; simpl; auto|]. by eexists. }
  intros comps [Hperm Hsorted]. pose proof (store_inv_wf _ Hinv) as Hwf.
  pose proof (component_refs_keys _ Hwf) as Hrefs.
  eapply wp_mono; [apply (walkComponents_spec ioc comps ∅ []); [done| |set_solver|]|].
  { rewrite Hperm, Hrefs. apply NoDup_fst_map_to_list. }
  { intros c. rewrite Hperm, elem_of_values. intros [key Hc].
    rewrite (wf_components _ Hwf _ _ Hc). by eapply store_components_accepted. }
  intros r w' [(Hs & He & Ht) Hr]. split; [split_and!; simpl in *; auto; lia|].
  destruct r as [[pairs refs]|e]; [|done]. destruct Hr as (-> & more & -> & Hsub & Hmore).
  simpl in *. split_and!; [done| | |].
  - eapply SortedBy_sublist; [apply text_less_swo| |done]. by apply SortedBy_fmap.
  - eapply sublist_NoDup; [|done]. rewrite Hperm, Hrefs. apply NoDup_fst_map_to_list.
  - intros ref. rewrite Hmore, Hperm, Hrefs, list_elem_of_fmap. apply and_iff_compat_r. split.
    + intros ([k c] & -> & Hin%elem_of_map_to_list). simpl. eauto.
    + intros [c Hc]. exists (ref, c). by rewrite elem_of_map_to_list.
Qed.

(** C29: the two forward matchers agree. On a store whose SBOMs belong to
    registered components and are as the parsers produce them, walking
    every component (this package) and the bulk package lookup (the API)
    report the same components for an IoC that names its ecosystem. *)
Theorem component_walk_equals_bulk_lookup ioc w :
  store_inv (w_store w) → sboms_wf (view (w_store w)) → ioc_keyed ioc → key_accepted ioc →
  (∀ id b, v_sboms (view (w_store w)) !! id = Some b →
     is_Some (v_components (view (w_store w)) !! SBOM_ComponentRef b)) →
  (∀ k, answered (call_at k)) →
  ∃ pairs1 refs1 pairs2 refs2,
    (forwardMatch ioc w).1 = Ok (pairs1, refs1) ∧
    (Matching.forwardMatch ioc w).1 = Ok (pairs2, refs2) ∧
    refs1 ≡ₚ refs2 ∧ pairs1 ≡ₚ pairs2.
Proof.
  intros Hinv Hwf Hk Hacc Hreg Hans.
  pose proof (forwardMatch_walk_spec ioc w Hinv) as [_ Hw].
  pose proof (Matching.forwardMatch_spec ioc w Hinv Hwf Hacc) as [_ Hb].
  destruct (forwardMatch ioc w).1 as [[p1 r1]|e1]; [|destruct Hw as [k Hno]; destruct (Hno (Hans k))].
  destruct (Matching.forwardMatch ioc w).1 as [[p2 r2]|e2];
    [|destruct Hb as [k Hno]; destruct (Hno (Hans k))].
  destruct Hw as (-> & _ & Hnd1 & Hr1), Hb as (-> & Hnd2 & Hr2).
  assert (r1 ≡ₚ r2) as Hperm.
  { apply NoDup_Permutation; [done..|]. intros ref. rewrite Hr1, Hr2. split.
    - intros [_ Haff]. by apply bulk_hit_complete.
    - intros Haff%bulk_hit_sound. split; [|done]. destruct Haff as (id & b & Hb & <- & _). eauto. }
  do 4 eexists. split_and!; [done..|]. by rewrite Hperm.
Qed.
End walk.

Lemma component_walk_equals_bulk_lookup_witness :
  ∃ pairs1 refs1 pairs2 refs2,
    (forwardMatch sample_ioc sample_world).1 = Ok (pairs1, refs1) ∧
    (Matching.forwardMatch sample_ioc sample_world).1 = Ok (pairs2, refs2) ∧
    refs1 ≡ₚ refs2 ∧ pairs1 ≡ₚ pairs2.
Proof.
  apply (component_walk_equals_bulk_lookup (StorageLaws0 := Store_StorageLaws)
    sample_ioc sample_world).
  - apply sample_store_inv.
  - apply sample_sboms_wf.
  - discriminate.
  - done.
  - intros id b [-> _]%sample_sboms. exists sample_component. reflexivity.
  - apply sample_answered.
Defined.
