(* ===== verification/Orchestrator.v ===== *)
(** * The anomaly orchestrator

    src/engine/anomaly/orchestrator.go: a tick runs every detector over the
    snapshot histories, saves the anomalies, and turns each into an IoC that
    is matched against the stored SBOMs. Logging and the counters that are
    only logged are left out. The ULID library is a parameter: [ulid_MustNew ms] is the ULID with timestamp
    [ms] and no entropy. *)

From S2P Require Import Prelude GoStrings Domain Matcher Storage Engine IocForward Detector.
From stdpp Require Import options.

Class ULIDTime := { ulid_MustNew : Z → string }.

(** 1 January 1970 on the scale of [Time]. *)
Definition unixEpoch : Time := 62135596800 * Second.

(** [ulid.Timestamp]: milliseconds since 1970. *)
Definition ulid_Timestamp (t : Time) : Z := (t - unixEpoch) / 1000000.

Definition deterministicIoCID `{ULIDTime} (tickTime : Time) : string :=
  ulid_MustNew (ulid_Timestamp tickTime).

Definition severityFromConfidence (c : string) : string :=
  if bool_decide (c = ConfidenceHigh) then SeverityCritical
  else if bool_decide (c = ConfidenceMedium) then SeverityHigh
  else SeverityMedium.

Definition ecosystemFromPackageRef (ref : string) : string :=
  match index ref ":" with Some i => str_take i ref | None => ref end.

Record OrchestratorConfig (St : Type) := MkOrchestratorConfig {
  cfg_Storage : bool;
  cfg_EventBus : bool;
  cfg_Detectors : list (Detector St);
  cfg_TickInterval : Duration;
  cfg_BatchSize : Z;
  cfg_HistoryDepth : Z;
}.
Arguments MkOrchestratorConfig {_} _ _ _ _ _ _.
Arguments cfg_Storage {_} _.
Arguments cfg_EventBus {_} _.
Arguments cfg_Detectors {_} _.
Arguments cfg_TickInterval {_} _.
Arguments cfg_BatchSize {_} _.
Arguments cfg_HistoryDepth {_} _.

Record Orchestrator (St : Type) := MkOrchestrator {
  o_bus : bool;
  o_detectors : list (Detector St);
  o_tickInterval : Duration;
  o_batchSize : Z;
  o_historyDepth : Z;
}.
Arguments MkOrchestrator {_} _ _ _ _ _.
Arguments o_bus {_} _.
Arguments o_detectors {_} _.
Arguments o_tickInterval {_} _.
Arguments o_batchSize {_} _.
Arguments o_historyDepth {_} _.

Definition NewOrchestrator {St} (cfg : OrchestratorConfig St) : result (Orchestrator St) :=
  if negb (cfg_Storage cfg) then Err (EText "anomaly orchestrator: Storage is required" [])
  else if bool_decide (length (cfg_Detectors cfg) = 0) then
    Err (EText "anomaly orchestrator: at least one detector required" [])
  else
    let tick := if bool_decide (cfg_TickInterval cfg ≤ 0)%Z then Hour else cfg_TickInterval cfg in
    let batch := if bool_decide (cfg_BatchSize cfg ≤ 0)%Z then 200%Z else cfg_BatchSize cfg in
    let depth := if bool_decide (cfg_HistoryDepth cfg ≤ 0)%Z then 50%Z else cfg_HistoryDepth cfg in
    Ok (MkOrchestrator (cfg_EventBus cfg) (cfg_Detectors cfg) tick batch depth).

Section orchestrator.
Context {St : Type} `{Env, UnicodeCase, !Storage St, Semver, ULIDTime}.

(** [ctx.Err()] between two packages. *)
Definition ctx_check : M St (option error) := λ w, (ctx_Err (this_call w), tick w).

Definition anomalyIoC (a : Anomaly) (packageRef : string) (tickTime : Time) : IoC :=
  MkIoC (deterministicIoCID tickTime) IoCKindPublisherAnomaly
    (severityFromConfidence (Anomaly_Confidence a)) (ecosystemFromPackageRef packageRef)
    "rampart-anomaly-orchestrator" tickTime (Anomaly_Explanation a) None None None
    (Some (MkIoCBodyAnomaly (Anomaly_Kind a) (Anomaly_Confidence a) (Anomaly_Explanation a)
             packageRef (Anomaly_Evidence a))).

Definition emitIoC (o : Orchestrator St) (a : Anomaly) (packageRef : string) (tickTime : Time) :
    M St (option error) :=
  submitted ← Submit (o_bus o) (anomalyIoC a packageRef tickTime);
  mret submitted.2.

Definition freeze (tickTime : Time) (a : Anomaly) : Anomaly :=
  MkAnomaly (Anomaly_ID a) (Anomaly_Kind a) (Anomaly_PackageRef a) tickTime
    (Anomaly_Confidence a) (Anomaly_Explanation a) (Anomaly_Evidence a).

Fixpoint anomalyLoop (o : Orchestrator St) (tickTime : Time) (ref : string)
    (anomalies : list Anomaly) : M St unit :=
  match anomalies with
  | [] => mret ()
  | a :: anomalies' =>
      let a := freeze tickTime a in
      saved ← st_write (λ k, SaveAnomaly k a);
      match saved with
      | Err _ => anomalyLoop o tickTime ref anomalies'
      | Ok _ =>
          emitIoC o a ref tickTime;;
          anomalyLoop o tickTime ref anomalies'
      end
  end.

Fixpoint detectorLoop (o : Orchestrator St) (tickTime : Time) (ref : string)
    (history : list PublisherSnapshot) (detectors : list (Detector St)) : M St unit :=
  match detectors with
  | [] => mret ()
  | det :: detectors' =>
      anomalies ← Detect det ref history;
      match anomalies with
      | Err _ => detectorLoop o tickTime ref history detectors'
      | Ok anomalies =>
          anomalyLoop o tickTime ref anomalies;;
          detectorLoop o tickTime ref history detectors'
      end
  end.

Fixpoint packageLoop (o : Orchestrator St) (tickTime : Time) (refs : list string) :
    M St (option error) :=
  match refs with
  | [] => mret None
  | ref :: refs' =>
      err ← ctx_check;
      match err with
      | Some e => mret (Some e)
      | None =>
          history ← st_read (λ k, GetPublisherHistory k ref (o_historyDepth o));
          match history with
          | Err _ => packageLoop o tickTime refs'
          | Ok history =>
              if bool_decide (length history < 2) then packageLoop o tickTime refs'
              else
                detectorLoop o tickTime ref history (o_detectors o);;
                packageLoop o tickTime refs'
          end
      end
  end.

Definition Tick (o : Orchestrator St) : M St (option error) :=
  tickTime ← time_Now;
  refs ← st_read (λ k, ListPackagesNeedingRefresh k (Add tickTime Hour) (o_batchSize o));
  match refs with
  | Err e => mret (Some (EWrap "anomaly tick: list packages: %w" [] e))
  | Ok refs =>
      if bool_decide (length refs = 0) then mret None
      else packageLoop o tickTime refs
  end.

(** [Run], here and in the publisher scheduler, is a tick at the start and
    one per firing of the ticker: [run_case] is what its select waits for.
    The list holds the outcomes in order; [Run] is still waiting when they
    are used up. The errors of a tick are only logged. *)
Inductive run_case := CtxDone (err : error) | TickerFires.

Fixpoint tickLoop (o : Orchestrator St) (cases : list run_case) : M St (option error) :=
  match cases with
  | [] => mret None
  | CtxDone err :: _ => mret (Some err)
  | TickerFires :: cases' => Tick o;; tickLoop o cases'
  end.

Definition Orchestrator_Run (o : Orchestrator St) (cases : list run_case) : M St (option error) :=
  Tick o;; tickLoop o cases.
End orchestrator.
