(* ===== verification/Handlers.v ===== *)
(** * The HTTP handlers (engine/internal/api)

    One definition per operation of the server interface: guards, early
    returns, storage calls, events and response, in the order of the code.
    A request body arrives as the outcome of [decodeJSON] (ApiBodies.v); a
    response is its status and body, the messages of errors kept as error
    values, and ApiJson.v has its text. The lockfile parser is an
    interface. *)

From S2P Require Import Prelude GoStrings Domain Matcher Storage MemoryStore Wire Engine Samples Matching.
From stdpp Require Import options.

(** ** Responses *)

Inductive Message :=
  | MText (text : string)
  | MError (err : error).

Inductive Body :=
  | BError (code : string) (message : Message)
  | BHealth (status : string)
  | BComponent (c : gen_Component)
  | BComponentPage (items : list gen_Component)
  | BSBOM (b : gen_SBOM)
  | BSBOMItems (items : list gen_SBOM)
  | BIoC (i : gen_IoC)
  | BIoCPage (items : list gen_IoC)
  | BIncident (i : gen_Incident)
  | BIncidentPage (items : list gen_Incident)
  | BIncidentDetail (d : gen_IncidentDetail)
  | BBlastRadius (affectedComponentRefs : list string) (computedAt : Time)
  | BRemediation (r : gen_Remediation)
  | BAnomaly (a : gen_Anomaly)
  | BAnomalyPage (items : list gen_Anomaly)
  | BPublisherHistory (items : list gen_PublisherSnapshot).

Record Response := MkResponse {
  resp_status : Z;
  resp_body : Body;
}.

Definition StatusOK : Z := 200.
Definition StatusCreated : Z := 201.
Definition StatusBadRequest : Z := 400.
Definition StatusNotFound : Z := 404.
Definition StatusConflict : Z := 409.
Definition StatusInternalServerError : Z := 500.

(** ** Parameters of the list endpoints *)

Record ListIncidentsParams := MkListIncidentsParams {
  lip_State : option (list string);
  lip_Ecosystem : option (list string);
  lip_From : option Time;
  lip_To : option Time;
  lip_Search : option string;
  lip_Owner : option string;
  lip_Since : option Time;
  lip_Limit : option Z;
}.

Record ListIoCsParams := MkListIoCsParams {
  lcp_Ecosystem : option string;
  lcp_Severity : option string;
}.

Record ListAnomaliesParams := MkListAnomaliesParams {
  lap_PackageRef : option string;
  lap_Kind : option string;
  lap_From : option Time;
  lap_To : option Time;
  lap_Limit : option Z;
}.

(** ** The parser interface *)
Class SBOMParser := { Parse : Call → string → result ParsedSBOM }.

Section handlers.
Context {St : Type} `{Env, UnicodeCase, !Storage St, Semver, SBOMParser}.

Definition writeError (status : Z) (code : string) (message : Message) : M St Response :=
  mret (MkResponse status (BError code message)).

Definition writeJSON (status : Z) (body : Body) : M St Response :=
  mret (MkResponse status body).

Definition storageError (e : error) : M St Response :=
  writeError StatusInternalServerError "STORAGE_ERROR" (MError e).

(** *** server.go *)

Definition Healthz : M St Response := writeJSON StatusOK (BHealth "ok").
Definition Readyz : M St Response := writeJSON StatusOK (BHealth "ready").

Definition Server_ListComponents : M St Response :=
  comps ← st_read (λ k, ListComponents k);
  match comps with
  | Err e => writeError StatusInternalServerError "INTERNAL" (MError e)
  | Ok comps => writeJSON StatusOK (BComponentPage (toGenComponent <$> comps))
  end.

(** *** handlers_component.go *)

Definition Server_UpsertComponent (body : result gen_Component) : M St Response :=
  match body with
  | Err e => writeError StatusBadRequest "INVALID_PAYLOAD" (MError e)
  | Ok body =>
      if bool_decide (gen_Component_Ref body = "") then
        writeError StatusBadRequest "INVALID_PAYLOAD" (MText "ref is required")
      else
        match ParseComponentRef (gen_Component_Ref body) with
        | Err e => writeError StatusBadRequest "INVALID_REF" (MError e)
        | Ok (kind, ns, name) =>
            let c := fromGenComponent body in
            let c := MkComponent (Component_Ref c) kind ns name (Component_Owner c)
              (Component_System c) (Component_Lifecycle c) (Component_Tags c)
              (Component_Annotations c) in
            existing ← st_read (λ k, GetComponent k (Component_Ref c));
            let upsert (status : Z) : M St Response :=
              err ← st_write (λ k, UpsertComponent k c);
              match err with
              | Some e => storageError e
              | None => writeJSON status (BComponent (toGenComponent c))
              end in
            match existing with
            | Ok _ => upsert StatusOK
            | Err e => if errors_Is e ErrNotFound then upsert StatusCreated else storageError e
            end
        end
  end.

(** *** engine/ingestion/ingestion.go *)

Definition Ingest (parsed : ParsedSBOM) (componentRef commitSHA : string) : M St SBOM :=
  id ← ulid_Make;
  now ← time_Now;
  mret (MkSBOM id componentRef commitSHA (ParsedSBOM_Ecosystem parsed) now
          (ParsedSBOM_Packages parsed) (ParsedSBOM_SourceFormat parsed)
          (ParsedSBOM_SourceBytes parsed)).

(** *** handlers_sbom.go *)

(** [for _, iocID := range matchedIoCs { s.events.Publish(...) }]. *)
Fixpoint publishMatched (ref : string) (ids : list string) : M St unit :=
  match ids with
  | [] => mret ()
  | id :: ids' =>
      now ← time_Now;
      publish (IoCMatchedEvent id [ref] now);;
      publishMatched ref ids'
  end.

Definition SubmitSBOM (componentRef : string) (body : result gen_SBOMSubmission) : M St Response :=
  component ← st_read (λ k, GetComponent k componentRef);
  match component with
  | Err e =>
      if errors_Is e ErrNotFound then
        writeError StatusNotFound "COMPONENT_NOT_FOUND"
          (MText ("component " +:+ componentRef +:+ " is not registered"))
      else storageError e
  | Ok _ =>
      match body with
      | Err e => writeError StatusBadRequest "INVALID_PAYLOAD" (MError e)
      | Ok body =>
          if bool_decide (gen_SBOMSubmission_Ecosystem body ≠ "npm") then
            writeError StatusBadRequest "UNSUPPORTED_ECOSYSTEM"
              (MText ("HTTP submission currently supports npm lockfiles only; got "
                +:+ gen_SBOMSubmission_Ecosystem body
                +:+ " (the rampart CLI scan command supports npm, gomod, cargo, pypi, maven)"))
          else if bool_decide (gen_SBOMSubmission_SourceFormat body
                                 ≠ SBOMSubmissionSourceFormatNpmPackageLockV3) then
            writeError StatusBadRequest "UNSUPPORTED_SOURCE_FORMAT"
              (MText "HTTP submission currently supports npm-package-lock-v3 only")
          else
            parsed ← st_read (λ k _, Parse k (gen_SBOMSubmission_Content body));
            match parsed with
            | Err e => writeError StatusBadRequest "PARSE_FAILED" (MError e)
            | Ok parsed =>
                let commitSHA := default "" (gen_SBOMSubmission_CommitSha body) in
                sbom ← Ingest parsed componentRef commitSHA;
                err ← st_write (λ k, UpsertSBOM k sbom);
                match err with
                | Some e => storageError e
                | None =>
                    publish (SBOMIngestedEvent (SBOM_ID sbom) (SBOM_ComponentRef sbom)
                               (SBOM_GeneratedAt sbom));;
                    matched ← retroactiveMatch sbom;
                    match matched with
                    | Err e => writeError StatusInternalServerError "MATCH_FAILED" (MError e)
                    | Ok (pairs, matchedIoCs) =>
                        opened ← openIncidentsForMatches pairs;
                        match opened with
                        | (_, Some e) =>
                            writeError StatusInternalServerError "INCIDENT_OPEN_FAILED" (MError e)
                        | (_, None) =>
                            publishMatched (SBOM_ComponentRef sbom) matchedIoCs;;
                            writeJSON StatusCreated (BSBOM (toGenSBOM sbom))
                        end
                    end
                end
            end
      end
  end.

Definition Server_ListSBOMsByComponent (componentRef : string) : M St Response :=
  sboms ← st_read (λ k, ListSBOMsByComponent k componentRef);
  match sboms with
  | Err e => storageError e
  | Ok sboms => writeJSON StatusOK (BSBOMItems (toGenSBOM <$> sboms))
  end.

Definition Server_GetSBOM (id : string) : M St Response :=
  b ← st_read (λ k, GetSBOM k id);
  match b with
  | Err e =>
      if errors_Is e ErrNotFound then
        writeError StatusNotFound "SBOM_NOT_FOUND" (MText ("sbom " +:+ id +:+ " not found"))
      else storageError e
  | Ok b => writeJSON StatusOK (BSBOM (toGenSBOM b))
  end.

(** *** handlers_ioc.go *)

(** The constraint of a range IoC must parse. *)
Definition constraintError (ioc : IoC) : option error :=
  if bool_decide (IoC_Kind ioc = IoCKindPackageRange) then
    match IoC_PackageRange ioc with
    | Some range => result_error (NewConstraint (IoCPackageRange_Constraint range))
    | None => None
    end
  else None.

Definition SubmitIoC (body : result gen_IoC) : M St Response :=
  match body with
  | Err e => writeError StatusBadRequest "INVALID_PAYLOAD" (MError e)
  | Ok body =>
      let ioc := fromGenIoC body in
      match IoC_Validate ioc with
      | Some e => writeError StatusBadRequest "INVALID_IOC" (MError e)
      | None =>
          match constraintError ioc with
          | Some e => writeError StatusBadRequest "INVALID_CONSTRAINT" (MError e)
          | None =>
            err ← st_write (λ k, UpsertIoC k ioc);
            match err with
            | Some e => storageError e
            | None =>
                matched ← forwardMatch ioc;
                match matched with
                | Err e => writeError StatusInternalServerError "MATCH_FAILED" (MError e)
                | Ok (pairs, matchedComponents) =>
                    opened ← openIncidentsForMatches pairs;
                    match opened with
                    | (_, Some e) =>
                        writeError StatusInternalServerError "INCIDENT_OPEN_FAILED" (MError e)
                    | (_, None) =>
                        (if bool_decide (0 < length matchedComponents) then
                           now ← time_Now;
                           publish (IoCMatchedEvent (IoC_ID ioc) matchedComponents now)
                         else mret ());;
                        writeJSON StatusCreated (BIoC (toGenIoC ioc))
                    end
                end
            end
          end
      end
  end.

(** The [continue] guards of the IoC listing. *)
Definition iocPasses (params : ListIoCsParams) (i : IoC) : bool :=
  if match lcp_Ecosystem params with
     | Some eco => bool_decide (eco ≠ "") && bool_decide (IoC_Ecosystem i ≠ eco)
     | None => false end then false
  else if match lcp_Severity params with
     | Some sev => bool_decide (sev ≠ IoC_Severity i)
     | None => false end then false
  else true.

Definition Server_ListIoCs (params : ListIoCsParams) : M St Response :=
  iocs ← st_read (λ k, ListIoCs k);
  match iocs with
  | Err e => storageError e
  | Ok iocs =>
      let filtered := filter (λ i, iocPasses params i = true) iocs in
      writeJSON StatusOK (BIoCPage (toGenIoC <$> filtered))
  end.

(** *** handlers_incident.go *)

Definition incidentFilter (params : ListIncidentsParams) : IncidentFilter := {|
  IncidentFilter_States := default [] (lip_State params);
  IncidentFilter_Ecosystems := filter (λ eco, eco ≠ "") (default [] (lip_Ecosystem params));
  IncidentFilter_From :=
    match lip_From params with
    | Some t => Some t
    | None => lip_Since params
    end;
  IncidentFilter_To := lip_To params;
  IncidentFilter_Search := default "" (lip_Search params);
  IncidentFilter_Owner := default "" (lip_Owner params);
  IncidentFilter_Limit := default 0%Z (lip_Limit params);
|}.

Definition Server_ListIncidents (params : ListIncidentsParams) : M St Response :=
  incs ← st_read (λ k, ListIncidentsFiltered k (incidentFilter params));
  match incs with
  | Err e => storageError e
  | Ok incs => writeJSON StatusOK (BIncidentPage (toGenIncident <$> incs))
  end.

(** The [errors.Is(err, storage.ErrNotFound)] branch the handlers share. *)
Definition incidentError (id : string) (e : error) : M St Response :=
  if errors_Is e ErrNotFound then
    writeError StatusNotFound "INCIDENT_NOT_FOUND" (MText ("incident " +:+ id +:+ " not found"))
  else storageError e.

Definition Server_GetIncident (id : string) : M St Response :=
  inc ← st_read (λ k, GetIncident k id);
  match inc with
  | Err e => incidentError id e
  | Ok inc => writeJSON StatusOK (BIncident (toGenIncident inc))
  end.

Fixpoint hydrate (refs : list string) : M St (list gen_Component) :=
  match refs with
  | [] => mret []
  | ref :: refs' =>
      c ← st_read (λ k, GetComponent k ref);
      rest ← hydrate refs';
      match c with
      | Err _ => mret rest
      | Ok c => mret (toGenComponent c :: rest)
      end
  end.

Definition GetIncidentDetail (id : string) : M St Response :=
  inc ← st_read (λ k, GetIncident k id);
  match inc with
  | Err e => incidentError id e
  | Ok inc =>
      ioc ← (if bool_decide (Incident_IoCID inc ≠ "") then
               ioc ← st_read (λ k, GetIoC k (Incident_IoCID inc));
               match ioc with
               | Ok ioc => mret (Some (toGenIoC ioc))
               | Err _ => mret None
               end
             else mret None);
      comps ← hydrate (Incident_AffectedComponentsSnapshot inc);
      writeJSON StatusOK (BIncidentDetail
        (MkGenIncidentDetail (Some comps) (toGenIncident inc) ioc))
  end.

(** The handler after the incident has been read. *)
Definition applyTransition (inc : Incident) (target : string) : M St Response :=
  let from := Incident_State inc in
  now ← time_Now;
  match Transition inc target now with
  | (_, Some e) =>
      if errors_Is e ErrInvalidTransition then
        writeError StatusConflict "INVALID_TRANSITION" (MError e)
      else writeError StatusBadRequest "INVALID_STATE" (MError e)
  | (inc, None) =>
      err ← st_write (λ k, UpsertIncident k inc);
      match err with
      | Some e => storageError e
      | None =>
          (if bool_decide (from ≠ Incident_State inc) then
             publish (IncidentTransitionedEvent (Incident_ID inc) from
                        (Incident_State inc) now)
           else mret ());;
          writeJSON StatusOK (BIncident (toGenIncident inc))
      end
  end.

Definition TransitionIncident (id : string) (body : result string) : M St Response :=
  match body with
  | Err e => writeError StatusBadRequest "INVALID_PAYLOAD" (MError e)
  | Ok target =>
      inc ← st_read (λ k, GetIncident k id);
      match inc with
      | Err e => incidentError id e
      | Ok inc => applyTransition inc target
      end
  end.

Fixpoint blastLoop (iocs : list gen_IoC) (affected : gset string) :
    M St (Response + gset string) :=
  match iocs with
  | [] => mret (inr affected)
  | genIoC :: iocs' =>
      let ioc := fromGenIoC genIoC in
      match IoC_Validate ioc with
      | Some e =>
          r ← writeError StatusBadRequest "INVALID_IOC" (MError e); mret (inl r)
      | None =>
          known ← st_read (λ k, GetIoC k (IoC_ID ioc));
          match known with
          | Ok _ =>
              refs ← st_read (λ k, MatchedComponentRefsByIoC k (IoC_ID ioc));
              match refs with
              | Err e => r ← storageError e; mret (inl r)
              | Ok refs => blastLoop iocs' (list_to_set refs ∪ affected)
              end
          | Err e =>
              if errors_Is e ErrNotFound then
                match iocLookupKey ioc with
                | None => blastLoop iocs' affected
                | Some (eco, name) =>
                    pkgs ← st_read (λ k, ListSBOMPackages k eco name);
                    match pkgs with
                    | Err e => r ← storageError e; mret (inl r)
                    | Ok pkgs =>
                        blastLoop iocs'
                          (list_to_set (matchPackagesAgainstIoC ioc eco pkgs) ∪ affected)
                    end
                end
              else r ← storageError e; mret (inl r)
          end
      end
  end.

Definition BlastRadius (body : result (list gen_IoC)) : M St Response :=
  match body with
  | Err e => writeError StatusBadRequest "INVALID_PAYLOAD" (MError e)
  | Ok iocs =>
      if bool_decide (length iocs = 0) then
        writeError StatusBadRequest "INVALID_PAYLOAD"
          (MText "iocs is required and must be non-empty")
      else
        r ← blastLoop iocs ∅;
        match r with
        | inl resp => mret resp
        | inr affected =>
            out ← range_order (gset_to_gmap () affected);
            sorted ← sort_with String.ltb out.*1;
            now ← time_Now;
            writeJSON StatusOK (BBlastRadius sorted now)
        end
  end.

(** *** handlers_remediation.go *)

Definition AddRemediation (incidentID : string) (body : result gen_Remediation) : M St Response :=
  inc ← st_read (λ k, GetIncident k incidentID);
  match inc with
  | Err e => incidentError incidentID e
  | Ok _ =>
      match body with
      | Err e => writeError StatusBadRequest "INVALID_PAYLOAD" (MError e)
      | Ok body =>
          now ← time_Now;
          let executedAt :=
            if IsZero (gen_Remediation_ExecutedAt body) then now
            else gen_Remediation_ExecutedAt body in
          id ← ulid_Make;
          let rem := MkRemediation id incidentID (gen_Remediation_Kind body) executedAt
            (default "" (gen_Remediation_ActorRef body))
            (default ∅ (gen_Remediation_Details body)) in
          match Remediation_Validate rem with
          | Some e => writeError StatusBadRequest "INVALID_REMEDIATION_KIND" (MError e)
          | None =>
              err ← st_write (λ k, AppendRemediation k incidentID rem);
              match err with
              | Some e => storageError e
              | None =>
                  publish (RemediationAddedEvent incidentID (Remediation_ID rem)
                             (Remediation_Kind rem) now);;
                  writeJSON StatusCreated (BRemediation (toGenRemediation rem))
              end
          end
      end
  end.

(** *** handlers_anomaly.go *)

Definition defaultAnomalyLimit : Z := 100.

Definition anomalyFilter (params : ListAnomaliesParams) : AnomalyFilter := {|
  AnomalyFilter_PackageRef := default "" (lap_PackageRef params);
  AnomalyFilter_Kind := default "" (lap_Kind params);
  AnomalyFilter_From := lap_From params;
  AnomalyFilter_To := lap_To params;
  AnomalyFilter_Limit := default defaultAnomalyLimit (lap_Limit params);
|}.

Definition Server_ListAnomalies (params : ListAnomaliesParams) : M St Response :=
  rows ← st_read (λ k, ListAnomalies k (anomalyFilter params));
  match rows with
  | Err e => storageError e
  | Ok rows => writeJSON StatusOK (BAnomalyPage (anomalyToWire <$> rows))
  end.

Definition Server_GetAnomaly (id : Z) : M St Response :=
  a ← st_read (λ k, GetAnomaly k id);
  match a with
  | Err e =>
      if errors_Is e ErrNotFound then
        writeError StatusNotFound "ANOMALY_NOT_FOUND" (MText "no anomaly with that id")
      else storageError e
  | Ok a => writeJSON StatusOK (BAnomaly (anomalyToWire a))
  end.

(** *** handlers_publisher.go *)

Definition defaultHistoryLimit : Z := 100.

Definition Server_GetPublisherHistory (packageRef : string) (limit : option Z) : M St Response :=
  let limit := default defaultHistoryLimit limit in
  if bool_decide (packageRef = "") then
    writeError StatusBadRequest "INVALID_PACKAGE_REF"
      (MText "packageRef path parameter must be non-empty")
  else
    rows ← st_read (λ k, GetPublisherHistory k packageRef limit);
    match rows with
    | Err e => storageError e
    | Ok rows => writeJSON StatusOK (BPublisherHistory (snapshotToWire <$> rows))
    end.
End handlers.
