(* ===== verification/EngineInvariant.v ===== *)
(** * The engine over time

    Every request the API serves, composed into one step function, and the
    invariant of the stored state: records under their keys, no duplicate
    actionable incident, and no affected component without an incident,
    whatever the order in which components, SBOMs and IoCs arrive. Proved
    for every lawful storage backend and every environment. *)

From S2P Require Import Prelude GoStrings GoText Domain Matcher Storage MemoryStore Wire Engine Samples Sbom SbomNpm Matching Handlers.
From stdpp Require Import options.

(** ** The request interface (api/gen.ServerInterface) *)

Inductive Request :=
  | ReqHealthz
  | ReqReadyz
  | ReqListComponents
  | ReqUpsertComponent (body : result gen_Component)
  | ReqSubmitSBOM (componentRef : string) (body : result gen_SBOMSubmission)
  | ReqListSBOMsByComponent (componentRef : string)
  | ReqGetSBOM (id : string)
  | ReqSubmitIoC (body : result gen_IoC)
  | ReqListIoCs (params : ListIoCsParams)
  | ReqListIncidents (params : ListIncidentsParams)
  | ReqGetIncident (id : string)
  | ReqGetIncidentDetail (id : string)
  | ReqTransitionIncident (id : string) (body : result string)
  | ReqBlastRadius (body : result (list gen_IoC))
  | ReqAddRemediation (incidentID : string) (body : result gen_Remediation)
  | ReqListAnomalies (params : ListAnomaliesParams)
  | ReqGetAnomaly (id : Z)
  | ReqGetPublisherHistory (packageRef : string) (limit : option Z).

Definition serve {St} `{Env, UnicodeCase, !Storage St, Semver, SBOMParser} (req : Request) :
    M St Response :=
  match req with
  | ReqHealthz => Healthz
  | ReqReadyz => Readyz
  | ReqListComponents => Server_ListComponents
  | ReqUpsertComponent body => Server_UpsertComponent body
  | ReqSubmitSBOM ref body => SubmitSBOM ref body
  | ReqListSBOMsByComponent ref => Server_ListSBOMsByComponent ref
  | ReqGetSBOM id => Server_GetSBOM id
  | ReqSubmitIoC body => SubmitIoC body
  | ReqListIoCs params => Server_ListIoCs params
  | ReqListIncidents params => Server_ListIncidents params
  | ReqGetIncident id => Server_GetIncident id
  | ReqGetIncidentDetail id => GetIncidentDetail id
  | ReqTransitionIncident id body => TransitionIncident id body
  | ReqBlastRadius body => BlastRadius body
  | ReqAddRemediation id body => AddRemediation id body
  | ReqListAnomalies params => Server_ListAnomalies params
  | ReqGetAnomaly id => Server_GetAnomaly id
  | ReqGetPublisherHistory ref limit => Server_GetPublisherHistory ref limit
  end.

Fixpoint serve_all {St} `{Env, UnicodeCase, !Storage St, Semver, SBOMParser}
    (reqs : list Request) : M St (list Response) :=
  match reqs with
  | [] => mret []
  | req :: reqs' =>
      resp ← serve req;
      resps ← serve_all reqs';
      mret (resp :: resps)
  end.

(** ** What the parser promises *)

Class SBOMParserLaws `{SBOMParser} := {
  Parse_wf k content parsed : Parse k content = Ok parsed → parsed_wf parsed;
}.

(** ** The invariant *)

(** Some incident, in whatever state, was opened for the pair. *)
Definition incident_for (v : View) (ioc ref : string) : Prop :=
  ∃ id inc, v_incidents v !! id = Some inc ∧ Incident_IoCID inc = ioc ∧
    ref ∈ Incident_AffectedComponentsSnapshot inc.

(** No affected component goes without an incident. *)
Definition detected `{Semver} (v : View) : Prop :=
  ∀ key ioc ref, v_iocs v !! key = Some ioc → ioc_keyed ioc → affected v ioc ref →
    incident_for v (IoC_ID ioc) ref.

(** Every stored SBOM belongs to a registered component. *)
Definition sboms_registered (v : View) : Prop :=
  ∀ id b, v_sboms v !! id = Some b → is_Some (v_components v !! SBOM_ComponentRef b).

(** No component is forgotten. *)
Definition keeps_components (v v' : View) : Prop :=
  ∀ ref, is_Some (v_components v !! ref) → is_Some (v_components v' !! ref).

#[local] Hint Extern 0 (keeps_components _ _) => (intros ? ?; assumption) : core.

Record safe_view `{Env} (v : View) (t : nat) : Prop := {
  sv_fresh : ids_fresh v t;
  sv_unique : unique_open v;
  sv_sboms : sboms_wf v;
  sv_registered : sboms_registered v;
}.

Section lemmas.
Context `{Env, Semver} (Hinj : Inj (=) (=) ulid_make).

Lemma safe_view_later v t t' : safe_view v t → t ≤ t' → safe_view v t'.
Proof. intros [Hf Hu Hs Hr] Hle. split; [|done..]. by eapply ids_fresh_later. Qed.

(** Updates that leave incidents and SBOMs alone. *)
Lemma safe_view_frame v v' t :
  safe_view v t → v_incidents v' = v_incidents v → v_sboms v' = v_sboms v →
  keeps_components v v' → safe_view v' t.
Proof.
  intros [Hf Hu Hs Hr] Hi Hb Hc.
  split; unfold ids_fresh, remediation_fresh, unique_open, sboms_wf; rewrite ?Hi, ?Hb; [done..|].
  intros id b. rewrite Hb. intros Hid. by eapply Hc, Hr.
Qed.

Lemma safe_view_put_sbom v t b :
  safe_view v t → sbom_wf b → is_Some (v_components v !! SBOM_ComponentRef b) →
  SBOM_ID b = ulid_make t → safe_view (put_sbom b v) (S t).
Proof using Hinj.
  intros [Hf Hu Hs Hr] Hb Hreg Hid. split; [|done| |].
  - intros u Hu'. simpl. split_and!; [apply Hf; lia| |apply Hf; lia].
    rewrite lookup_insert_ne; [apply Hf; lia|]. rewrite Hid. intros Heq%(inj ulid_make). lia.
  - intros id b'. simpl. intros [[_ <-]|[_ ?]]%lookup_insert_Some; [done|]. by eapply Hs.
  - intros id b'. simpl. intros [[_ <-]|[_ ?]]%lookup_insert_Some; [done|]. by eapply Hr.
Qed.

Lemma safe_view_open v t0 t t' now ps :
  safe_view v t0 → NoDup ps → (∀ p, p ∈ ps → ¬ open_for v p) →
  t0 ≤ t → t0 ≤ t' → (∀ i, i < length ps → 3 * i + t < t') →
  safe_view (put_incidents (new_incidents t now ps) v) t'.
Proof using Hinj.
  intros [Hf Hu Hs Hr] Hnd Hps Hle Hle' Hlen.
  assert (ids_fresh v t) as Hft by (intros u ?; apply Hf; lia).
  destruct (put_incidents_other (new_incidents t now ps) v) as (Hcp & Hsb & _). split.
  - by apply (ids_fresh_opened Hinj v t0).
  - by apply opened_unique.
  - intros id b. rewrite Hsb. apply Hs.
  - intros id b. rewrite Hsb, Hcp. apply Hr.
Qed.

(** Replacing an incident by one that covers no more. *)
Lemma safe_view_put_incident v t inc inc' :
  safe_view v t → v_incidents v !! Incident_ID inc = Some inc →
  Incident_ID inc' = Incident_ID inc → (∀ p, covers p inc' = true → covers p inc = true) →
  (∀ r, r ∈ Incident_Remediations inc' →
     r ∈ Incident_Remediations inc ∨ ∀ u, t ≤ u → Remediation_ID r ≠ ulid_make u) →
  safe_view (put_incident inc' v) t.
Proof.
  intros [Hf Hu Hs Hr] Hinc Hid Hcov Hrem. split; [| |done..].
  - apply ids_fresh_put_incident; [done|..].
    + intros u Hu'. rewrite Hid. intros Heq. destruct (Hf u Hu') as [Hnone _]. congruence.
    + intros u r Hu' [Hin|Hnew]%Hrem; [|by apply Hnew]. destruct (Hf u Hu') as (_ & _ & Hfr). by eapply Hfr.
  - intros id1 id2 i1 i2 p. simpl. rewrite Hid.
    intros [[<- <-]|[Hne1 H1]]%lookup_insert_Some [[<- <-]|[Hne2 H2]]%lookup_insert_Some Hc1 Hc2.
    + done.
    + eapply Hu; [exact Hinc|exact H2|by apply Hcov|done].
    + eapply Hu; [exact H1|exact Hinc|done|by apply Hcov].
    + by eapply Hu.
Qed.

Lemma keeps_put_component c v : keeps_components v (put_component c v).
Proof. intros ref ?. simpl. apply lookup_insert_is_Some'. auto. Qed.

(** *** Detection *)

Lemma incident_for_mono v v' ioc ref :
  (∀ id inc, v_incidents v !! id = Some inc → ∃ id' inc', v_incidents v' !! id' = Some inc' ∧
     Incident_IoCID inc' = Incident_IoCID inc ∧
     Incident_AffectedComponentsSnapshot inc' = Incident_AffectedComponentsSnapshot inc) →
  incident_for v ioc ref → incident_for v' ioc ref.
Proof.
  intros Hmono (id & inc & Hinc & Hi & Hr).
  destruct (Hmono id inc Hinc) as (id' & inc' & Hinc' & Hi' & Hs').
  exists id', inc'. rewrite Hi', Hs'. done.
Qed.

Lemma open_for_incident_for v p :
  open_for v p → incident_for v (matchPair_IoCID p) (matchPair_ComponentRef p).
Proof. intros (id & inc & ? & _ & ? & ?). by exists id, inc. Qed.

Lemma detected_frame v v' :
  detected v → v_incidents v' = v_incidents v → v_sboms v' = v_sboms v →
  v_iocs v' = v_iocs v → detected v'.
Proof.
  intros Hd Hi Hb Hc key ioc ref. unfold affected, incident_for. rewrite Hi, Hb, Hc.
  intros Hk Hkeyed Haff. by apply (Hd key).
Qed.

Lemma affected_put_sbom v b ioc ref :
  v_sboms v !! SBOM_ID b = None →
  affected (put_sbom b v) ioc ref ↔
  affected v ioc ref ∨ ref = SBOM_ComponentRef b ∧ Match_Matched (Evaluate ioc b) = true.
Proof.
  intros Hnone. unfold affected. simpl. setoid_rewrite lookup_insert_Some. split.
  - intros (id & b' & [[_ <-]|[_ ?]] & <- & ?); [by right|]. left. eauto.
  - intros [(id & b' & Hb & ? & ?)|[-> Hm]]; [|eauto 10].
    exists id, b'. split_and!; [right|done..]. split; [|done]. intros <-. congruence.
Qed.

(** Opening incidents keeps what was covered and covers the pairs. *)
Lemma incident_for_opened v t now ps ioc ref :
  ids_fresh v t → incident_for v ioc ref →
  incident_for (put_incidents (new_incidents t now ps) v) ioc ref.
Proof using Hinj.
  intros Hf. apply incident_for_mono. intros id inc Hinc. exists id, inc.
  split; [|done]. apply opened_lookup; auto.
Qed.

Lemma incident_for_pairs v t now ps p :
  ids_fresh v t → p ∈ ps ∨ open_for v p →
  incident_for (put_incidents (new_incidents t now ps) v)
    (matchPair_IoCID p) (matchPair_ComponentRef p).
Proof using Hinj.
  intros Hf Hp. apply open_for_incident_for, opened_open_for; [done..|]. tauto.
Qed.
End lemmas.

(** ** Handlers that only read *)

Section reads.
Context {St : Type} `{Env}.

Definition ReadsOnly {A} (m : M St A) : Prop := ∀ w, only_reads w (m w).2.

Lemma ReadsOnly_ret {A} (a : A) : ReadsOnly (mret a).
Proof. done. Qed.

Lemma ReadsOnly_bind {A B} (m : M St A) (f : A → M St B) :
  ReadsOnly m → (∀ a, ReadsOnly (f a)) → ReadsOnly (m ≫= f).
Proof.
  intros Hm Hf w. unfold mbind, M_bind. specialize (Hm w). destruct (m w) as [a w1].
  specialize (Hf a w1). destruct Hm as (Hs & He & Ht), Hf as (Hs' & He' & Ht').
  split_and!; simpl in *; [congruence|congruence|lia].
Qed.

Lemma ReadsOnly_read {A} (op : Call → St → result A) : ReadsOnly (st_read op).
Proof. intros w. split_and!; simpl; auto. Qed.

Lemma ReadsOnly_now : ReadsOnly (time_Now (St := St)).
Proof. intros w. split_and!; simpl; auto. Qed.

Lemma ReadsOnly_range {K V} `{Countable K} (m : gmap K V) : ReadsOnly (range_order (St := St) m).
Proof. intros w. split_and!; simpl; auto. Qed.

Lemma ReadsOnly_sort {A} less (l : list A) : ReadsOnly (sort_with (St := St) less l).
Proof. intros w. split_and!; simpl; auto. Qed.
End reads.

Create HintDb go_reads.
#[export] Hint Resolve ReadsOnly_ret ReadsOnly_bind ReadsOnly_read ReadsOnly_now
  ReadsOnly_range ReadsOnly_sort : go_reads.

Ltac reads_only :=
  repeat first
    [ progress intros
    | apply ReadsOnly_bind
    | solve [eauto with go_reads]
    | case_match ].

Section read_handlers.
Context {St : Type} `{Env, UnicodeCase, !Storage St, Semver, SBOMParser}.

Lemma hydrate_ReadsOnly refs : ReadsOnly (hydrate (St := St) refs).
Proof. induction refs as [|ref refs IH]; cbn [hydrate]; reads_only. Qed.

Lemma blastLoop_ReadsOnly iocs affected : ReadsOnly (blastLoop (St := St) iocs affected).
Proof.
  revert affected. induction iocs as [|ioc iocs IH]; intros affected; cbn [blastLoop];
    unfold storageError, writeError; reads_only.
Qed.
#[local] Hint Resolve hydrate_ReadsOnly blastLoop_ReadsOnly : go_reads.

(** The requests that cannot change stored state or publish. *)
Definition read_request (req : Request) : bool :=
  match req with
  | ReqUpsertComponent _ | ReqSubmitSBOM _ _ | ReqSubmitIoC _
  | ReqTransitionIncident _ _ | ReqAddRemediation _ _ => false
  | _ => true
  end.

Lemma serve_ReadsOnly req : read_request req = true → ReadsOnly (serve (St := St) req).
Proof.
  destruct req; intros [=]; cbn [serve];
    unfold Healthz, Readyz, Server_ListComponents, Server_ListSBOMsByComponent, Server_GetSBOM,
      Server_ListIoCs, Server_ListIncidents, Server_GetIncident, GetIncidentDetail, BlastRadius,
      Server_ListAnomalies, Server_GetAnomaly, Server_GetPublisherHistory,
      incidentError, storageError, writeError, writeJSON; reads_only.
Qed.
End read_handlers.

(** ** The invariant of the engine *)

Section engine.
Context {St : Type} `{Env, UnicodeCase, !Storage St, !StorageLaws St, Semver, SBOMParser}.
Context (Hulid : ulids_ok).
Implicit Types w : World St.

(** The texts by which a submitted IoC is matched are kept as they are. *)
Definition request_storable (req : Request) : Prop :=
  match req with ReqSubmitIoC (Ok body) => storable_ioc (fromGenIoC body) | _ => True end.

(** Detection is only guaranteed when storage answers: a request that
    failed half-way has to be repeated. *)
Record engine_ok (w : World St) : Prop := {
  ok_store : store_inv (w_store w);
  ok_safe : safe_view (view (w_store w)) (w_tick w);
  ok_detected : (∀ k, answered (call_at k)) → detected (view (w_store w));
}.

Lemma engine_ok_reads w w' : engine_ok w → only_reads w w' → engine_ok w'.
Proof.
  intros [Hs Hv Hd] (Hst & _ & Ht). split; rewrite Hst; [done| |done].
  by eapply safe_view_later.
Qed.

Lemma engine_ok_tick w : engine_ok w → engine_ok (tick w).
Proof. intros Hok. apply (engine_ok_reads w); [done|]. split_and!; simpl; auto. Qed.

Lemma engine_ok_publish w e :
  engine_ok w → engine_ok (MkWorld (w_store w) (w_events w ++ [e]) (S (w_tick w))).
Proof. intros [Hs Hv Hd]. split; simpl; [done| |done]. eapply safe_view_later; [done|lia]. Qed.

(** A write whose update leaves incidents, SBOMs and IoCs alone. *)
Lemma engine_ok_frame w s' t' :
  engine_ok w → store_inv s' → w_tick w ≤ t' →
  v_incidents (view s') = v_incidents (view (w_store w)) →
  v_sboms (view s') = v_sboms (view (w_store w)) →
  v_iocs (view s') = v_iocs (view (w_store w)) →
  keeps_components (view (w_store w)) (view s') →
  engine_ok (MkWorld s' (w_events w) t').
Proof.
  intros [Hs Hv Hd] Hs' Ht Hi Hb Hc Hk. split; simpl; [done| |].
  - eapply safe_view_frame; [by eapply safe_view_later|done..].
  - intros Hans. eapply detected_frame; [by apply Hd|done..].
Qed.

Lemma publishMatched_ok ref ids w :
  engine_ok w → wp (publishMatched ref ids) (λ _ w', engine_ok w') w.
Proof.
  revert w. induction ids as [|id ids IH]; intros w Hok; cbn [publishMatched]; [by apply wp_ret|].
  apply wp_bind, wp_time_Now, wp_bind, wp_publish, IH.
  apply (engine_ok_publish (tick w)). by apply engine_ok_tick.
Qed.

(** Opening the incidents of a match restores detection. [v0] is the view
    before the record that caused the match was written. *)
Lemma openIncidents_ok pairs w :
  store_inv (w_store w) → safe_view (view (w_store w)) (w_tick w) → Forall pair_accepted pairs →
  ((∀ k, answered (call_at k)) →
     ∀ key ioc ref, v_iocs (view (w_store w)) !! key = Some ioc → ioc_keyed ioc →
       affected (view (w_store w)) ioc ref →
       incident_for (view (w_store w)) (IoC_ID ioc) ref ∨ MkMatchPair (IoC_ID ioc) ref ∈ pairs) →
  wp (openIncidentsForMatches pairs) (λ r w', engine_ok w') w.
Proof using Hulid.
  intros Hs Hv Hacc Hd. pose proof (ulid_inj Hulid) as Hinj.
  eapply wp_mono; [apply openIncidents_summary; [done|done|apply Hv|done]|].
  intros r w' (Hs' & Ht & Hr & now & t & ps & Ht' & Hlen & Hps & Hnd & Hview & Hcov).
  assert (safe_view (view (w_store w)) t) as Hv' by by eapply safe_view_later.
  destruct (put_incidents_other (new_incidents t now ps) (view (w_store w))) as (_ & Hsb & Hic).
  split; [done| |].
  - rewrite Hview. apply (safe_view_open Hinj _ (w_tick w)); try done.
    intros p Hp. by apply Hps.
  - intros Hans key ioc ref. rewrite Hview. rewrite Hic. unfold affected at 1. rewrite Hsb.
    intros Hkey Hkeyed Haff. destruct (Hd Hans key ioc ref Hkey Hkeyed Haff) as [Hold|Hin].
    + apply incident_for_opened; [done|apply Hv'|done].
    + apply (incident_for_pairs Hinj _ _ _ _ (MkMatchPair (IoC_ID ioc) ref)); [apply Hv'|].
      apply Hcov; auto.
Qed.

(** *** The five handlers that write *)

Lemma UpsertComponent_ok body w :
  engine_ok w → wp (Server_UpsertComponent body) (λ _ w', engine_ok w') w.
Proof.
  intros Hok. unfold Server_UpsertComponent. destruct body as [body|e]; [|by apply wp_ret].
  case_bool_decide; [by apply wp_ret|].
  destruct (ParseComponentRef _) as [[[kind ns] name]|e]; [|by apply wp_ret].
  set (c := MkComponent _ _ _ _ _ _ _ _ _). apply wp_bind.
  assert (∀ status, wp (err ← st_write (λ k, UpsertComponent k c);
    match err with
    | Some e => storageError e
    | None => writeJSON status (BComponent (toGenComponent c))
    end) (λ _ w', engine_ok w') (tick w)) as Hup.
  { intros status. apply wp_bind.
    eapply (wp_write _ (put_component (keep_component c)));
      [apply UpsertComponent_law, (ok_store _ Hok)|..].
    - intros s' Hs' _ Hv. apply wp_ret.
      apply (engine_ok_frame w); [done|done|simpl; lia|rewrite Hv; done..|].
      rewrite Hv. apply keeps_put_component.
    - intros s' e Hs' _ Hv. apply wp_ret.
      apply (engine_ok_frame w); [done|done|simpl; lia|by destruct Hv as [->| ->]..|].
      destruct Hv as [->| ->]; [apply keeps_put_component|by intros ref]. }
  eapply wp_look; [apply GetComponent_law, (ok_store _ Hok)| | |].
  - intros c' _. apply Hup.
  - intros e He _. rewrite He. apply Hup.
  - intros e He _. rewrite He. apply wp_ret. by apply engine_ok_tick.
Qed.

(** The pairs a stored IoC makes with stored SBOMs. *)
Lemma forward_pairs_accepted ioc refs s :
  store_inv s → accepts_text (IoC_ID ioc) →
  (∀ ref, ref ∈ refs → affected (view s) ioc ref) →
  Forall pair_accepted (MkMatchPair (IoC_ID ioc) <$> refs).
Proof.
  intros Hs Hid Hrefs. apply Forall_fmap, Forall_forall. intros ref (id & b & Hb & <- & _)%Hrefs.
  split; [done|]. by eapply store_sboms_accepted.
Qed.

(** The IoC that is stored fires where the submitted one does. *)
Lemma stored_ioc_detected ioc v (refs : list string) :
  same_target ioc (keep_ioc ioc) → (∀ ref, affected v ioc ref → ref ∈ refs) →
  ∀ ref, affected v (keep_ioc ioc) ref →
    MkMatchPair (IoC_ID (keep_ioc ioc)) ref ∈ MkMatchPair (IoC_ID ioc) <$> refs.
Proof.
  intros Hsame Hrefs ref Haff. rewrite <- (st_id _ _ Hsame). apply list_elem_of_fmap_2, Hrefs.
  by eapply same_target_affected; [apply same_target_sym|].
Qed.

Lemma SubmitIoC_ok body w :
  request_storable (ReqSubmitIoC body) → engine_ok w →
  wp (SubmitIoC body) (λ _ w', engine_ok w') w.
Proof using Hulid.
  intros Hstore Hok. unfold SubmitIoC. destruct body as [body|e]; [|by apply wp_ret].
  set (ioc := fromGenIoC body). destruct (IoC_Validate ioc); [by apply wp_ret|].
  destruct (constraintError ioc); [by apply wp_ret|]. apply wp_bind.
  destruct Hok as [Hs Hv Hd].
  eapply (wp_write _ (put_ioc (keep_ioc ioc))); [by apply UpsertIoC_law| |].
  2:{ intros s' e Hs' Hans Hview. apply wp_ret. split; simpl; [done| |].
      - eapply safe_view_frame; [eapply safe_view_later; [exact Hv|lia]|..];
          destruct Hview as [->| ->]; done.
      - intros Hall. destruct (Hans (Hall _)) as [_ ->]. by apply Hd. }
  intros s' Hs' Hacc Hview. apply wp_bind.
  assert (sboms_wf (view s')) as Hwf by (rewrite Hview; intros id b; apply (sv_sboms _ _ Hv)).
  eapply wp_mono; [apply forwardMatch_spec; [done|done|by apply stored_key_accepted]|].
  intros r w1 [(Hst & Hev & Ht) Hr]. simpl in *.
  assert (safe_view (view (w_store w1)) (w_tick w1)) as Hv1.
  { rewrite Hst, Hview. eapply safe_view_frame; [eapply safe_view_later; [exact Hv|lia]|done..]. }
  destruct r as [[pairs refs]|e].
  2:{ apply wp_ret. split; [by rewrite Hst|done|]. destruct Hr as [k Hk].
      intros Hall. destruct (Hk (Hall k)). }
  destruct Hr as (-> & Hnd & Hrefs). apply wp_bind.
  pose proof (keep_ioc_target ioc Hstore Hacc) as Hsame.
  eapply wp_mono; [apply openIncidents_ok; [by rewrite Hst|done| |]|].
  - apply (forward_pairs_accepted ioc refs s' Hs'); [|intros ref ?; by apply bulk_hit_sound, Hrefs].
    apply (store_iocs_accepted s' _ (keep_ioc ioc) Hs'). rewrite Hview. simpl.
    by rewrite keep_ioc_id, lookup_insert_eq.
  - intros Hall key ioc' ref. rewrite Hst. rewrite Hview at 1 3. simpl.
    intros [[<- <-]|[Hne Hkey]]%lookup_insert_Some Hkeyed Haff.
    + right. apply (stored_ioc_detected ioc (view s')); [done| |done]. intros ref' Haff'.
      apply Hrefs, bulk_hit_complete; [done| |done].
      eapply same_target_keyed; [by apply same_target_sym|done].
    + left. rewrite Hview in Haff. by apply (Hd Hall key).
  - intros [ids [e|]] w2 Hok2; [by apply wp_ret|]. apply wp_bind. case_bool_decide.
    + apply wp_bind, wp_time_Now, wp_publish, wp_ret.
      apply (engine_ok_publish (tick w2)). by apply engine_ok_tick.
    + by apply wp_ret, wp_ret.
Qed.

Lemma SubmitSBOM_ok `{!SBOMParserLaws} ref body w :
  engine_ok w → wp (SubmitSBOM ref body) (λ _ w', engine_ok w') w.
Proof using Hulid.
  intros Hok. unfold SubmitSBOM. apply wp_bind.
  eapply wp_look; [apply GetComponent_law, (ok_store _ Hok)| | |];
    [|intros e He _; rewrite He; apply wp_ret; by apply engine_ok_tick..].
  intros c Hc. apply engine_ok_tick in Hok. change (w_store w) with (w_store (tick w)) in Hc.
  revert Hok Hc. generalize (tick w). clear w. intros w Hok Hc.
  destruct body as [body|e]; [|by apply wp_ret].
  case_bool_decide; [by apply wp_ret|]. case_bool_decide; [by apply wp_ret|].
  apply wp_bind. unfold wp at 1, st_read. simpl.
  destruct (Parse _ _) as [parsed|e] eqn:Hparse; [|apply wp_ret; by apply engine_ok_tick].
  apply Parse_wf in Hparse as Hwf.
  apply wp_bind, wp_bind, wp_ulid_Make, wp_bind, wp_time_Now, wp_ret.
  set (sbom := MkSBOM _ _ _ _ _ _ _ _).
  assert (sbom_wf (keep_sbom sbom)) as Hsb by exact Hwf.
  destruct Hok as [Hs Hv Hd]. pose proof (ok_fresh := sv_fresh _ _ Hv).
  assert (v_sboms (view (w_store w)) !! SBOM_ID sbom = None) as Hnone by (apply ok_fresh; simpl; lia).
  assert (safe_view (put_sbom (keep_sbom sbom) (view (w_store w))) (S (S (w_tick w)))) as Hv'.
  { apply (safe_view_put_sbom (ulid_inj Hulid)); [|done|by exists c|done]. eapply safe_view_later; [done|lia]. }
  apply wp_bind. eapply (wp_write _ (put_sbom (keep_sbom sbom))); [by apply UpsertSBOM_law| |].
  2:{ intros s' e Hs' Hans Hview. apply wp_ret. split; simpl in *; [done| |].
      - destruct Hview as [->| ->]; (eapply safe_view_later; [done|lia]).
      - intros Hall. destruct (Hans (Hall _)) as [_ ->]. by apply Hd. }
  intros s' Hs' _ Hview. apply wp_bind, wp_publish, wp_bind. simpl in *.
  eapply wp_mono; [by apply retroactiveMatch_spec|]. intros r w1 [(Hst & Hev & Ht) Hr].
  simpl in *. rewrite Hview in Hr.
  assert (safe_view (view (w_store w1)) (w_tick w1)) as Hv1.
  { rewrite Hst, Hview. eapply safe_view_later; [done|lia]. }
  destruct r as [[pairs ids]|e].
  2:{ apply wp_ret. split; [by rewrite Hst|done|]. destruct Hr as [k Hk].
      intros Hall. destruct (Hk (Hall k)). }
  destruct Hr as (_ & _ & Hpairs & _). apply wp_bind.
  eapply wp_mono; [apply openIncidents_ok; [by rewrite Hst|done| |]|].
  - apply Forall_forall. intros p (key & ioc & Hkey & _ & ->)%Hpairs. split; simpl.
    + assert (v_iocs (view s') !! key = Some ioc) as Hkey' by (by rewrite Hview).
      rewrite (wf_iocs _ (store_inv_wf _ Hs') _ _ Hkey'). by eapply store_iocs_accepted.
    + apply (store_sboms_accepted s' (SBOM_ID sbom) (keep_sbom sbom) Hs').
      rewrite Hview. simpl. apply lookup_insert_eq.
  - intros Hall key ioc ref'. rewrite Hst, Hview. simpl. intros Hkey Hkeyed.
    rewrite affected_put_sbom by done. intros [Haff|[-> Hm]].
    + left. by apply (Hd Hall key).
    + right. apply Hpairs. eauto.
  - intros [opened [e|]] w2 Hok2; [by apply wp_ret|]. apply wp_bind.
    eapply wp_mono; [by apply publishMatched_ok|]. intros [] w3 Hok3. by apply wp_ret.
Qed.

(** A legal transition covers no more than before. *)
Lemma Transition_covers i next now i' p :
  Transition i next now = (i', None) →
  Incident_ID i' = Incident_ID i ∧ Incident_IoCID i' = Incident_IoCID i ∧
  Incident_AffectedComponentsSnapshot i' = Incident_AffectedComponentsSnapshot i ∧
  Incident_Remediations i' = Incident_Remediations i ∧
  (covers p i' = true → covers p i = true).
Proof.
  intros Ht. destruct (Incident_phase i) as [[q Hq]|Hq]; [|by rewrite Transition_unknown in Ht].
  rewrite (Transition_phase i q) in Ht by done.
  destruct (CanTransitionTo (phase_name q) next) eqn:E; [|done].
  apply CanTransitionTo_phase in E as (q' & -> & Hedge).
  case_bool_decide as Heq; simplify_eq; [done|]. destruct Hedge as [->|He]; [done|].
  split_and!; [done..|]. rewrite !covers_true. simpl. intros (_ & ? & ?). split_and!; [|done..].
  unfold actionable. rewrite Hq.
  by destruct He as [| | | |x Hx]; try done; set_unfold in Hx; destruct_or!; subst.
Qed.

(** Replacing an incident by a version of itself. *)
Lemma engine_ok_put_incident w s' t' inc inc' :
  engine_ok w → store_inv s' → w_tick w ≤ t' →
  v_incidents (view (w_store w)) !! Incident_ID inc = Some inc →
  Incident_ID inc' = Incident_ID inc → Incident_IoCID inc' = Incident_IoCID inc →
  Incident_AffectedComponentsSnapshot inc' = Incident_AffectedComponentsSnapshot inc →
  (∀ p, covers p inc' = true → covers p inc = true) →
  (∀ r, r ∈ Incident_Remediations inc' →
     r ∈ Incident_Remediations inc ∨ ∀ u, t' ≤ u → Remediation_ID r ≠ ulid_make u) →
  view s' = put_incident inc' (view (w_store w)) →
  engine_ok (MkWorld s' (w_events w) t').
Proof.
  intros [Hs Hv Hd] Hs' Ht Hinc Hid Hioc Hsnap Hcov Hrem Hview. split; simpl; [done| |].
  - rewrite Hview. eapply safe_view_put_incident; [by eapply safe_view_later|done..].
  - intros Hall key ioc ref. rewrite Hview. intros Hkey Hkeyed Haff.
    eapply incident_for_mono; [|by apply (Hd Hall key)].
    intros id i Hi. simpl. destruct (decide (id = Incident_ID inc)) as [->|Hne].
    + exists (Incident_ID inc), inc'. rewrite Hid, lookup_insert_eq. simplify_eq. auto.
    + exists id, i. rewrite lookup_insert_ne by congruence. auto.
Qed.

Lemma TransitionIncident_ok id body w :
  engine_ok w → wp (TransitionIncident id body) (λ _ w', engine_ok w') w.
Proof.
  intros Hok. unfold TransitionIncident. destruct body as [target|e]; [|by apply wp_ret].
  apply wp_bind. eapply wp_look; [apply GetIncident_law, (ok_store _ Hok)| | |];
    [|intros e He _; unfold incidentError; rewrite He; apply wp_ret; by apply engine_ok_tick..].
  intros inc Hinc. unfold applyTransition. apply wp_bind, wp_time_Now.
  pose proof (store_inv_wf _ (ok_store _ Hok)) as Hwf.
  pose proof (wf_incidents _ Hwf _ _ Hinc) as Hid. subst id.
  apply engine_ok_tick, engine_ok_tick in Hok. revert Hok Hinc. simpl.
  change (view (w_store w)) with (view (w_store (tick (tick w)))).
  generalize (UTC (call_now (this_call (tick w)))). generalize (tick (tick w)). clear w Hwf.
  intros w now Hok Hinc. destruct (Transition inc target now) as [inc' [e|]] eqn:Ht.
  { case_match; by apply wp_ret. }
  destruct (Transition_covers inc target now inc' (MkMatchPair "" "") Ht) as (Hid & Hio & Hsn & Hrm & _).
  assert (∀ s', store_inv s' → view s' = put_incident (keep_incident inc') (view (w_store w)) →
    engine_ok (MkWorld s' (w_events w) (S (w_tick w)))) as Hput.
  { intros s' Hs' Hview.
    apply (engine_ok_put_incident w s' (S (w_tick w)) inc (keep_incident inc')); try done; [lia| |].
    - intros p. by apply (Transition_covers inc target now inc' p).
    - intros r. simpl. rewrite Hrm. by left. }
  apply wp_bind. eapply (wp_write _ (put_incident (keep_incident inc')));
    [apply UpsertIncident_law; [apply (ok_store _ Hok)|]| |].
  { unfold stored_remediations. rewrite Hid, Hinc, Hrm. done. }
  - intros s' Hs' _ Hview. apply wp_bind. pose proof (Hput s' Hs' Hview) as Hok'.
    case_bool_decide; [|by apply wp_ret, wp_ret].
    apply wp_publish, wp_ret. by apply (engine_ok_publish (MkWorld s' _ _)).
  - intros s' e Hs' Hans Hview. apply wp_ret.
    destruct Hview as [Hview|Hview]; [by apply Hput|].
    apply (engine_ok_frame w); [done|done|simpl; lia|rewrite Hview; done..].
Qed.

Lemma covers_add_remediation p r inc : covers p (add_remediation r inc) = covers p inc.
Proof. done. Qed.

Lemma append_remediation_put id r v inc :
  v_incidents v !! id = Some inc → Incident_ID inc = id →
  append_remediation id r v = put_incident (add_remediation r inc) v.
Proof.
  intros Hinc <-. unfold append_remediation, put_incident. f_equal.
  by rewrite (alter_lookup_insert _ _ _ _ Hinc).
Qed.

Lemma AddRemediation_ok id body w :
  engine_ok w → wp (AddRemediation id body) (λ _ w', engine_ok w') w.
Proof using Hulid.
  intros Hok. unfold AddRemediation. apply wp_bind.
  eapply wp_look; [apply GetIncident_law, (ok_store _ Hok)| | |];
    [|intros e He _; unfold incidentError; rewrite He; apply wp_ret; by apply engine_ok_tick..].
  intros inc Hinc. destruct body as [body|e]; [|apply wp_ret; by apply engine_ok_tick].
  apply wp_bind, wp_time_Now, wp_bind, wp_ulid_Make.
  set (rem := MkRemediation _ _ _ _ _ _).
  pose proof (sv_fresh _ _ (ok_safe _ Hok)) as Hfr.
  assert (remediation_fresh (view (w_store w)) (Remediation_ID rem)) as Hfresh by (apply Hfr; simpl; lia).
  assert (Remediation_ID rem = ulid_make (S (S (w_tick w)))) as Hrid by done.
  assert (Remediation_IncidentID rem = id) as Hiid by done.
  apply engine_ok_tick, engine_ok_tick, engine_ok_tick in Hok.
  destruct (Remediation_Validate rem); [by apply wp_ret|].
  pose proof (wf_incidents _ (store_inv_wf _ (ok_store _ Hok)) _ _ Hinc) as Hid.
  change (view (w_store w)) with (view (w_store (tick (tick (tick w))))) in Hinc, Hfresh.
  assert (S (S (w_tick w)) < S (w_tick (tick (tick (tick w))))) as Hlt by (simpl; lia).
  clearbody rem. revert Hok Hinc Hlt Hfresh.
  generalize (tick (tick (tick w))). intros w1 Hok Hinc Hlt Hfresh. apply wp_bind.
  assert (∀ s' , store_inv s' → view s' = append_remediation id (keep_remediation rem) (view (w_store w1)) →
    engine_ok (MkWorld s' (w_events w1) (S (w_tick w1)))) as Hput.
  { intros s' Hs' Hview. rewrite (append_remediation_put _ _ _ _ Hinc Hid) in Hview.
    apply (engine_ok_put_incident w1 s' (S (w_tick w1)) inc (add_remediation (keep_remediation rem) inc));
      try done; [lia|by rewrite Hid|]. intros r. simpl. rewrite elem_of_app, list_elem_of_singleton.
    intros [?| ->]; [by left|right]. intros u Hu. simpl. rewrite Hrid.
    intros Heq%(ulid_inj Hulid). lia. }
  eapply (wp_write _ (append_remediation id (keep_remediation rem))).
  - pose proof (AppendRemediation_law (this_call w1) id rem (w_store w1) (ok_store _ Hok) Hiid Hfresh) as Hl.
    rewrite Hinc in Hl. exact Hl.
  - intros s' Hs' _ Hview. apply wp_bind, wp_publish, wp_ret.
    apply (engine_ok_publish (MkWorld s' _ _)). by apply Hput.
  - intros s' e Hs' _ [Hview|Hview]; apply wp_ret; [by apply Hput|].
    apply (engine_ok_frame w1); [done|done|lia|rewrite Hview; done..].
Qed.

(** Every request, every answer of the environment. *)
Lemma serve_ok `{!SBOMParserLaws} req w :
  request_storable req → engine_ok w → wp (serve req) (λ _ w', engine_ok w') w.
Proof using Hulid.
  intros Hreq Hok. destruct (read_request req) eqn:Hread.
  - eapply engine_ok_reads; [done|]. by apply serve_ReadsOnly.
  - destruct req; try done; cbn [serve].
    + by apply UpsertComponent_ok.
    + by apply SubmitSBOM_ok.
    + by apply SubmitIoC_ok.
    + by apply TransitionIncident_ok.
    + by apply AddRemediation_ok.
Qed.

Lemma serve_all_ok `{!SBOMParserLaws} reqs w :
  Forall request_storable reqs → engine_ok w → wp (serve_all reqs) (λ _ w', engine_ok w') w.
Proof using Hulid.
  intros Hreqs. revert w.
  induction Hreqs as [|req reqs Hreq Hreqs IH]; intros w Hok; cbn [serve_all]; [by apply wp_ret|].
  apply wp_bind. eapply wp_mono; [by apply serve_ok|]. intros resp w1 Hok1.
  apply wp_bind. eapply wp_mono; [by apply IH|]. intros resps w2 Hok2. by apply wp_ret.
Qed.
End engine.

(** ** Starting empty *)

Section pristine.
Context {St : Type} `{Env, UnicodeCase, !Storage St, !StorageLaws St, Semver, SBOMParser}.
Implicit Types w : World St.

(** An engine that has served nothing yet. *)
Definition pristine (w : World St) : Prop :=
  store_inv (w_store w) ∧ v_incidents (view (w_store w)) = ∅ ∧
  v_sboms (view (w_store w)) = ∅ ∧ v_iocs (view (w_store w)) = ∅.

Lemma pristine_ok w : pristine w → engine_ok w.
Proof.
  intros (Hs & Hi & Hb & Hc). split; [done| |].
  - split.
    + intros t _. rewrite Hi, Hb, !lookup_empty. split_and!; [done..|].
      intros id i r. by rewrite Hi, lookup_empty.
    + intros id1 id2 i1 i2 p. by rewrite Hi, lookup_empty.
    + intros id b. by rewrite Hb, lookup_empty.
    + intros id b. by rewrite Hb, lookup_empty.
  - intros _ key ioc ref. by rewrite Hc, lookup_empty.
Qed.
End pristine.

(** ** The npm parser discharges the law

    The server parses with [npm.NewParser()]. *)
Definition npm_parser : SBOMParser := {| Parse := SbomNpm.Parse |}.

Lemma npm_parser_laws : @SBOMParserLaws npm_parser.
Proof. split. intros k content parsed. apply SbomNpm_Parse_wf. Qed.

(** ** Witnesses

    An engine that is told of the component, then of its lockfile, then of
    the IoC. *)
#[local] Existing Instance npm_parser.
#[local] Existing Instance npm_parser_laws.

Definition sample_requests : list Request := [
  ReqUpsertComponent (Ok (toGenComponent sample_component));
  ReqSubmitSBOM sample_ref (Ok (MkGenSBOMSubmission None sample_lockfile "npm" "npm-package-lock-v3"));
  ReqSubmitIoC (Ok (toGenIoC sample_ioc))].

Definition empty_world : World Store := MkWorld New [] 0.

Lemma empty_world_pristine : pristine empty_world.
Proof. split_and!; [apply New_inv|done..]. Qed.

Definition world_after : World Store := (serve_all sample_requests empty_world).2.

Definition stored_sbom : SBOM :=
  MkSBOM "ULID-IIII" sample_ref "" "npm" 105
    (default [] (ParsedSBOM_Packages <$>
       result_value (SbomNpm.Parse (npm_call reference_runtime) sample_lockfile)))
    "npm-package-lock-v3" (Z.of_nat (String.length sample_lockfile)).
