(* ===== verification/HandlerSpecs.v ===== *)
(** * What each endpoint does

    The functional behaviour of the handlers, branch by branch, against
    the storage laws: queries are pure, rejected requests leave no trace,
    transitions, remediations, blast radius and listings do what they
    document; and two behaviours the code does not intend. *)

From S2P Require Import Prelude GoStrings GoText Domain Matcher Storage MemoryStore Wire Engine Samples Sbom SbomNpm Matching Handlers EngineInvariant.
From stdpp Require Import options.

(** ** Queries and rejections *)

Definition client_error (r : Response) : Prop := (400 ≤ resp_status r < 500)%Z.

Section rejections.
Context {St : Type} `{Env}.

(** A client error is only answered before anything is written. *)
Definition CleanReject (m : M St Response) : Prop :=
  ∀ w, client_error (m w).1 → only_reads w (m w).2.

Definition NoReject (m : M St Response) : Prop := ∀ w, ¬ client_error (m w).1.

Lemma CleanReject_bind {A} (m : M St A) (f : A → M St Response) :
  ReadsOnly m → (∀ a, CleanReject (f a)) → CleanReject (m ≫= f).
Proof.
  intros Hm Hf w. unfold mbind, M_bind. specialize (Hm w). destruct (m w) as [a w1].
  intros Hr. specialize (Hf a w1 Hr). destruct Hm as (Hs & He & Ht), Hf as (Hs' & He' & Ht').
  split_and!; simpl in *; [congruence|congruence|lia].
Qed.

Lemma CleanReject_reads (m : M St Response) : ReadsOnly m → CleanReject m.
Proof. intros Hm w _. apply Hm. Qed.

Lemma CleanReject_never (m : M St Response) : NoReject m → CleanReject m.
Proof. intros Hm w Hr. destruct (Hm w Hr). Qed.

Lemma NoReject_bind {A} (m : M St A) (f : A → M St Response) :
  (∀ a, NoReject (f a)) → NoReject (m ≫= f).
Proof. intros Hf w. unfold mbind, M_bind. destruct (m w) as [a w1]. apply Hf. Qed.

Lemma NoReject_ret status body : ¬ (400 ≤ status < 500)%Z → NoReject (mret (MkResponse status body)).
Proof. intros Hs w Hr. by apply Hs. Qed.

Lemma ReadsOnly_ulid : ReadsOnly (ulid_Make (St := St)).
Proof. intros w. split_and!; simpl; auto. Qed.

Lemma ReadsOnly_Ingest parsed ref sha : ReadsOnly (Ingest (St := St) parsed ref sha).
Proof.
  unfold Ingest. apply ReadsOnly_bind; [apply ReadsOnly_ulid|]. reads_only.
Qed.
End rejections.

#[export] Hint Resolve ReadsOnly_ulid ReadsOnly_Ingest : go_reads.

(** Statuses outside 400..499, after a write. *)
Ltac no_reject :=
  repeat first
    [ progress intros
    | apply NoReject_bind
    | apply NoReject_ret; unfold StatusOK, StatusCreated, StatusInternalServerError; lia
    | case_match ].

(** Reads, then either a response or a write. *)
Ltac clean_reject :=
  repeat first
    [ progress intros
    | solve [apply CleanReject_reads; eauto with go_reads]
    | apply CleanReject_bind; [solve [eauto with go_reads]|]
    | apply CleanReject_never; solve [no_reject]
    | case_match ].

Section queries.
Context {St : Type} `{Env, UnicodeCase, !Storage St, Semver, SBOMParser}.
Implicit Types w : World St.

(** Queries are pure: no request other than the five that submit
    something changes a stored record or publishes an event, whatever its
    input and however storage answers. *)
Theorem queries_are_pure req w :
  read_request req = true →
  w_store (serve req w).2 = w_store w ∧ w_events (serve req w).2 = w_events w.
Proof. intros Hq. by destruct (serve_ReadsOnly req Hq w) as (? & ? & _). Qed.

Lemma serve_CleanReject req : CleanReject (serve (St := St) req).
Proof.
  destruct (read_request req) eqn:Hr.
  - by apply CleanReject_reads, serve_ReadsOnly.
  - destruct req; try done; cbn [serve];
      unfold Server_UpsertComponent, SubmitSBOM, SubmitIoC, TransitionIncident, applyTransition,
        AddRemediation, incidentError, storageError, writeError, writeJSON; clean_reject.
Qed.

(** C14: a rejected request leaves no trace: whenever the response is a client
    error (400, 404 or 409) the store and the event stream are as they
    were; in particular an invalid IoC, an unknown component, an
    unsupported lockfile or an illegal transition is refused before
    anything is written. *)
Theorem rejected_requests_leave_no_trace req w :
  client_error (serve req w).1 →
  w_store (serve req w).2 = w_store w ∧ w_events (serve req w).2 = w_events w.
Proof. intros Hr. by destruct (serve_CleanReject req w Hr) as (? & ? & _). Qed.
End queries.

(** ** Incidents *)

Section incidents.
Context {St : Type} `{Env, UnicodeCase, !Storage St, !StorageLaws St, Semver, SBOMParser}.
Implicit Types w : World St.

(** The response and its effect, with storage answering. *)
Definition Effect (w : World St) (m : M St Response) (r : Response) (v' : View)
    (evs : list DomainEvent) : Prop :=
  (m w).1 = r ∧ view (w_store (m w).2) = v' ∧ w_events (m w).2 = w_events w ++ evs.

Lemma Effect_wp w m r v' evs :
  wp m (λ x w', x = r ∧ view (w_store w') = v' ∧ w_events w' = w_events w ++ evs) w →
  Effect w m r v' evs.
Proof. done. Qed.

(** A legal transition of a stored incident is storable. *)
Lemma Transition_accepted i next now i' :
  accepts_incident i → Transition i next now = (i', None) → accepts_incident i'.
Proof.
  intros Hacc Ht. destruct (Transition_covers i next now i' (MkMatchPair "" "") Ht) as (Hid & Hio & Hsn & _).
  destruct (Transition_next _ _ _ _ Ht) as [Hst _].
  apply Forall_cons in Hacc as [? [? [? ?]%Forall_cons]%Forall_cons].
  unfold accepts_incident, incident_texts. rewrite Hid, Hio, Hsn, Hst.
  repeat (apply Forall_cons; split); try done. apply accepts_plain.
  destruct (Incident_phase i) as [[q Hq]|Hq]; [|by rewrite Transition_unknown in Ht].
  rewrite (Transition_phase i q) in Ht by done.
  destruct (CanTransitionTo (phase_name q) next) eqn:E; [|done].
  apply CanTransitionTo_phase in E as (q' & -> & _). by destruct q'.
Qed.

(** C30: the transition endpoint. With storage answering: an unknown incident
    is a 404; a known one is moved as the lifecycle allows, stored (with the
    resolution of time the backend has), announced by one event unless the
    state did not change, and returned; an illegal target is a 409 and an
    unknown stored state a 400, with nothing changed. *)
Theorem TransitionIncident_spec id target w :
  store_inv (w_store w) → (∀ k, answered (call_at k)) → accepts_text id →
  let v := view (w_store w) in
  let now := UTC (call_now (call_at (S (w_tick w)))) in
  match v_incidents v !! id with
  | None =>
      Effect w (TransitionIncident id (Ok target))
        (MkResponse StatusNotFound (BError "INCIDENT_NOT_FOUND"
           (MText ("incident " +:+ id +:+ " not found")))) v []
  | Some inc =>
      match Transition inc target now with
      | (inc', None) =>
          Effect w (TransitionIncident id (Ok target))
            (MkResponse StatusOK (BIncident (toGenIncident inc'))) (put_incident (keep_incident inc') v)
            (if bool_decide (Incident_State inc = target) then []
             else [IncidentTransitionedEvent id (Incident_State inc) target now])
      | (_, Some e) =>
          Effect w (TransitionIncident id (Ok target))
            (if errors_Is e ErrUnknownState
             then MkResponse StatusBadRequest (BError "INVALID_STATE" (MError e))
             else MkResponse StatusConflict (BError "INVALID_TRANSITION" (MError e))) v []
      end
  end.
Proof.
  intros Hinv Hans Hacc v now.
  pose proof (GetIncident_law (this_call w) id (w_store w) Hinv) as Hget. fold v in Hget.
  assert (answered (this_call w) ∧ accepts_text id) as Hget_ok by (split; [apply Hans|done]).
  destruct (v_incidents v !! id) as [inc|] eqn:Hinc.
  2:{ apply Effect_wp. apply wp_bind. eapply wp_look_none; [exact Hget|exact Hget_ok|].
      intros e He. unfold incidentError. rewrite He. apply wp_ret. by rewrite app_nil_r. }
  assert (Incident_ID inc = id) as <- by (by apply (wf_incidents _ (store_inv_wf _ Hinv))).
  destruct (Transition inc target now) as [inc' [e|]] eqn:Ht.
  - apply Effect_wp, wp_bind. eapply wp_look_some; [exact Hget|exact Hget_ok|].
    apply wp_bind, wp_time_Now. change (UTC _) with now. rewrite Ht.
    rewrite (Transition_error_kind _ _ _ _ _ Ht).
    destruct (errors_Is e ErrUnknownState); apply wp_ret; by rewrite app_nil_r.
  - apply Effect_wp, wp_bind. eapply wp_look_some; [exact Hget|exact Hget_ok|].
    apply wp_bind, wp_time_Now. change (UTC _) with now. rewrite Ht.
    destruct (Transition_covers _ _ _ _ (MkMatchPair "" "") Ht) as (_ & Hio & Hsn & Hrm & _).
    destruct (Transition_next _ _ _ _ Ht) as [Hst Hid]. rewrite Hst, Hid. apply wp_bind.
    eapply (wp_write_ok _ (put_incident (keep_incident inc')));
      [apply Hans| |apply UpsertIncident_law; [done|]|].
    { eapply Transition_accepted; [|exact Ht]. by eapply store_incidents_accepted. }
    { unfold stored_remediations. rewrite Hid, Hrm. simpl. fold v. by rewrite Hinc. }
    intros s' Hs' Hview. apply wp_bind. simpl in *.
    destruct (bool_decide_reflect (Incident_State inc = target)) as [Heq|Hne].
    + rewrite bool_decide_false by (intros ?; done). apply wp_ret, wp_ret. by rewrite app_nil_r.
    + rewrite bool_decide_true by done. apply wp_publish, wp_ret. done.
Qed.

(** The remediation endpoint. With storage answering, a remediation of a
    known kind on a known incident is appended to that incident's audit log
    and to no other, under a fresh id, the incident id of the path and the
    time of the body or else now; one event announces it; an unknown kind
    is a 400 and an unknown incident a 404, with nothing changed. *)
Theorem AddRemediation_spec id body w :
  store_inv (w_store w) → (∀ k, answered (call_at k)) → accepts_text id →
  ids_fresh (view (w_store w)) (w_tick w) →
  let v := view (w_store w) in
  let now := UTC (call_now (call_at (S (w_tick w)))) in
  let rem := MkRemediation (ulid_make (S (S (w_tick w)))) id (gen_Remediation_Kind body)
    (if IsZero (gen_Remediation_ExecutedAt body) then now else gen_Remediation_ExecutedAt body)
    (default "" (gen_Remediation_ActorRef body)) (default ∅ (gen_Remediation_Details body)) in
  match v_incidents v !! id with
  | None =>
      Effect w (AddRemediation id (Ok body))
        (MkResponse StatusNotFound (BError "INCIDENT_NOT_FOUND"
           (MText ("incident " +:+ id +:+ " not found")))) v []
  | Some inc =>
      if bool_decide (gen_Remediation_Kind body ∈ validRemediationKinds) then
        accepts_remediation rem →
        Effect w (AddRemediation id (Ok body))
          (MkResponse StatusCreated (BRemediation (toGenRemediation rem)))
          (put_incident (add_remediation (keep_remediation rem) inc) v)
          [RemediationAddedEvent id (Remediation_ID rem) (gen_Remediation_Kind body) now]
      else
        Effect w (AddRemediation id (Ok body))
          (MkResponse StatusBadRequest (BError "INVALID_REMEDIATION_KIND"
             (MError (EWrap "%w: %q" [gen_Remediation_Kind body]
                        (ESentinel ErrInvalidRemediationKind))))) v []
  end.
Proof.
  intros Hinv Hans Hacc Hfresh v now rem.
  pose proof (GetIncident_law (this_call w) id (w_store w) Hinv) as Hget. fold v in Hget.
  assert (answered (this_call w) ∧ accepts_text id) as Hget_ok by (split; [apply Hans|done]).
  destruct (v_incidents v !! id) as [inc|] eqn:Hinc.
  2:{ apply Effect_wp, wp_bind. eapply wp_look_none; [exact Hget|exact Hget_ok|].
      intros e He. unfold incidentError. rewrite He. apply wp_ret. by rewrite app_nil_r. }
  assert (∀ r v' evs, wp (match Remediation_Validate rem with
      | Some e => writeError StatusBadRequest "INVALID_REMEDIATION_KIND" (MError e)
      | None => err ← st_write (λ k, AppendRemediation k id rem);
          match err with
          | Some e => storageError e
          | None => publish (RemediationAddedEvent id (Remediation_ID rem) (Remediation_Kind rem) now);;
              writeJSON StatusCreated (BRemediation (toGenRemediation rem))
          end
      end) (λ x w', x = r ∧ view (w_store w') = v' ∧ w_events w' = w_events w ++ evs)
      (tick (tick (tick w))) → Effect w (AddRemediation id (Ok body)) r v' evs) as Hrest.
  { intros r v' evs Hwp. apply Effect_wp, wp_bind. eapply wp_look_some; [exact Hget|exact Hget_ok|].
    apply wp_bind, wp_time_Now, wp_bind, wp_ulid_Make. exact Hwp. }
  unfold Remediation_Validate in Hrest. simpl in Hrest.
  case_bool_decide as Hkind; [intros Hrem|]; apply Hrest.
  - apply wp_bind. eapply (wp_write_ok _ (append_remediation id (keep_remediation rem)));
      [apply Hans|exact Hrem| |].
    { pose proof (AppendRemediation_law (this_call (tick (tick (tick w)))) id rem (w_store w) Hinv eq_refl) as Hl.
      fold v in Hl. rewrite Hinc in Hl. apply Hl. apply Hfresh. lia. }
    intros s' Hs' Hview. apply wp_bind, wp_publish, wp_ret. split_and!; [done| |done].
    simpl. rewrite Hview. apply append_remediation_put; [done|].
    by apply (wf_incidents _ (store_inv_wf _ Hinv)).
  - apply wp_ret. by rewrite app_nil_r.
Qed.
End incidents.

(** ** Blast radius *)

(** What one IoC contributes: the components its incidents name when it is
    stored, the components it would fire on when it is hypothetical. *)
Definition blast_of `{Semver} (v : View) (ioc : IoC) (ref : string) : Prop :=
  match v_iocs v !! IoC_ID ioc with
  | Some _ => incident_for v (IoC_ID ioc) ref
  | None => bulk_hit v ioc ref
  end.

Section blast.
Context {St : Type} `{Env, UnicodeCase, !Storage St, !StorageLaws St, Semver, SBOMParser}.
Implicit Types w : World St.

Lemma blastLoop_spec iocs affected w :
  store_inv (w_store w) → sboms_wf (view (w_store w)) → (∀ k, answered (call_at k)) →
  Forall (λ g, IoC_Validate (fromGenIoC g) = None ∧ accepts_text (gen_IoC_Id g) ∧
    key_accepted (fromGenIoC g)) iocs →
  wp (blastLoop iocs affected) (λ r w', ∃ out, r = inr out ∧
    ∀ ref, ref ∈ out ↔ ref ∈ affected ∨
      ∃ g, g ∈ iocs ∧ blast_of (view (w_store w)) (fromGenIoC g) ref) w.
Proof.
  intros Hinv Hwf Hans Hvalid. revert affected w Hinv Hwf.
  induction Hvalid as [|g iocs (Hg & Hacc & Hkeys) Hvalid IH]; intros affected w Hinv Hwf; cbn [blastLoop].
  { apply wp_ret. eexists. split; [done|]. set_solver. }
  rewrite Hg. apply wp_bind.
  assert (∀ out w1, w_store w1 = w_store w →
    (∀ ref, ref ∈ out ↔ ref ∈ affected ∨ blast_of (view (w_store w)) (fromGenIoC g) ref) →
    wp (blastLoop iocs out) (λ r w', ∃ out, r = inr out ∧
      ∀ ref, ref ∈ out ↔ ref ∈ affected ∨
        ∃ g', g' ∈ g :: iocs ∧ blast_of (view (w_store w)) (fromGenIoC g') ref) w1) as Hnext.
  { intros out w1 Hs Hout. eapply wp_mono; [apply IH; by rewrite Hs|].
    intros r w' (out' & -> & Hout'). eexists. split; [done|]. intros ref.
    rewrite Hout', Hout, Hs. setoid_rewrite elem_of_cons. naive_solver. }
  pose proof (GetIoC_law (this_call w) (IoC_ID (fromGenIoC g)) (w_store w) Hinv) as Hget.
  destruct (v_iocs (view (w_store w)) !! IoC_ID (fromGenIoC g)) eqn:Hk.
  - eapply wp_look_some; [exact Hget|exact (conj (Hans _) Hacc)|]. apply wp_bind.
    eapply wp_read_ok; [by apply MatchedComponentRefsByIoC_law|exact (conj (Hans _) Hacc)|].
    intros refs (_ & _ & Hrefs). apply Hnext; [done|]. intros ref. unfold blast_of.
    rewrite Hk, elem_of_union, elem_of_list_to_set, Hrefs. unfold incident_for. simpl. tauto.
  - eapply wp_look_none; [exact Hget|exact (conj (Hans _) Hacc)|]. intros e He. rewrite He.
    destruct (iocLookupKey (fromGenIoC g)) as [[eco name]|] eqn:Hkey.
    + apply wp_bind. eapply wp_read_ok; [by apply ListSBOMPackages_law|exact (conj (Hans _) (Hkeys _ _ Hkey))|].
      intros pkgs Hpkgs. apply Hnext; [done|]. intros ref. unfold blast_of.
      rewrite Hk, elem_of_union, elem_of_list_to_set.
      rewrite (matchPackages_spec _ eco name pkgs (view (w_store w))) by done. tauto.
    + apply Hnext; [done|]. intros ref. unfold blast_of. rewrite Hk. split; [by left|].
      intros [?|(? & ? & ? & ? & ? & ? & _)]; [done|congruence].
Qed.

(** The blast radius. With storage answering, a non-empty list of valid
    IoCs gets a 200 whose component refs are sorted, without duplicates,
    and exactly those some IoC of the list contributes: for a stored IoC
    the components its incidents name, for a hypothetical one the
    components whose SBOMs it fires on. *)
Theorem BlastRadius_spec iocs w :
  store_inv (w_store w) → sboms_wf (view (w_store w)) → (∀ k, answered (call_at k)) → iocs ≠ [] →
  Forall (λ g, IoC_Validate (fromGenIoC g) = None ∧ accepts_text (gen_IoC_Id g) ∧
    key_accepted (fromGenIoC g)) iocs →
  wp (BlastRadius (Ok iocs)) (λ r _, ∃ refs at_, r = MkResponse StatusOK (BBlastRadius refs at_) ∧
    NoDup refs ∧ SortedBy String.ltb refs ∧
    ∀ ref, ref ∈ refs ↔
      ∃ g, g ∈ iocs ∧ blast_of (view (w_store w)) (fromGenIoC g) ref) w.
Proof.
  intros Hinv Hwf Hans Hne Hvalid. unfold BlastRadius.
  rewrite bool_decide_false by (by intros ?%nil_length_inv). apply wp_bind.
  eapply wp_mono; [by apply blastLoop_spec|]. intros r w1 (out & -> & Hout).
  apply wp_bind, wp_range_order. intros l Hl. apply wp_bind, wp_sort_with.
  intros l' Hl' Hsorted. apply wp_bind, wp_time_Now, wp_ret. do 2 eexists. split; [done|].
  assert (∀ ref, ref ∈ l' ↔ ref ∈ out) as Hmem.
  { intros ref. rewrite Hl', Hl, list_elem_of_fmap. split.
    - intros ([k []] & -> & Hin%elem_of_map_to_list). by apply lookup_gset_to_gmap_Some in Hin as [? _].
    - intros Hin. exists (ref, ()). split; [done|]. apply elem_of_map_to_list.
      by apply lookup_gset_to_gmap_Some. }
  split_and!.
  - rewrite Hl', Hl. apply NoDup_fst_map_to_list.
  - apply Hsorted. apply (less_by_string_swo id).
  - intros ref. rewrite Hmem, Hout. set_solver.
Qed.
End blast.

(** ** Listings *)

(** The incident listing. With storage answering, the endpoint returns
    the stored incidents that satisfy every given filter (state, ecosystem
    of the IoC, time range with [from] preferred over [since], substring
    search, owner of an affected component), each once, newest first, cut
    at the limit; it changes nothing. *)
Theorem ListIncidents_newest_first {St} `{Env, UnicodeCase, !Storage St, !StorageLaws St}
    params (w : World St) :
  store_inv (w_store w) → (∀ k, answered (call_at k)) →
  Forall accepts_text (IncidentFilter_States (incidentFilter params)) →
  ∃ incs, (Server_ListIncidents params w).1 =
      MkResponse StatusOK (BIncidentPage (toGenIncident <$> incs)) ∧
    newest_first (incident_matches (view (w_store w)) (keep_incident_filter (incidentFilter params)))
      Incident_OpenedAt (default 0%Z (lip_Limit params))
      (listed_incident <$> values (v_incidents (view (w_store w)))) incs.
Proof.
  intros Hinv Hans Hacc.
  destruct (ListIncidentsFiltered_law (this_call w) (incidentFilter params) (w_store w) Hinv Hacc (Hans _))
    as (incs & Hincs & Hspec).
  exists incs. split; [|exact Hspec]. unfold Server_ListIncidents, mbind, M_bind, st_read. by rewrite Hincs.
Qed.

(** ** Witnesses *)

#[local] Existing Instance npm_parser.

Lemma queries_are_pure_witness :
  let req := ReqBlastRadius (Ok [toGenIoC sample_ioc]) in
  w_store (serve req sample_world).2 = sample_store ∧
  w_events (serve req sample_world).2 = [].
Proof.
  apply (queries_are_pure (ReqBlastRadius (Ok [toGenIoC sample_ioc])) sample_world).
  reflexivity.
Defined.

Lemma rejected_requests_leave_no_trace_witness :
  let req := ReqSubmitIoC (Ok (toGenIoC sample_anomaly_ioc)) in
  w_store (serve req sample_world).2 = sample_store ∧
  w_events (serve req sample_world).2 = [].
Proof.
  apply (rejected_requests_leave_no_trace
    (ReqSubmitIoC (Ok (toGenIoC sample_anomaly_ioc))) sample_world).
  split; vm_compute; congruence.
Defined.

(** The sample store with one pending incident. *)
Definition incident_world : World Store :=
  MkWorld (Store_UpsertIncident (sample_call 0) sample_incident sample_store).1 [] 0.

Lemma incident_world_inv : Store_inv (w_store incident_world).
Proof. apply Store_UpsertIncident_inv, sample_store_inv. Qed.

Lemma incident_world_fresh : ids_fresh (Store_view (w_store incident_world)) 0.
Proof.
  apply (ids_fresh_put_incident (Store_view sample_store)); [apply sample_ids_fresh|done|].
  intros u r _ Hr. by apply not_elem_of_nil in Hr.
Qed.

Lemma TransitionIncident_spec_witness :
  (TransitionIncident "INC1" (Ok StateTriaged) incident_world).1 =
    MkResponse StatusOK
      (BIncident (toGenIncident (moved sample_incident StateTriaged 101))) ∧
  w_events (TransitionIncident "INC1" (Ok StateTriaged) incident_world).2 =
    [IncidentTransitionedEvent "INC1" StatePending StateTriaged 101].
Proof.
  destruct (TransitionIncident_spec (StorageLaws0 := Store_StorageLaws) "INC1" StateTriaged
    incident_world incident_world_inv sample_answered I) as (Hr & _ & He).
  split; [exact Hr|exact He].
Defined.

Definition sample_remediation : gen_Remediation :=
  MkGenRemediation (Some "user:alice") None 0 "" "" RemediationPinVersion.

Lemma AddRemediation_spec_witness :
  w_events (AddRemediation "INC1" (Ok sample_remediation) incident_world).2 =
    [RemediationAddedEvent "INC1" "ULID-II" RemediationPinVersion 101].
Proof.
  destruct (AddRemediation_spec (StorageLaws0 := Store_StorageLaws) "INC1" sample_remediation
    incident_world incident_world_inv sample_answered I incident_world_fresh I) as (_ & _ & He).
  exact He.
Defined.

Lemma BlastRadius_spec_witness :
  ∃ refs at_, (BlastRadius (Ok [toGenIoC sample_ioc]) sample_world).1 =
    MkResponse StatusOK (BBlastRadius refs at_) ∧ NoDup refs.
Proof.
  destruct (BlastRadius_spec (StorageLaws0 := Store_StorageLaws) [toGenIoC sample_ioc]
    sample_world sample_store_inv sample_sboms_wf sample_answered ltac:(discriminate)
    ltac:(apply Forall_singleton; done)) as (refs & at_ & Hr & Hnd & _).
  exists refs, at_. split; [exact Hr|exact Hnd].
Defined.

Lemma ListIncidents_newest_first_witness :
  ∃ incs, (Server_ListIncidents
      (MkListIncidentsParams None None None None None None None (Some 5%Z)) incident_world).1 =
    MkResponse StatusOK (BIncidentPage (toGenIncident <$> incs)).
Proof.
  destruct (ListIncidents_newest_first (StorageLaws0 := Store_StorageLaws)
    (MkListIncidentsParams None None None None None None None (Some 5%Z)) incident_world
    incident_world_inv sample_answered ltac:(constructor)) as (incs & Hr & _).
  exists incs. exact Hr.
Defined.

(** ** Behaviours the code does not intend *)

Definition wildcard_ioc : IoC :=
  MkIoC "IOC-W" IoCKindPackageVersion SeverityHigh "" "feed" 5 ""
    (Some (MkIoCPackageVersion "axios" "1.11.0" "")) None None None.

Definition register : Request := ReqUpsertComponent (Ok (toGenComponent sample_component)).
Definition submit_sbom : Request :=
  ReqSubmitSBOM sample_ref (Ok (MkGenSBOMSubmission None sample_lockfile "npm" "npm-package-lock-v3")).
Definition submit_wildcard : Request := ReqSubmitIoC (Ok (toGenIoC wildcard_ioc)).

(** An IoC without an ecosystem is detected or missed depending on the
    order of arrival. All six requests succeed; when the IoC arrives before
    the SBOM the retroactive match opens an incident, when it arrives after
    the bulk lookup under the empty ecosystem finds nothing, although the
    matcher fires on the stored SBOM. *)
Theorem wildcard_ioc_detection_depends_on_order :
  let sbom_first := serve_all [register; submit_sbom; submit_wildcard] empty_world in
  let ioc_first := serve_all [register; submit_wildcard; submit_sbom] empty_world in
  resp_status <$> sbom_first.1 = [201; 201; 201]%Z ∧
  resp_status <$> ioc_first.1 = [201; 201; 201]%Z ∧
  incidents (w_store sbom_first.2) = ∅ ∧
  affected (Store_view (w_store sbom_first.2)) wildcard_ioc sample_ref ∧
  incident_for (Store_view (w_store ioc_first.2)) "IOC-W" sample_ref.
Proof.
  split_and!; [vm_compute; reflexivity..| |].
  - exists "ULID-IIII", stored_sbom. split_and!; vm_compute; reflexivity.
  - exists "ULID-IIIIIIIIIIIIII". eexists. split_and!; [vm_compute; reflexivity..|].
    vm_compute. constructor.
Qed.

(** A transition can erase a remediation. The transition handler reads
    the incident, changes the copy and writes the copy back; when a
    remediation is added between the read and the write, both requests
    succeed and the in-memory store no longer holds the remediation. *)
Theorem interleaved_transition_loses_remediation :
  let w1 := (AddRemediation "INC1" (Ok sample_remediation) incident_world).2 in
  let w2 := (applyTransition sample_incident StateTriaged w1).2 in
  Store_GetIncident (sample_call 0) "INC1" (w_store incident_world) = Ok sample_incident ∧
  resp_status (AddRemediation "INC1" (Ok sample_remediation) incident_world).1 = 201%Z ∧
  (∃ rem, Store_ListRemediations (sample_call 0) "INC1" (w_store w1) = Ok [rem]) ∧
  resp_status (applyTransition sample_incident StateTriaged w1).1 = 200%Z ∧
  Store_ListRemediations (sample_call 0) "INC1" (w_store w2) = Ok [].
Proof. split_and!; [..|eexists| |]; vm_compute; reflexivity. Qed.

(** Two concurrent submissions can open two incidents for one pair. The
    routine lists the open incidents and then writes; when two requests
    both list before either writes, each opens its own incident for the
    same IoC and component. *)
Theorem interleaved_submissions_open_duplicates :
  let index := foldl indexIncident ∅ (range_values (sample_call 0) (incidents sample_store)) in
  let w1 := (openLoop 200 [sample_pair] index [] sample_world).2 in
  let w2 := (openLoop 201 [sample_pair] index [] w1).2 in
  (openLoop 200 [sample_pair] index [] sample_world).1.2 = None ∧
  (openLoop 201 [sample_pair] index [] w1).1.2 = None ∧
  ∃ id1 id2 i1 i2, id1 ≠ id2 ∧
    incidents (w_store w2) !! id1 = Some i1 ∧ incidents (w_store w2) !! id2 = Some i2 ∧
    covers sample_pair i1 = true ∧ covers sample_pair i2 = true.
Proof.
  split_and!; [vm_compute; reflexivity..|].
  exists "ULID-", "ULID-III". do 2 eexists. split; [discriminate|].
  split_and!; vm_compute; reflexivity.
Qed.
