(* ===== verification/System.v ===== *)
(** * The engine with its orchestrator

    The running system serves requests and, when enabled, runs the anomaly
    orchestrator's tick. This file interleaves the two, whole request by
    whole tick, and proves the two invariants that matter to an operator
    for every such history: no affected component is without an incident,
    and none has two actionable incidents for one IoC. *)

From S2P Require Import Prelude GoStrings GoText Json Domain Matcher Storage MemoryStore Wire Engine Samples Sbom SbomNpm Matching IocForward Detector MaintainerDrift OidcRegression VersionJump Orchestrator Handlers EngineInvariant.
From stdpp Require Import options.

Inductive Action :=
  | Serve (req : Request)
  | AnomalyTick.

Definition perform {St} `{Env, UnicodeCase, !Storage St, Semver, SBOMParser, ULIDTime}
    (o : Orchestrator St) (a : Action) : M St (option Response) :=
  match a with
  | Serve req => resp ← serve req; mret (Some resp)
  | AnomalyTick => Tick o;; mret None
  end.

Fixpoint run {St} `{Env, UnicodeCase, !Storage St, Semver, SBOMParser, ULIDTime}
    (o : Orchestrator St) (actions : list Action) : M St (list (option Response)) :=
  match actions with
  | [] => mret []
  | a :: actions' =>
      r ← perform o a;
      rs ← run o actions';
      mret (r :: rs)
  end.

(** ** The detectors are pure *)

Section pure.
Context {St : Type} `{Env, UnicodeCase}.

#[global] Instance MaintainerDrift_pure : Pure (MaintainerDrift.New (St := St)).
Proof.
  split. intros ref history. change (ReadsOnly (MaintainerDrift.Detect (St := St) ref history)).
  unfold MaintainerDrift.Detect. reads_only.
Qed.

#[global] Instance OidcRegression_pure : Pure (OidcRegression.New (St := St)).
Proof.
  split. intros ref history. change (ReadsOnly (OidcRegression.Detect (St := St) ref history)).
  unfold OidcRegression.Detect. reads_only.
Qed.

#[global] Instance VersionJump_pure `{SemverFields} : Pure (VersionJump.New (St := St)).
Proof.
  split. intros ref history. change (ReadsOnly (VersionJump.Detect (St := St) ref history)).
  unfold VersionJump.Detect. reads_only.
Qed.
End pure.

(** ** The tick preserves the engine's invariant *)

Section tick.
Context {St : Type} `{Env, UnicodeCase, !Storage St, !StorageLaws St, Semver, ULIDTime}.
Context (Hulid : ulids_ok).
Implicit Types w : World St.

(** Submitting an IoC from inside: stored, matched against every registered
    component, incidents opened. *)
Lemma Submit_ok ioc w :
  storable_ioc ioc → engine_ok w → wp (Submit true ioc) (λ _ w', engine_ok w') w.
Proof using Hulid.
  intros Hstore [Hs Hv Hd]. unfold Submit. apply wp_bind.
  eapply (wp_write _ (put_ioc (keep_ioc ioc))); [by apply UpsertIoC_law| |].
  2:{ intros s' e Hs' Hans Hview. apply wp_ret. split; simpl; [done| |].
      - eapply safe_view_frame; [eapply safe_view_later; [exact Hv|lia]|..];
          destruct Hview as [->| ->]; try done; by intros ref.
      - intros Hall. destruct (Hans (Hall _)) as [_ ->]. by apply Hd. }
  intros s' Hs' Hacc Hview. apply wp_bind.
  eapply wp_mono; [by apply forwardMatch_walk_spec|]. intros r w1 [(Hst & Hev & Ht) Hr].
  simpl in *.
  assert (safe_view (view (w_store w1)) (w_tick w1)) as Hv1.
  { rewrite Hst, Hview. eapply safe_view_frame; [eapply safe_view_later; [exact Hv|lia]|done..|].
    by intros ref. }
  destruct r as [[pairs refs]|e].
  2:{ apply wp_ret. split; [by rewrite Hst|done|]. destruct Hr as [k Hk].
      intros Hall. destruct (Hk (Hall k)). }
  destruct Hr as (-> & _ & _ & Hrefs). apply wp_bind.
  pose proof (keep_ioc_target ioc Hstore Hacc) as Hsame.
  eapply (wp_mono _ (λ _ w', engine_ok w')).
  { unfold wp. rewrite openIncidents_same. apply openIncidents_ok; [done|by rewrite Hst|done| |].
    - apply (forward_pairs_accepted ioc refs s' Hs'); [|intros ref ?; by apply Hrefs].
      apply (store_iocs_accepted s' _ (keep_ioc ioc) Hs'). rewrite Hview. simpl.
      by rewrite keep_ioc_id, lookup_insert_eq.
    - intros Hall key ioc' ref. rewrite Hst. rewrite Hview at 1 3. simpl.
      intros [[<- <-]|[Hne Hkey]]%lookup_insert_Some Hkeyed Haff.
      + right. apply (stored_ioc_detected ioc (view s')); [done| |done]. intros ref' Haff'.
        apply Hrefs. split; [|done]. destruct Haff' as (id & b & Hb & <- & _). rewrite Hview in Hb |- *.
        by eapply (sv_registered _ _ Hv).
      + left. rewrite Hview in Haff. by apply (Hd Hall key). }
  intros [ids [e|]] w2 Hok2; [by apply wp_ret|]. apply wp_bind.
  case_match; [|by apply wp_ret, wp_ret].
  apply wp_bind, wp_time_Now, wp_publish, wp_ret.
  apply (engine_ok_publish (tick w2)). by apply engine_ok_tick.
Qed.

Lemma SaveAnomaly_ok a w :
  engine_ok w → wp (st_write (λ k, SaveAnomaly k a)) (λ _ w', engine_ok w') w.
Proof.
  intros Hok. pose proof (SaveAnomaly_law (this_call w) a (w_store w) (ok_store _ Hok)) as Hlaw.
  unfold wp, st_write. destruct (SaveAnomaly _ _ _) as [s' r]. simpl in *.
  assert (∀ v', view s' = v' → v_incidents v' = v_incidents (view (w_store w)) →
    v_sboms v' = v_sboms (view (w_store w)) → v_iocs v' = v_iocs (view (w_store w)) →
    v_components v' = v_components (view (w_store w)) → store_inv s' →
    engine_ok (MkWorld s' (w_events w) (S (w_tick w)))) as Hframe.
  { intros v' Hv Hi Hb Hc Hcomp Hs'. apply (engine_ok_frame w); [done|done|lia|by rewrite Hv..|].
    intros ref. by rewrite Hv, Hcomp. }
  destruct Hlaw as (Hs' & [(id & x & _ & _ & Hv & _)|(_ & id & _ & [_ _ _ Hw _] & _)]).
  - by eapply Hframe.
  - by destruct Hw as [Hw|[_ Hw]]; eapply Hframe.
Qed.

(** The IoC of an anomaly is matched by the reference of its package. *)
Lemma anomalyIoC_storable a ref tickTime : accepts_text ref → storable_ioc (anomalyIoC a ref tickTime).
Proof. intros Href. apply Forall_singleton. by apply keep_text_accepted. Qed.

Lemma anomalyLoop_ok o tickTime ref anomalies w :
  o_bus o = true → accepts_text ref → engine_ok w →
  wp (anomalyLoop o tickTime ref anomalies) (λ _ w', engine_ok w') w.
Proof using Hulid.
  intros Hbus Href. revert w. induction anomalies as [|a anomalies IH]; intros w Hok;
    cbn [anomalyLoop]; [by apply wp_ret|].
  apply wp_bind. eapply wp_mono; [by apply SaveAnomaly_ok|]. intros [id|e] w1 Hok1; [|by apply IH].
  apply wp_bind. unfold emitIoC. rewrite Hbus. apply wp_bind.
  eapply wp_mono; [by apply Submit_ok; [apply anomalyIoC_storable|]|]. intros r w2 Hok2. apply wp_ret. by apply IH.
Qed.

Lemma detectorLoop_ok o tickTime ref history dets w :
  o_bus o = true → Forall Pure dets → accepts_text ref → engine_ok w →
  wp (detectorLoop o tickTime ref history dets) (λ _ w', engine_ok w') w.
Proof using Hulid.
  intros Hbus Hpure Href. revert w. induction Hpure as [|d dets Hd Hdets IH]; intros w Hok;
    cbn [detectorLoop]; [by apply wp_ret|].
  apply wp_bind. apply (wp_mono _ (λ _ w', engine_ok w')).
  { eapply engine_ok_reads; [done|]. exact (Detect_pure ref history w). }
  intros [anomalies|e] w1 Hok1; [|by apply IH].
  apply wp_bind. eapply wp_mono; [by apply anomalyLoop_ok|]. intros [] w2 Hok2. by apply IH.
Qed.

Lemma packageLoop_ok o tickTime refs w :
  o_bus o = true → Forall Pure (o_detectors o) → Forall accepts_text refs → engine_ok w →
  wp (packageLoop o tickTime refs) (λ _ w', engine_ok w') w.
Proof using Hulid.
  intros Hbus Hpure Hrefs. revert w. induction Hrefs as [|ref refs Href Hrefs IH]; intros w Hok;
    cbn [packageLoop]; [by apply wp_ret|].
  apply wp_bind. unfold wp at 1, ctx_check. cbn [fst snd].
  apply engine_ok_tick in Hok. revert Hok. generalize (ctx_Err (this_call w)), (tick w). clear w.
  intros [e|] w Hok; [by apply wp_ret|]. apply wp_bind. unfold wp at 1, st_read. cbn [fst snd].
  apply engine_ok_tick in Hok. destruct (GetPublisherHistory _ _ _ _) as [history|e]; [|by apply IH].
  case_bool_decide; [by apply IH|]. apply wp_bind.
  eapply wp_mono; [by apply detectorLoop_ok|]. intros [] w2 Hok2. by apply IH.
Qed.

Lemma Tick_ok o w :
  o_bus o = true → Forall Pure (o_detectors o) → engine_ok w →
  wp (Tick o) (λ _ w', engine_ok w') w.
Proof using Hulid.
  intros Hbus Hpure Hok. unfold Tick. apply wp_bind, wp_time_Now, wp_bind.
  apply engine_ok_tick in Hok.
  eapply wp_read; [apply ListPackagesNeedingRefresh_law, (ok_store _ Hok)| |].
  2:{ intros e _. apply wp_ret. by apply engine_ok_tick. }
  intros refs Hstale. assert (Forall accepts_text refs) as Hrefs.
  { apply Forall_forall. intros ref Hin. pose proof (stale_known _ _ _ _ _ Hstale Hin) as Hk%elem_of_dom.
    by eapply store_history_accepted; [apply (ok_store _ Hok)|]. }
  apply engine_ok_tick in Hok. case_bool_decide; [by apply wp_ret|]. by apply packageLoop_ok.
Qed.

Definition action_storable (a : Action) : Prop :=
  match a with Serve req => request_storable req | AnomalyTick => True end.

Lemma run_ok `{SBOMParser, !SBOMParserLaws} o actions w :
  o_bus o = true → Forall Pure (o_detectors o) → Forall action_storable actions → engine_ok w →
  wp (run o actions) (λ _ w', engine_ok w') w.
Proof using Hulid.
  intros Hbus Hpure Hacts. revert w. induction Hacts as [|a actions Ha Hacts IH]; intros w Hok;
    cbn [run]; [by apply wp_ret|].
  apply wp_bind. apply (wp_mono _ (λ _ w', engine_ok w')).
  { destruct a as [req|]; cbn [perform]; apply wp_bind.
    - eapply wp_mono; [by apply serve_ok|]. intros. by apply wp_ret.
    - eapply wp_mono; [by apply Tick_ok|]. intros. by apply wp_ret. }
  intros r w1 Hok1. apply wp_bind. eapply wp_mono; [by apply IH|]. intros rs w2 Hok2. by apply wp_ret.
Qed.
End tick.

(** ** The claims *)

Section claims.
Context {St : Type} `{Env, UnicodeCase, !Storage St, !StorageLaws St, Semver, SBOMParser, ULIDTime}.
Implicit Types w : World St.

(** C1: no compromise goes undetected. After any sequence of requests and
    orchestrator ticks, in any order, of an engine that started empty on a
    storage that answers, every stored IoC that names its ecosystem, whether
    submitted or raised by a detector, has an incident for every component
    with a stored SBOM on which the IoC fires. The texts by which submitted
    IoCs are matched must be texts the backend keeps as they are: all, for
    the in-memory store; all UTF-8, for Postgres. *)
Theorem no_undetected_compromise `{!SBOMParserLaws} o actions w :
  ulids_ok → o_bus o = true → Forall Pure (o_detectors o) → Forall action_storable actions →
  (∀ k, answered (call_at k)) → pristine w →
  wp (run o actions) (λ _ w', ∀ key ioc ref,
    v_iocs (view (w_store w')) !! key = Some ioc → ioc_keyed ioc →
    affected (view (w_store w')) ioc ref →
    ∃ id inc, v_incidents (view (w_store w')) !! id = Some inc ∧
      Incident_IoCID inc = IoC_ID ioc ∧ ref ∈ Incident_AffectedComponentsSnapshot inc) w.
Proof.
  intros Hulid Hbus Hpure Hacts Hans Hw. eapply wp_mono; [by apply (run_ok Hulid), pristine_ok|].
  intros resps w' Hok. exact (ok_detected _ Hok Hans).
Qed.

(** C2: at most one actionable incident. After any sequence of requests and
    orchestrator ticks, and even when storage calls fail on the way, no two
    stored incidents that are neither closed nor dismissed cover the same
    IoC and component; and records are stored under their own ids. *)
Theorem no_duplicate_open_incident `{!SBOMParserLaws} o actions w :
  ulids_ok → o_bus o = true → Forall Pure (o_detectors o) → Forall action_storable actions →
  pristine w →
  wp (run o actions) (λ _ w',
    view_wf (view (w_store w')) ∧
    ∀ id1 id2 i1 i2 ref,
      v_incidents (view (w_store w')) !! id1 = Some i1 →
      v_incidents (view (w_store w')) !! id2 = Some i2 →
      actionable i1 → actionable i2 →
      Incident_IoCID i1 = Incident_IoCID i2 →
      ref ∈ Incident_AffectedComponentsSnapshot i1 →
      ref ∈ Incident_AffectedComponentsSnapshot i2 → i1 = i2) w.
Proof.
  intros Hulid Hbus Hpure Hacts Hw. eapply wp_mono; [by apply (run_ok Hulid), pristine_ok|].
  intros resps w' Hok. split; [apply store_inv_wf, Hok|].
  intros id1 id2 i1 i2 ref Hi1 Hi2 Hn1 Hn2 Hioc Hr1 Hr2.
  assert (id1 = id2) as ->; [|congruence].
  apply (sv_unique _ _ (ok_safe _ Hok) id1 id2 i1 i2 (MkMatchPair (Incident_IoCID i1) ref)); try done;
    by apply covers_true.
Qed.
End claims.

(** ** Witnesses

    The three detectors of the application, a package whose newest snapshot
    has a new maintainer, and an engine that learns of a component that
    depends on it before the tick. *)
#[local] Existing Instance npm_parser.
#[local] Existing Instance npm_parser_laws.

#[local] Instance sample_ulids : ULIDTime := {| ulid_MustNew ms := "TICK" +:+ pretty ms |}.

#[local] Instance exact_fields : SemverFields := {|
  Major _ := 1%Z; Minor _ := 0%Z; Prerelease _ := ""; Equal u v := bool_decide (u = v); Original v := v;
|}.

Definition app_orchestrator (batchSize : Z) : Orchestrator Store :=
  MkOrchestrator true [MaintainerDrift.New; OidcRegression.New; VersionJump.New] Hour batchSize 50.

Lemma app_detectors_pure n : Forall Pure (o_detectors (app_orchestrator n)).
Proof. repeat constructor; apply Detect_pure. Qed.

Definition drift_snapshot (pkg : string) (at_ : Time) (email : string) : PublisherSnapshot :=
  MkPublisherSnapshot 0 pkg at_ [MkMaintainer email "" ""] "1.11.0" None "token" None "".

Definition watch (snaps : list PublisherSnapshot) : World Store :=
  MkWorld (foldl (λ s snap, (Store_SavePublisherSnapshot (sample_call 0) snap s).1) MemoryStore.New snaps) [] 0.

Definition watched : World Store :=
  watch [drift_snapshot "npm:axios" 10 "old@x.org"; drift_snapshot "npm:axios" 20 "new@x.org"].

Lemma watch_pristine snaps : pristine (watch snaps).
Proof.
  assert (∀ s, Store_inv s ∧ incidents s = ∅ ∧ sboms s = ∅ ∧ iocs s = ∅ →
    let s' := foldl (λ s snap, (Store_SavePublisherSnapshot (sample_call 0) snap s).1) s snaps in
    Store_inv s' ∧ incidents s' = ∅ ∧ sboms s' = ∅ ∧ iocs s' = ∅) as Hgen.
  { induction snaps as [|snap snaps IH]; intros s Hs; [done|]. apply IH.
    destruct Hs as (Hi & Hrest). split; [by apply Store_SavePublisherSnapshot_inv|done]. }
  apply Hgen. split; [apply New_inv|done].
Qed.

Definition sample_actions : list Action :=
  (Serve <$> take 2 sample_requests) ++ [AnomalyTick].

Lemma sample_actions_storable : Forall action_storable sample_actions.
Proof. repeat constructor. Qed.

Definition world_after_tick : World Store := (run (app_orchestrator 200) sample_actions watched).2.

Definition tick_id : string := "TICK-62135596800000".

Definition raised_ioc : IoC := Eval vm_compute in
  default sample_ioc (iocs (w_store world_after_tick) !! tick_id).

Lemma raised_ioc_keyed : ioc_keyed raised_ioc.
Proof.
  intros body eco [= <-] Heco Heq. apply (f_equal (λ s, Cut s ":")) in Heq.
  change (eco +:+ ":") with (eco +:+ String ":" "") in Heq.
  rewrite (Cut_byte_app ":" eco "") in Heq by done. discriminate.
Qed.

Lemma no_undetected_compromise_witness :
  ∃ id inc, v_incidents (Store_view (w_store world_after_tick)) !! id = Some inc ∧
    Incident_IoCID inc = IoC_ID raised_ioc ∧ sample_ref ∈ Incident_AffectedComponentsSnapshot inc.
Proof.
  pose proof (no_undetected_compromise (StorageLaws0 := Store_StorageLaws) (app_orchestrator 200)
    sample_actions watched sample_ulids_ok eq_refl (app_detectors_pure 200)
    sample_actions_storable sample_answered (watch_pristine _)) as Hdetected.
  unfold wp in Hdetected. fold world_after_tick in Hdetected.
  apply (Hdetected tick_id raised_ioc sample_ref).
  - vm_compute. reflexivity.
  - apply raised_ioc_keyed.
  - exists "ULID-IIII", stored_sbom. split_and!; vm_compute; reflexivity.
Defined.

Lemma no_duplicate_open_incident_witness :
  view_wf (Store_view (w_store world_after_tick)).
Proof.
  pose proof (no_duplicate_open_incident (StorageLaws0 := Store_StorageLaws) (app_orchestrator 200)
    sample_actions watched sample_ulids_ok eq_refl (app_detectors_pure 200)
    sample_actions_storable (watch_pristine _))
    as [Hwf _].
  exact Hwf.
Defined.

(** ** Behaviours the code does not intend *)

Definition both_watched : World Store := watch [
  drift_snapshot "npm:axios" 10 "old@x.org"; drift_snapshot "npm:axios" 20 "new@x.org";
  drift_snapshot "npm:@types/node" 10 "old@x.org"; drift_snapshot "npm:@types/node" 20 "new@x.org"].

(** Two anomalies of one tick share one IoC. The id of the IoC depends on
    the tick time only, so when two packages of one component drift in the
    same tick, both anomalies are saved but the second IoC overwrites the
    first and a single incident is opened for the component, although each
    package's IoC fires on its SBOM. *)
Theorem tick_anomalies_share_one_ioc :
  let w := (run (app_orchestrator 200) sample_actions both_watched).2 in
  Anomaly_PackageRef <$> values (anomalies (w_store w)) ≡ₚ ["npm:axios"; "npm:@types/node"] ∧
  size (iocs (w_store w)) = 1 ∧ size (incidents (w_store w)) = 1 ∧
  Forall (λ a, Match_Matched
      (Evaluate (anomalyIoC a (Anomaly_PackageRef a) (Anomaly_DetectedAt a)) stored_sbom) = true)
    (values (anomalies (w_store w))).
Proof.
  split_and!; [|vm_compute; reflexivity..|].
  - vm_compute (Anomaly_PackageRef <$> _). solve_Permutation.
  - apply Forall_forall. intros a Ha. vm_compute in Ha.
    repeat (apply elem_of_cons in Ha as [->|Ha]; [vm_compute; reflexivity|]).
    by apply not_elem_of_nil in Ha.
Qed.

Definition starving : World Store := watch [
  drift_snapshot "npm:quiet" 5 "same@x.org"; drift_snapshot "npm:quiet" 6 "same@x.org";
  drift_snapshot "npm:axios" 10 "old@x.org"; drift_snapshot "npm:axios" 20 "new@x.org"].

(** With more packages than the batch holds, the freshest are not
    evaluated. Packages are taken stalest snapshot first and a tick does not
    refresh them, so a batch of one evaluates the quiet package on every
    tick and never the one that changed; a larger batch raises its
    anomaly. *)
Theorem tick_starves_fresh_packages :
  let ticks := [AnomalyTick; AnomalyTick; AnomalyTick] in
  anomalies (w_store (run (app_orchestrator 1) ticks starving).2) = ∅ ∧
  size (anomalies (w_store (run (app_orchestrator 2) [AnomalyTick] starving).2)) = 1.
Proof. split; vm_compute; reflexivity. Qed.
