(* ===== verification/ApiTypes.v ===== *)
(** * Responses against the API description

    schemas/openapi.yaml declares, per operation, the status codes and the
    body of a success. What the handlers answer is checked against it here,
    for every request, state and environment: no storage law is needed, since
    the shape of a response does not depend on what storage does. *)

From S2P Require Import Prelude GoStrings Domain Matcher Storage MemoryStore Wire Engine Samples Matching Handlers EngineInvariant.
From stdpp Require Import options.










(** ** A predicate on what a computation returns, whatever it finds *)

Section returns.
Context {St : Type}.




End returns.



Section responses.
Context {St : Type} `{Env, UnicodeCase, !Storage St, Semver, SBOMParser}.



End responses.
