(* ===== verification/Stream.v ===== *)
(** * The event stream: src/engine/internal/api/sse.go

    [GET /v1/stream] frames the events a subscriber receives as
    text/event-stream. The response writer is a sequence of writes, of
    which the connection may refuse any: [Conn] says, write by write,
    whether it succeeds or fails after some bytes. [streamLoop] runs over
    the sequence of cases its select statement takes.

    [toStreamEnvelope] builds the JSON object of an event. The slices an
    event carries are nil or non-empty in the engine, so the empty list
    stands for nil. *)

From S2P Require Import Prelude GoStrings GoText Json JsonEncode GoTime Domain Bus.
From stdpp Require Import options.

(** ** The connection *)

(** The fate of the n-th write: all bytes, or an error after some. *)
Definition Conn : Type := nat → option nat.

Record sseWriter := MkSSEWriter {
  sse_out : string;        (* bytes on the wire *)
  sse_writes : nat;
  sse_flushes : nat;
}.

(** [fmt.Fprintf] on the response: the bytes, and whether it succeeded. *)
Definition fprint (conn : Conn) (text : string) (s : sseWriter) : sseWriter * bool :=
  match conn (sse_writes s) with
  | None => (MkSSEWriter (sse_out s +:+ text) (S (sse_writes s)) (sse_flushes s), true)
  | Some k => (MkSSEWriter (sse_out s +:+ str_take k text) (S (sse_writes s)) (sse_flushes s), false)
  end.

Definition Flush (s : sseWriter) : sseWriter :=
  MkSSEWriter (sse_out s) (sse_writes s) (S (sse_flushes s)).

Definition sseHeaders : list (string * string) := [
  ("Content-Type", "text/event-stream");
  ("Cache-Control", "no-cache");
  ("Connection", "keep-alive");
  ("X-Accel-Buffering", "no")].

(** [newSSEWriter]: the status and headers it commits, and the writer. *)
Definition newSSEWriter (flusher : bool) : result (Z * list (string * string) * sseWriter) :=
  if negb flusher then Err (EText "response writer does not support flushing" [])
  else Ok (200%Z, sseHeaders, Flush (MkSSEWriter "" 0 0)).

(** ** The payload *)

Inductive env_value :=
  | EVString (s : string)
  | EVStrings (l : list string)
  | EVTime (t : Time).

Definition toStreamEnvelope (e : DomainEvent) : gmap string env_value :=
  let env := <["type" := EVString (EventType e)]> (<["occurredAt" := EVTime (OccurredAt e)]> ∅) in
  match e with
  | IncidentOpenedEvent incidentID iocID snapshot _ =>
      let env := <["iocId" := EVString iocID]> (<["incidentId" := EVString incidentID]> env) in
      if bool_decide (snapshot = []) then env
      else <["affectedComponentsSnapshot" := EVStrings snapshot]> env
  | IncidentTransitionedEvent incidentID from to _ =>
      <["to" := EVString to]> (<["from" := EVString from]> (<["incidentId" := EVString incidentID]> env))
  | RemediationAddedEvent incidentID remediationID kind _ =>
      <["kind" := EVString kind]>
        (<["remediationId" := EVString remediationID]> (<["incidentId" := EVString incidentID]> env))
  | SBOMIngestedEvent sbomID componentRef _ =>
      <["componentRef" := EVString componentRef]> (<["sbomId" := EVString sbomID]> env)
  | IoCMatchedEvent iocID matched _ =>
      <["matchedComponentRefs" := EVStrings matched]> (<["iocId" := EVString iocID]> env)
  end.

Definition env_json (v : env_value) : option json :=
  match v with
  | EVString s => Some (JString s)
  | EVStrings l => Some (if bool_decide (l = []) then JNull else json_strings l)
  | EVTime t => JString <$> format_rfc3339 t
  end.

(** [json.Marshal(data)]: fails only on a time out of range. *)
Definition envelope_json (env : gmap string env_value) : option json :=
  if forallb (λ kv, bool_decide (is_Some (env_json kv.2))) (map_to_list env)
  then Some (marshal_map (omap env_json env)) else None.

Definition Marshal (env : gmap string env_value) : result string :=
  match envelope_json env with
  | Some v => Ok (encode v)
  | None => Err (EText "Time.MarshalJSON: year outside of range [0,9999]" [])
  end.

(** ** Frames *)

Definition nl : string := byte1 newline.

(** The write error is the connection's; only its presence matters. *)
Definition write_error : error := EText "write" [].

Definition WriteEvent (conn : Conn) (eventType eventID : string) (data : gmap string env_value)
    (s : sseWriter) : sseWriter * option error :=
  match Marshal data with
  | Err e => (s, Some (EWrap "sse marshal: %w" [] e))
  | Ok payload =>
      let '(s, ok) := if bool_decide (eventID = "") then (s, true)
                      else fprint conn ("id: " +:+ eventID +:+ nl) s in
      if negb ok then (s, Some write_error) else
      let '(s, ok) := fprint conn ("event: " +:+ eventType +:+ nl) s in
      if negb ok then (s, Some write_error) else
      let '(s, ok) := fprint conn ("data: " +:+ payload +:+ nl +:+ nl) s in
      if negb ok then (s, Some write_error) else (Flush s, None)
  end.

Definition WriteComment (conn : Conn) (text : string) (s : sseWriter) : sseWriter * option error :=
  let '(s, ok) := fprint conn (": " +:+ text +:+ nl +:+ nl) s in
  if negb ok then (s, Some write_error) else (Flush s, None).

(** ** The loop *)

(** The case a pass through the select statement takes. *)
Inductive stream_case :=
  | CtxDone
  | Heartbeat
  | Receive (e : option DomainEvent).   (* [None]: the channel is closed *)

(** The writer after the given cases, and whether the loop still runs. *)
Fixpoint streamLoop (conn : Conn) (cases : list stream_case) (s : sseWriter) : sseWriter * bool :=
  match cases with
  | [] => (s, true)
  | CtxDone :: _ => (s, false)
  | Heartbeat :: rest =>
      let '(s, err) := WriteComment conn "keep-alive" s in
      if err is Some _ then (s, false) else streamLoop conn rest s
  | Receive None :: _ => (s, false)
  | Receive (Some e) :: rest =>
      let '(s, err) := WriteEvent conn (EventType e) (AggregateID e) (toStreamEnvelope e) s in
      if err is Some _ then (s, false) else streamLoop conn rest s
  end.

(** [Server.Stream]: the framer, the subscription and the loop over what
    the select statement sees; [defer cancel] at the end. [None] is a
    panic of the bus. *)
Definition StreamHandler (flusher : bool) (conn : Conn) (cases : list stream_case) (b : Bus) :
    option (result (sseWriter * bool) * Bus) :=
  match newSSEWriter flusher with
  | Err e => Some (Err (EWrap "SSE_UNSUPPORTED" [] e), b)
  | Ok (_, _, s) =>
      let '(b, sub) := Subscribe b in
      let '(s, running) := streamLoop conn cases s in
      if running then Some (Ok (s, true), b)
      else b' ← cancel b sub; Some (Ok (s, false), b')
  end.

(** * Properties *)

(** ** Payloads *)

Definition in_range (e : DomainEvent) : Prop := is_Some (format_rfc3339 (OccurredAt e)).

(** The payload of an event. *)
Definition payload (e : DomainEvent) : string :=
  match Marshal (toStreamEnvelope e) with Ok p => p | Err _ => "" end.

Lemma env_json_numbers v j : env_json v = Some j → numbers_ok j = true ∧ (depth j ≤ 1)%Z.
Proof.
  destruct v as [s|l|t]; simpl.
  - by intros [= <-].
  - intros [= <-]. case_bool_decide; [done|]. unfold json_strings. split.
    + apply Is_true_true, forallb_True, Forall_forall. intros x (s & -> & _)%list_elem_of_fmap. done.
    + change (1 + max_list (map depth (JString <$> l)) ≤ 1)%Z.
      assert (max_list (map depth (JString <$> l)) = 0%Z) as ->; [|done].
      clear. induction l as [|s l IH]; [done|]. rewrite fmap_cons, map_max_list_cons, IH. done.
  - destruct (format_rfc3339 t); simpl; [|done]. by intros [= <-].
Qed.

Lemma elem_of_sorted_members (m : gmap string json) kv :
  kv ∈ merge_sort key_le (map_to_list m) ↔ m !! kv.1 = Some kv.2.
Proof. rewrite merge_sort_Permutation. destruct kv. apply elem_of_map_to_list. Qed.

Lemma marshal_map_ok (m : gmap string json) :
  (∀ k j, m !! k = Some j → numbers_ok j = true ∧ (depth j ≤ 1)%Z) →
  numbers_ok (marshal_map m) = true ∧ (depth (marshal_map m) ≤ 2)%Z.
Proof.
  intros Hm. unfold marshal_map. simpl. split.
  - apply Is_true_true, forallb_True, Forall_forall. intros [k j] Hj%elem_of_sorted_members.
    apply Is_true_true. by eapply Hm.
  - assert (∀ l : list (string * json), (∀ kv, kv ∈ l → (depth kv.2 ≤ 1)%Z) →
      (max_list (map (λ kv, depth kv.2) l) ≤ 1)%Z) as Hmax.
    { clear. induction l as [|kv l IH]; intros Hl; [simpl; lia|].
      rewrite map_max_list_cons. pose proof (Hl kv ltac:(left)).
      specialize (IH (λ x Hx, Hl x ltac:(by right))). lia. }
    specialize (Hmax (merge_sort key_le (map_to_list m))).
    assert (∀ kv, kv ∈ merge_sort key_le (map_to_list m) → (depth kv.2 ≤ 1)%Z) as Hkv.
    { intros kv Hkv%elem_of_sorted_members. by eapply Hm. }
    specialize (Hmax Hkv). lia.
Qed.

Lemma envelope_json_ok env j :
  envelope_json env = Some j →
  j = marshal_map (omap env_json env) ∧ numbers_ok j = true ∧ (depth j ≤ 2)%Z.
Proof.
  unfold envelope_json. case_match; [|done]. intros [= <-]. split; [done|].
  apply marshal_map_ok. intros k v (x & Hx & _)%lookup_omap_Some. by eapply env_json_numbers.
Qed.

Lemma envelope_total env :
  (∀ k v, env !! k = Some v → is_Some (env_json v)) → is_Some (envelope_json env).
Proof.
  intros Henv. unfold envelope_json. destruct (forallb _ _) eqn:Hb; [done|]. exfalso.
  apply not_true_iff_false in Hb. apply Hb, Is_true_true, forallb_True, Forall_forall.
  intros [k v] Hkv%elem_of_map_to_list. apply bool_decide_pack. by eapply Henv.
Qed.

(** Every event with a time in range has a payload, which is one line of
    JSON text. *)
Lemma payload_json e : in_range e → ∃ j,
  envelope_json (toStreamEnvelope e) = Some j ∧ Marshal (toStreamEnvelope e) = Ok (payload e) ∧
  payload e = encode j.
Proof.
  intros [ts Hts]. destruct (envelope_total (toStreamEnvelope e)) as [j Hj].
  { intros k v Hkv. unfold toStreamEnvelope in Hkv.
    repeat case_match; subst; repeat match goal with
    | H : <[_ := _]> _ !! _ = Some _ |- _ => apply lookup_insert_Some in H as [[_ <-]|[_ H]]
    | H : ∅ !! _ = Some _ |- _ => apply lookup_empty_Some in H as []
    end; simpl in *; try done; rewrite Hts; done. }
  exists j. unfold payload, Marshal. by rewrite Hj.
Qed.

Lemma payload_one_line e : in_range e → byte_in newline (payload e) = false.
Proof.
  intros (j & Hj & _ & ->)%payload_json. apply encode_no_newline.
  by apply envelope_json_ok in Hj as (_ & ? & _).
Qed.

(** ** What a healthy connection carries *)

Definition healthy (conn : Conn) : Prop := ∀ n, conn n = None.

Definition id_line (e : DomainEvent) : list string :=
  if bool_decide (AggregateID e = "") then [] else ["id: " +:+ AggregateID e].

(** The lines of one case. *)
Definition case_lines (c : stream_case) : list string :=
  match c with
  | Heartbeat => [": keep-alive"; ""]
  | Receive (Some e) =>
      id_line e ++ ["event: " +:+ EventType e; "data: " +:+ payload e; ""]
  | _ => []
  end.

Definition unlines (ls : list string) : string := concat_str ((λ l, l +:+ nl) <$> ls).

Lemma unlines_app ls ms : unlines (ls ++ ms) = unlines ls +:+ unlines ms.
Proof.
  unfold unlines. induction ls as [|l ls IH]; [done|].
  change (concat_str ((λ l, l +:+ nl) <$> (l :: ls) ++ ms))
    with ((l +:+ nl) +:+ concat_str ((λ l, l +:+ nl) <$> ls ++ ms)).
  change (concat_str ((λ l, l +:+ nl) <$> l :: ls))
    with ((l +:+ nl) +:+ concat_str ((λ l, l +:+ nl) <$> ls)).
  by rewrite IH, !str_app_assoc.
Qed.

Lemma unlines_cons l ls : unlines (l :: ls) = l +:+ nl +:+ unlines ls.
Proof. unfold unlines. simpl. by rewrite <- str_app_assoc. Qed.

(** The cases of a run that goes on. *)
Definition goes_on (c : stream_case) : Prop :=
  match c with Heartbeat => True | Receive (Some e) => in_range e | _ => False end.

Lemma fprint_healthy conn text s :
  healthy conn → fprint conn text s =
    (MkSSEWriter (sse_out s +:+ text) (S (sse_writes s)) (sse_flushes s), true).
Proof. intros Hc. unfold fprint. by rewrite Hc. Qed.

Lemma WriteEvent_healthy conn e s :
  healthy conn → in_range e → ∃ s',
  WriteEvent conn (EventType e) (AggregateID e) (toStreamEnvelope e) s = (s', None) ∧
  sse_out s' = sse_out s +:+ unlines (case_lines (Receive (Some e))).
Proof.
  intros Hc (j & _ & Hm & _)%payload_json. unfold WriteEvent. rewrite Hm. simpl. unfold id_line.
  case_bool_decide; rewrite !fprint_healthy by done; (eexists; split; [done|]);
    cbn [sse_out Flush app]; rewrite !unlines_cons; change (unlines []) with "";
    by rewrite !str_app_nil_r, !str_app_assoc.
Qed.

Lemma streamLoop_healthy conn cases s :
  healthy conn → Forall goes_on cases → ∃ s',
  streamLoop conn cases s = (s', true) ∧
  sse_out s' = sse_out s +:+ unlines (cases ≫= case_lines).
Proof.
  intros Hc Hcases. revert s. induction Hcases as [|c cases Hgo _ IH]; intros s.
  { exists s. by rewrite str_app_nil_r. }
  cbn [streamLoop]. destruct c as [| |[e|]]; try done.
  - unfold WriteComment. rewrite fprint_healthy by done. cbn [negb].
    match goal with |- context [streamLoop conn cases ?s1] => destruct (IH s1) as (s' & -> & Hout) end.
    exists s'. split; [done|]. rewrite Hout. cbn [sse_out Flush]. by rewrite bind_cons, unlines_app, str_app_assoc.
  - destruct (WriteEvent_healthy conn e s Hc Hgo) as (s1 & -> & Hs1).
    destruct (IH s1) as (s' & -> & Hout). exists s'. split; [done|].
    by rewrite Hout, Hs1, bind_cons, unlines_app, str_app_assoc.
Qed.

(** ** What any connection carries: a prefix of that *)

Definition str_prefix (s t : string) : Prop := ∃ u, t = s +:+ u.

Lemma str_prefix_refl s : str_prefix s s.
Proof. exists "". by rewrite str_app_nil_r. Qed.

Lemma str_prefix_app s t u : str_prefix s t → str_prefix s (t +:+ u).
Proof. intros [x ->]. exists (x +:+ u). by rewrite str_app_assoc. Qed.

Lemma str_prefix_app_l s t u : str_prefix t u → str_prefix (s +:+ t) (s +:+ u).
Proof. intros [x ->]. exists x. by rewrite str_app_assoc. Qed.

Lemma str_take_prefix k s : str_prefix (str_take k s) s.
Proof. exists (str_drop k s). by rewrite str_take_drop. Qed.

Lemma fprint_spec conn text s s' ok :
  fprint conn text s = (s', ok) →
  if ok then sse_out s' = sse_out s +:+ text
  else str_prefix (sse_out s') (sse_out s +:+ text).
Proof.
  unfold fprint. case_match; intros [= <- <-]; [|done].
  apply str_prefix_app_l, str_take_prefix.
Qed.

Lemma WriteEvent_any conn e s s' err :
  WriteEvent conn (EventType e) (AggregateID e) (toStreamEnvelope e) s = (s', err) →
  let text := sse_out s +:+ unlines (case_lines (Receive (Some e))) in
  if err is Some _ then str_prefix (sse_out s') text else sse_out s' = text.
Proof.
  unfold WriteEvent. destruct (Marshal (toStreamEnvelope e)) as [p|] eqn:Ep; cycle 1.
  { intros [= <- <-]. apply str_prefix_app, str_prefix_refl. }
  assert (payload e = p) as <- by (unfold payload; by rewrite Ep). clear Ep.
  assert (unlines (case_lines (Receive (Some e))) = unlines (id_line e) +:+
    (("event: " +:+ EventType e +:+ nl) +:+ ("data: " +:+ payload e +:+ nl +:+ nl))) as ->.
  { simpl. rewrite unlines_app, !unlines_cons, !str_app_assoc. done. }
  destruct (if bool_decide (AggregateID e = "") then (s, true)
    else fprint conn ("id: " +:+ AggregateID e +:+ nl) s) as [s1 ok1] eqn:E1.
  assert (if ok1 then sse_out s1 = sse_out s +:+ unlines (id_line e)
    else str_prefix (sse_out s1) (sse_out s +:+ unlines (id_line e))) as H1.
  { unfold id_line. case_bool_decide; [simplify_eq; by rewrite str_app_nil_r|].
    apply fprint_spec in E1. rewrite unlines_cons. change (unlines []) with "".
    by rewrite str_app_nil_r, str_app_assoc. }
  destruct ok1; simpl; cycle 1.
  { intros [= <- <-]. rewrite <- (str_app_assoc (sse_out s)). by apply str_prefix_app. }
  destruct (fprint conn ("event: " +:+ EventType e +:+ nl) s1) as [s2 ok2] eqn:E2.
  apply fprint_spec in E2. rewrite H1 in E2. destruct ok2; simpl; cycle 1.
  { intros [= <- <-]. rewrite <- !(str_app_assoc (sse_out s)), <- str_app_assoc. by apply str_prefix_app. }
  destruct (fprint conn ("data: " +:+ payload e +:+ nl +:+ nl) s2) as [s3 ok3] eqn:E3.
  apply fprint_spec in E3. rewrite E2 in E3.
  destruct ok3; simpl; intros [= <- <-]; simpl; rewrite !str_app_assoc in *; done.
Qed.

Lemma streamLoop_any conn cases s :
  let '(s', running) := streamLoop conn cases s in
  let text := sse_out s +:+ unlines (cases ≫= case_lines) in
  if running then sse_out s' = text else str_prefix (sse_out s') text.
Proof.
  revert s. induction cases as [|c cases IH]; intros s.
  { simpl. by rewrite str_app_nil_r. }
  rewrite bind_cons, unlines_app, <- str_app_assoc. cbn [streamLoop].
  destruct c as [| |[e|]].
  - apply str_prefix_app, str_prefix_app, str_prefix_refl.
  - unfold WriteComment. destruct (fprint conn _ s) as [s1 ok] eqn:E. apply fprint_spec in E.
    destruct ok; cbn [negb]; [|by apply str_prefix_app].
    specialize (IH (Flush s1)). cbn [Flush sse_out] in IH. by rewrite E in IH.
  - destruct (WriteEvent _ _ _ _ s) as [s1 err] eqn:E. apply WriteEvent_any in E.
    destruct err; cbv zeta in *; [by apply str_prefix_app|].
    specialize (IH s1). by rewrite E in IH.
  - apply str_prefix_app, str_prefix_app, str_prefix_refl.
Qed.
