(* ===== verification/SlackNotifier.v ===== *)
(** * The Slack notifier: src/integrations/slack-notifier

    The other end of the event stream: [ReadStream] assembles frames from
    the lines of the response body, [Client_Run] reconnects, the handler of
    main.go picks the [incident.opened] frames and [HTTP_Send] posts a
    message built by [BuildSlackPayload]. The HTTP exchanges are parameters:
    what each connection attempt and each post returns. *)

From S2P Require Import Prelude GoStrings GoText Json JsonEncode GoTime Domain Bus Stream Matcher Storage MemoryStore Wire Engine Samples Handlers.
From stdpp Require Import options.

(** ** receiver/sse.go *)

Record Frame := MkFrame { Frame_ID : string; Frame_EventType : string; Frame_Data : string }.

Definition emptyFrame : Frame := MkFrame "" "" "".

(** The loop body of [ReadStream]: the frame under construction and the
    frames handed to [handle]. *)
Definition readLine (st : Frame * list Frame) (line : string) : Frame * list Frame :=
  let '(cur, handled) := st in
  if bool_decide (line = "") then
    if negb (bool_decide (Frame_EventType cur = "")) || negb (bool_decide (Frame_Data cur = ""))
    then (emptyFrame, handled ++ [cur])
    else (cur, handled)
  else if HasPrefix line ":" then (cur, handled)
  else if HasPrefix line "id: " then
    (MkFrame (TrimPrefix line "id: ") (Frame_EventType cur) (Frame_Data cur), handled)
  else if HasPrefix line "event: " then
    (MkFrame (Frame_ID cur) (TrimPrefix line "event: ") (Frame_Data cur), handled)
  else if HasPrefix line "data: " then
    (MkFrame (Frame_ID cur) (Frame_EventType cur) (TrimPrefix line "data: "), handled)
  else (cur, handled).

Definition ErrTooLong : error := EText "bufio.Scanner: token too long" [].

Definition ReadStream (body : string) : list Frame * option error :=
  let '(lines, tooLong) := Scanner body in
  ((foldl readLine (emptyFrame, []) lines).2, if tooLong : bool then Some ErrTooLong else None).

(** One pass of [Client.Run]: when the context ends, and what the request
    returns ([None]: no response). *)
Record Attempt := MkAttempt {
  done_before : bool;
  response : option (Z * string);
  done_after : bool;
  done_in_backoff : bool;
}.

Definition once (r : option (Z * string)) : list Frame * option error :=
  match r with
  | None => ([], Some (EText "transport" []))
  | Some (status, body) =>
      if negb (bool_decide (status = 200%Z)) then
        ([], Some (EText "sse: unexpected status %d from %s" [pretty status]))
      else ReadStream body
  end.

(** The frames handled, and whether [Run] returned (with [ctx.Err()]). *)
Fixpoint Client_Run (attempts : list Attempt) : list Frame * bool :=
  match attempts with
  | [] => ([], false)
  | a :: rest =>
      if done_before a then ([], true)
      else
        let '(frames, err) := once (response a) in
        match err with
        | Some _ =>
            if done_after a || done_in_backoff a then (frames, true)
            else let '(more, returned) := Client_Run rest in (frames ++ more, returned)
        | None => let '(more, returned) := Client_Run rest in (frames ++ more, returned)
        end
  end.

(** ** webhook/sender.go *)

(** [ev["key"].(string)], with the zero value when it is not a string. *)
Definition stringField (ev : gmap string json) (key : string) : string :=
  match ev !! key with Some (JString s) => s | _ => "" end.

(** [json.Unmarshal([]byte(frame.Data), &ev)] with its error dropped. *)
Definition unmarshalEvent (data : string) : gmap string json :=
  match Unmarshal (decode_map Some) None data with
  | Ok (Some ev) => ev
  | _ => ∅
  end.

Definition str_field (k v : string) : string * json := (k, JString v).

Definition obj (members : list (string * json)) : json := marshal_map (list_to_map members).

(** The message for an incident and an IoC. *)
Definition slackMessage (incidentID iocID : string) : json :=
  obj [
    str_field "text" (":warning: rampart incident opened: *" +:+ incidentID +:+ "*");
    ("blocks", JArray [
      obj [
        str_field "type" "header";
        ("text", obj [str_field "type" "plain_text"; str_field "text" "Supply-chain incident opened"])];
      obj [
        str_field "type" "section";
        ("fields", JArray [
          obj [str_field "type" "mrkdwn";
               str_field "text" ("*Incident*" +:+ nl +:+ "`" +:+ incidentID +:+ "`")];
          obj [str_field "type" "mrkdwn";
               str_field "text" ("*IoC*" +:+ nl +:+ "`" +:+ iocID +:+ "`")]])]])].

Definition BuildSlackPayload (frame : Frame) : json :=
  let ev := unmarshalEvent (Frame_Data frame) in
  let incidentID := stringField ev "incidentId" in
  let incidentID := if bool_decide (incidentID = "") then Frame_ID frame else incidentID in
  let iocID := stringField ev "iocId" in
  let iocID := if bool_decide (iocID = "") then "(unknown)" else iocID in
  slackMessage incidentID iocID.

(** [HTTP.Send]: the body posted, and the error if any. *)
Definition HTTP_Send (do : string → result (Z * string)) (frame : Frame) : string * option error :=
  let body := encode (BuildSlackPayload frame) in
  match do body with
  | Err e => (body, Some e)
  | Ok (status, b) =>
      if bool_decide (300 ≤ status)%Z
      then (body, Some (EText "slack webhook: %d: %s" [pretty status; TrimSpace b]))
      else (body, None)
  end.

(** ** cmd/slack-notifier/main.go: the handler given to [Run] *)
Definition notify (do : string → result (Z * string)) (f : Frame) : list (string * option error) :=
  if bool_decide (Frame_EventType f ≠ "incident.opened") then [] else [HTTP_Send do f].

(** Dry-run is forced when no webhook is configured. *)
Definition useDryRun (webhookURL : string) (dryRun : bool) : bool :=
  if bool_decide (webhookURL = "") && negb dryRun then true else dryRun.

(** * Properties *)

(** ** Lines *)

(** A line the scanner returns as it was written. *)
Record good_line (l : string) : Prop := {
  gl_newline : byte_in newline l = false;
  gl_short : (Z.of_nat (String.length l) < maxTokenSize)%Z;
  gl_cr : dropCR l = l;
  gl_first : match l with String a _ => a ≠ carriage_return | "" => True end;
}.

Lemma dropCR_snoc s a : a ≠ carriage_return → dropCR (s +:+ byte1 a) = s +:+ byte1 a.
Proof.
  intros Ha. unfold dropCR, TrimSuffix, HasSuffix.
  rewrite str_length_app. simpl String.length.
  replace (String.length s + 1 - 1) with (String.length s) by lia.
  rewrite str_drop_app. rewrite (bool_decide_eq_false_2 (byte1 a = _)); [|by intros [= ->]].
  by rewrite andb_false_r.
Qed.

Lemma str_prefix_split p a b :
  str_prefix p (a +:+ b) → str_prefix p a ∨ ∃ p', p = a +:+ p' ∧ str_prefix p' b.
Proof.
  revert p. induction a as [|c a IH]; intros p Hp; [right; by exists p|].
  destruct p as [|d p]; [left; by exists (String c a)|].
  destruct Hp as [u Hu]. rewrite !string_app_cons in Hu. injection Hu as -> Hu.
  destruct (IH p) as [[v ->]|(p' & -> & Hp')]; [by exists u| |].
  - left. by exists v.
  - right. by exists p'.
Qed.

Lemma str_prefix_length p l : str_prefix p l → String.length p ≤ String.length l.
Proof. intros [u ->]. rewrite str_length_app. lia. Qed.

Lemma byte_in_prefix c p l : str_prefix p l → byte_in c l = false → byte_in c p = false.
Proof. intros [u ->]. rewrite byte_in_app. by intros [? _]%orb_false_iff. Qed.

Lemma raw_lines_line l : byte_in newline l = false → l ≠ "" → raw_lines l = [l].
Proof.
  induction l as [|a l IH]; [done|]. rewrite byte_in_cons. intros [Ha Hl]%orb_false_iff _.
  simpl. rewrite Ha. destruct l as [|b l]; [done|]. by rewrite IH.
Qed.

Lemma scan_lines_cons l ls :
  (Z.of_nat (String.length l) < maxTokenSize)%Z →
  scan_lines (l :: ls) = (dropCR l :: (scan_lines ls).1, (scan_lines ls).2).
Proof.
  intros Hl. simpl. rewrite bool_decide_eq_false_2 by lia. by destruct (scan_lines ls).
Qed.

Lemma dropCR_ne l :
  l ≠ "" → match l with String a _ => a ≠ carriage_return | "" => True end → dropCR l ≠ "".
Proof.
  intros Hne Hfirst. destruct l as [|a [|b l]]; [done| |].
  - change (String a "") with ("" +:+ byte1 a). by rewrite dropCR_snoc.
  - unfold dropCR, TrimSuffix. case_match; [|done]. simpl. destruct (String.length l); done.
Qed.

Lemma str_prefix_line p l r :
  str_prefix p (l +:+ nl +:+ r) →
  str_prefix p l ∨ ∃ p', p = l +:+ nl +:+ p' ∧ str_prefix p' r.
Proof.
  intros [Hp|(p' & -> & [Hp|(p'' & -> & Hp)]%str_prefix_split)]%str_prefix_split; [by left| |].
  - destruct Hp as [u Hu]. destruct p' as [|a p'].
    + left. rewrite str_app_nil_r. apply str_prefix_refl.
    + right. exists "". rewrite string_app_cons in Hu. injection Hu as <- Hu.
      destruct p' as [|b p']; [|done]. split; [done|]. by exists r.
  - right. by exists p''.
Qed.

Lemma Scanner_line l p :
  good_line l → Scanner (l +:+ nl +:+ p) = (l :: (Scanner p).1, (Scanner p).2).
Proof.
  intros Hl. unfold Scanner. change (l +:+ nl +:+ p) with (l +:+ String newline p).
  rewrite raw_lines_app by apply Hl. rewrite scan_lines_cons by apply Hl. by rewrite (gl_cr _ Hl).
Qed.

(** Scanning what was written up to any byte: whole lines, then perhaps a
    part of the next, which is not empty. *)
Lemma Scanner_prefix ls p :
  Forall good_line ls → str_prefix p (unlines ls) → ∃ k part,
  Scanner p = (take k ls ++ part, false) ∧ (part = [] ∨ ∃ l, part = [l] ∧ l ≠ "") ∧
  (p = unlines ls → take k ls ++ part = ls).
Proof.
  intros Hls. revert p. induction Hls as [|l ls Hl Hls IH]; intros p Hp.
  { destruct p as [|a p]; [|by destruct Hp]. exists 0, []. split_and!; [done|by left|done]. }
  rewrite unlines_cons in Hp. apply str_prefix_line in Hp as [Hp|(p' & -> & Hp)].
  - assert (p ≠ unlines (l :: ls)) as Hpart.
    { intros ->. rewrite unlines_cons in Hp. apply str_prefix_length in Hp.
      rewrite !str_length_app in Hp. simpl in Hp. lia. }
    destruct (decide (p = "")) as [->|Hne].
    { exists 0, []. split_and!; [done|by left|done]. }
    exists 0, [dropCR p]. split_and!; [| |done].
    + unfold Scanner. rewrite raw_lines_line; [|by eapply byte_in_prefix, gl_newline|done].
      rewrite scan_lines_cons; [done|].
      apply str_prefix_length in Hp. pose proof (gl_short _ Hl). lia.
    + right. eexists. split; [done|]. apply dropCR_ne; [done|].
      destruct p as [|a p]; [done|]. pose proof (gl_first _ Hl) as Hf.
      destruct Hp as [u ->]. exact Hf.
  - destruct (IH p' Hp) as (k & part & Hs & Hpart & Heq).
    exists (S k), part. split_and!; [|done|].
    + by rewrite Scanner_line, Hs by done.
    + rewrite unlines_cons, <- !str_app_assoc. intros H.
      apply (f_equal (str_drop (String.length (l +:+ nl)))) in H.
      rewrite !str_drop_app in H. simpl. f_equal. by apply Heq.
Qed.

(** ** Frames *)

Lemma readLine_grows st l : st.2 `prefix_of` (readLine st l).2.
Proof. destruct st as [cur handled]. unfold readLine. repeat case_match; simpl; solve [done|by eexists]. Qed.

Lemma readLines_grow ls st : st.2 `prefix_of` (foldl readLine st ls).2.
Proof.
  revert st. induction ls as [|l ls IH]; intros st; [done|]. simpl.
  etrans; [apply readLine_grows|apply IH].
Qed.

(** Only an empty line completes a frame. *)
Lemma readLine_partial st l : l ≠ "" → (readLine st l).2 = st.2.
Proof.
  intros Hl. destruct st as [cur handled]. unfold readLine.
  rewrite bool_decide_eq_false_2 by done. by repeat case_match.
Qed.

(** The frame of an event. *)
Definition frame_of (e : DomainEvent) : Frame := MkFrame (AggregateID e) (EventType e) (payload e).

Definition case_frames (c : stream_case) : list Frame :=
  match c with Receive (Some e) => [frame_of e] | _ => [] end.

Lemma EventType_ne e : EventType e ≠ "".
Proof. by destruct e. Qed.

Lemma readLine_id cur h s :
  readLine (cur, h) ("id: " +:+ s) = (MkFrame s (Frame_EventType cur) (Frame_Data cur), h).
Proof.
  change (readLine (cur, h) ("id: " +:+ s)) with
    (MkFrame (TrimPrefix ("id: " +:+ s) "id: ") (Frame_EventType cur) (Frame_Data cur), h).
  by rewrite TrimPrefix_app.
Qed.

Lemma readLine_event cur h s :
  readLine (cur, h) ("event: " +:+ s) = (MkFrame (Frame_ID cur) s (Frame_Data cur), h).
Proof.
  change (readLine (cur, h) ("event: " +:+ s)) with
    (MkFrame (Frame_ID cur) (TrimPrefix ("event: " +:+ s) "event: ") (Frame_Data cur), h).
  by rewrite TrimPrefix_app.
Qed.

Lemma readLine_data cur h s :
  readLine (cur, h) ("data: " +:+ s) = (MkFrame (Frame_ID cur) (Frame_EventType cur) s, h).
Proof.
  change (readLine (cur, h) ("data: " +:+ s)) with
    (MkFrame (Frame_ID cur) (Frame_EventType cur) (TrimPrefix ("data: " +:+ s) "data: "), h).
  by rewrite TrimPrefix_app.
Qed.

Lemma readLine_blank cur h :
  Frame_EventType cur ≠ "" → readLine (cur, h) "" = (emptyFrame, h ++ [cur]).
Proof. intros Hne. simpl. by rewrite bool_decide_eq_false_2. Qed.

Lemma read_event_lines e h :
  foldl readLine (emptyFrame, h) (case_lines (Receive (Some e))) = (emptyFrame, h ++ [frame_of e]).
Proof.
  cbn [case_lines]. rewrite foldl_app.
  assert (foldl readLine (emptyFrame, h) (id_line e) = (MkFrame (AggregateID e) "" "", h)) as ->.
  { unfold id_line. case_bool_decide as H; [by rewrite H|]. apply readLine_id. }
  cbn [foldl]. rewrite readLine_event, readLine_data. cbn [Frame_ID Frame_EventType Frame_Data].
  by rewrite readLine_blank by apply EventType_ne.
Qed.

Lemma read_cases cases h :
  Forall goes_on cases →
  foldl readLine (emptyFrame, h) (cases ≫= case_lines) = (emptyFrame, h ++ (cases ≫= case_frames)).
Proof.
  intros Hcases. revert h. induction Hcases as [|c cases Hc _ IH]; intros h.
  { by rewrite app_nil_r. }
  rewrite !bind_cons, foldl_app. destruct c as [| |[e|]]; try done.
  - change (foldl readLine (emptyFrame, h) (case_lines Heartbeat)) with (emptyFrame, h). apply IH.
  - rewrite read_event_lines, IH. by rewrite <- app_assoc.
Qed.

(** An event whose frame the reader can take: its id is on one line and
    does not end in a carriage return, the lines are below the limit. *)
Record streamable (e : DomainEvent) : Prop := {
  sb_time : in_range e;
  sb_id : byte_in newline (AggregateID e) = false;
  sb_cr : dropCR ("id: " +:+ AggregateID e) = "id: " +:+ AggregateID e;
  sb_id_short : (Z.of_nat (String.length (AggregateID e)) + 4 < maxTokenSize)%Z;
  sb_data_short : (Z.of_nat (String.length (payload e)) + 6 < maxTokenSize)%Z;
}.

Definition readable (c : stream_case) : Prop :=
  match c with Heartbeat => True | Receive (Some e) => streamable e | _ => False end.

Lemma payload_closed e : in_range e → ∃ s, payload e = s +:+ "}".
Proof.
  intros (j & Hj & _ & ->)%payload_json. apply envelope_json_ok in Hj as (-> & _).
  unfold marshal_map. cbn [encode]. eexists. by rewrite <- str_app_assoc.
Qed.

Lemma case_lines_good c : readable c → Forall good_line (case_lines c).
Proof.
  assert (good_line "") as Hblank by (split; done).
  destruct c as [| |[e|]]; try done; intros He.
  { repeat constructor; done. }
  cbn [case_lines]. apply Forall_app. split.
  - unfold id_line. case_bool_decide; [constructor|]. apply Forall_singleton. split.
    + by rewrite byte_in_app, (sb_id _ He).
    + rewrite str_length_app. simpl. pose proof (sb_id_short _ He). lia.
    + apply He.
    + done.
  - destruct (payload_closed e (sb_time _ He)) as [s Hs].
    repeat apply Forall_cons_2; [| |done|constructor].
    + destruct e; split; done.
    + split.
      * by rewrite byte_in_app, (payload_one_line _ (sb_time _ He)).
      * rewrite str_length_app. simpl. pose proof (sb_data_short _ He). lia.
      * rewrite Hs, <- str_app_assoc. by apply (dropCR_snoc _ "}"%char).
      * done.
Qed.

Lemma readable_goes_on cases : Forall readable cases → Forall goes_on cases.
Proof. intros H. eapply Forall_impl; [exact H|]. intros [| |[e|]]; try done. apply sb_time. Qed.

(** What a reader gets of one connection. *)
Lemma stream_prefix conn cases :
  Forall readable cases →
  let '(s, running) := streamLoop conn cases (MkSSEWriter "" 0 0) in
  let '(frames, err) := ReadStream (sse_out s) in
  err = None ∧ frames `prefix_of` (cases ≫= case_frames) ∧
  (running = true → frames = cases ≫= case_frames).
Proof.
  intros Hcases. pose proof (streamLoop_any conn cases (MkSSEWriter "" 0 0)) as Hout.
  destruct (streamLoop conn cases (MkSSEWriter "" 0 0)) as [s running]. cbv zeta in Hout.
  cbn [sse_out] in Hout. change ("" +:+ ?x) with x in Hout.
  assert (Forall good_line (cases ≫= case_lines)) as Hgood.
  { apply Forall_bind. eapply Forall_impl; [exact Hcases|]. apply case_lines_good. }
  assert (str_prefix (sse_out s) (unlines (cases ≫= case_lines))) as Hp.
  { destruct running; [rewrite Hout; apply str_prefix_refl|done]. }
  destruct (Scanner_prefix _ _ Hgood Hp) as (k & part & Hs & Hpart & Hfull).
  unfold ReadStream. rewrite Hs.
  pose proof (read_cases cases [] (readable_goes_on _ Hcases)) as Hread.
  split; [done|]. split.
  - rewrite <- (take_drop k (cases ≫= case_lines)), foldl_app in Hread.
    assert ((foldl readLine (emptyFrame, []) (take k (cases ≫= case_lines) ++ part)).2
      = (foldl readLine (emptyFrame, []) (take k (cases ≫= case_lines))).2) as ->.
    { rewrite foldl_app. destruct Hpart as [->|(l & -> & Hl)]; [done|]. by apply readLine_partial. }
    etrans; [apply (readLines_grow (drop k (cases ≫= case_lines)))|]. by rewrite Hread.
  - intros ->. rewrite Hfull by done. by rewrite Hread.
Qed.

(** C22: Whatever the connection does to the bytes (any write may fail after
    any number of bytes), what the notifier reads of the engine's event
    stream is a prefix of the events sent, each as one intact frame, in
    order, heartbeats dropped; on a connection that stays up it is all of
    them. This holds for events whose id is a single line and whose lines
    are below the reader's limit of one mebibyte. *)
Theorem stream_delivers_a_prefix conn cases :
  Forall readable cases →
  let '(s, running) := streamLoop conn cases (MkSSEWriter "" 0 0) in
  let '(frames, err) := ReadStream (sse_out s) in
  err = None ∧ frames `prefix_of` (cases ≫= case_frames) ∧
  (running = true → frames = cases ≫= case_frames).
Proof. apply stream_prefix. Qed.

(** ** From the event to the message *)

(** Decoding an object into a map keeps the last value of each key; when
    keys do not repeat it keeps every member. *)
Lemma decode_map_members (L : list (string * json)) (m0 : gmap string json) :
  NoDup L.*1 → ∃ m,
  foldl (λ acc '(k, e), m ← acc; x ← Some e; Some (<[k := x]> m)) (Some m0) L = Some m ∧
  ∀ k v, (k, v) ∈ L → m !! k = Some v.
Proof.
  induction L as [|[k v] L IH] using rev_ind; intros Hnd.
  { exists m0. split; [done|]. by intros k v ?%not_elem_of_nil. }
  rewrite fmap_app in Hnd. apply NoDup_app in Hnd as (Hnd & Hdis & _).
  destruct (IH Hnd) as (m & Hm & Hlook). exists (<[k := v]> m). split.
  { rewrite foldl_app, Hm. done. }
  intros k' v' [Hin|Hin]%elem_of_app.
  - rewrite lookup_insert_ne; [by apply Hlook|]. intros <-.
    apply (Hdis k); [|by left]. apply list_elem_of_fmap. by exists (k, v').
  - apply list_elem_of_singleton in Hin as [= -> ->]. by rewrite lookup_insert_eq.
Qed.

Lemma NoDup_sorted_keys (m : gmap string json) : NoDup (merge_sort key_le (map_to_list m)).*1.
Proof. rewrite merge_sort_Permutation. apply NoDup_fst_map_to_list. Qed.

(** What the notifier decodes of a map the engine marshalled. *)
Lemma unmarshal_marshalled (m : gmap string json) k v :
  numbers_ok (marshal_map m) = true → (depth (marshal_map m) ≤ maxNestingDepth)%Z →
  (∀ k v, m !! k = Some v → sanitize_string k = k) →
  m !! k = Some v → unmarshalEvent (encode (marshal_map m)) !! k = Some (sanitize v).
Proof.
  intros Hn Hd Hkeys Hk. unfold unmarshalEvent, Unmarshal.
  rewrite json_encode_parse by done. unfold marshal_map. cbn [sanitize].
  set (L := merge_sort key_le (map_to_list m)).
  assert (map (λ kv, (sanitize_string kv.1, sanitize kv.2)) L
    = map (λ kv, (kv.1, sanitize kv.2)) L) as ->.
  { apply map_ext_in. intros [k' v'] Hin. apply list_elem_of_In, elem_of_sorted_members in Hin.
    simpl in *. by rewrite (Hkeys _ _ Hin). }
  destruct (decode_map_members (map (λ kv, (kv.1, sanitize kv.2)) L) ∅) as (ev & Hev & Hlook).
  { assert ((map (λ kv, (kv.1, sanitize kv.2)) L).*1 = L.*1) as ->; [|apply NoDup_sorted_keys].
    clear. induction L as [|kv L IH]; [done|]. cbn [map]. rewrite !fmap_cons, IH. done. }
  unfold decode_map. change (default ∅ None) with (∅ : gmap string json).
  rewrite Hev. simpl. apply Hlook, list_elem_of_In, in_map_iff. exists (k, v).
  split; [done|]. apply list_elem_of_In, elem_of_sorted_members. done.
Qed.

(** The keys of the envelopes are ASCII. *)
Lemma envelope_keys e k v : toStreamEnvelope e !! k = Some v → sanitize_string k = k.
Proof.
  intros Hkv. unfold toStreamEnvelope in Hkv. repeat case_match; subst; repeat match goal with
    | H : <[_ := _]> _ !! _ = Some _ |- _ => apply lookup_insert_Some in H as [[<- _]|[_ H]]
    | H : ∅ !! _ = Some _ |- _ => apply lookup_empty_Some in H as []
    end; vm_compute; reflexivity.
Qed.

Lemma payload_string_field e k s :
  in_range e → toStreamEnvelope e !! k = Some (EVString s) →
  stringField (unmarshalEvent (payload e)) k = sanitize_string s.
Proof.
  intros (j & Hj & _ & ->)%payload_json Hk.
  apply envelope_json_ok in Hj as (-> & Hn & Hd). unfold stringField.
  rewrite (unmarshal_marshalled _ k (JString s)); [done|done| | |].
  - unfold maxNestingDepth. lia.
  - intros k' v' (x & _ & Hx)%lookup_omap_Some. by eapply envelope_keys.
  - apply lookup_omap_Some. by exists (EVString s).
Qed.

(** The messages an event leads to. *)
Definition event_messages (e : DomainEvent) : list string :=
  match e with
  | IncidentOpenedEvent incidentID iocID _ _ =>
      let iocID := sanitize_string iocID in
      [encode (slackMessage (sanitize_string incidentID)
        (if bool_decide (iocID = "") then "(unknown)" else iocID))]
  | _ => []
  end.

Definition case_messages (c : stream_case) : list string :=
  match c with Receive (Some e) => event_messages e | _ => [] end.

Lemma concat_str_nil_inv l : concat_str l = "" → Forall (λ s, s = "") l.
Proof.
  induction l as [|s l IH]; intros H; [constructor|].
  change (s +:+ concat_str l = "") in H. destruct s; [|done]. constructor; [done|by apply IH].
Qed.

Lemma sanitize_string_nil s : sanitize_string s = "" → s = "".
Proof.
  unfold sanitize_string. intros H%concat_str_nil_inv. destruct s as [|a s]; [done|]. exfalso.
  assert (∃ r rs, runes (String a s) = r :: rs) as (r & rs & Hr)
    by (simpl; repeat case_match; eauto).
  rewrite Hr in H. apply Forall_cons in H as [H _].
  destruct (runes_cases (String a s) r) as [[b ->]|Hw]; [rewrite Hr; by left| |by destruct Hw].
  simpl in H. by destruct (is_ascii b).
Qed.

Lemma notify_event do e :
  in_range e → AggregateID e ≠ "" → (notify do (frame_of e)).*1 = event_messages e.
Proof.
  intros He Hid. unfold notify. simpl Frame_EventType.
  destruct e as [incidentID iocID snap at_| | | |]; try done.
  rewrite bool_decide_eq_false_2 by naive_solver.
  assert (BuildSlackPayload (frame_of (IncidentOpenedEvent incidentID iocID snap at_)) =
    slackMessage (sanitize_string incidentID)
      (if bool_decide (sanitize_string iocID = "") then "(unknown)" else sanitize_string iocID)) as Hp.
  { unfold BuildSlackPayload. cbn [frame_of Frame_Data Frame_ID].
    rewrite (payload_string_field _ "incidentId" incidentID), (payload_string_field _ "iocId" iocID) by
      (done || (unfold toStreamEnvelope; case_bool_decide; by simplify_map_eq)).
    rewrite (bool_decide_eq_false_2 (sanitize_string incidentID = "")); [done|].
    intros ->%sanitize_string_nil. done. }
  cbn [event_messages]. simpl. unfold HTTP_Send. rewrite Hp. by repeat case_match.
Qed.

(** ** Connection after connection *)

(** A connection of the notifier to the engine: what happens to its writes
    and which cases the engine's loop takes. *)
Definition session : Type := Conn * list stream_case.

Definition session_body (ses : session) : string * bool :=
  let '(s, running) := streamLoop ses.1 ses.2 (MkSSEWriter "" 0 0) in (sse_out s, running).

(** The notifier's view of it: a response with that body. *)
Definition session_attempt (ses : session) : Attempt :=
  MkAttempt false (Some (200%Z, (session_body ses).1)) false false.

Definition named (c : stream_case) : Prop :=
  match c with Receive (Some e) => AggregateID e ≠ "" | _ => True end.

(** Some of a session's messages, in order; all when it stayed up. *)
Definition session_messages (ses : session) (ms : list string) : Prop :=
  ms `prefix_of` (ses.2 ≫= case_messages) ∧
  ((session_body ses).2 = true → ms = ses.2 ≫= case_messages).

Lemma messages_of_frames do cases frames :
  Forall readable cases → Forall named cases → frames `prefix_of` (cases ≫= case_frames) →
  (frames ≫= notify do).*1 `prefix_of` (cases ≫= case_messages) ∧
  (frames = cases ≫= case_frames → (frames ≫= notify do).*1 = cases ≫= case_messages).
Proof.
  intros Hr Hn [rest Hrest].
  assert (((cases ≫= case_frames) ≫= notify do).*1 = cases ≫= case_messages) as Hall.
  { clear Hrest. induction Hr as [|c cases Hc _ IH]; [done|].
    apply Forall_cons in Hn as [Hcn Hn]. rewrite !bind_cons, bind_app, fmap_app, IH by done.
    f_equal. destruct c as [| |[e|]]; try done. cbn [case_frames case_messages].
    rewrite bind_cons, app_nil_r. apply notify_event; [by apply sb_time|done]. }
  split; [|by intros ->]. rewrite <- Hall, Hrest, bind_app, fmap_app. by eexists.
Qed.

(** C21: From published incident to Slack message, for streams the reader can
    take: heartbeats, and events that have a non-empty aggregate id without
    line break (nor a carriage return at its end), instants with an RFC 3339
    text, and lines below the reader's limit of one mebibyte. Over any sequence of
    connections that carry such streams, each of which may break at any
    byte, the messages the notifier posts are, connection by connection and
    in order, the messages for a prefix of the [incident.opened] events sent
    on it, with the incident and IoC named as in the event; on a connection
    that stays up none is missing, and no other of these events leads to a
    message. Without the condition on the ids it fails:
    [ioc_id_forges_an_incident_message] has an [ioc.matched] event whose id
    holds line breaks and that is posted as an incident. *)
Theorem incident_opened_reaches_slack do (sessions : list session) :
  Forall (λ ses, Forall readable ses.2 ∧ Forall named ses.2) sessions →
  ∃ msgs, Forall2 session_messages sessions msgs ∧
    ((Client_Run (session_attempt <$> sessions)).1 ≫= notify do).*1 = concat msgs.
Proof.
  induction 1 as [|[conn cases] sessions [Hr Hn] _ (msgs & Hmsgs & Heq)].
  { exists []. split; [constructor|done]. }
  simpl in Hr, Hn. pose proof (stream_prefix conn cases Hr) as Hs.
  rewrite fmap_cons. cbn [Client_Run session_attempt done_before response done_after done_in_backoff].
  assert (session_body (conn, cases) = (let '(s, running) := streamLoop conn cases (MkSSEWriter "" 0 0)
    in (sse_out s, running))) as Hbody by done.
  destruct (streamLoop conn cases (MkSSEWriter "" 0 0)) as [s running].
  rewrite Hbody. cbn [fst]. unfold once. rewrite bool_decide_eq_true_2 by done. cbn [negb].
  destruct (ReadStream (sse_out s)) as [frames err]. destruct Hs as (-> & Hpre & Hfull).
  destruct (Client_Run (session_attempt <$> sessions)) as [more returned]. simpl in Heq |- *.
  destruct (messages_of_frames do cases frames Hr Hn Hpre) as [Hmp Hmf].
  exists ((frames ≫= notify do).*1 :: msgs). split.
  - constructor; [|done]. split; [done|]. rewrite Hbody. simpl. auto.
  - rewrite bind_app, fmap_app, Heq. done.
Qed.

(** ** Witnesses *)

Definition healthy_conn : Conn := λ _, None.
Definition breaking_conn : Conn := λ n, if bool_decide (n = 3) then Some 12 else None.

Definition opened_event : DomainEvent := IncidentOpenedEvent "INC1" "IOC1" [sample_ref] 100.
Definition sample_cases : list stream_case :=
  [Heartbeat; Receive (Some opened_event); Receive (Some (IoCMatchedEvent "IOC1" [sample_ref] 200))].

Lemma sample_cases_readable : Forall readable sample_cases.
Proof.
  repeat constructor; try done; try (vm_compute; done); by eexists.
Qed.

Lemma stream_delivers_a_prefix_witness :
  let '(s, running) := streamLoop healthy_conn sample_cases (MkSSEWriter "" 0 0) in
  let '(frames, err) := ReadStream (sse_out s) in
  err = None ∧ frames `prefix_of` (sample_cases ≫= case_frames) ∧
  (running = true → frames = sample_cases ≫= case_frames).
Proof. apply (stream_delivers_a_prefix healthy_conn sample_cases). apply sample_cases_readable. Defined.

Lemma incident_opened_reaches_slack_witness :
  let sessions := [(breaking_conn, sample_cases); (healthy_conn, sample_cases)] in
  ∃ msgs, Forall2 session_messages sessions msgs ∧
    ((Client_Run (session_attempt <$> sessions)).1 ≫= notify (λ _, Ok (200%Z, "ok"))).*1 = concat msgs.
Proof.
  apply (incident_opened_reaches_slack (λ _, Ok (200%Z, "ok"))
    [(breaking_conn, sample_cases); (healthy_conn, sample_cases)]).
  repeat constructor; try done; try (vm_compute; done); by eexists.
Defined.

(** The healthy connection carries the message, the broken one does not. *)
Example notifier_run :
  ((Client_Run (session_attempt <$> [(breaking_conn, sample_cases); (healthy_conn, sample_cases)])).1
    ≫= notify (λ _, Ok (200%Z, "ok"))).*1 = [encode (slackMessage "INC1" "IOC1")].
Proof. vm_compute. reflexivity. Qed.

(** ** An IoC id is written to the stream unescaped *)

(** A frame of the submitter's making inside an IoC id. *)
Definition forged_id : string :=
  "X" +:+ nl +:+ "event: incident.opened" +:+ nl +:+ "data: "
  +:+ encode (obj [str_field "incidentId" "FORGED"]) +:+ nl +:+ nl +:+ "event: x".

Definition forging_ioc : IoC :=
  MkIoC forged_id (IoC_Kind sample_ioc) (IoC_Severity sample_ioc) (IoC_Ecosystem sample_ioc)
    (IoC_Source sample_ioc) (IoC_PublishedAt sample_ioc) (IoC_Description sample_ioc)
    (IoC_PackageVersion sample_ioc) None None None.

(** The id of an IoC reaches the stream without escaping: a submitted IoC
    whose id contains line breaks and which matches a component is accepted
    with 201, and the [ioc.matched] event it causes is read by the notifier
    as an [incident.opened] frame, for which a Slack message about an
    incident that does not exist is posted. *)
Theorem ioc_id_forges_an_incident_message :
  let '(r, w) := SubmitIoC (Ok (toGenIoC forging_ioc)) sample_world in
  let body := session_body (healthy_conn, Receive ∘ Some <$> w_events w) in
  resp_status r = StatusCreated ∧
  encode (slackMessage "FORGED" "(unknown)")
    ∈ ((ReadStream body.1).1 ≫= notify (λ _, Ok (200%Z, "ok"))).*1 ∧
  incidents (w_store w) !! "FORGED" = None.
Proof.
  vm_compute. split; [reflexivity|]. split; [|reflexivity]. repeat (left || right).
Qed.
