(* ===== verification/Router.v ===== *)
(** * From requests to operations (engine/api/gen/api.gen.go)

    The routes [HandlerWithOptions] registers and the wrappers
    [ServerInterfaceWrapper] that bind the parameters of a request: each
    wrapper ends in the call of the server interface it makes, or in the
    error it hands to [ErrorHandlerFunc]. The handlers read their body with
    [decodeJSON], which touches no state, so a call carries the outcome. No
    operation has a middleware of its own.

    Binding a parameter is third-party: the class [ParamRuntime] has the
    calls at the types the wrappers bind, [ParamRuntimeLaws] what the package
    documents. *)

From S2P Require Import Prelude GoStrings GoText Json JsonEncode GoURL GoMux GoTime Domain GoJson Wire ApiBodies Matching Handlers EngineInvariant.
From stdpp Require Import options.

(** ** The runtime package *)

Class ParamRuntime := {
  BindQueryString : string → Values → result (option string);
  BindQueryStrings : string → Values → result (option (list string));
  BindQueryTime : string → Values → result (option Time);
  BindQueryInt : string → Values → result (option Z);
  BindPathString : string → string → result string;
  BindPathInt64 : string → string → result Z;
  BindHeaderString : string → string → result string;
}.

(** An optional parameter that is absent is nil, one that is given is read at
    its type, and a path parameter that is not escaped stands for itself. *)
Class ParamRuntimeLaws `{ParamRuntime} := {
  query_string_absent name q : q !! name = None → BindQueryString name q = Ok None;
  query_strings_absent name q : q !! name = None → BindQueryStrings name q = Ok None;
  query_time_absent name q : q !! name = None → BindQueryTime name q = Ok None;
  query_int_absent name q : q !! name = None → BindQueryInt name q = Ok None;
  query_string_given name q v : v ≠ "" → q !! name = Some [v] → BindQueryString name q = Ok (Some v);
  path_string_plain name v : v ≠ "" → byte_in "%" v = false → BindPathString name v = Ok v;
  path_int_plain name z : (MinInt64 ≤ z ≤ MaxInt64)%Z → BindPathInt64 name (pretty z) = Ok z;
}.

(** ** Errors of the wrappers *)

Definition InvalidParamFormatError (name : string) (e : error) : error :=
  EWrap "Invalid format for parameter %s: %s" [name] e.

Definition TooManyValuesForParamError (name : string) (count : nat) : error :=
  EText "Expected one value for %s, got %d" [name; pretty count].

(** ** The operations *)

Inductive operation :=
  | OpHealthz | OpReadyz | OpListAnomalies | OpGetAnomaly | OpIssueAuthToken | OpBlastRadius
  | OpListComponents | OpUpsertComponent | OpListSBOMsByComponent | OpSubmitSBOM | OpListIncidents
  | OpGetIncident | OpGetIncidentDetail | OpAddRemediation | OpTransitionIncident | OpListIoCs
  | OpSubmitIoC | OpGetPublisherHistory | OpGetSBOM | OpStream.

#[global] Instance operation_eq_dec : EqDecision operation.
Proof. solve_decision. Defined.

(** A call of the server interface. *)
Inductive ApiCall :=
  | CallApi (req : Request)
  | CallIssueAuthToken (body : result AuthTokenRequest)
  | CallStream (lastEventID : option string).

Section wrappers.
Context `{ParamRuntime}.

#[local] Instance result_bind : MBind result := λ A B f r,
  match r with Ok a => f a | Err e => Err e end.

(** [err = bind; if err != nil { ErrorHandlerFunc(...); return }]. *)
Definition param {A} (name : string) (bound : result A) : result A :=
  match bound with Ok a => Ok a | Err e => Err (InvalidParamFormatError name e) end.

Definition siw_Healthz : result ApiCall := Ok (CallApi ReqHealthz).

Definition siw_Readyz : result ApiCall := Ok (CallApi ReqReadyz).

Definition siw_ListAnomalies (r : HttpRequest) : result ApiCall :=
  let q := Query (rq_RawQuery r) in
  ref ← param "package_ref" (BindQueryString "package_ref" q);
  kind ← param "kind" (BindQueryString "kind" q);
  from ← param "from" (BindQueryTime "from" q);
  to_ ← param "to" (BindQueryTime "to" q);
  limit ← param "limit" (BindQueryInt "limit" q);
  Ok (CallApi (ReqListAnomalies (MkListAnomaliesParams ref kind from to_ limit))).

Definition siw_GetAnomaly (vars : list (string * string)) : result ApiCall :=
  id ← param "id" (BindPathInt64 "id" (PathValue vars "id"));
  Ok (CallApi (ReqGetAnomaly id)).

Definition siw_IssueAuthToken (r : HttpRequest) : result ApiCall :=
  Ok (CallIssueAuthToken (decodeJSON decode_AuthTokenRequest zero_AuthTokenRequest (rq_Body r))).

Definition siw_BlastRadius (r : HttpRequest) : result ApiCall :=
  Ok (CallApi (ReqBlastRadius (decodeJSON decode_BlastRadiusRequest [] (rq_Body r)))).

(** The handler reads neither the cursor nor the limit. *)
Definition siw_ListComponents (r : HttpRequest) : result ApiCall :=
  let q := Query (rq_RawQuery r) in
  _ ← param "cursor" (BindQueryString "cursor" q);
  _ ← param "limit" (BindQueryInt "limit" q);
  Ok (CallApi ReqListComponents).

Definition siw_UpsertComponent (r : HttpRequest) : result ApiCall :=
  Ok (CallApi (ReqUpsertComponent (decodeJSON decode_gen_Component zero_Component (rq_Body r)))).

Definition siw_ListSBOMsByComponent (vars : list (string * string)) : result ApiCall :=
  ref ← param "componentRef" (BindPathString "componentRef" (PathValue vars "componentRef"));
  Ok (CallApi (ReqListSBOMsByComponent ref)).

Definition siw_SubmitSBOM (r : HttpRequest) (vars : list (string * string)) : result ApiCall :=
  ref ← param "componentRef" (BindPathString "componentRef" (PathValue vars "componentRef"));
  Ok (CallApi (ReqSubmitSBOM ref (decodeJSON decode_gen_SBOMSubmission zero_SBOMSubmission (rq_Body r)))).

(** The handler does not read the cursor. *)
Definition siw_ListIncidents (r : HttpRequest) : result ApiCall :=
  let q := Query (rq_RawQuery r) in
  state ← param "state" (BindQueryStrings "state" q);
  ecosystem ← param "ecosystem" (BindQueryStrings "ecosystem" q);
  from ← param "from" (BindQueryTime "from" q);
  to_ ← param "to" (BindQueryTime "to" q);
  search ← param "search" (BindQueryString "search" q);
  owner ← param "owner" (BindQueryString "owner" q);
  since ← param "since" (BindQueryTime "since" q);
  _ ← param "cursor" (BindQueryString "cursor" q);
  limit ← param "limit" (BindQueryInt "limit" q);
  Ok (CallApi (ReqListIncidents (MkListIncidentsParams state ecosystem from to_ search owner since limit))).

Definition siw_GetIncident (vars : list (string * string)) : result ApiCall :=
  id ← param "id" (BindPathString "id" (PathValue vars "id"));
  Ok (CallApi (ReqGetIncident id)).

Definition siw_GetIncidentDetail (vars : list (string * string)) : result ApiCall :=
  id ← param "id" (BindPathString "id" (PathValue vars "id"));
  Ok (CallApi (ReqGetIncidentDetail id)).

Definition siw_AddRemediation (r : HttpRequest) (vars : list (string * string)) : result ApiCall :=
  id ← param "id" (BindPathString "id" (PathValue vars "id"));
  Ok (CallApi (ReqAddRemediation id (decodeJSON decode_gen_Remediation zero_Remediation (rq_Body r)))).

(** The handler reads [To] alone of its body. *)
Definition siw_TransitionIncident (r : HttpRequest) (vars : list (string * string)) : result ApiCall :=
  id ← param "id" (BindPathString "id" (PathValue vars "id"));
  Ok (CallApi (ReqTransitionIncident id
    (body ← decodeJSON decode_IncidentTransitionRequest zero_IncidentTransitionRequest (rq_Body r);
     Ok (itr_To body)))).

(** The handler reads neither the cursor nor the limit. *)
Definition siw_ListIoCs (r : HttpRequest) : result ApiCall :=
  let q := Query (rq_RawQuery r) in
  ecosystem ← param "ecosystem" (BindQueryString "ecosystem" q);
  severity ← param "severity" (BindQueryString "severity" q);
  _ ← param "cursor" (BindQueryString "cursor" q);
  _ ← param "limit" (BindQueryInt "limit" q);
  Ok (CallApi (ReqListIoCs (MkListIoCsParams ecosystem severity))).

Definition siw_SubmitIoC (r : HttpRequest) : result ApiCall :=
  Ok (CallApi (ReqSubmitIoC (decodeJSON decode_gen_IoC zero_IoC (rq_Body r)))).

Definition siw_GetPublisherHistory (r : HttpRequest) (vars : list (string * string)) : result ApiCall :=
  ref ← param "packageRef" (BindPathString "packageRef" (PathValue vars "packageRef"));
  limit ← param "limit" (BindQueryInt "limit" (Query (rq_RawQuery r)));
  Ok (CallApi (ReqGetPublisherHistory ref limit)).

Definition siw_GetSBOM (vars : list (string * string)) : result ApiCall :=
  id ← param "id" (BindPathString "id" (PathValue vars "id"));
  Ok (CallApi (ReqGetSBOM id)).

Definition siw_Stream (r : HttpRequest) : result ApiCall :=
  match rq_LastEventID r with
  | None => Ok (CallStream None)
  | Some [v] =>
      id ← param "Last-Event-ID" (BindHeaderString "Last-Event-ID" v);
      Ok (CallStream (Some id))
  | Some vs => Err (TooManyValuesForParamError "Last-Event-ID" (length vs))
  end.

(** [ServerInterfaceWrapper]. *)
Definition wrapper (op : operation) (r : HttpRequest) (vars : list (string * string)) : result ApiCall :=
  match op with
  | OpHealthz => siw_Healthz
  | OpReadyz => siw_Readyz
  | OpListAnomalies => siw_ListAnomalies r
  | OpGetAnomaly => siw_GetAnomaly vars
  | OpIssueAuthToken => siw_IssueAuthToken r
  | OpBlastRadius => siw_BlastRadius r
  | OpListComponents => siw_ListComponents r
  | OpUpsertComponent => siw_UpsertComponent r
  | OpListSBOMsByComponent => siw_ListSBOMsByComponent vars
  | OpSubmitSBOM => siw_SubmitSBOM r vars
  | OpListIncidents => siw_ListIncidents r
  | OpGetIncident => siw_GetIncident vars
  | OpGetIncidentDetail => siw_GetIncidentDetail vars
  | OpAddRemediation => siw_AddRemediation r vars
  | OpTransitionIncident => siw_TransitionIncident r vars
  | OpListIoCs => siw_ListIoCs r
  | OpSubmitIoC => siw_SubmitIoC r
  | OpGetPublisherHistory => siw_GetPublisherHistory r vars
  | OpGetSBOM => siw_GetSBOM vars
  | OpStream => siw_Stream r
  end.
End wrappers.

(** ** The routes *)

(** [HandlerWithOptions] with an empty base URL. *)
Definition HandlerWithOptions : list (string * operation) := [
  ("GET /healthz", OpHealthz);
  ("GET /readyz", OpReadyz);
  ("GET /v1/anomalies", OpListAnomalies);
  ("GET /v1/anomalies/{id}", OpGetAnomaly);
  ("POST /v1/auth/token", OpIssueAuthToken);
  ("POST /v1/blast-radius", OpBlastRadius);
  ("GET /v1/components", OpListComponents);
  ("POST /v1/components", OpUpsertComponent);
  ("GET /v1/components/{componentRef}/sboms", OpListSBOMsByComponent);
  ("POST /v1/components/{componentRef}/sboms", OpSubmitSBOM);
  ("GET /v1/incidents", OpListIncidents);
  ("GET /v1/incidents/{id}", OpGetIncident);
  ("GET /v1/incidents/{id}/detail", OpGetIncidentDetail);
  ("POST /v1/incidents/{id}/remediations", OpAddRemediation);
  ("POST /v1/incidents/{id}/transition", OpTransitionIncident);
  ("GET /v1/iocs", OpListIoCs);
  ("POST /v1/iocs", OpSubmitIoC);
  ("GET /v1/publisher/{packageRef}/history", OpGetPublisherHistory);
  ("GET /v1/sboms/{id}", OpGetSBOM);
  ("GET /v1/stream", OpStream)].

Definition api_routes : list (pattern * operation) := prod_map parsePattern id <$> HandlerWithOptions.

(** ** What a request comes to *)

Inductive routed :=
  | Calls (op : operation) (call : ApiCall)
  | BadParam (op : operation) (e : error)        (* [ErrorHandlerFunc] *)
  | Redirected (path : string)
  | MethodNotAllowed (allow : list string)
  | PageNotFound.

Definition route_request `{ParamRuntime} (r : HttpRequest) : routed :=
  match findHandler api_routes r with
  | MuxHandler op vars => match wrapper op r vars with Ok c => Calls op c | Err e => BadParam op e end
  | MuxRedirect path => Redirected path
  | MuxMethodNotAllowed allow => MethodNotAllowed allow
  | MuxNotFound => PageNotFound
  end.

(** * Properties *)

Lemma api_routes_distinct : routes_distinct api_routes = true.
Proof. vm_compute. reflexivity. Qed.

(** ** What a client sends *)

(** The pattern of an operation. *)
Definition pattern_of (op : operation) : pattern :=
  default (MkPattern "" []) (fst <$> find (λ r, bool_decide (r.2 = op)) api_routes).

Lemma pattern_of_route op : (pattern_of op, op) ∈ api_routes.
Proof. destruct op; vm_compute; repeat (left || right). Qed.

(** The pattern with escaped arguments for its wildcards. *)
Fixpoint fill (ps : list pseg) (args : list string) : list string :=
  match ps, args with
  | PLit s :: ps, _ => s :: fill ps args
  | PWild _ :: ps, a :: args => PathEscape a :: fill ps args
  | _, _ => []
  end.

(** An argument a client can put in a path: escaped once, it is neither
    cleaned away nor taken for a slash nor unescaped a second time. *)
Definition plain_arg (a : string) : bool :=
  negb (String.eqb a "") && negb (String.eqb a ".") && negb (String.eqb a "..") && negb (String.eqb a "/")
  && negb (byte_in "%" a).

(** The operation of a call, and the arguments in its path. *)
Definition target (c : ApiCall) : operation * list string :=
  match c with
  | CallApi ReqHealthz => (OpHealthz, [])
  | CallApi ReqReadyz => (OpReadyz, [])
  | CallApi ReqListComponents => (OpListComponents, [])
  | CallApi (ReqUpsertComponent _) => (OpUpsertComponent, [])
  | CallApi (ReqSubmitSBOM ref _) => (OpSubmitSBOM, [ref])
  | CallApi (ReqListSBOMsByComponent ref) => (OpListSBOMsByComponent, [ref])
  | CallApi (ReqGetSBOM id) => (OpGetSBOM, [id])
  | CallApi (ReqSubmitIoC _) => (OpSubmitIoC, [])
  | CallApi (ReqListIoCs _) => (OpListIoCs, [])
  | CallApi (ReqListIncidents _) => (OpListIncidents, [])
  | CallApi (ReqGetIncident id) => (OpGetIncident, [id])
  | CallApi (ReqGetIncidentDetail id) => (OpGetIncidentDetail, [id])
  | CallApi (ReqTransitionIncident id _) => (OpTransitionIncident, [id])
  | CallApi (ReqBlastRadius _) => (OpBlastRadius, [])
  | CallApi (ReqAddRemediation id _) => (OpAddRemediation, [id])
  | CallApi (ReqListAnomalies _) => (OpListAnomalies, [])
  | CallApi (ReqGetAnomaly id) => (OpGetAnomaly, [pretty id])
  | CallApi (ReqGetPublisherHistory ref _) => (OpGetPublisherHistory, [ref])
  | CallIssueAuthToken _ => (OpIssueAuthToken, [])
  | CallStream _ => (OpStream, [])
  end.

(** What the call takes from elsewhere in the request: the body, and no
    optional parameter. *)
Definition carries (r : HttpRequest) (c : ApiCall) : Prop :=
  match c with
  | CallApi (ReqUpsertComponent body) => body = decodeJSON decode_gen_Component zero_Component (rq_Body r)
  | CallApi (ReqSubmitSBOM _ body) => body = decodeJSON decode_gen_SBOMSubmission zero_SBOMSubmission (rq_Body r)
  | CallApi (ReqSubmitIoC body) => body = decodeJSON decode_gen_IoC zero_IoC (rq_Body r)
  | CallApi (ReqListIoCs ps) => ps = MkListIoCsParams None None
  | CallApi (ReqListIncidents ps) => ps = MkListIncidentsParams None None None None None None None None
  | CallApi (ReqTransitionIncident _ body) =>
      match decodeJSON decode_IncidentTransitionRequest zero_IncidentTransitionRequest (rq_Body r) with
      | Ok b => body = Ok (itr_To b)
      | Err e => body = Err e
      end
  | CallApi (ReqBlastRadius body) => body = decodeJSON decode_BlastRadiusRequest [] (rq_Body r)
  | CallApi (ReqAddRemediation _ body) => body = decodeJSON decode_gen_Remediation zero_Remediation (rq_Body r)
  | CallApi (ReqListAnomalies ps) => ps = MkListAnomaliesParams None None None None None
  | CallApi (ReqGetAnomaly id) => (MinInt64 ≤ id ≤ MaxInt64)%Z
  | CallApi (ReqGetPublisherHistory _ limit) => limit = None
  | CallIssueAuthToken body => body = decodeJSON decode_AuthTokenRequest zero_AuthTokenRequest (rq_Body r)
  | CallStream id => id = None
  | CallApi _ => True
  end.

(** The request of a client that makes the call. *)
Definition sends (r : HttpRequest) (c : ApiCall) : Prop :=
  let '(op, args) := target c in
  rq_Method r = p_method (pattern_of op) ∧
  rq_EscapedPath r = rooted (fill (p_segs (pattern_of op)) args) ∧
  forallb plain_arg args = true ∧
  rq_RawQuery r = "" ∧ rq_LastEventID r = None ∧ carries r c.

Lemma plain_arg_spec a : plain_arg a = true →
  raw_segment (PathEscape a) = true ∧ a ≠ "" ∧ a ≠ "/" ∧ byte_in "%" a = false.
Proof.
  unfold plain_arg. rewrite !andb_true_iff, !negb_true_iff, !String.eqb_neq.
  intros [[[[H1 H2] H3] H4] H5]. split; [|done]. apply raw_segment_spec.
  assert (∀ s, PathUnescape s = Some s → a ≠ s → PathEscape a ≠ s) as Hne.
  { intros s Hs Ha Hp. pose proof (PathEscape_unescape a) as Hu. rewrite Hp, Hs in Hu. by injection Hu as ->. }
  split_and!; [by apply Hne..|apply PathEscape_no_slash].
Qed.

(** ** Routing what a client sends *)

(** Literals that stand for themselves. *)
Definition plain_literals (ps : list pseg) : bool :=
  forallb (λ s, match s with
                | PLit l => raw_segment l && bool_decide (PathUnescape l = Some l)
                | PWild _ => true
                end) ps.

Lemma fits_fill ps args : plain_literals ps = true → length args = length (wild_names ps) →
  forallb plain_arg args = true →
  forallb raw_segment (fill ps args) = true ∧ fits ps (pathUnescape <$> fill ps args) args.
Proof.
  revert args. induction ps as [|[l|n] ps IH]; intros args Hps Hlen Hargs; simpl in Hps.
  - destruct args; [|done]. split; [done|constructor].
  - apply andb_true_iff in Hps as [[Hl Hu%bool_decide_eq_true]%andb_true_iff Hps].
    destruct (IH args) as [Hr Hf]; [done..|]. split; [simpl; by rewrite Hl|].
    cbn [fill]. rewrite fmap_cons. unfold pathUnescape at 1. rewrite Hu. by constructor.
  - destruct args as [|a args]; [done|]. simpl in Hargs. apply andb_true_iff in Hargs as [Ha Hargs].
    apply plain_arg_spec in Ha as (Ha & _ & Hs & _). destruct (IH args) as [Hr Hf]; [done|by injection Hlen|done|].
    split; [simpl; by rewrite Ha|].
    cbn [fill]. rewrite fmap_cons. unfold pathUnescape at 1. rewrite PathEscape_unescape. by constructor.
Qed.

Lemma pattern_of_ok op : plain_literals (p_segs (pattern_of op)) = true ∧ p_segs (pattern_of op) ≠ [].
Proof. by destruct op. Qed.

Lemma target_arity c : length (target c).2 = length (wild_names (p_segs (pattern_of (target c).1))).
Proof. by destruct c as [[]| |]. Qed.

Lemma findHandler_sent r c : sends r c →
  findHandler api_routes r = MuxHandler (target c).1 (zip (wild_names (p_segs (pattern_of (target c).1))) (target c).2).
Proof.
  pose proof (target_arity c) as Hlen. unfold sends. destruct (target c) as [op args].
  intros (Hm & Hp & Hargs & _). cbn [fst snd] in *. destruct (pattern_of_ok op) as [Hlit Hne].
  destruct (fits_fill _ _ Hlit Hlen Hargs) as [Hraw Hf].
  apply (findHandler_reaches api_routes (pattern_of op) op (fill (p_segs (pattern_of op)) args));
    [apply api_routes_distinct|apply pattern_of_route| |done..].
  by destruct (p_segs (pattern_of op)) as [|[] ?], args.
Qed.

Section client.
Context `{ParamRuntime} {laws : ParamRuntimeLaws}.

Lemma no_query r name : rq_RawQuery r = "" → Query (rq_RawQuery r) !! name = None.
Proof. by intros ->. Qed.

Ltac bind_params Hnone Hplain :=
  unfold siw_Healthz, siw_Readyz, siw_IssueAuthToken, siw_BlastRadius, siw_UpsertComponent, siw_SubmitIoC,
    siw_ListAnomalies, siw_GetAnomaly, siw_ListComponents, siw_ListSBOMsByComponent, siw_SubmitSBOM,
    siw_ListIncidents, siw_GetIncident, siw_GetIncidentDetail, siw_AddRemediation, siw_TransitionIncident,
    siw_ListIoCs, siw_GetPublisherHistory, siw_GetSBOM, siw_Stream;
  repeat match goal with
    | |- context [PathValue (zip ?names [?a]) ?n] => change (PathValue (zip names [a]) n) with a
    end;
  repeat first
    [ rewrite query_string_absent by apply Hnone | rewrite query_strings_absent by apply Hnone
    | rewrite query_time_absent by apply Hnone | rewrite query_int_absent by apply Hnone
    | rewrite path_int_plain by done
    | rewrite path_string_plain by (apply Hplain; set_solver) ].

(** C16: Every call of the API arrives as the client made it: a request with the
    method and path of an operation, its path parameters escaped once (and
    neither empty, a dot segment, a slash nor with a percent sign of their
    own), no query and a body is routed to that operation, with the
    parameters unescaped and the body decoded; no operation shadows another. *)
Theorem client_calls_arrive r c : sends r c → route_request r = Calls (target c).1 c.
Proof using laws.
  intros Hs. unfold route_request. rewrite (findHandler_sent _ _ Hs).
  unfold sends in Hs. destruct (target c) as [op args] eqn:Ht. destruct Hs as (_ & _ & Hargs & Hq & Hh & Hc).
  cbn [fst snd].
  enough (wrapper op r (zip (wild_names (p_segs (pattern_of op))) args) = Ok c) as ->; [done|].
  pose proof (λ name, no_query r name Hq) as Hnone.
  assert (∀ v, v ∈ args → v ≠ "" ∧ byte_in "%" v = false) as Hplain.
  { intros v Hv%list_elem_of_In. rewrite forallb_forall in Hargs. apply Hargs, plain_arg_spec in Hv. tauto. }
  destruct c as [[]|body|id]; injection Ht as <- <-; cbn [carries] in Hc; subst; try done;
    cbn [wrapper]; bind_params Hnone Hplain; try done.
  - by destruct (decodeJSON _ _ _); subst.
  - by rewrite Hh.
Qed.
End client.

(** ** A runtime package that satisfies the laws *)

Definition bind_one {A} (read : string → option A) (name : string) (q : Values) : result (option A) :=
  match q !! name with
  | None => Ok None
  | Some [v] => match read v with Some a => Ok (Some a) | None => Err (EText "error binding %s" [name]) end
  | Some _ => Err (EText "multiple values for single value parameter %s" [name])
  end.

Definition bind_text {A} (read : string → option A) (name v : string) : result A :=
  if bool_decide (v = "") then Err (EText "parameter %s is empty" [name])
  else match read v with Some a => Ok a | None => Err (EText "error binding %s" [name]) end.

Definition sample_runtime : ParamRuntime := {|
  BindQueryString := bind_one Some;
  BindQueryStrings name q := Ok (q !! name);
  BindQueryTime := bind_one parse_rfc3339;
  BindQueryInt := bind_one parse_int;
  BindPathString := bind_text PathUnescape;
  BindPathInt64 := bind_text parse_int;
  BindHeaderString := bind_text Some;
|}.

Lemma PathUnescape_plain s : byte_in "%" s = false → PathUnescape s = Some s.
Proof.
  induction s as [|a s IH]; [done|]. rewrite byte_in_cons. intros [Ha Hs]%orb_false_iff.
  apply bool_decide_eq_false in Ha. change (String a s) with (byte1 a +:+ s). by rewrite byte1_unescape, IH.
Qed.

Lemma sample_runtime_laws : @ParamRuntimeLaws sample_runtime.
Proof.
  split; simpl; unfold bind_one; try (by intros name q ->).
  - by intros name q v _ ->.
  - intros name v Hv Hp. unfold bind_text. rewrite bool_decide_eq_false_2 by done. by rewrite PathUnescape_plain.
  - intros name z Hz. unfold bind_text. rewrite parse_int_pretty by done.
    rewrite bool_decide_eq_false_2; [done|]. intros He.
    destruct z as [|p|p]; [done| |done]. destruct (pretty_positive_digits p) as (a & t & Hp & _).
    change (pretty (Z.pos p)) with (pretty p) in He. by rewrite Hp in He.
Qed.

#[local] Existing Instance sample_runtime.
#[local] Existing Instance sample_runtime_laws.

Lemma client_calls_arrive_witness :
  let r := MkHttpRequest "GET" "/v1/components/kind:Component/default/web/sboms"
    "/v1/components/kind:Component%2Fdefault%2Fweb/sboms" "" "" "" None "" in
  route_request r = Calls OpListSBOMsByComponent (CallApi (ReqListSBOMsByComponent "kind:Component/default/web")).
Proof.
  intros r. apply (client_calls_arrive r (CallApi (ReqListSBOMsByComponent "kind:Component/default/web"))).
  unfold sends. cbn [target carries]. split_and!; [vm_compute; reflexivity..|exact I].
Defined.
