(* ===== verification/Auth.v ===== *)
(** * Authentication, CORS and the token endpoint

    src/engine/internal/api/middleware (auth.go, cors.go),
    internal/api/handlers_auth.go and [Server.Handler] of server.go. A
    handler turns a request, with the principal its context carries, into a
    response, in the monad of Engine.v; a middleware wraps a handler.
    [genHandler] is the generated handler: the multiplexer, the wrappers of
    Router.v and the operations.

    The JWT package is third-party: the class [JWT] has the two calls the
    code makes, [JWTLaws] what the package documents about them. Decoding
    an RSA public key (PEM, X.509) is the parameter [PublicKeys], about
    which nothing is assumed. *)

From S2P Require Import Prelude GoStrings GoText Json JsonEncode GoURL GoMux GoTime Domain Bus GoJson Storage MemoryStore Wire ApiBodies Engine Matcher Samples Handlers EngineInvariant Stream Router.
From stdpp Require Import options.

(** ** Responses *)

(** [HText] is the text of [http.Error], [HRedirect] the target of a redirect
    before it is escaped, [HStream] the frames of Stream.v. *)
Inductive HttpBody :=
  | HNone
  | HText (message : Message)
  | HRedirect (path rawQuery : string)
  | HStream
  | HAuthError (code : string) (message : Message)
  | HToken (accessToken : string) (expiresAt : Time)
  | HApi (b : Body).

Record HttpResponse := MkHttpResponse {
  hr_Status : Z;
  hr_Header : gmap string string;
  hr_Body : HttpBody;
}.

Definition StatusNoContent : Z := 204.
Definition StatusMovedPermanently : Z := 301.
Definition StatusMethodNotAllowed : Z := 405.
Definition StatusUnauthorized : Z := 401.
Definition StatusServiceUnavailable : Z := 503.

(** ** Scopes and principals *)

Definition ScopeRead : string := "read".
Definition ScopeWrite : string := "write".
Definition ScopeAdmin : string := "admin".

Record Principal := MkPrincipal { Principal_Subject : string; Principal_Scope : string }.

Record AuthOptions := MkAuthOptions {
  Enabled : bool;
  SigningKey : string;
  Algorithm : string;
  Audience : string;
  ExemptPaths : list string;
}.

Definition DefaultExemptPaths : list string :=
  ["/healthz"; "/readyz"; "/v1/auth/token"; "/v1/stream"].

(** [strings.ToUpper]; upper case outside ASCII is Unicode's. *)
Class UnicodeUpper := { upper_unicode : string → string }.

Definition ToUpper `{UnicodeUpper} (s : string) : string :=
  if str_forallb is_ascii s then str_map upper_byte s else upper_unicode s.

(** ** The JWT package *)

Record Claims := MkClaims {
  cl_Scope : string;
  cl_Subject : string;
  cl_Audience : list string;
  cl_IssuedAt : option Time;
  cl_NotBefore : option Time;
  cl_ExpiresAt : option Time;
}.

(** [jwt.NewNumericDate]: whole seconds. *)
Definition NewNumericDate (t : Time) : Time := (t - t mod Second)%Z.

(** What [keyFunc] hands to the verifier. *)
Inductive Key :=
  | HMACKey (secret : string)
  | RSAKey (publicKey : string).

(** [WithValidMethods], [WithTimeFunc], [WithExpirationRequired] and, for a
    non-empty audience, [WithAudience]. *)
Record ParserOptions := MkParserOptions {
  po_Methods : list string;
  po_Now : Time;
  po_Audience : option string;
}.

Class JWT := {
  ParseWithClaims : ParserOptions → string → result Key → result Claims;
  SignHS256 : Claims → string → result string;
}.

(** The checks of the package's validator. *)
Definition claims_valid (po : ParserOptions) (c : Claims) : Prop :=
  (∃ exp, cl_ExpiresAt c = Some exp ∧ (po_Now po < exp)%Z) ∧
  (∀ nbf, cl_NotBefore c = Some nbf → (nbf ≤ po_Now po)%Z) ∧
  (∀ aud, po_Audience po = Some aud → aud ∈ cl_Audience c).

Definition whole_seconds (c : Claims) : Prop :=
  ∀ t, cl_IssuedAt c = Some t ∨ cl_NotBefore c = Some t ∨ cl_ExpiresAt c = Some t → (t mod Second = 0)%Z.

Class JWTLaws `{JWT} := {
  (** Signing with a shared secret does not fail, and a token is base64url
      text with dots. *)
  sign_ok c secret : ∃ tok, SignHS256 c secret = Ok tok ∧ tok ≠ "" ∧ plain tok = true;
  (** A token signed with the key it is verified with is accepted while its
      claims are valid, and carries the claims that were signed. *)
  parse_signed c secret tok po :
    SignHS256 c secret = Ok tok → "HS256" ∈ po_Methods po → whole_seconds c → claims_valid po c →
    ParseWithClaims po tok (Ok (HMACKey secret)) = Ok c;
  (** A token whose algorithm is not among the valid methods is refused. *)
  parse_method c secret tok po key :
    SignHS256 c secret = Ok tok → "HS256" ∉ po_Methods po →
    ∃ e, ParseWithClaims po tok key = Err e;
  (** An accepted token has valid claims and was verified with a key. *)
  parse_sound po tok key c :
    ParseWithClaims po tok key = Ok c → claims_valid po c ∧ ∃ k, key = Ok k;
}.

(** [pem.Decode] and [x509.ParsePKIXPublicKey] with the type assertion to
    an RSA key. *)
Inductive PKIXKey := PKIXRSA (key : string) | PKIXOther.

Class PublicKeys := {
  pem_Decode : string → option string;
  ParsePKIXPublicKey : string → result PKIXKey;
}.

(** ** auth.go *)

Definition isExempt (path : string) (exemptions : list string) : bool :=
  existsb (λ p, bool_decide (path = p) || HasPrefix path (p +:+ "/")) exemptions.

Definition bearerToken (header : string) : string :=
  if negb (HasPrefix header "Bearer ") then "" else TrimSpace (str_drop 7 header).

Definition allowedMethods `{UnicodeUpper} (alg : string) : list string :=
  if bool_decide (ToUpper alg = "RS256") then ["RS256"] else ["HS256"].

Definition keyFunc `{UnicodeUpper, PublicKeys} (opts : AuthOptions) : result Key :=
  if bool_decide (SigningKey opts = "") then Err (EText "signing key not configured" [])
  else if bool_decide (ToUpper (Algorithm opts) = "RS256") then
    match pem_Decode (SigningKey opts) with
    | None => Err (EText "RS256 signing key is not PEM-encoded" [])
    | Some block =>
        match ParsePKIXPublicKey block with
        | Err e => Err (EWrap "parse RSA public key: %w" [] e)
        | Ok PKIXOther => Err (EText "RS256 key is not an RSA public key" [])
        | Ok (PKIXRSA k) => Ok (RSAKey k)
        end
    end
  else Ok (HMACKey (SigningKey opts)).

Definition normaliseScope `{UnicodeCase} (s : string) : string :=
  let s := ToLower (TrimSpace s) in
  if bool_decide (s = "write") then ScopeWrite
  else if bool_decide (s = "admin") then ScopeAdmin
  else ScopeRead.

Section middleware.
Context `{UnicodeCase, UnicodeUpper, PublicKeys, JWT}.

Definition parserOptions (opts : AuthOptions) (now : Time) : ParserOptions :=
  MkParserOptions (allowedMethods (Algorithm opts)) now
    (if bool_decide (Audience opts = "") then None else Some (Audience opts)).

Definition validate (raw : string) (opts : AuthOptions) (now : Time) : result Principal :=
  match ParseWithClaims (parserOptions opts now) raw (keyFunc opts) with
  | Err e => Err e
  | Ok claims =>
      if bool_decide (cl_Subject claims = "") then Err (EText "sub claim missing" [])
      else Ok (MkPrincipal (cl_Subject claims) (normaliseScope (cl_Scope claims)))
  end.

Definition IssueHS256 (secret subject audience scope : string) (ttl : Duration) (now : Time) :
    result (string * Time) :=
  if bool_decide (secret = "") then Err (EText "signing key not configured" [])
  else
    let ttl := if bool_decide (ttl ≤ 0)%Z then Hour else ttl in
    let exp := Add now ttl in
    let claims := MkClaims scope subject
      (if bool_decide (audience = "") then [] else [audience])
      (Some (NewNumericDate now)) (Some (NewNumericDate now)) (Some (NewNumericDate exp)) in
    match SignHS256 claims secret with
    | Err e => Err e
    | Ok signed => Ok (signed, exp)
    end.

Definition authHeaders : gmap string string :=
  <["Content-Type" := "application/json"]>
    (<["WWW-Authenticate" := "Bearer realm=" +:+ quote "rampart"]> ∅).

Definition writeAuthError (status : Z) (code : string) (message : Message) : HttpResponse :=
  MkHttpResponse status authHeaders (HAuthError code message).

Context {St : Type} `{Env}.

Definition HttpHandler : Type := HttpRequest → option Principal → M St HttpResponse.

(** [Auth]: [next] gets the principal through the request context. *)
Definition Auth (opts : AuthOptions) (next : HttpHandler) : HttpHandler := λ r ctx,
  if negb (Enabled opts) || isExempt (rq_Path r) (ExemptPaths opts) then next r ctx
  else
    let token := bearerToken (rq_Authorization r) in
    if bool_decide (token = "") then
      mret (writeAuthError StatusUnauthorized "AUTH_MISSING"
        (MText "Authorization: Bearer <token> required"))
    else
      now ← time_Now;
      match validate token opts now with
      | Err e => mret (writeAuthError StatusUnauthorized "AUTH_INVALID" (MError e))
      | Ok p => next r (Some p)
      end.

(** ** cors.go *)

Record CORSOptions := MkCORSOptions {
  AllowAll : bool;
  Origins : list string;
  AllowedMethods : list string;
  AllowedHeaders : list string;
  ExposedHeaders : list string;
}.

Definition DefaultCORSOptions : CORSOptions :=
  MkCORSOptions true [] ["GET"; "POST"; "PUT"; "DELETE"; "OPTIONS"]
    ["Authorization"; "Content-Type"; "Last-Event-ID"] ["Content-Type"].

Definition allowOrigin (origin : string) (allowAll : bool) (allowed : gset string) : bool :=
  if allowAll then true
  else if bool_decide (origin = "") then false
  else bool_decide (origin ∈ allowed).

Definition echoOrWildcard (origin : string) (allowAll : bool) : string :=
  if allowAll && bool_decide (origin = "") then "*" else origin.

Definition defaultedSlice (s fallback : list string) : list string :=
  if bool_decide (s = []) then fallback else s.

Definition allowedOrigins (origins : list string) : gset string :=
  foldl (λ allowed o,
    let o := TrimSpace o in
    if bool_decide (o = "") then allowed else {[ o ]} ∪ allowed) ∅ origins.

(** The headers set before the request goes on. *)
Definition corsHeaders (opts : CORSOptions) (origin : string) : gmap string string :=
  let methods := Join (defaultedSlice (AllowedMethods opts)
    ["GET"; "POST"; "PUT"; "DELETE"; "OPTIONS"]) ", " in
  let headers := Join (defaultedSlice (AllowedHeaders opts)
    ["Authorization"; "Content-Type"; "Last-Event-ID"]) ", " in
  let exposed := Join (defaultedSlice (ExposedHeaders opts) ["Content-Type"]) ", " in
  if allowOrigin origin (AllowAll opts) (allowedOrigins (Origins opts)) then
    <["Access-Control-Expose-Headers" := exposed]>
    (<["Access-Control-Allow-Headers" := headers]>
    (<["Access-Control-Allow-Methods" := methods]>
    (<["Vary" := "Origin"]>
    (<["Access-Control-Allow-Origin" := echoOrWildcard origin (AllowAll opts)]> ∅))))
  else ∅.

(** [CORS]: what [next] sets later wins over what is set before. *)
Definition CORS (opts : CORSOptions) (next : HttpHandler) : HttpHandler := λ r ctx,
  let hs := corsHeaders opts (rq_Origin r) in
  if bool_decide (rq_Method r = "OPTIONS") then mret (MkHttpResponse StatusNoContent hs HNone)
  else
    resp ← next r ctx;
    mret (MkHttpResponse (hr_Status resp) (hr_Header resp ∪ hs) (hr_Body resp)).

(** ** handlers_auth.go *)

Definition minTTL : Duration := (60 * Second)%Z.
Definition maxTTL : Duration := (24 * Hour)%Z.

Definition clampTTL (d : Duration) : Duration :=
  if bool_decide (d < minTTL)%Z then minTTL
  else if bool_decide (maxTTL < d)%Z then maxTTL
  else d.

(** The requested seconds times [time.Second], on int64. *)
Definition requestedTTL (req : AuthTokenRequest) : Duration :=
  match atr_TtlSeconds req with
  | None => (3600 * Second)%Z
  | Some n => clampTTL (wrap64 (n * Second))
  end.

Definition jsonError (status : Z) (code : string) (message : Message) : HttpResponse :=
  MkHttpResponse status (<["Content-Type" := "application/json"]> ∅) (HApi (BError code message)).

Definition IssueAuthToken (auth : AuthOptions) (body : result AuthTokenRequest) : M St HttpResponse :=
  if bool_decide (SigningKey auth = "") then
    mret (jsonError StatusServiceUnavailable "AUTH_DISABLED"
      (MText "token issuance disabled — RAMPART_AUTH_SIGNING_KEY not set"))
  else match body with
  | Err e => mret (jsonError StatusBadRequest "INVALID_BODY" (MError e))
  | Ok req =>
      if bool_decide (atr_Subject req = "") then
        mret (jsonError StatusBadRequest "INVALID_BODY" (MText "subject is required"))
      else
        let scope := default ScopeWrite (atr_Scope req) in
        let ttl := requestedTTL req in
        now ← time_Now;
        match IssueHS256 (SigningKey auth) (atr_Subject req) (Audience auth) scope ttl now with
        | Err e => mret (jsonError StatusInternalServerError "AUTH_SIGN_FAILED" (MError e))
        | Ok (signed, exp) =>
            mret (MkHttpResponse StatusOK (<["Content-Type" := "application/json"]> ∅)
              (HToken signed exp))
        end
  end.

(** ** server.go: the chain *)

(** [SetAuth]. *)
Definition SetAuth (opts : AuthOptions) : AuthOptions :=
  if bool_decide (ExemptPaths opts = []) then
    MkAuthOptions (Enabled opts) (SigningKey opts) (Algorithm opts) (Audience opts) DefaultExemptPaths
  else opts.

Definition Handler (auth : AuthOptions) (cors : CORSOptions) (h : HttpHandler) : HttpHandler :=
  CORS cors (Auth auth h).
End middleware.

(** ** The generated handler *)

(** [http.Error]. *)
Definition http_Error (status : Z) (message : Message) : HttpResponse :=
  MkHttpResponse status
    (<["Content-Type" := "text/plain; charset=utf-8"]> (<["X-Content-Type-Options" := "nosniff"]> ∅)) (HText message).

(** [Server.Stream]: what is committed before the loop. *)
Definition streamResponse (flusher : bool) : HttpResponse :=
  match newSSEWriter flusher with
  | Err e => jsonError StatusInternalServerError "SSE_UNSUPPORTED" (MError e)
  | Ok (status, headers, _) => MkHttpResponse status (list_to_map headers) HStream
  end.

Section generated.
Context `{UnicodeCase, UnicodeUpper, PublicKeys, JWT, ParamRuntime}.
Context {St : Type} `{Env, !Storage St, Semver, SBOMParser}.

(** The call of the server interface. *)
Definition dispatch (auth : AuthOptions) (flusher : bool) (call : ApiCall) : M St HttpResponse :=
  match call with
  | CallApi req =>
      resp ← serve req;
      mret (MkHttpResponse (resp_status resp) (<["Content-Type" := "application/json"]> ∅) (HApi (resp_body resp)))
  | CallIssueAuthToken body => IssueAuthToken auth body
  | CallStream _ => mret (streamResponse flusher)
  end.

(** [gen.Handler]. *)
Definition genHandler (auth : AuthOptions) (flusher : bool) : HttpHandler := λ r _,
  match route_request r with
  | Calls _ call => dispatch auth flusher call
  | BadParam _ e => mret (http_Error StatusBadRequest (MError e))
  | Redirected path => mret (MkHttpResponse StatusMovedPermanently ∅ (HRedirect path (rq_RawQuery r)))
  | MethodNotAllowed allow =>
      mret (MkHttpResponse StatusMethodNotAllowed
        (<["Allow" := Join allow ", "]> (hr_Header (http_Error StatusMethodNotAllowed (MText ""))))
        (HText (MText "Method Not Allowed")))
  | PageNotFound => mret (http_Error StatusNotFound (MText "404 page not found"))
  end.

(** [Server.Handler]. *)
Definition ServerHandler (auth : AuthOptions) (cors : CORSOptions) (flusher : bool) : HttpHandler :=
  Handler auth cors (genHandler auth flusher).
End generated.

(** * Properties *)

Section cors_properties.
Context {St : Type}.
Implicit Types (next : HttpHandler (St := St)) (w : World St).

Lemma CORS_run cors next r ctx w :
  rq_Method r ≠ "OPTIONS" →
  CORS cors next r ctx w =
    let '(resp, w') := next r ctx w in
    (MkHttpResponse (hr_Status resp) (hr_Header resp ∪ corsHeaders cors (rq_Origin r)) (hr_Body resp), w').
Proof. intros Hm. unfold CORS. by rewrite bool_decide_eq_false_2. Qed.

Lemma elem_of_allowedOrigins o origins :
  o ∈ allowedOrigins origins ↔ o ≠ "" ∧ ∃ o', o' ∈ origins ∧ TrimSpace o' = o.
Proof.
  unfold allowedOrigins. induction origins as [|o' origins IH] using rev_ind.
  { simpl. set_solver. }
  rewrite foldl_app. simpl. case_bool_decide as Hb.
  - rewrite IH. split; intros [Ho (x & Hx & <-)]; (split; [done|]).
    + exists x. set_solver.
    + apply elem_of_app in Hx as [Hx| ->%list_elem_of_singleton]; [by exists x|done].
  - rewrite elem_of_union, elem_of_singleton, IH. split.
    + intros [->|[Ho (x & Hx & <-)]]; (split; [done|]); [exists o'|exists x]; set_solver.
    + intros [Ho (x & Hx & <-)]. apply elem_of_app in Hx as [Hx| ->%list_elem_of_singleton]; [|by left].
      right. split; [done|]. by exists x.
Qed.

(** The CORS middleware lets a browser origin in exactly when all origins
    are allowed or the origin is one of the configured ones (after
    trimming): only then the response carries Access-Control-Allow-Origin,
    which echoes that origin; a preflight request is answered with 204
    without reaching authentication or any handler, and any other request is
    passed on whatever its origin. *)
Theorem cors_allows_exactly opts next r ctx w :
  (∀ resp w', next r ctx w = (resp, w') →
     hr_Header resp !! "Access-Control-Allow-Origin" = None) →
  let '(resp, w') := CORS opts next r ctx w in
  (∀ v, hr_Header resp !! "Access-Control-Allow-Origin" = Some v ↔
     (AllowAll opts = true ∧ v = if bool_decide (rq_Origin r = "") then "*" else rq_Origin r) ∨
     (AllowAll opts = false ∧ v = rq_Origin r ∧ rq_Origin r ≠ "" ∧
      ∃ o, o ∈ Origins opts ∧ TrimSpace o = rq_Origin r)) ∧
  (if bool_decide (rq_Method r = "OPTIONS") then hr_Status resp = StatusNoContent ∧ w' = w
   else hr_Status resp = hr_Status (next r ctx w).1 ∧ w' = (next r ctx w).2).
Proof.
  intros Hnext.
  assert (∀ v, corsHeaders opts (rq_Origin r) !! "Access-Control-Allow-Origin" = Some v ↔
     (AllowAll opts = true ∧ v = if bool_decide (rq_Origin r = "") then "*" else rq_Origin r) ∨
     (AllowAll opts = false ∧ v = rq_Origin r ∧ rq_Origin r ≠ "" ∧
      ∃ o, o ∈ Origins opts ∧ TrimSpace o = rq_Origin r)) as Hcors.
  { intros v. unfold corsHeaders, allowOrigin, echoOrWildcard. destruct (AllowAll opts).
    - simplify_map_eq. naive_solver.
    - case_bool_decide as Ho; [rewrite lookup_empty; naive_solver|].
      case_bool_decide as Ha; simplify_map_eq; rewrite elem_of_allowedOrigins in Ha; naive_solver. }
  destruct (decide (rq_Method r = "OPTIONS")) as [Hm|Hm].
  { unfold CORS. rewrite !bool_decide_eq_true_2 by done. split; [exact Hcors|done]. }
  rewrite CORS_run, (bool_decide_eq_false_2 (rq_Method r = "OPTIONS")) by done.
  destruct (next r ctx w) as [resp w'] eqn:E. cbn [mret M_ret hr_Header hr_Status fst snd].
  split; [|done]. intros v. rewrite <- Hcors, lookup_union, (Hnext _ _ eq_refl).
  by destruct (corsHeaders _ _ !! _).
Qed.
End cors_properties.

Section properties.
Context `{UnicodeCase, UnicodeUpper, PublicKeys, JWT} {laws : JWTLaws}.
Context {St : Type} `{Env}.
Implicit Types (next : HttpHandler (St := St)) (w : World St).

(** ** Tokens *)

Lemma validate_Ok raw opts now p :
  validate raw opts now = Ok p ↔ ∃ c,
    ParseWithClaims (parserOptions opts now) raw (keyFunc opts) = Ok c ∧
    cl_Subject c ≠ "" ∧ p = MkPrincipal (cl_Subject c) (normaliseScope (cl_Scope c)).
Proof.
  unfold validate. destruct (ParseWithClaims _ _ _) as [c|e]; [|naive_solver].
  case_bool_decide; naive_solver.
Qed.

Lemma normaliseScope_cases s :
  normaliseScope s = ScopeRead ∨ normaliseScope s = ScopeWrite ∨ normaliseScope s = ScopeAdmin.
Proof. unfold normaliseScope. repeat case_bool_decide; auto. Qed.

Lemma NewNumericDate_seconds t : (NewNumericDate t mod Second = 0)%Z.
Proof.
  unfold NewNumericDate. rewrite (Z.mod_eq t) by done.
  replace (t - (t - Second * (t / Second)))%Z with ((t / Second) * Second)%Z by lia.
  apply Z.mod_mul. done.
Qed.

Lemma IssueHS256_Ok secret subject audience scope ttl now :
  secret ≠ "" → (0 < ttl)%Z → ∃ tok c,
  IssueHS256 secret subject audience scope ttl now = Ok (tok, (now + ttl)%Z) ∧
  SignHS256 c secret = Ok tok ∧ tok ≠ "" ∧ plain tok = true ∧ whole_seconds c ∧
  c = MkClaims scope subject (if bool_decide (audience = "") then [] else [audience])
    (Some (NewNumericDate now)) (Some (NewNumericDate now)) (Some (NewNumericDate (now + ttl))).
Proof using laws.
  intros Hs Ht. unfold IssueHS256, Add. rewrite bool_decide_eq_false_2 by done.
  rewrite (bool_decide_eq_false_2 (ttl ≤ 0)%Z) by lia.
  match goal with |- context [SignHS256 ?c0 _] => destruct (sign_ok c0 secret) as (tok & Htok & Hne & Hplain) end.
  eexists tok, _. rewrite Htok. split_and!; [done|exact Htok|done|done| |done].
  intros t Ht'. simpl in Ht'. destruct Ht' as [[= <-]|[[= <-]|[= <-]]]; apply NewNumericDate_seconds.
Qed.

Lemma issued_token_validates opts subject scope ttl now now' :
  SigningKey opts ≠ "" → ToUpper (Algorithm opts) ≠ "RS256" → subject ≠ "" → (0 < ttl)%Z →
  (NewNumericDate now ≤ now' < NewNumericDate (now + ttl))%Z → ∃ tok,
  IssueHS256 (SigningKey opts) subject (Audience opts) scope ttl now = Ok (tok, (now + ttl)%Z) ∧
  tok ≠ "" ∧ plain tok = true ∧
  validate tok opts now' = Ok (MkPrincipal subject (normaliseScope scope)).
Proof using laws.
  intros Hk Halg Hsub Httl Hnow.
  destruct (IssueHS256_Ok (SigningKey opts) subject (Audience opts) scope ttl now Hk Httl)
    as (tok & c & Hissue & Hsign & Hne & Hplain & Hsec & Hc).
  exists tok. split; [done|]. split; [done|]. split; [done|]. apply validate_Ok. exists c.
  assert (keyFunc opts = Ok (HMACKey (SigningKey opts))) as ->.
  { unfold keyFunc. by rewrite !bool_decide_eq_false_2. }
  split; [|by subst c].
  apply parse_signed; [done| |done|].
  - simpl. unfold allowedMethods. rewrite bool_decide_eq_false_2 by done. by left.
  - subst c. split_and!; simpl.
    + eexists. split; [done|]. lia.
    + intros nbf [= <-]. lia.
    + intros aud. case_bool_decide; [done|]. intros [= <-]. by left.
Qed.

Lemma bearerToken_header tok : plain tok = true → bearerToken ("Bearer " +:+ tok) = tok.
Proof. intros Ht. unfold bearerToken. simpl. by apply TrimSpace_plain. Qed.

(** ** The gate *)

Lemma time_Now_bind {A} (f : Time → M St A) w :
  (time_Now ≫= f) w = f (UTC (call_now (this_call w))) (tick w).
Proof. done. Qed.

Lemma Auth_cases opts next r ctx w :
  Enabled opts = true → isExempt (rq_Path r) (ExemptPaths opts) = false →
  (bearerToken (rq_Authorization r) = "" ∧
   Auth opts next r ctx w = (writeAuthError StatusUnauthorized "AUTH_MISSING"
     (MText "Authorization: Bearer <token> required"), w)) ∨
  (bearerToken (rq_Authorization r) ≠ "" ∧ ∃ e,
   validate (bearerToken (rq_Authorization r)) opts (UTC (call_now (this_call w))) = Err e ∧
   Auth opts next r ctx w = (writeAuthError StatusUnauthorized "AUTH_INVALID" (MError e), tick w)) ∨
  (∃ p,
   validate (bearerToken (rq_Authorization r)) opts (UTC (call_now (this_call w))) = Ok p ∧
   bearerToken (rq_Authorization r) ≠ "" ∧
   Auth opts next r ctx w = next r (Some p) (tick w)).
Proof.
  intros Hen Hex. unfold Auth. rewrite Hen, Hex. simpl. case_bool_decide as Ht; [by left|].
  right. rewrite !time_Now_bind. destruct (validate _ _ _) as [p|e] eqn:E.
  - right. by exists p.
  - left. split; [done|]. by exists e.
Qed.

(** With authentication enabled, a request to a path that is not exempt
    either carries a bearer token that the verifier accepted (unexpired at
    that moment, for the configured audience, with a subject), in which case
    the handler runs with exactly that principal, or it is answered with
    401, runs no handler and leaves store and events as they were. *)
Theorem auth_gate opts cors next r w :
  Enabled opts = true → isExempt (rq_Path r) (ExemptPaths opts) = false →
  rq_Method r ≠ "OPTIONS" →
  let '(resp, w') := Handler opts cors next r None w in
  (hr_Status resp = StatusUnauthorized ∧ w_store w' = w_store w ∧ w_events w' = w_events w) ∨
  (∃ p c exp resp',
    ParseWithClaims (parserOptions opts (call_now (this_call w)))
      (bearerToken (rq_Authorization r)) (keyFunc opts) = Ok c ∧
    cl_ExpiresAt c = Some exp ∧ (call_now (this_call w) < exp)%Z ∧
    (Audience opts ≠ "" → Audience opts ∈ cl_Audience c) ∧
    Principal_Subject p = cl_Subject c ∧ Principal_Subject p ≠ "" ∧
    next r (Some p) (tick w) = (resp', w') ∧
    hr_Status resp = hr_Status resp' ∧ hr_Body resp = hr_Body resp').
Proof using laws.
  intros Hen Hex Hm. unfold Handler. rewrite CORS_run by done.
  destruct (Auth_cases opts next r None w Hen Hex)
    as [[_ ->]|[(_ & e & _ & ->)|(p & Hp & _ & ->)]]; [by left|by left|].
  destruct (next r (Some p) (tick w)) as [resp' w'] eqn:Hnext. right.
  apply validate_Ok in Hp as (c & Hc & Hsub & ->).
  destruct (parse_sound _ _ _ _ Hc) as [((exp & Hexp & Hlt) & _ & Haud) _].
  exists (MkPrincipal (cl_Subject c) (normaliseScope (cl_Scope c))), c, exp, resp'.
  split_and!; try done. intros Ha. apply Haud. simpl. by rewrite bool_decide_eq_false_2.
Qed.

(** ** Who can get in *)

Lemma clampTTL_range d : (minTTL ≤ clampTTL d ≤ maxTTL)%Z.
Proof. unfold clampTTL, minTTL, maxTTL. repeat case_bool_decide; unfold Hour, Minute, Second in *; lia. Qed.

Lemma requestedTTL_range req : (minTTL ≤ requestedTTL req ≤ maxTTL)%Z.
Proof. unfold requestedTTL. case_match; [apply clampTTL_range|done]. Qed.

(** The lifetime of an issued token lies between one minute and 24 hours
    for every requested number of seconds an int can hold, and is the
    request clamped to that range as long as its nanoseconds fit an int64
    (up to 9223372036 seconds). *)
Theorem issued_lifetime_bounds req n :
  (minTTL ≤ requestedTTL req ≤ maxTTL)%Z ∧
  (atr_TtlSeconds req = Some n → (MinInt64 ≤ n * Second ≤ MaxInt64)%Z →
   requestedTTL req = Z.max minTTL (Z.min maxTTL (n * Second))%Z).
Proof.
  split; [apply requestedTTL_range|]. intros Hn Hr. unfold requestedTTL. rewrite Hn.
  rewrite wrap64_id by done. unfold clampTTL. repeat case_bool_decide;
    unfold minTTL, maxTTL, Hour, Minute, Second in *; lia.
Qed.

(** The product of the requested seconds and a second wraps around before
    it is clamped: asking for 9223372037 seconds (292 years) yields the
    minimum of one minute, not the maximum of 24 hours. *)
Theorem clamp_after_overflow :
  requestedTTL (MkAuthTokenRequest "svc" None (Some 9223372036%Z)) = maxTTL ∧
  requestedTTL (MkAuthTokenRequest "svc" None (Some 9223372037%Z)) = minTTL.
Proof. split; vm_compute; reflexivity. Qed.

Lemma IssueAuthToken_ok auth req (w : World St) :
  SigningKey auth ≠ "" → atr_Subject req ≠ "" → ∃ tok,
  IssueHS256 (SigningKey auth) (atr_Subject req) (Audience auth)
    (default ScopeWrite (atr_Scope req)) (requestedTTL req) (UTC (call_now (this_call w)))
    = Ok (tok, (call_now (this_call w) + requestedTTL req)%Z) ∧
  IssueAuthToken auth (Ok req) w = (MkHttpResponse StatusOK (<["Content-Type" := "application/json"]> ∅)
    (HToken tok (call_now (this_call w) + requestedTTL req)%Z), tick w).
Proof using laws.
  intros Hk Hs. pose proof (requestedTTL_range req) as Hr.
  destruct (IssueHS256_Ok (SigningKey auth) (atr_Subject req) (Audience auth)
    (default ScopeWrite (atr_Scope req)) (requestedTTL req) (UTC (call_now (this_call w))) Hk)
    as (tok & c & Hi & _); [unfold minTTL, Second in *; lia|].
  exists tok. split; [done|]. unfold IssueAuthToken. rewrite !bool_decide_eq_false_2 by done.
  rewrite time_Now_bind, Hi. done.
Qed.

End properties.

(** A POST as a client sends it. *)
Definition post (path authorization body : string) : HttpRequest :=
  MkHttpRequest "POST" path path "" authorization "" None body.

Section token_endpoint.
Context `{UnicodeCase, UnicodeUpper, PublicKeys, JWT, ParamRuntime} {laws : JWTLaws}.
Context {St : Type} `{Env, !Storage St, Semver, SBOMParser}.

Lemma token_route auth body : route_request (post "/v1/auth/token" auth body)
  = Calls OpIssueAuthToken (CallIssueAuthToken (decodeJSON decode_AuthTokenRequest zero_AuthTokenRequest body)).
Proof.
  unfold route_request.
  assert (findHandler api_routes (post "/v1/auth/token" auth body) = MuxHandler OpIssueAuthToken []) as ->
    by (vm_compute; reflexivity).
  done.
Qed.

(** C34: The token endpoint is exempt from authentication, so an anonymous
    client can let itself in: with authentication enabled under a shared
    secret, an unauthenticated POST to /v1/auth/token naming any subject and
    any scope is answered with a token, and any later request that presents
    it before it expires reaches the handler with that subject and scope. *)
Theorem anonymous_client_gets_in opts cors flusher req body (w : World St) :
  Enabled opts = true → SigningKey opts ≠ "" → ToUpper (Algorithm opts) ≠ "RS256" →
  ExemptPaths opts = DefaultExemptPaths →
  decodeJSON decode_AuthTokenRequest zero_AuthTokenRequest body = Ok req → atr_Subject req ≠ "" →
  let now := call_now (this_call w) in
  let chain := ServerHandler opts cors flusher in
  ∃ tok, hr_Body (chain (post "/v1/auth/token" "" body) None w).1 = HToken tok (now + requestedTTL req)%Z ∧
  ∀ r (w2 : World St),
    rq_Authorization r = "Bearer " +:+ tok → rq_Method r ≠ "OPTIONS" →
    isExempt (rq_Path r) (ExemptPaths opts) = false →
    (NewNumericDate now ≤ call_now (this_call w2) < NewNumericDate (now + requestedTTL req))%Z →
    chain r None w2 = CORS cors (λ r _, genHandler opts flusher r
      (Some (MkPrincipal (atr_Subject req) (normaliseScope (default ScopeWrite (atr_Scope req))))))
      r None (tick w2).
Proof using laws.
  intros Hen Hk Halg Hex Hdec Hsub now chain. pose proof (requestedTTL_range req) as Hr.
  destruct (IssueAuthToken_ok opts req w Hk Hsub) as (tok & Hi & Hresp).
  unfold UTC in Hi. fold now in Hi, Hresp. exists tok. split.
  - subst chain. unfold ServerHandler, Handler. rewrite CORS_run by done. unfold Auth. rewrite Hen, Hex.
    cbn [rq_Path post]. change (isExempt "/v1/auth/token" DefaultExemptPaths) with true. cbn [negb orb].
    unfold genHandler. rewrite token_route, Hdec. cbn [dispatch]. by rewrite Hresp.
  - intros r w2 Hauth Hm Hne2 Hnow. subst chain. unfold ServerHandler, Handler. rewrite !CORS_run by done.
    destruct (issued_token_validates opts (atr_Subject req) (default ScopeWrite (atr_Scope req))
      (requestedTTL req) now (call_now (this_call w2)) Hk Halg Hsub) as (tok' & Hi' & Hne & Hplain & Hv).
    { unfold minTTL, Second in *; lia. } { done. }
    rewrite Hi in Hi'. injection Hi' as <-.
    destruct (Auth_cases opts (genHandler opts flusher) r None w2 Hen Hne2)
      as [[Ht _]|[(_ & e & He & _)|(p & Hp & _ & ->)]];
      rewrite Hauth, bearerToken_header in * by done; [done| |].
    + unfold UTC in He. rewrite Hv in He. done.
    + unfold UTC in Hp. rewrite Hv in Hp. by injection Hp as <-.
Qed.
End token_endpoint.

Section scopes.
Context `{UnicodeCase, UnicodeUpper, PublicKeys, JWT} {laws : JWTLaws}.
Context {St : Type} `{Env}.
Implicit Types (next : HttpHandler (St := St)) (w : World St).

(** The scope of a token restricts nothing: with authentication enabled,
    a POST that presents a valid token of scope read reaches the handler of
    the route exactly as one of scope write does; no middleware compares the
    scope with the method or the route. *)
Theorem read_scope_reaches_mutations opts cors next r tok p w :
  Enabled opts = true → isExempt (rq_Path r) (ExemptPaths opts) = false →
  rq_Method r = "POST" → rq_Authorization r = "Bearer " +:+ tok → plain tok = true → tok ≠ "" →
  validate tok opts (call_now (this_call w)) = Ok p → Principal_Scope p = ScopeRead →
  Handler opts cors next r None w = CORS cors (λ r _, next r (Some p)) r None (tick w).
Proof.
  intros Hen Hex Hm Hauth Hpl Hne Hv _. unfold Handler. rewrite !CORS_run by (by rewrite Hm).
  destruct (Auth_cases opts next r None w Hen Hex)
    as [[Ht _]|[(_ & e & He & _)|(p' & Hp & _ & ->)]];
    rewrite Hauth, bearerToken_header in * by done; unfold UTC in *; [done|congruence|].
  by rewrite Hv in Hp; injection Hp as <-.
Qed.

End scopes.

(** ** A JWT package that satisfies the laws

    Its tokens are the decimal digits of a code of the claims and the
    secret. *)

Definition token_code (c : Claims) (secret : string) : positive :=
  countable.encode (cl_Scope c, cl_Subject c, cl_Audience c, cl_IssuedAt c, cl_NotBefore c, cl_ExpiresAt c, secret).

Definition token_decode (tok : string) : option (Claims * string) :=
  match digits_value tok 0 with
  | Some (Z.pos p) =>
      '(scope, subject, aud, iat, nbf, exp, secret) ← countable.decode p;
      Some (MkClaims scope subject aud iat nbf exp, secret)
  | _ => None
  end.

#[local] Instance claims_valid_dec po c : Decision (claims_valid po c).
Proof.
  unfold claims_valid. apply and_dec; [|apply and_dec].
  - destruct (cl_ExpiresAt c) as [exp|].
    + destruct (decide (po_Now po < exp)%Z); [left; eauto|right; naive_solver].
    + right. naive_solver.
  - destruct (cl_NotBefore c) as [nbf|]; [|left; naive_solver].
    destruct (decide (nbf ≤ po_Now po)%Z); [left; naive_solver|right; naive_solver].
  - destruct (po_Audience po) as [aud|]; [|left; naive_solver].
    destruct (decide (aud ∈ cl_Audience c)); [left; naive_solver|right; naive_solver].
Defined.

Definition digit_jwt : JWT := {|
  SignHS256 c secret := Ok (pretty (token_code c secret));
  ParseWithClaims po tok key :=
    match key, token_decode tok with
    | Ok (HMACKey k), Some (c, secret) =>
        if bool_decide (k = secret) && bool_decide ("HS256" ∈ po_Methods po)
           && bool_decide (claims_valid po c)
        then Ok c else Err (EText "token is invalid" [])
    | Err e, _ => Err e
    | _, _ => Err (EText "token is malformed" [])
    end;
|}.

Lemma pretty_positive_plain (p : positive) : plain (pretty p) = true ∧ pretty p ≠ "".
Proof.
  destruct (pretty_N_go_digits (N.pos p) "") as (t & Ht & Hd & _ & Hne).
  change (pretty p) with (pretty_N_go (N.pos p) ""). rewrite Ht, str_app_nil_r. split.
  - clear -Hd. unfold plain. induction t as [|a t IH]; [done|]. simpl in *.
    apply andb_true_iff in Hd as [Ha Hd]. rewrite IH, andb_true_r by done.
    unfold digit in Ha. rewrite !byte_between_spec in *. lia.
  - by destruct Hne as (a & t' & -> & _).
Qed.

Lemma token_decode_code c secret : token_decode (pretty (token_code c secret)) = Some (c, secret).
Proof.
  unfold token_decode. destruct (pretty_positive_digits (token_code c secret)) as (a & t & -> & _ & _ & ->).
  unfold token_code. rewrite decode_encode. simpl. by destruct c.
Qed.

Lemma digit_jwt_laws : @JWTLaws digit_jwt.
Proof.
  split.
  - intros c secret. eexists. split; [done|]. destruct (pretty_positive_plain (token_code c secret)). done.
  - intros c secret tok po [= <-] Hm _ Hv. simpl. rewrite token_decode_code.
    by rewrite !bool_decide_eq_true_2.
  - intros c secret tok po key [= <-] Hm. simpl. destruct key as [[k|k]|e]; [|by eexists..].
    rewrite token_decode_code. rewrite (bool_decide_eq_false_2 ("HS256" ∈ _)) by done.
    rewrite andb_false_r. by eexists.
  - intros po tok key c. simpl. destruct key as [[k|k]|e]; try done.
    destruct (token_decode tok) as [[c' secret]|]; [|done].
    destruct (_ && _) eqn:E; [|done]. intros [= <-]. go_bool. eauto.
Qed.

(** ** Witnesses *)

#[local] Existing Instance digit_jwt.
#[local] Existing Instance digit_jwt_laws.
Definition sample_upper : UnicodeUpper := {| upper_unicode s := s |}.
Definition no_public_keys : PublicKeys :=
  {| pem_Decode _ := None; ParsePKIXPublicKey _ := Err (EText "no key" []) |}.
#[local] Existing Instance sample_upper.
#[local] Existing Instance npm_parser.
#[local] Existing Instance sample_runtime.
#[local] Existing Instance no_public_keys.

Definition sample_auth : AuthOptions := MkAuthOptions true "s3cret" "HS256" "rampart" DefaultExemptPaths.
Definition sample_routes : HttpHandler (St := Store) := λ _ p,
  mret (MkHttpResponse (if p is Some _ then StatusOK else StatusNotFound) ∅ HNone).
Definition sample_http (auth : string) : HttpRequest :=
  MkHttpRequest "POST" "/v1/iocs" "/v1/iocs" "" auth "https://backstage.example" None "".
Definition sample_token_request : AuthTokenRequest := MkAuthTokenRequest "mallory" (Some "admin") None.

Lemma auth_gate_witness :
  isExempt "/v1/iocs" (ExemptPaths sample_auth) = false ∧
  let '(resp, w') := Handler sample_auth DefaultCORSOptions sample_routes (sample_http "") None sample_world in
  (hr_Status resp = StatusUnauthorized ∧ w_store w' = sample_store ∧ w_events w' = []) ∨
  (∃ p c exp resp',
    ParseWithClaims (parserOptions sample_auth (call_now (this_call sample_world)))
      (bearerToken "") (keyFunc sample_auth) = Ok c ∧
    cl_ExpiresAt c = Some exp ∧ (call_now (this_call sample_world) < exp)%Z ∧
    (Audience sample_auth ≠ "" → Audience sample_auth ∈ cl_Audience c) ∧
    Principal_Subject p = cl_Subject c ∧ Principal_Subject p ≠ "" ∧
    sample_routes (sample_http "") (Some p) (tick sample_world) = (resp', w') ∧
    hr_Status resp = hr_Status resp' ∧ hr_Body resp = hr_Body resp').
Proof.
  split; [done|]. apply (auth_gate sample_auth DefaultCORSOptions sample_routes (sample_http "") sample_world); done.
Defined.

Lemma issued_lifetime_bounds_witness :
  (minTTL ≤ requestedTTL sample_token_request ≤ maxTTL)%Z ∧
  requestedTTL (MkAuthTokenRequest "svc" None (Some 90%Z)) = (90 * Second)%Z.
Proof.
  split; [exact (proj1 (issued_lifetime_bounds sample_token_request 0))|].
  rewrite (proj2 (issued_lifetime_bounds (MkAuthTokenRequest "svc" None (Some 90%Z)) 90) eq_refl);
    [vm_compute; reflexivity|split; vm_compute; discriminate].
Defined.

Definition sample_token_body : string :=
  encode (JObject [("subject", JString "mallory"); ("scope", JString "admin")]).

Definition sample_list (auth : string) : HttpRequest :=
  MkHttpRequest "GET" "/v1/components" "/v1/components" "" auth "" None "".

Lemma anonymous_client_gets_in_witness :
  let chain := ServerHandler sample_auth DefaultCORSOptions true in
  ∃ tok, hr_Body (chain (post "/v1/auth/token" "" sample_token_body) None sample_world).1
    = HToken tok (100 + 3600 * Second)%Z ∧
  hr_Status (chain (sample_list ("Bearer " +:+ tok)) None (tick sample_world)).1 = StatusOK.
Proof.
  destruct (anonymous_client_gets_in sample_auth DefaultCORSOptions true sample_token_request
    sample_token_body sample_world) as (tok & Htok & Hin); [done..|vm_compute; reflexivity|done|].
  exists tok. split; [exact Htok|].
  cbv zeta. specialize (Hin (sample_list ("Bearer " +:+ tok)) (tick sample_world) eq_refl).
  rewrite Hin; [reflexivity|discriminate|reflexivity|].
  split; vm_compute; congruence.
Defined.

Lemma read_scope_reaches_mutations_witness :
  ∃ tok p, validate tok sample_auth (call_now (this_call sample_world)) = Ok p ∧
  Principal_Scope p = ScopeRead ∧
  Handler sample_auth DefaultCORSOptions sample_routes (sample_http ("Bearer " +:+ tok)) None sample_world
  = CORS DefaultCORSOptions (λ r _, sample_routes r (Some p)) (sample_http ("Bearer " +:+ tok)) None
      (tick sample_world).
Proof.
  destruct (issued_token_validates sample_auth "bob" "read" Hour 100 100) as (tok & _ & Hne & Hpl & Hv);
    [done..|vm_compute; done|].
  exists tok, (MkPrincipal "bob" (normaliseScope "read")). split; [exact Hv|]. split; [done|].
  eapply (read_scope_reaches_mutations sample_auth DefaultCORSOptions sample_routes
    (sample_http ("Bearer " +:+ tok)) tok); done.
Defined.

Lemma cors_allows_exactly_witness :
  let '(resp, w') := CORS DefaultCORSOptions sample_routes (sample_http "") None sample_world in
  hr_Header resp !! "Access-Control-Allow-Origin" = Some "https://backstage.example" ∧
  w' = sample_world.
Proof.
  destruct (cors_allows_exactly DefaultCORSOptions sample_routes (sample_http "") None sample_world)
    as [H1 [_ H2]].
  - intros resp w' [= <- <-]. done.
  - split; [apply H1; left; done|exact H2].
Defined.
