(* ===== verification/HttpApi.v ===== *)
(** * The API as a whole: CORS, authentication, routing, operations

    [Server.Handler] composed of its parts, and what holds of the
    composition: the exemptions of the authentication middleware are tested
    against the unescaped path of the URL, the multiplexer matches the
    escaped one segment by segment, and the two agree on what is public. *)

From S2P Require Import Prelude GoStrings GoText Json JsonEncode GoURL GoMux GoTime Domain Bus GoJson Storage MemoryStore Wire ApiBodies Engine Matcher Samples Handlers EngineInvariant Stream Router Auth.
From stdpp Require Import options.

(** ** Exempt paths *)





(** ** Without a token *)


Section chain.
Context `{UnicodeCase, UnicodeUpper, PublicKeys, JWT, ParamRuntime} {laws : JWTLaws}.
Context {St : Type} `{Env, !Storage St, Semver, SBOMParser}.
Implicit Types (w : World St).






End chain.

(** ** Witness: an escaped path that reads as an exempt one, and is not *)

#[local] Existing Instance digit_jwt.
#[local] Existing Instance digit_jwt_laws.
#[local] Existing Instance sample_upper.
#[local] Existing Instance no_public_keys.
#[local] Existing Instance npm_parser.
#[local] Existing Instance sample_runtime.


