(* ===== verification/Native.v ===== *)
(** * The native parser client

    src/engine/internal/ingestion/native/client.go: length-prefixed frames
    over a Unix socket to the Rust sidecar, and the sidecar's half of the
    protocol (src/native/crates/rampart-native/src/protocol.rs), so that the
    two can be composed. Bytes are strings, lengths are integers, and the
    32-bit conversions wrap around as the code's do; a slice expression out
    of range is a panic, [None]. The socket is a parameter: whether dialling
    and writing succeed and which bytes can be read back. *)

From S2P Require Import Prelude GoStrings GoText Json JsonEncode Domain Storage Sbom SbomNpm.
From stdpp Require Import options.

Open Scope Z_scope.

Definition slen (s : string) : Z := Z.of_nat (String.length s).

(** ** encoding/binary *)

Definition u32 (z : Z) : Z := z mod 2 ^ 32.

Definition byte_of (z : Z) : ascii := ascii_of_N (Z.to_N (z mod 256)).

(** [binary.BigEndian.AppendUint32] of a value converted to uint32. *)
Definition be32 (z : Z) : string :=
  let n := u32 z in
  byte4 (byte_of (n / 2 ^ 24)) (byte_of (n / 2 ^ 16)) (byte_of (n / 2 ^ 8)) (byte_of n).

Definition byte_val (a : ascii) : Z := Z.of_N (N_of_ascii a).

(** [binary.BigEndian.Uint32] of the first four bytes; it panics on fewer. *)
Definition uint32_be (s : string) : option Z :=
  match s with
  | String a (String b (String c (String d _))) =>
      Some (((byte_val a * 256 + byte_val b) * 256 + byte_val c) * 256 + byte_val d)
  | _ => None
  end.

(** The slice expression [s[i:j]]. *)
Definition slice (s : string) (i j : Z) : option string :=
  if bool_decide (0 ≤ i ≤ j) && bool_decide (j ≤ slen s)
  then Some (str_take (Z.to_nat (j - i)) (str_drop (Z.to_nat i) s)) else None.

(** ** client.go *)

Definition MaxFrameBytes : Z := 100 * 1024 * 1024.

Definition msgParseRequest : ascii := byte_of 1.
Definition msgParseResult : ascii := byte_of 2.
Definition msgError : ascii := byte_of 3.
Definition msgParseGomodRequest : ascii := byte_of 6.
Definition msgParseCargoRequest : ascii := byte_of 7.
Definition msgPong : ascii := byte_of 254.
Definition msgPing : ascii := byte_of 255.

(** The socket: [None] when dialling fails; the answer to a frame is [None]
    when writing fails, and else the bytes that can be read. *)
Definition Socket : Type := option (string → option string).

(** [io.ReadFull] of [n] bytes: the bytes and what follows, or an error. *)
Definition ReadFull (n : Z) (stream : string) : option (string * string) :=
  if bool_decide (n ≤ slen stream)
  then Some (str_take (Z.to_nat n) stream, str_drop (Z.to_nat n) stream) else None.

Definition roundTrip (sock : Socket) (frame : string) : result string :=
  match sock with
  | None => Err (EWrap "%w: %s: %v" [] (ESentinel native_ErrNativeUnavailable))
  | Some peer =>
      match peer frame with
      | None => Err (EText "write request frame: %w" [])
      | Some stream =>
          match ReadFull 4 stream with
          | None => Err (EText "read response header: %w" [])
          | Some (header, stream) =>
              let respLen := default 0 (uint32_be header) in
              if bool_decide (respLen = 0) || bool_decide (MaxFrameBytes < respLen) then
                Err (EText "response frame %d out of range [1, %d]" [pretty respLen])
              else match ReadFull respLen stream with
                   | None => Err (EText "read response body: %w" [])
                   | Some (body, _) => Ok body
                   end
          end
      end
  end.

Definition malformed (text : string) : error := EWrap text [] (ESentinel native_ErrMalformedResponse).

Definition Client_Ping (sock : Socket) : option error :=
  match roundTrip sock (be32 1 +:+ byte1 msgPing) with
  | Err e => Some e
  | Ok resp => if bool_decide (resp = byte1 msgPong) then None
               else Some (malformed "%w: expected pong (single 0x%X byte), got %v")
  end.

(** *** Decoding a ParsedSBOM *)

Definition zero_PackageVersion : PackageVersion := MkPackageVersion "" "" "" "" [] "".
Definition zero_ParsedSBOM : ParsedSBOM := MkParsedSBOM "" [] "" 0.

Definition set_PackageVersion (name : string) (p : PackageVersion) (v : json) : option PackageVersion :=
  match p with
  | MkPackageVersion eco nm ver purl scope integ =>
      if String.eqb name "Ecosystem" then x ← decode_string eco v; Some (MkPackageVersion x nm ver purl scope integ)
      else if String.eqb name "Name" then x ← decode_string nm v; Some (MkPackageVersion eco x ver purl scope integ)
      else if String.eqb name "Version" then x ← decode_string ver v; Some (MkPackageVersion eco nm x purl scope integ)
      else if String.eqb name "PURL" then x ← decode_string purl v; Some (MkPackageVersion eco nm ver x scope integ)
      else if String.eqb name "Scope" then
        x ← decode_slice decode_string "" scope v; Some (MkPackageVersion eco nm ver purl x integ)
      else x ← decode_string integ v; Some (MkPackageVersion eco nm ver purl scope x)
  end.

Definition decode_PackageVersion : PackageVersion → json → option PackageVersion :=
  decode_struct ["Ecosystem"; "Name"; "Version"; "PURL"; "Scope"; "Integrity"] set_PackageVersion.

Definition set_ParsedSBOM (name : string) (p : ParsedSBOM) (v : json) : option ParsedSBOM :=
  match p with
  | MkParsedSBOM eco pkgs fmt nbytes =>
      if String.eqb name "Ecosystem" then x ← decode_string eco v; Some (MkParsedSBOM x pkgs fmt nbytes)
      else if String.eqb name "Packages" then
        x ← decode_slice decode_PackageVersion zero_PackageVersion pkgs v; Some (MkParsedSBOM eco x fmt nbytes)
      else if String.eqb name "SourceFormat" then x ← decode_string fmt v; Some (MkParsedSBOM eco pkgs x nbytes)
      else x ← decode_int nbytes v; Some (MkParsedSBOM eco pkgs fmt x)
  end.

Definition decode_ParsedSBOM : ParsedSBOM → json → option ParsedSBOM :=
  decode_struct ["Ecosystem"; "Packages"; "SourceFormat"; "SourceBytes"] set_ParsedSBOM.

(** *** Responses *)

Definition decodeParseResult (rest : string) : option (result ParsedSBOM) :=
  if bool_decide (slen rest < 4) then
    Some (Err (malformed "%w: parse_result truncated at sbom length prefix"))
  else
    prefix ← slice rest 0 4; sbomLen ← uint32_be prefix;
    if bool_decide (sbomLen + 4 ≠ slen rest) then
      Some (Err (malformed "%w: parse_result inner length (%d) does not match remaining (%d)"))
    else
      payload ← slice rest 4 (slen rest);
      Some (match Unmarshal decode_ParsedSBOM zero_ParsedSBOM payload with
            | Err _ => Err (malformed "%w: decode parsed_sbom: %v")
            | Ok p => Ok p
            end).

Definition classifyRemoteError (code message : string) : error :=
  let base := EWrap "%w: [%s] %s" [code; message] (ESentinel native_ErrRemoteError) in
  if String.eqb code "MALFORMED_LOCKFILE" then
    EWrap2 "%w: %s: %w" [message] (ESentinel native_ErrMalformedLockfile) base
  else if String.eqb code "UNSUPPORTED_LOCKFILE_VERSION" then
    EWrap2 "%w: %s: %w" [message] (ESentinel native_ErrUnsupportedLockfileVersion) base
  else if String.eqb code "EMPTY_LOCKFILE" then
    EWrap2 "%w: %s: %w" [message] (ESentinel native_ErrEmptyLockfile) base
  else base.

(** [4+codeLen] in [rest[4 : 4+codeLen]] is a sum of uint32 values. *)
Definition decodeErrorFrame (rest : string) : option error :=
  if bool_decide (slen rest < 4) then Some (malformed "%w: error frame truncated at code length")
  else
    prefix ← slice rest 0 4; codeLen ← uint32_be prefix;
    if bool_decide (slen rest < 4 + codeLen) then Some (malformed "%w: error code overruns frame")
    else
      code ← slice rest 4 (u32 (4 + codeLen));
      let after := 4 + codeLen in
      if bool_decide (slen rest < after + 4) then
        Some (malformed "%w: error frame truncated at message length")
      else
        prefix ← slice rest after (after + 4); msgLen ← uint32_be prefix;
        if bool_decide (after + 4 + msgLen ≠ slen rest) then
          Some (malformed "%w: error message overruns or underruns frame")
        else
          message ← slice rest (after + 4) (after + 4 + msgLen);
          Some (classifyRemoteError code message).

(** The half after the round trip, shared by all parse opcodes. *)
Definition parseDispatch (sock : Socket) (frame : string) : option (result ParsedSBOM) :=
  match roundTrip sock frame with
  | Err e => Some (Err e)
  | Ok "" => Some (Err (malformed "%w: empty response body"))
  | Ok (String opcode rest) =>
      if bool_decide (opcode = msgParseResult) then decodeParseResult rest
      else if bool_decide (opcode = msgError) then Err <$> decodeErrorFrame rest
      else Some (Err (malformed "%w: unexpected opcode 0x%X"))
  end.

Definition tooBig (bodyLen : Z) : error :=
  EText "request body %d exceeds MaxFrameBytes %d" [pretty bodyLen].

Definition npmFrame (content : string) : string :=
  be32 (1 + 4 + slen content + 4) +:+ byte1 msgParseRequest
  +:+ be32 (slen content) +:+ content +:+ be32 0.

Definition Client_ParseNPMLockfile (sock : Socket) (content : string) : option (result ParsedSBOM) :=
  let bodyLen := 1 + 4 + slen content + 4 in
  if bool_decide (MaxFrameBytes < bodyLen) then Some (Err (tooBig bodyLen))
  else if bool_decide (bodyLen < 0) then
    Some (Err (EText "negative bodyLen — invariant violation" []))
  else parseDispatch sock (npmFrame content).

Definition gomodFrame (gosum gomod : string) : string :=
  be32 (1 + 4 + slen gosum + 4 + slen gomod) +:+ byte1 msgParseGomodRequest
  +:+ be32 (slen gosum) +:+ gosum +:+ be32 (slen gomod) +:+ gomod.

Definition Client_ParseGoModule (sock : Socket) (gosum gomod : string) : option (result ParsedSBOM) :=
  let bodyLen := 1 + 4 + slen gosum + 4 + slen gomod in
  if bool_decide (MaxFrameBytes < bodyLen) then Some (Err (tooBig bodyLen))
  else parseDispatch sock (gomodFrame gosum gomod).

Definition cargoFrame (content : string) : string :=
  be32 (1 + 4 + slen content) +:+ byte1 msgParseCargoRequest +:+ be32 (slen content) +:+ content.

Definition Client_ParseCargo (sock : Socket) (content : string) : option (result ParsedSBOM) :=
  let bodyLen := 1 + 4 + slen content in
  if bool_decide (MaxFrameBytes < bodyLen) then Some (Err (tooBig bodyLen))
  else parseDispatch sock (cargoFrame content).

(** ** protocol.rs: the sidecar *)

Inductive Request :=
  | ParseNpm (content reserved_metadata : string)
  | ParseGomod (gosum gomod : string)
  | ParseCargo (content : string)
  | RPing.

Inductive DecodeError := EmptyBody | Truncated | TrailingBytes | UnknownOpcode (opcode : ascii).

Definition read_length_prefixed (rest : string) : DecodeError + (string * string) :=
  match uint32_be rest with
  | None => inl Truncated
  | Some len =>
      let after_prefix := str_drop 4 rest in
      if bool_decide (slen after_prefix < len) then inl Truncated
      else inr (str_take (Z.to_nat len) after_prefix, str_drop (Z.to_nat len) after_prefix)
  end.

Definition two_fields (k : string → string → Request) (rest : string) : DecodeError + Request :=
  match read_length_prefixed rest with
  | inl e => inl e
  | inr (x, rest) =>
      match read_length_prefixed rest with
      | inl e => inl e
      | inr (y, rest) => if bool_decide (rest = "") then inr (k x y) else inl TrailingBytes
      end
  end.

Definition decode_request_body (body : string) : DecodeError + Request :=
  match body with
  | "" => inl EmptyBody
  | String opcode rest =>
      if bool_decide (opcode = msgParseRequest) then two_fields ParseNpm rest
      else if bool_decide (opcode = msgParseGomodRequest) then two_fields ParseGomod rest
      else if bool_decide (opcode = msgParseCargoRequest) then
        match read_length_prefixed rest with
        | inl e => inl e
        | inr (x, rest) => if bool_decide (rest = "") then inr (ParseCargo x) else inl TrailingBytes
        end
      else if bool_decide (opcode = msgPing) then
        if bool_decide (rest = "") then inr RPing else inl TrailingBytes
      else inl (UnknownOpcode opcode)
  end.

Definition encode_parse_result (sbom_json : string) : string :=
  be32 (1 + 4 + slen sbom_json) +:+ byte1 msgParseResult +:+ be32 (slen sbom_json) +:+ sbom_json.

Definition encode_error (code message : string) : string :=
  be32 (1 + 4 + slen code + 4 + slen message) +:+ byte1 msgError
  +:+ be32 (slen code) +:+ code +:+ be32 (slen message) +:+ message.

Definition encode_pong : string := be32 1 +:+ byte1 msgPong.

(** *** ipc.rs *)

(** What a parser of the sidecar fails with, and its message. *)
Inductive ParseError := PEMalformed (msg : string) | PEUnsupportedVersion (msg : string) | PEEmpty (msg : string).

Definition error_code (e : ParseError) : string :=
  match e with
  | PEMalformed _ => "MALFORMED_LOCKFILE"
  | PEUnsupportedVersion _ => "UNSUPPORTED_LOCKFILE_VERSION"
  | PEEmpty _ => "EMPTY_LOCKFILE"
  end.

Definition error_message (e : ParseError) : string :=
  match e with PEMalformed m | PEUnsupportedVersion m | PEEmpty m => m end.

(** The sidecar's parsers and serialiser (the serde_json crate), with the
    texts of its decoding errors. *)
Class SidecarParsers := {
  rs_npm : string → ParseError + ParsedSBOM;
  rs_gomod : string → string → ParseError + ParsedSBOM;
  rs_cargo : string → ParseError + ParsedSBOM;
  to_vec : ParsedSBOM → string;
  decode_error_text : DecodeError → string;
}.

Section sidecar.
Context `{SidecarParsers}.

Definition dispatch_parse (r : ParseError + ParsedSBOM) : string :=
  match r with
  | inr p => encode_parse_result (to_vec p)
  | inl e => encode_error (error_code e) (error_message e)
  end.

Definition handle_body (body : string) : string :=
  match decode_request_body body with
  | inl e => encode_error "MALFORMED_REQUEST" ("request decode failed: " +:+ decode_error_text e)
  | inr RPing => encode_pong
  | inr (ParseNpm content _) => dispatch_parse (rs_npm content)
  | inr (ParseGomod gosum gomod) => dispatch_parse (rs_gomod gosum gomod)
  | inr (ParseCargo content) => dispatch_parse (rs_cargo content)
  end.

(** [read_frame] on what the client wrote: [None] closes the connection. *)
Definition read_frame (stream : string) : option string :=
  '(header, stream) ← ReadFull 4 stream;
  len ← uint32_be header;
  if bool_decide (len = 0) || bool_decide (MaxFrameBytes < len) then None
  else fst <$> ReadFull len stream.

(** A connection to a running sidecar. *)
Definition sidecar : Socket := Some (λ frame, Some (from_option handle_body "" (read_frame frame))).
End sidecar.

(** ** The JSON of a ParsedSBOM: the fields of the structs in order *)

Definition scope_json (l : list string) : json := if bool_decide (l = []) then JNull else json_strings l.

Definition package_json (p : PackageVersion) : json := JObject [
  ("Ecosystem", JString (PackageVersion_Ecosystem p));
  ("Name", JString (PackageVersion_Name p));
  ("Version", JString (PackageVersion_Version p));
  ("PURL", JString (PackageVersion_PURL p));
  ("Scope", scope_json (PackageVersion_Scope p));
  ("Integrity", JString (PackageVersion_Integrity p))].

Definition parsed_json (p : ParsedSBOM) : json := JObject [
  ("Ecosystem", JString (ParsedSBOM_Ecosystem p));
  ("Packages", JArray (package_json <$> ParsedSBOM_Packages p));
  ("SourceFormat", JString (ParsedSBOM_SourceFormat p));
  ("SourceBytes", json_int (ParsedSBOM_SourceBytes p))].

(** * Properties *)

(** ** Big-endian lengths *)

Lemma byte_val_of z : byte_val (byte_of z) = z mod 256.
Proof.
  unfold byte_val, byte_of. pose proof (Z.mod_pos_bound z 256 ltac:(done)).
  rewrite N_ascii_embedding by lia. lia.
Qed.

Lemma byte_val_range a : 0 ≤ byte_val a < 256.
Proof. unfold byte_val. pose proof (N_ascii_bounded a). lia. Qed.

Lemma uint32_be_be32 z rest : 0 ≤ z < 2 ^ 32 → uint32_be (be32 z +:+ rest) = Some z.
Proof.
  intros Hz. unfold be32, u32. rewrite (Z.mod_small z) by lia.
  unfold byte4, byte3, byte2, byte1. rewrite !string_app_cons. cbn [uint32_be].
  rewrite !byte_val_of. f_equal. change (2 ^ 24) with (256 * (256 * 256)).
  change (2 ^ 16) with (256 * 256). change (2 ^ 8) with 256.
  rewrite <- !Z.div_div by lia.
  pose proof (Z.div_mod z 256). pose proof (Z.div_mod (z / 256) 256).
  pose proof (Z.div_mod (z / 256 / 256) 256).
  assert (0 ≤ z / 256 / 256 / 256 < 256) by (Z.to_euclidean_division_equations; lia).
  rewrite (Z.mod_small (z / 256 / 256 / 256)) by lia. lia.
Qed.

Lemma uint32_be_range s n : uint32_be s = Some n → 0 ≤ n < 2 ^ 32.
Proof.
  destruct s as [|a [|b [|c [|d s]]]]; try done. cbn [uint32_be]. intros [= <-].
  pose proof (byte_val_range a). pose proof (byte_val_range b).
  pose proof (byte_val_range c). pose proof (byte_val_range d). lia.
Qed.

Lemma slen_app s t : slen (s +:+ t) = slen s + slen t.
Proof. unfold slen. rewrite str_length_app. lia. Qed.

Lemma slen_nonneg s : 0 ≤ slen s.
Proof. unfold slen. lia. Qed.

Lemma slen_be32 z : slen (be32 z) = 4.
Proof. done. Qed.

Lemma uint32_be_some s : 4 ≤ slen s → is_Some (uint32_be s).
Proof. destruct s as [|a [|b [|c [|d s]]]]; unfold slen; simpl; try lia. done. Qed.

Lemma ReadFull_app n a b : slen a = n → ReadFull n (a +:+ b) = Some (a, b).
Proof.
  intros <-. unfold ReadFull. rewrite slen_app. pose proof (slen_nonneg b).
  rewrite bool_decide_eq_true_2 by lia. unfold slen. rewrite Nat2Z.id.
  by rewrite str_take_app, str_drop_app.
Qed.

Lemma slice_app a b c : slice (a +:+ b +:+ c) (slen a) (slen a + slen b) = Some b.
Proof.
  unfold slice. rewrite !slen_app. pose proof (slen_nonneg a). pose proof (slen_nonneg b).
  pose proof (slen_nonneg c). rewrite !bool_decide_eq_true_2 by lia. simpl.
  replace (slen a + slen b - slen a) with (slen b) by lia. unfold slen. rewrite !Nat2Z.id.
  by rewrite str_drop_app, str_take_app.
Qed.

Lemma str_length_take n s : String.length (str_take n s) = Nat.min n (String.length s).
Proof. revert n. induction s as [|a s IH]; intros [|n]; simpl; auto. Qed.

Lemma str_length_drop n s : String.length (str_drop n s) = (String.length s - n)%nat.
Proof. revert n. induction s as [|a s IH]; intros [|n]; simpl; auto. Qed.

Lemma slice_in_range s i j :
  0 ≤ i ≤ j → j ≤ slen s → ∃ t, slice s i j = Some t ∧ slen t = j - i.
Proof.
  intros Hij Hj. unfold slice. rewrite !bool_decide_eq_true_2 by lia. eexists. split; [done|].
  unfold slen in *. rewrite str_length_take, str_length_drop. lia.
Qed.

(** ** No response can make the client panic *)

Lemma ReadFull_length n s t u : 0 ≤ n → ReadFull n s = Some (t, u) → slen t = n.
Proof.
  intros Hn. unfold ReadFull. case_bool_decide as Hle; [|done]. intros [= <- _].
  unfold slen in *. rewrite str_length_take. lia.
Qed.

Lemma roundTrip_length sock frame body :
  roundTrip sock frame = Ok body → 1 ≤ slen body ≤ MaxFrameBytes.
Proof.
  unfold roundTrip. destruct sock as [peer|]; [|done]. destruct (peer frame) as [stream|]; [|done].
  destruct (ReadFull 4 stream) as [[header rest]|] eqn:Eh; [|done].
  apply ReadFull_length in Eh; [|done].
  destruct (uint32_be_some header) as [n Hn]; [lia|]. rewrite Hn. simpl.
  pose proof (uint32_be_range _ _ Hn).
  repeat case_bool_decide; try done. simpl.
  destruct (ReadFull n rest) as [[b u]|] eqn:Eb; [|done]. intros [= <-].
  apply ReadFull_length in Eb; lia.
Qed.

Lemma decodeParseResult_total rest : is_Some (decodeParseResult rest).
Proof.
  unfold decodeParseResult. case_bool_decide; [done|].
  destruct (slice_in_range rest 0 4) as (p & -> & Hp); [lia..|]. cbn [mbind option_bind].
  destruct (uint32_be_some p) as [n Hn]; [lia|]. rewrite Hn. cbn [mbind option_bind].
  case_bool_decide; [done|].
  destruct (slice_in_range rest 4 (slen rest)) as (q & -> & _); [lia..|]. done.
Qed.

Lemma decodeErrorFrame_total rest : slen rest ≤ MaxFrameBytes → is_Some (decodeErrorFrame rest).
Proof.
  unfold MaxFrameBytes. intros Hmax. unfold decodeErrorFrame. case_bool_decide; [done|].
  destruct (slice_in_range rest 0 4) as (p & -> & Hp); [lia..|]. cbn [mbind option_bind].
  destruct (uint32_be_some p) as [n Hn]; [lia|]. rewrite Hn. cbn [mbind option_bind].
  pose proof (uint32_be_range _ _ Hn). case_bool_decide; [done|].
  assert (u32 (4 + n) = 4 + n) as -> by (apply Z.mod_small; lia).
  destruct (slice_in_range rest 4 (4 + n)) as (c & -> & _); [lia..|]. cbn [mbind option_bind].
  case_bool_decide; [done|].
  destruct (slice_in_range rest (4 + n) (4 + n + 4)) as (p2 & -> & Hp2); [lia..|]. cbn [mbind option_bind].
  destruct (uint32_be_some p2) as [m Hm]; [lia|]. rewrite Hm. cbn [mbind option_bind].
  pose proof (uint32_be_range _ _ Hm). case_bool_decide; [done|].
  destruct (slice_in_range rest (4 + n + 4) (4 + n + 4 + m)) as (s & -> & _); [lia..|]. done.
Qed.

Lemma parseDispatch_total sock frame : is_Some (parseDispatch sock frame).
Proof.
  unfold parseDispatch. destruct (roundTrip sock frame) as [body|] eqn:E; [|done].
  apply roundTrip_length in E. destruct body as [|op rest]; [done|].
  assert (slen rest ≤ MaxFrameBytes) as Hr by (unfold slen in *; simpl in *; lia).
  case_bool_decide; [apply decodeParseResult_total|]. case_bool_decide; [|done].
  destruct (decodeErrorFrame_total rest Hr) as [e ->]. done.
Qed.

(** C27: No sidecar, however broken or hostile, can make the client panic:
    whatever bytes come back (truncated, overlong, with inner lengths that
    lie, with lengths near the 32-bit limit), each of the three parse calls
    returns a value or an error. *)
Theorem native_client_never_panics sock content gomod :
  is_Some (Client_ParseNPMLockfile sock content) ∧
  is_Some (Client_ParseGoModule sock content gomod) ∧
  is_Some (Client_ParseCargo sock content).
Proof.
  unfold Client_ParseNPMLockfile, Client_ParseGoModule, Client_ParseCargo.
  split_and!; repeat case_bool_decide; try done; apply parseDispatch_total.
Qed.

(** ** The two halves of the protocol fit *)

Lemma read_length_prefixed_app x rest :
  slen x < 2 ^ 32 → read_length_prefixed (be32 (slen x) +:+ x +:+ rest) = inr (x, rest).
Proof.
  intros Hx. unfold read_length_prefixed. pose proof (slen_nonneg x).
  rewrite uint32_be_be32 by lia.
  change (str_drop 4 (be32 (slen x) +:+ x +:+ rest)) with (x +:+ rest).
  rewrite slen_app. pose proof (slen_nonneg rest). rewrite bool_decide_eq_false_2 by lia.
  unfold slen. rewrite Nat2Z.id. by rewrite str_take_app, str_drop_app.
Qed.

Lemma read_length_prefixed_last x :
  slen x < 2 ^ 32 → read_length_prefixed (be32 (slen x) +:+ x) = inr (x, "").
Proof. intros Hx. rewrite <- (str_app_nil_r x) at 2. by apply read_length_prefixed_app. Qed.

Lemma read_frame_framed body :
  1 ≤ slen body ≤ MaxFrameBytes → read_frame (be32 (slen body) +:+ body) = Some body.
Proof.
  unfold MaxFrameBytes. intros Hb. unfold read_frame.
  rewrite (ReadFull_app 4) by apply slen_be32. cbn [mbind option_bind].
  rewrite <- (str_app_nil_r (be32 (slen body))), uint32_be_be32 by lia. cbn [mbind option_bind].
  rewrite !bool_decide_eq_false_2 by (unfold MaxFrameBytes; lia). simpl.
  rewrite <- (str_app_nil_r body) at 2. by rewrite ReadFull_app.
Qed.

Lemma roundTrip_framed peer frame body :
  peer frame = Some (be32 (slen body) +:+ body) → 1 ≤ slen body ≤ MaxFrameBytes →
  roundTrip (Some peer) frame = Ok body.
Proof.
  unfold MaxFrameBytes. intros Hp Hb. unfold roundTrip. rewrite Hp.
  rewrite (ReadFull_app 4) by apply slen_be32.
  rewrite <- (str_app_nil_r (be32 (slen body))), uint32_be_be32 by lia. simpl.
  rewrite !bool_decide_eq_false_2 by (unfold MaxFrameBytes; lia). simpl.
  rewrite <- (str_app_nil_r body) at 2. by rewrite ReadFull_app.
Qed.

(** Every frame is the length of its body, then the body. *)
Lemma npmFrame_framed content :
  let body := byte1 msgParseRequest +:+ be32 (slen content) +:+ content +:+ be32 0 in
  npmFrame content = be32 (slen body) +:+ body ∧ slen body = 1 + 4 + slen content + 4.
Proof.
  cbv zeta. assert (slen (byte1 msgParseRequest +:+ be32 (slen content) +:+ content +:+ be32 0)
    = 1 + 4 + slen content + 4) as ->; [|done].
  rewrite !slen_app, !slen_be32. change (slen (byte1 _)) with 1. lia.
Qed.

Lemma gomodFrame_framed gosum gomod :
  let body := byte1 msgParseGomodRequest
    +:+ be32 (slen gosum) +:+ gosum +:+ be32 (slen gomod) +:+ gomod in
  gomodFrame gosum gomod = be32 (slen body) +:+ body ∧
  slen body = 1 + 4 + slen gosum + 4 + slen gomod.
Proof.
  cbv zeta. assert (slen (byte1 msgParseGomodRequest
    +:+ be32 (slen gosum) +:+ gosum +:+ be32 (slen gomod) +:+ gomod)
    = 1 + 4 + slen gosum + 4 + slen gomod) as ->; [|done].
  rewrite !slen_app, !slen_be32. change (slen (byte1 _)) with 1. lia.
Qed.

Lemma cargoFrame_framed content :
  let body := byte1 msgParseCargoRequest +:+ be32 (slen content) +:+ content in
  cargoFrame content = be32 (slen body) +:+ body ∧ slen body = 1 + 4 + slen content.
Proof.
  cbv zeta. assert (slen (byte1 msgParseCargoRequest +:+ be32 (slen content) +:+ content)
    = 1 + 4 + slen content) as ->; [|done].
  rewrite !slen_app, !slen_be32. change (slen (byte1 _)) with 1. lia.
Qed.

(** The requests as the sidecar sees them. *)
Lemma wire_requests content gomod :
  (9 + slen content + slen gomod ≤ MaxFrameBytes) →
  decode_request_body <$> read_frame (npmFrame content) = Some (inr (ParseNpm content "")) ∧
  decode_request_body <$> read_frame (gomodFrame content gomod) = Some (inr (ParseGomod content gomod)) ∧
  decode_request_body <$> read_frame (cargoFrame content) = Some (inr (ParseCargo content)) ∧
  decode_request_body <$> read_frame (be32 1 +:+ byte1 msgPing) = Some (inr RPing).
Proof.
  intros Hlen. pose proof (slen_nonneg content). pose proof (slen_nonneg gomod).
  assert (slen content < 2 ^ 32 ∧ slen gomod < 2 ^ 32) as [Hc Hg] by (unfold MaxFrameBytes in *; lia).
  destruct (npmFrame_framed content) as [-> Hn]. destruct (gomodFrame_framed content gomod) as [-> Hm].
  destruct (cargoFrame_framed content) as [-> Hk].
  rewrite !read_frame_framed by lia. cbn [fmap option_fmap option_map].
  split_and!; [| | |done].
  - change (decode_request_body _) with
      (two_fields ParseNpm (be32 (slen content) +:+ content +:+ be32 0)).
    unfold two_fields. rewrite read_length_prefixed_app by done.
    by assert (read_length_prefixed (be32 0) = inr ("", "")) as -> by done.
  - change (decode_request_body _) with
      (two_fields ParseGomod (be32 (slen content) +:+ content +:+ be32 (slen gomod) +:+ gomod)).
    unfold two_fields. rewrite read_length_prefixed_app by done. by rewrite read_length_prefixed_last.
  - change (decode_request_body _) with
      (match read_length_prefixed (be32 (slen content) +:+ content) with
       | inl e => inl e
       | inr (x, rest) => if bool_decide (rest = "") then inr (ParseCargo x) else inl TrailingBytes
       end). by rewrite read_length_prefixed_last.
Qed.

(** The sidecar decodes every request the client sends as the request that
    was meant: for contents that fit a frame, reading the client's frame
    with the sidecar's reader and decoder yields the lockfile bytes
    unchanged, for all three kinds of request and for the ping. *)
Theorem requests_survive_the_wire content gomod :
  (9 + slen content + slen gomod ≤ MaxFrameBytes) →
  decode_request_body <$> read_frame (npmFrame content) = Some (inr (ParseNpm content "")) ∧
  decode_request_body <$> read_frame (gomodFrame content gomod) = Some (inr (ParseGomod content gomod)) ∧
  decode_request_body <$> read_frame (cargoFrame content) = Some (inr (ParseCargo content)) ∧
  decode_request_body <$> read_frame (be32 1 +:+ byte1 msgPing) = Some (inr RPing).
Proof. apply wire_requests. Qed.

Lemma requests_survive_the_wire_witness :
  decode_request_body <$> read_frame (npmFrame "{}") = Some (inr (ParseNpm "{}" "")).
Proof. apply (requests_survive_the_wire "{}" ""). vm_compute. discriminate. Defined.

(** ** Responses *)

Lemma slice_prefix n rest : slice (be32 n +:+ rest) 0 4 = Some (be32 n).
Proof. exact (slice_app "" (be32 n) rest). Qed.

Lemma decodeParseResult_encoded payload :
  slen payload < 2 ^ 32 →
  decodeParseResult (be32 (slen payload) +:+ payload) =
    Some (match Unmarshal decode_ParsedSBOM zero_ParsedSBOM payload with
          | Err _ => Err (malformed "%w: decode parsed_sbom: %v")
          | Ok p => Ok p
          end).
Proof.
  intros Hp. pose proof (slen_nonneg payload). unfold decodeParseResult.
  rewrite slen_app, slen_be32, bool_decide_eq_false_2, slice_prefix by lia. cbn [mbind option_bind].
  rewrite <- (str_app_nil_r (be32 (slen payload))) at 1. rewrite uint32_be_be32 by lia.
  cbn [mbind option_bind]. rewrite bool_decide_eq_false_2 by lia.
  pose proof (slice_app (be32 (slen payload)) payload "") as Hs.
  rewrite str_app_nil_r, slen_be32 in Hs. by rewrite Hs.
Qed.

Lemma decodeErrorFrame_encoded code message :
  4 + slen code + 4 + slen message < 2 ^ 32 →
  decodeErrorFrame (be32 (slen code) +:+ code +:+ be32 (slen message) +:+ message)
  = Some (classifyRemoteError code message).
Proof.
  intros Hlen. pose proof (slen_nonneg code). pose proof (slen_nonneg message).
  unfold decodeErrorFrame. set (rest := be32 (slen code) +:+ code +:+ be32 (slen message) +:+ message).
  assert (slen rest = 4 + slen code + 4 + slen message) as Hr
    by (subst rest; rewrite !slen_app, !slen_be32; lia).
  rewrite Hr, bool_decide_eq_false_2 by lia.
  assert (slice rest 0 4 = Some (be32 (slen code))) as -> by apply slice_prefix.
  cbn [mbind option_bind]. rewrite <- (str_app_nil_r (be32 (slen code))), uint32_be_be32 by lia.
  cbn [mbind option_bind]. rewrite bool_decide_eq_false_2 by lia.
  assert (u32 (4 + slen code) = 4 + slen code) as -> by (apply Z.mod_small; lia).
  assert (slice rest 4 (4 + slen code) = Some code) as ->
    by exact (slice_app (be32 (slen code)) code _).
  cbn [mbind option_bind]. rewrite bool_decide_eq_false_2 by lia.
  assert (slice rest (4 + slen code) (4 + slen code + 4) = Some (be32 (slen message))) as ->.
  { pose proof (slice_app (be32 (slen code) +:+ code) (be32 (slen message)) message) as Hs.
    rewrite slen_app, slen_be32, str_app_assoc, slen_be32 in Hs. exact Hs. }
  cbn [mbind option_bind]. rewrite <- (str_app_nil_r (be32 (slen message))), uint32_be_be32 by lia.
  cbn [mbind option_bind]. rewrite bool_decide_eq_false_2 by lia.
  pose proof (slice_app (be32 (slen code) +:+ code +:+ be32 (slen message)) message "") as Hs.
  rewrite !slen_app, !slen_be32, str_app_nil_r, !str_app_assoc in Hs.
  replace (4 + (slen code + 4)) with (4 + slen code + 4) in Hs by lia. fold rest in Hs.
  rewrite Hs. done.
Qed.

(** ** The JSON of a ParsedSBOM decodes to it *)

Lemma decode_scope l : decode_slice decode_string "" [] (scope_json l) = Some l.
Proof.
  unfold scope_json. case_bool_decide as Hl; [by rewrite Hl|]. unfold json_strings.
  cbn [decode_slice]. rewrite (decode_elems_map _ _ JString (λ s, s)) by done.
  by rewrite list_fmap_id.
Qed.

Lemma decode_package_json p :
  decode_PackageVersion zero_PackageVersion (package_json p) = Some p.
Proof.
  destruct p as [eco nm ver purl scope integ]. unfold decode_PackageVersion, package_json, decode_struct.
  cbn [foldl PackageVersion_Ecosystem PackageVersion_Name PackageVersion_Version PackageVersion_PURL
       PackageVersion_Scope PackageVersion_Integrity].
  repeat (change (select_field ?ns ?k) with (Some k); cbn [mbind option_bind]).
  cbn -[decode_slice scope_json]. rewrite decode_scope. done.
Qed.

Lemma decode_parsed_json p :
  MinInt64 ≤ ParsedSBOM_SourceBytes p ≤ MaxInt64 →
  decode_ParsedSBOM zero_ParsedSBOM (parsed_json p) = Some p.
Proof.
  intros Hb. destruct p as [eco pkgs fmt nbytes]. simpl in Hb.
  unfold decode_ParsedSBOM, parsed_json, decode_struct.
  cbn [foldl ParsedSBOM_Ecosystem ParsedSBOM_Packages ParsedSBOM_SourceFormat ParsedSBOM_SourceBytes].
  repeat (change (select_field ?ns ?k) with (Some k); cbn [mbind option_bind]).
  cbn -[decode_elems decode_PackageVersion zero_PackageVersion package_json json_int decode_int fmap].
  rewrite (decode_elems_map _ _ package_json (λ p, p)) by (intros; apply decode_package_json).
  rewrite list_fmap_id. cbn -[decode_int json_int].
  unfold json_int, decode_int. rewrite parse_int_pretty by done. done.
Qed.

Lemma max_list_bound {A} (f : A → Z) l b : 0 ≤ b → (∀ x, x ∈ l → f x ≤ b) → max_list (map f l) ≤ b.
Proof.
  intros Hb. induction l as [|x l IH]; intros Hl; [simpl; lia|]. rewrite map_max_list_cons.
  pose proof (Hl x ltac:(by left)). specialize (IH (λ y Hy, Hl y ltac:(by right))). lia.
Qed.

Lemma scope_json_ok l : numbers_ok (scope_json l) = true ∧ depth (scope_json l) ≤ 1.
Proof.
  unfold scope_json. case_bool_decide; [done|]. unfold json_strings. split.
  - apply Is_true_true, forallb_True, Forall_forall. intros x (s & -> & _)%list_elem_of_fmap. done.
  - change (1 + max_list (map depth (JString <$> l)) ≤ 1).
    pose proof (max_list_bound depth (JString <$> l) 0 ltac:(done)) as Hb.
    enough (max_list (map depth (JString <$> l)) ≤ 0) by lia.
    apply Hb. intros x (s & -> & _)%list_elem_of_fmap. done.
Qed.

Lemma parsed_json_ok p : numbers_ok (parsed_json p) = true ∧ depth (parsed_json p) ≤ 4.
Proof.
  assert (∀ v, v ∈ package_json <$> ParsedSBOM_Packages p → numbers_ok v = true ∧ depth v ≤ 2) as Hp.
  { intros v (q & -> & _)%list_elem_of_fmap. destruct (scope_json_ok (PackageVersion_Scope q)) as [Hn Hd].
    unfold package_json. cbn [numbers_ok depth forallb map snd max_list foldr]. rewrite Hn.
    split; [done|]. lia. }
  unfold parsed_json. cbn [numbers_ok depth forallb map snd max_list foldr]. split.
  - assert (forallb numbers_ok (package_json <$> ParsedSBOM_Packages p) = true) as ->.
    { apply Is_true_true, forallb_True, Forall_forall. intros v Hv. by apply Is_true_true, Hp. }
    unfold json_int. cbn [numbers_ok]. by rewrite json_int_ok.
  - pose proof (max_list_bound depth (package_json <$> ParsedSBOM_Packages p) 2 ltac:(done)
      (λ v Hv, proj2 (Hp v Hv))). unfold json_int. cbn [depth]. unfold max_list in *. lia.
Qed.

(** The strings are UTF-8, as every Rust string is. *)
Definition utf8_sbom (p : ParsedSBOM) : Prop := sanitize (parsed_json p) = parsed_json p.

(** A parsed SBOM survives its JSON form: what [json.Encoder] writes for a
    ParsedSBOM (the output of parse-sbom, and the form the sidecar answers
    in) is decoded by the client to the same ParsedSBOM, provided its
    strings are UTF-8 and its byte count is an int64. *)
Theorem parsed_sbom_json_roundtrip p :
  utf8_sbom p → MinInt64 ≤ ParsedSBOM_SourceBytes p ≤ MaxInt64 →
  Unmarshal decode_ParsedSBOM zero_ParsedSBOM (encode (parsed_json p)) = Ok p.
Proof.
  intros Hu Hb. destruct (parsed_json_ok p) as [Hn Hd]. unfold Unmarshal.
  rewrite json_encode_parse by (done || (unfold maxNestingDepth; lia)).
  by rewrite Hu, decode_parsed_json.
Qed.

(** ** Client and sidecar together *)

Section composition.
Context `{SidecarParsers}.

(** serde_json writes a ParsedSBOM, whose strings are UTF-8, as the JSON
    object of its fields. *)
Hypothesis to_vec_json : ∀ p, utf8_sbom p → json_parse (to_vec p) = Some (parsed_json p).

(** The answer fits a frame (and a Rust value: UTF-8 strings, an i64). *)
Definition fits (r : ParseError + ParsedSBOM) : Prop :=
  match r with
  | inr p => 5 + slen (to_vec p) ≤ MaxFrameBytes ∧ MinInt64 ≤ ParsedSBOM_SourceBytes p ≤ MaxInt64 ∧
             utf8_sbom p
  | inl e => 9 + slen (error_code e) + slen (error_message e) ≤ MaxFrameBytes
  end.

(** What the client should return for it. *)
Definition outcome (r : ParseError + ParsedSBOM) : result ParsedSBOM :=
  match r with
  | inr p => Ok p
  | inl e => Err (classifyRemoteError (error_code e) (error_message e))
  end.

Lemma dispatch_outcome peer frame r :
  peer frame = Some (dispatch_parse r) → fits r →
  parseDispatch (Some peer) frame = Some (outcome r).
Proof using to_vec_json.
  intros Hp Hfits. unfold parseDispatch. destruct r as [e|p]; simpl in Hp, Hfits.
  - set (rest := be32 (slen (error_code e)) +:+ error_code e
      +:+ be32 (slen (error_message e)) +:+ error_message e).
    pose proof (slen_nonneg (error_code e)). pose proof (slen_nonneg (error_message e)).
    assert (slen (byte1 msgError +:+ rest)
      = 1 + 4 + slen (error_code e) + 4 + slen (error_message e)) as Hlen.
    { subst rest. rewrite !slen_app, !slen_be32. change (slen (byte1 _)) with 1. lia. }
    rewrite (roundTrip_framed peer frame (byte1 msgError +:+ rest)); [|by rewrite Hlen|lia].
    change (byte1 msgError +:+ rest) with (String msgError rest). cbn iota beta.
    subst rest. rewrite decodeErrorFrame_encoded by (unfold MaxFrameBytes in *; lia). done.
  - destruct Hfits as (Hfit & Hint & Hutf8). pose proof (slen_nonneg (to_vec p)).
    assert (slen (byte1 msgParseResult +:+ be32 (slen (to_vec p)) +:+ to_vec p)
      = 1 + 4 + slen (to_vec p)) as Hlen.
    { rewrite !slen_app, !slen_be32. change (slen (byte1 _)) with 1. lia. }
    rewrite (roundTrip_framed peer frame (byte1 msgParseResult +:+ be32 (slen (to_vec p)) +:+ to_vec p));
      [|by rewrite Hlen|lia].
    change (byte1 msgParseResult +:+ ?x) with (String msgParseResult x). cbn iota beta.
    rewrite bool_decide_eq_true_2, decodeParseResult_encoded by (done || (unfold MaxFrameBytes in *; lia)).
    unfold Unmarshal. rewrite to_vec_json, decode_parsed_json by done. done.
Qed.

Lemma sidecar_answers frame body req :
  read_frame frame = Some body → decode_request_body body = inr req →
  ∃ peer, sidecar = Some peer ∧ peer frame = Some (handle_body body).
Proof. intros Hf Hd. eexists. split; [done|]. simpl. by rewrite Hf. Qed.

Lemma sidecar_result content gomod :
  9 + slen content + slen gomod ≤ MaxFrameBytes →
  (fits (rs_npm content) →
   Client_ParseNPMLockfile sidecar content = Some (outcome (rs_npm content))) ∧
  (fits (rs_gomod content gomod) →
   Client_ParseGoModule sidecar content gomod = Some (outcome (rs_gomod content gomod))) ∧
  (fits (rs_cargo content) →
   Client_ParseCargo sidecar content = Some (outcome (rs_cargo content))).
Proof using to_vec_json.
  intros Hlen. pose proof (slen_nonneg content). pose proof (slen_nonneg gomod).
  assert (∀ frame req r, decode_request_body <$> read_frame frame = Some (inr req) →
    (∀ body, decode_request_body body = inr req → handle_body body = dispatch_parse r) →
    fits r → parseDispatch sidecar frame = Some (outcome r)) as Hdispatch.
  { intros frame req r (body & Hf & Hd')%fmap_Some Hh Hfits. symmetry in Hd'.
    destruct (sidecar_answers frame body req Hf Hd') as (peer & -> & Hpeer).
    apply dispatch_outcome; [|done]. by rewrite Hpeer, (Hh body Hd'). }
  destruct (wire_requests content gomod Hlen) as (Hr1 & Hr2 & Hr3 & _).
  unfold Client_ParseNPMLockfile, Client_ParseGoModule, Client_ParseCargo.
  rewrite !bool_decide_eq_false_2 by lia.
  split_and!; intros Hfits; eapply Hdispatch; try done;
    intros body Hb; unfold handle_body; by rewrite Hb.
Qed.

(** C28: Parsing through the sidecar is the same as running its parser in
    process: for every lockfile and every answer that fits a frame, the
    client returns exactly the sidecar's result (the parsed SBOM, or the
    error classified by its code), for each kind of lockfile. *)
Theorem native_client_returns_sidecar_result content gomod :
  9 + slen content + slen gomod ≤ MaxFrameBytes →
  (fits (rs_npm content) →
   Client_ParseNPMLockfile sidecar content = Some (outcome (rs_npm content))) ∧
  (fits (rs_gomod content gomod) →
   Client_ParseGoModule sidecar content gomod = Some (outcome (rs_gomod content gomod))) ∧
  (fits (rs_cargo content) →
   Client_ParseCargo sidecar content = Some (outcome (rs_cargo content))).
Proof using to_vec_json. apply sidecar_result. Qed.
End composition.

(** The sidecar's error classes are not those of the Go parser: an
    unsupported lockfile version reported by the sidecar is recognised by
    the client package's sentinel but not by the Go parser's sentinel of the
    same name, so a caller cannot test for it once for both parsers. *)
Theorem native_errors_are_not_the_parsers code message :
  code = "UNSUPPORTED_LOCKFILE_VERSION" →
  let e := classifyRemoteError code message in
  errors_Is e native_ErrUnsupportedLockfileVersion = true ∧
  errors_Is e native_ErrRemoteError = true ∧
  errors_Is e npm_ErrUnsupportedLockfileVersion = false.
Proof. intros ->. done. Qed.

Lemma native_errors_are_not_the_parsers_witness :
  errors_Is (classifyRemoteError "UNSUPPORTED_LOCKFILE_VERSION" "v1") npm_ErrUnsupportedLockfileVersion = false.
Proof. apply (native_errors_are_not_the_parsers "UNSUPPORTED_LOCKFILE_VERSION" "v1"). reflexivity. Defined.

(** ** Witnesses *)

(** A sidecar whose serialiser is Go's. *)
Definition sample_parsed : ParsedSBOM :=
  MkParsedSBOM "npm" [MkPackageVersion "npm" "axios" "1.11.0" "pkg:npm/axios@1.11.0" [] "sha512-x"]
    "npm-package-lock-v3" 765.

Definition sample_sidecar : SidecarParsers := {|
  rs_npm _ := inr sample_parsed;
  rs_gomod _ _ := inl (PEEmpty "empty");
  rs_cargo _ := inl (PEMalformed "bad");
  to_vec p := encode (parsed_json p);
  decode_error_text _ := "";
|}.

Lemma parsed_sbom_json_roundtrip_witness :
  Unmarshal decode_ParsedSBOM zero_ParsedSBOM (encode (parsed_json sample_parsed)) = Ok sample_parsed.
Proof. apply (parsed_sbom_json_roundtrip sample_parsed); [vm_compute; reflexivity|vm_compute; split; discriminate]. Defined.

Lemma sample_to_vec_json p :
  utf8_sbom p → json_parse (@to_vec sample_sidecar p) = Some (parsed_json p).
Proof.
  intros Hu. destruct (parsed_json_ok p) as [Hn Hd].
  change (@to_vec sample_sidecar p) with (encode (parsed_json p)).
  rewrite json_encode_parse by (done || (unfold maxNestingDepth; lia)). by rewrite Hu.
Qed.

Lemma native_client_returns_sidecar_result_witness :
  Client_ParseNPMLockfile (@sidecar sample_sidecar) "{}" = Some (Ok sample_parsed) ∧
  Client_ParseCargo (@sidecar sample_sidecar) "{}"
    = Some (Err (classifyRemoteError "MALFORMED_LOCKFILE" "bad")).
Proof.
  destruct (@native_client_returns_sidecar_result sample_sidecar sample_to_vec_json "{}" "")
    as (H1 & _ & H3); [vm_compute; discriminate|].
  split; [apply H1|apply H3].
  - split_and!; [vm_compute; discriminate|vm_compute; discriminate|vm_compute; discriminate|vm_compute; reflexivity].
  - vm_compute. discriminate.
Defined.

Close Scope Z_scope.
