(* ===== verification/Httpx.v ===== *)
(** * The publishers' HTTP client

    engine/publisher/internal/httpx/httpx.go: a GET with a rate limit,
    retries and backoff. What the network does is an argument: an
    [Exchange] per attempt. [Get] returns its result and what it did on the
    way, the requests it sent and the pauses it made, in order.

    The bounds theorem limits both whatever the upstream answers; the
    result theorem says which exchanges lead to which result, in particular
    which sentinel the scheduler sees. *)

From S2P Require Import Prelude GoStrings GoText Json JsonEncode.
From stdpp Require Import options.

Local Open Scope Z_scope.

(** ** The client *)

Definition Millisecond : Duration := 1000000.

Record Client := MkClient {
  Client_Header : gmap string (list string);
  Client_MaxRetries : Z;
  Client_RetryBaseDelay : Duration;
  Client_RetryMaxDelay : Duration;
}.

(** [New]; the timeout and the limiter's rate act inside an [Exchange]. *)
Definition New : Client := MkClient ∅ 3 (500 * Millisecond) (30 * Second).

(** [req.Header.Set] on a canonical name. *)
Definition Header_Set (c : Client) (k v : string) : Client :=
  MkClient (<[k := [v]]> (Client_Header c)) (Client_MaxRetries c)
    (Client_RetryBaseDelay c) (Client_RetryMaxDelay c).

(** What [HTTP.Do] gives, and [io.ReadAll] of the body: what it read and
    the error it stopped with. *)
Inductive Reply :=
  | TransportError (text : string)
  | Response (status : Z) (retryAfter : string) (body : string) (readErr : option error).

(** One attempt: the answer of [Limiter.Wait], the reply, and the error of
    the context when it is done before the pause that follows ends. *)
Record Exchange := MkExchange {
  ex_wait : option error;
  ex_reply : Reply;
  ex_ctx : option error;
}.

Inductive Act :=
  | Sent (url : string) (header : gmap string (list string))
  | Paused (d : Duration).

(** ** Delays *)

(** [strconv.Atoi]. *)
Definition Atoi (s : string) : option Z :=
  let '(neg, digits) :=
    match s with
    | String a s' => if byte_is a "-" then (true, s') else if byte_is a "+" then (false, s') else (false, s)
    | "" => (false, "")
    end in
  if bool_decide (digits = "") then None
  else
    n ← digits_value digits 0;
    let z := if neg : bool then - n else n in
    if bool_decide (MinInt64 ≤ z ≤ MaxInt64) then Some z else None.

Definition backoff (attempt : Z) (baseDelay maxDelay : Duration) : Duration :=
  let d := wrap64 (Z.shiftl baseDelay attempt) in
  if bool_decide (d ≤ 0) || bool_decide (maxDelay < d) then maxDelay else d.

Definition retryAfterOrBackoff (header : string) (attempt : Z) (baseDelay maxDelay : Duration) : Duration :=
  match (if bool_decide (header = "") then None else Atoi header) with
  | Some n =>
      if bool_decide (0 ≤ n) then
        let d := wrap64 (n * Second) in
        if bool_decide (maxDelay < d) then maxDelay else d
      else backoff attempt baseDelay maxDelay
  | None => backoff attempt baseDelay maxDelay
  end.

(** The pause, and whether the context outlives it. A delay of zero or less
    is no pause. *)
Definition sleepFor (ctx : option error) (d : Duration) : list Act * bool :=
  (if bool_decide (d ≤ 0) then [] else [Paused d], bool_decide (ctx = None)).

Definition ellipsis : string := bytes [226; 128; 166]%N.

Definition snippet (b : string) : string :=
  if bool_decide (Z.of_nat (String.length b) ≤ 200) then b else str_take 200 b +:+ ellipsis.

(** ** [Get] *)

(** What an attempt decides: a result, or another try after a delay, with
    the error to report when it was the last. *)
Inductive Verdict :=
  | Done (r : result string)
  | Retry (lastErr : error) (delay : Duration).

Definition judge (url : string) (attempt : Z) (baseDelay maxDelay : Duration) (r : Reply) : Verdict :=
  match r with
  | TransportError text =>
      Retry (EWrap "%w: transport: %v" [text] (ESentinel httpx_ErrServerFailure))
        (backoff attempt baseDelay maxDelay)
  | Response status retryAfter body readErr =>
      if bool_decide (status = 200) then
        Done (match readErr with
              | Some err => Err (EWrap "publisher httpx: read body: %w" [] err)
              | None => Ok body
              end)
      else if bool_decide (status = 404) then Done (Err (EWrap "%w: %s" [url] (ESentinel httpx_ErrNotFound)))
      else if bool_decide (status = 429) then
        Retry (EWrap "%w: %s" [url] (ESentinel httpx_ErrRateLimited))
          (retryAfterOrBackoff retryAfter attempt baseDelay maxDelay)
      else if bool_decide (500 ≤ status) then
        Retry (EWrap "%w: status %d" [pretty status] (ESentinel httpx_ErrServerFailure))
          (backoff attempt baseDelay maxDelay)
      else
        Done (Err (EText "publisher httpx: unexpected status %d for %s: %s"
          [pretty status; url; snippet body]))
  end.

Section Get.
(** [http.NewRequestWithContext]: the error it gives for a URL. *)
Context (newRequest : string → option error).

Fixpoint getLoop (c : Client) (url : string) (baseDelay maxDelay : Duration) (net : Z → Exchange)
    (left : nat) (attempt : Z) (lastErr : error) : result string * list Act :=
  match left with
  | O => (Err lastErr, [])
  | S left' =>
      let x := net attempt in
      match ex_wait x with
      | Some err => (Err err, [])
      | None =>
          match newRequest url with
          | Some err => (Err (EWrap "publisher httpx: build request: %w" [] err), [])
          | None =>
              match judge url attempt baseDelay maxDelay (ex_reply x) with
              | Done r => (r, [Sent url (Client_Header c)])
              | Retry lastErr' delay =>
                  let '(pause, ok) := sleepFor (ex_ctx x) delay in
                  let '(r, more) :=
                    if ok : bool then getLoop c url baseDelay maxDelay net left' (attempt + 1) lastErr'
                    else (Err (default lastErr' (ex_ctx x)), []) in
                  (r, Sent url (Client_Header c) :: pause ++ more)
              end
          end
      end
  end.

Definition effRetries (c : Client) : Z := if bool_decide (Client_MaxRetries c ≤ 0) then 3 else Client_MaxRetries c.

Definition effBase (c : Client) : Duration :=
  if bool_decide (Client_RetryBaseDelay c ≤ 0) then 500 * Millisecond else Client_RetryBaseDelay c.

Definition effMax (c : Client) : Duration :=
  if bool_decide (Client_RetryMaxDelay c ≤ 0) then 30 * Second else Client_RetryMaxDelay c.

(** The error before the first attempt is nil; it is never returned. *)
Definition Get (c : Client) (url : string) (net : Z → Exchange) : result string * list Act :=
  getLoop c url (effBase c) (effMax c) net (Z.to_nat (effRetries c + 1)) 0 (EText "" []).
End Get.

(** ** Bounds *)

Definition requests (acts : list Act) : nat :=
  foldr (λ a n, match a with Sent _ _ => S n | Paused _ => n end) O acts.

Definition slept (acts : list Act) : Z :=
  foldr (λ a n, match a with Sent _ _ => n | Paused d => d + n end) 0 acts.

Definition pause_in (maxDelay : Duration) (a : Act) : Prop :=
  match a with Sent _ _ => True | Paused d => 0 < d ≤ maxDelay end.

Lemma backoff_bounds attempt baseDelay maxDelay :
  0 < maxDelay → 0 < backoff attempt baseDelay maxDelay ≤ maxDelay.
Proof. intros Hm. unfold backoff. repeat case_bool_decide; cbn [orb]; lia. Qed.

Lemma retryAfterOrBackoff_bound header attempt baseDelay maxDelay :
  0 < maxDelay → retryAfterOrBackoff header attempt baseDelay maxDelay ≤ maxDelay.
Proof.
  intros Hm. pose proof (backoff_bounds attempt baseDelay maxDelay Hm). unfold retryAfterOrBackoff.
  destruct (if bool_decide _ then _ else _); repeat case_bool_decide; lia.
Qed.

Lemma judge_delay url attempt baseDelay maxDelay r err d :
  0 < maxDelay → judge url attempt baseDelay maxDelay r = Retry err d → d ≤ maxDelay.
Proof.
  intros Hm. pose proof (backoff_bounds attempt baseDelay maxDelay Hm).
  destruct r as [text|status header body readErr]; cbn [judge]; [intros; simplify_eq; lia|].
  repeat case_bool_decide; intros; simplify_eq; try lia. by apply retryAfterOrBackoff_bound.
Qed.

Lemma getLoop_bounds newRequest c url baseDelay maxDelay net left attempt lastErr :
  0 < maxDelay →
  let acts := (getLoop newRequest c url baseDelay maxDelay net left attempt lastErr).2 in
  (requests acts ≤ left)%nat ∧ Forall (pause_in maxDelay) acts ∧
  0 ≤ slept acts ≤ Z.of_nat left * maxDelay.
Proof.
  intros Hm. revert attempt lastErr. induction left as [|left IH]; intros attempt lastErr; [simpl; split_and!; [lia|constructor|lia..]|].
  cbn [getLoop]. destruct (ex_wait _); [simpl; split_and!; [lia|constructor|lia..]|].
  destruct (newRequest url); [simpl; split_and!; [lia|constructor|lia..]|].
  destruct (judge _ _ _ _ _) as [r|err d] eqn:Hj.
  { simpl. split_and!; [lia|repeat constructor|nia..]. }
  pose proof (judge_delay _ _ _ _ _ _ _ Hm Hj) as Hd.
  assert (∃ rest, (let '(pause, ok) := sleepFor (ex_ctx (net attempt)) d in
                   let '(r, more) :=
                     if ok : bool then getLoop newRequest c url baseDelay maxDelay net left (attempt + 1) err
                     else (Err (default err (ex_ctx (net attempt))), []) in
                   (r, Sent url (Client_Header c) :: pause ++ more)).2 =
            Sent url (Client_Header c) :: (sleepFor (ex_ctx (net attempt)) d).1 ++ rest ∧
            (requests rest ≤ left)%nat ∧ Forall (pause_in maxDelay) rest ∧
            0 ≤ slept rest ≤ Z.of_nat left * maxDelay) as (rest & -> & IH1 & IH2 & IH3).
  { unfold sleepFor. destruct (bool_decide (ex_ctx (net attempt) = None)).
    - specialize (IH (attempt + 1) err). destruct (getLoop _ _ _ _ _ _ left _ _) as [r more]. by exists more.
    - exists []. simpl. split_and!; [done|lia|constructor|lia..]. }
  cbn zeta. unfold sleepFor. cbn [fst]. rewrite Nat2Z.inj_succ, Z.mul_succ_l.
  case_bool_decide; simpl;
    (split_and!; [lia|repeat (apply Forall_cons_2; [simpl; done || lia|]); done|lia..]).
Qed.

Lemma getLoop_sent newRequest c url baseDelay maxDelay net left attempt lastErr u h :
  Sent u h ∈ (getLoop newRequest c url baseDelay maxDelay net left attempt lastErr).2 →
  u = url ∧ h = Client_Header c.
Proof.
  revert attempt lastErr. induction left as [|left IH]; intros attempt lastErr; cbn [getLoop].
  { by intros ?%not_elem_of_nil. }
  destruct (ex_wait _); [by intros ?%not_elem_of_nil|].
  destruct (newRequest url); [by intros ?%not_elem_of_nil|].
  destruct (judge _ _ _ _ _) as [r|err d]; [by intros [= -> ->]%list_elem_of_singleton|].
  unfold sleepFor. destruct (bool_decide (ex_ctx _ = None)).
  - specialize (IH (attempt + 1) err). destruct (getLoop _ _ _ _ _ _ left _ _) as [r more].
    case_bool_decide; cbn [snd app] in *; rewrite !elem_of_cons; naive_solver.
  - case_bool_decide; cbn [snd app]; rewrite ?elem_of_cons, ?elem_of_nil; naive_solver.
Qed.

Lemma Get_sent newRequest c url net u h :
  Sent u h ∈ (Get newRequest c url net).2 → u = url ∧ h = Client_Header c.
Proof. apply getLoop_sent. Qed.

Lemma effMax_pos c : 0 < effMax c.
Proof. unfold effMax, Second. case_bool_decide; lia. Qed.

Lemma effRetries_pos c : 0 < effRetries c.
Proof. unfold effRetries. case_bool_decide; lia. Qed.

(** C31: whatever the upstream answers, a GET sends one request and at most
    [MaxRetries] more, never pauses longer than [RetryMaxDelay] at a time,
    and sleeps no more than that per request in all. *)
Theorem Get_bounded newRequest c url net :
  let acts := (Get newRequest c url net).2 in
  Z.of_nat (requests acts) ≤ effRetries c + 1 ∧
  Forall (pause_in (effMax c)) acts ∧
  0 ≤ slept acts ≤ (effRetries c + 1) * effMax c.
Proof.
  pose proof (effRetries_pos c).
  destruct (getLoop_bounds newRequest c url (effBase c) (effMax c) net (Z.to_nat (effRetries c + 1)) 0
    (EText "" []) (effMax_pos c)) as (H1 & H2 & H3).
  cbn zeta. unfold Get. split_and!; [lia|done|lia|lia].
Qed.

(** ** Results *)

(** An attempt that [Get] gets over: the limiter lets it through, the reply
    is one to retry, and the context outlives the pause. *)
Definition retryable (r : Reply) : bool :=
  match r with
  | TransportError _ => true
  | Response status _ _ _ => bool_decide (status = 429) || bool_decide (500 ≤ status)
  end.

Definition gives_way (x : Exchange) : Prop :=
  ex_wait x = None ∧ retryable (ex_reply x) = true ∧ ex_ctx x = None.

(** What an attempt that does not give way makes of the call. *)
Definition stop (url : string) (x : Exchange) : result string :=
  match ex_wait x with
  | Some e => Err e
  | None =>
      match judge url 0 1 1 (ex_reply x) with
      | Done r => r
      | Retry lastErr _ => Err (default lastErr (ex_ctx x))
      end
  end.

Definition exhausted (url : string) (r : Reply) : error :=
  match judge url 0 1 1 r with Retry e _ => e | Done _ => EText "" [] end.

Lemma judge_retryable url attempt baseDelay maxDelay r :
  match judge url attempt baseDelay maxDelay r with
  | Done q => retryable r = false ∧ ∀ a b m, judge url a b m r = Done q
  | Retry e _ => retryable r = true ∧ ∀ a b m, ∃ d, judge url a b m r = Retry e d
  end.
Proof.
  destruct r as [text|status header body readErr]; cbn [judge retryable]; [eauto|].
  repeat case_bool_decide; cbn [orb]; try lia; eauto.
Qed.

Instance gives_way_dec x : Decision (gives_way x).
Proof. unfold gives_way. apply _. Defined.

(** The first attempt of a range that stops the call, if any. *)
Definition stops_first (net : Z → Exchange) (lo i hi : Z) : Prop :=
  lo ≤ i < hi ∧ (∀ j, lo ≤ j < i → gives_way (net j)) ∧ ¬ gives_way (net i).

Lemma stops_first_unique net lo hi i i' :
  stops_first net lo i hi → stops_first net lo i' hi → i = i'.
Proof.
  intros (? & Hbefore & Hi) (? & Hbefore' & Hi'). destruct (Z.lt_trichotomy i i') as [|[|]]; [|done|].
  - destruct Hi. apply Hbefore'. lia.
  - destruct Hi'. apply Hbefore. lia.
Qed.

Section result.
Context (newRequest : string → option error) (url : string) (Hurl : newRequest url = None).

Lemma getLoop_cases c baseDelay maxDelay net left attempt lastErr :
  let r := (getLoop newRequest c url baseDelay maxDelay net left attempt lastErr).1 in
  let hi := attempt + Z.of_nat left in
  (∃ i, stops_first net attempt i hi ∧ r = stop url (net i)) ∨
  ((∀ j, attempt ≤ j < hi → gives_way (net j)) ∧
   r = Err (if left is O then lastErr else exhausted url (ex_reply (net (hi - 1))))).
Proof using Hurl.
  revert attempt lastErr. induction left as [|left IH]; intros attempt lastErr.
  { right. simpl. split; [lia|done]. }
  cbn [getLoop]. rewrite Hurl. cbn zeta.
  pose proof (judge_retryable url attempt baseDelay maxDelay (ex_reply (net attempt))) as Hj.
  destruct (decide (gives_way (net attempt))) as [Hg|Hg].
  - destruct Hg as (Hwait & Hr & Hctx). rewrite Hwait, Hctx.
    destruct (judge _ _ _ _ _) as [|e d]; [destruct Hj; congruence|]. destruct Hj as [_ Hj].
    cbn [sleepFor bool_decide decide]. rewrite bool_decide_eq_true_2 by done.
    specialize (IH (attempt + 1) e). cbn zeta in IH.
    destruct (getLoop _ _ _ _ _ _ left _ _) as [r more]. cbn [fst] in IH |- *.
    destruct IH as [(i & (Hi & Hbefore & Hstop) & ->)|[Hall ->]].
    + left. exists i. split; [|done]. split_and!; [lia|lia| |done].
      intros j Hj'. destruct (decide (j = attempt)) as [->|]; [done|]. apply Hbefore. lia.
    + right. split.
      { intros j Hj'. destruct (decide (j = attempt)) as [->|]; [done|]. apply Hall. lia. }
      f_equal. destruct left as [|left].
      * unfold exhausted. replace (attempt + Z.of_nat 1 - 1) with attempt by lia.
        by destruct (Hj 0 1 1) as [? ->].
      * do 3 f_equal. lia.
  - left. exists attempt. split; [split_and!; [lia|lia|intros; lia|done]|].
    unfold stop. destruct (ex_wait _) eqn:Hwait; [done|].
    destruct (judge _ _ _ _ _) as [q|e d]; destruct Hj as [Hr Hj]; [by rewrite Hj|].
    destruct (Hj 0 1 1) as [d' ->]. unfold sleepFor. rewrite bool_decide_eq_false_2; [done|].
    intros Hctx. by destruct Hg.
Qed.

Definition answers (status : Z) (r : Reply) : Prop := ∃ header body readErr, r = Response status header body readErr.

(** The errors of the context, the limiter and the body reader are not this
    package's sentinels. *)
Definition foreign (e : error) : Prop :=
  errors_Is e httpx_ErrNotFound = false ∧ errors_Is e httpx_ErrRateLimited = false ∧
  errors_Is e httpx_ErrServerFailure = false.

Definition foreign_errors (x : Exchange) : Prop :=
  (∀ e, ex_wait x = Some e → foreign e) ∧ (∀ e, ex_ctx x = Some e → foreign e) ∧
  (∀ status header body e, ex_reply x = Response status header body (Some e) → foreign e).

Definition fails_with (s : sentinel) (r : result string) : bool :=
  match r with Err e => errors_Is e s | Ok _ => false end.

Lemma stop_result x :
  ¬ gives_way x → foreign_errors x →
  (∀ body, stop url x = Ok body ↔ ex_wait x = None ∧ ∃ header, ex_reply x = Response 200 header body None) ∧
  (fails_with httpx_ErrNotFound (stop url x) = true ↔ ex_wait x = None ∧ answers 404 (ex_reply x)) ∧
  fails_with httpx_ErrRateLimited (stop url x) = false ∧
  fails_with httpx_ErrServerFailure (stop url x) = false.
Proof.
  assert (∀ (P : string → Prop) Q e, foreign e → (∀ b, ¬ P b) → ¬ Q →
    (∀ b, Err e = Ok b ↔ P b) ∧ (errors_Is e httpx_ErrNotFound = true ↔ Q) ∧
    errors_Is e httpx_ErrRateLimited = false ∧ errors_Is e httpx_ErrServerFailure = false) as Hstop.
  { intros P Q e (HNF & -> & ->) HP HQ. rewrite HNF. split_and!; naive_solver. }
  intros Hg (Hwait & Hctx & Hread). unfold stop, answers, gives_way in *.
  destruct x as [[e|] reply ctx]; cbn [ex_wait ex_reply ex_ctx] in *.
  { apply Hstop; [by apply Hwait|by intros b [? _]|by intros [? _]]. }
  assert (retryable reply = true → ∃ e, ctx = Some e ∧ foreign e) as Hctx'.
  { intros Hr. destruct ctx as [e|]; [eauto|]. by destruct Hg. }
  destruct reply as [text|status header body readErr]; cbn [judge retryable] in *.
  { destruct Hctx' as (e & -> & He); [done|]. apply Hstop; [done|by intros b (_ & ? & ?)|by intros (_ & ? & ? & ? & ?)]. }
  repeat case_bool_decide; cbn [orb] in *; try lia;
    try (destruct Hctx' as (e & -> & He); [done|]; cbn [default fails_with]);
    try (apply Hstop; [done|intros b (_ & ? & ?)|intros (_ & ? & ? & ? & ?)]; simplify_eq; lia).
  - destruct readErr as [e|]; subst.
    + apply Hstop; [by exact (Hread _ _ _ _ eq_refl)|by intros b (_ & ? & ?)|by intros (_ & ? & ? & ? & ?)].
    + simpl. split_and!; [|split; [done|by intros (_ & ? & ? & ? & ?)]|done..].
      intros b. split; [intros [= ->]; eauto|by intros (_ & ? & [= -> ->])].
  - subst. simpl. split_and!; [|split; [by eauto 10|done]|done..].
    intros b. split; [done|by intros (_ & ? & ?)].
Qed.

Lemma exhausted_result r :
  retryable r = true →
  errors_Is (exhausted url r) httpx_ErrNotFound = false ∧
  (errors_Is (exhausted url r) httpx_ErrRateLimited = true ↔ answers 429 r) ∧
  (errors_Is (exhausted url r) httpx_ErrServerFailure = true ↔ ¬ answers 429 r).
Proof.
  unfold answers, exhausted. destruct r as [text|status header body readErr]; cbn [judge retryable].
  { intros _. simpl. split_and!; [done|naive_solver..]. }
  repeat case_bool_decide; cbn [orb]; try lia; intros _; cbn [errors_Is]; rewrite ?bool_decide_eq_true;
    (split_and!; [done|split..]); subst; try naive_solver; naive_solver lia.
Qed.
End result.

(** The same for the whole call. *)
Lemma Get_cases newRequest c url net :
  newRequest url = None →
  let r := (Get newRequest c url net).1 in
  let n := effRetries c + 1 in
  (∃ i, stops_first net 0 i n ∧ r = stop url (net i)) ∨
  ((∀ j, 0 ≤ j < n → gives_way (net j)) ∧ r = Err (exhausted url (ex_reply (net (n - 1))))).
Proof.
  intros Hurl. cbn zeta. pose proof (effRetries_pos c).
  pose proof (getLoop_cases newRequest url Hurl c (effBase c) (effMax c) net (Z.to_nat (effRetries c + 1)) 0
    (EText "" [])) as Hcases. cbn zeta in Hcases. unfold Get.
  replace (0 + Z.of_nat (Z.to_nat (effRetries c + 1))) with (effRetries c + 1) in Hcases by lia.
  by destruct (Z.to_nat (effRetries c + 1)) as [|k] eqn:Hk; [lia|].
Qed.

(** The first attempt that does not give way, answered 200, gives the body. *)
Lemma Get_served newRequest c url net i header body :
  newRequest url = None → stops_first net 0 i (effRetries c + 1) →
  ex_wait (net i) = None → ex_reply (net i) = Response 200 header body None →
  (Get newRequest c url net).1 = Ok body.
Proof.
  intros Hurl Hfirst Hwait Hreply. destruct (Get_cases newRequest c url net Hurl) as [(i' & Hfirst' & ->)|[Hall _]].
  - rewrite (stops_first_unique _ _ _ _ _ Hfirst' Hfirst). unfold stop. by rewrite Hwait, Hreply.
  - destruct Hfirst as (Hi & _ & []). auto.
Qed.

(** Which exchanges give which result, and so what the scheduler sees. A
    body is returned exactly when the first attempt that does not give way
    is answered 200 and read to its end; "not found" exactly when that
    attempt is answered 404; "rate limited" and "server failure" exactly
    when every attempt gave way, by the last one's reply. *)
Theorem Get_result newRequest c url net :
  newRequest url = None → (∀ i, foreign_errors (net i)) →
  let r := (Get newRequest c url net).1 in
  let n := effRetries c + 1 in
  (∀ body, r = Ok body ↔ ∃ i header, stops_first net 0 i n ∧ ex_wait (net i) = None ∧
     ex_reply (net i) = Response 200 header body None) ∧
  (fails_with httpx_ErrNotFound r = true ↔ ∃ i, stops_first net 0 i n ∧ ex_wait (net i) = None ∧
     answers 404 (ex_reply (net i))) ∧
  (fails_with httpx_ErrRateLimited r = true ↔
     (∀ i, 0 ≤ i < n → gives_way (net i)) ∧ answers 429 (ex_reply (net (n - 1)))) ∧
  (fails_with httpx_ErrServerFailure r = true ↔
     (∀ i, 0 ≤ i < n → gives_way (net i)) ∧ ¬ answers 429 (ex_reply (net (n - 1)))).
Proof.
  intros Hurl Hforeign. cbn zeta. pose proof (effRetries_pos c).
  destruct (Get_cases newRequest c url net Hurl) as [(i & Hfirst & ->)|[Hall ->]];
    set (n := effRetries c + 1) in *.
  - destruct (stop_result url (net i)) as (HOk & HNF & -> & ->); [apply Hfirst|done|].
    assert (¬ ∀ i, 0 ≤ i < n → gives_way (net i)) by (intros Hall; destruct Hfirst as (? & _ & []); auto).
    split_and!; [|rewrite HNF|naive_solver..].
    + intros body. rewrite HOk. split; [intros (? & header & ?); eauto|].
      intros (i' & header & Hfirst' & ?). rewrite (stops_first_unique _ _ _ _ _ Hfirst Hfirst'). naive_solver.
    + split; [eauto|]. intros (i' & Hfirst' & ?). by rewrite (stops_first_unique _ _ _ _ _ Hfirst Hfirst').
  - destruct (exhausted_result url (ex_reply (net (n - 1)))) as (HNF & HRL & HSF).
    { destruct (Hall (n - 1)) as (_ & ? & _); [lia|done]. }
    cbn [fails_with]. rewrite HNF.
    assert (∀ i, ¬ stops_first net 0 i n) by (intros i (? & _ & []); auto).
    split_and!; naive_solver.
Qed.

(** ** Backoff *)

(** While the shift stays in range, and also when the factor alone exceeds
    the cap, the delay is the base times a power of two, capped. *)
Lemma backoff_doubles attempt baseDelay maxDelay :
  0 ≤ attempt → 0 < baseDelay → 0 < maxDelay →
  baseDelay * 2 ^ attempt ≤ MaxInt64 ∨ maxDelay < 2 ^ attempt →
  backoff attempt baseDelay maxDelay = Z.min (baseDelay * 2 ^ attempt) maxDelay.
Proof.
  intros Ha Hb Hm Hrange. unfold backoff. rewrite Z.shiftl_mul_pow2 by done.
  pose proof (Z.pow_pos_nonneg 2 attempt).
  destruct (decide (baseDelay * 2 ^ attempt ≤ MaxInt64)) as [Hle|Hgt].
  { rewrite wrap64_id by (unfold MinInt64; nia). repeat case_bool_decide; cbn [orb]; nia. }
  assert (maxDelay < 2 ^ attempt) as Hpow by (destruct Hrange; done).
  pose proof (wrap64_range (baseDelay * 2 ^ attempt)) as Hrg.
  assert (∃ q, wrap64 (baseDelay * 2 ^ attempt) = q * 2 ^ Z.min attempt 63) as [q Hq].
  { unfold wrap64. set (k := Z.min attempt 63).
    assert (∃ p, 2 ^ attempt = p * 2 ^ k) as [p ->].
    { exists (2 ^ (attempt - k)). rewrite <-Z.pow_add_r by lia. f_equal. lia. }
    assert (2 ^ 64 = 2 ^ (64 - k) * 2 ^ k) as Hk by (rewrite <-Z.pow_add_r by lia; f_equal; lia).
    assert (2 ^ 63 = 2 ^ (63 - k) * 2 ^ k) as Hk' by (rewrite <-Z.pow_add_r by lia; f_equal; lia).
    rewrite (Z.mod_eq _ (2 ^ 64)) by lia.
    set (d := _ / _). rewrite Hk, Hk'.
    exists (baseDelay * p - 2 ^ (64 - k) * d). ring. }
  assert (0 < baseDelay * 2 ^ attempt ∧ maxDelay ≤ baseDelay * 2 ^ attempt) as [? ?] by nia.
  rewrite (Z.min_r _ maxDelay) by done. rewrite Hq in Hrg |- *.
  case_bool_decide as Hpos; [done|]. case_bool_decide; [done|]. cbn [orb]. exfalso.
  pose proof (Z.pow_pos_nonneg 2 (Z.min attempt 63)).
  assert (0 < q) by nia. destruct (decide (attempt ≤ 63)).
  - rewrite Z.min_l in * by done. nia.
  - rewrite Z.min_r in * by lia. unfold MaxInt64 in Hrg. nia.
Qed.

(** The default client never leaves that range, whatever the attempt. *)
Lemma backoff_default attempt :
  0 ≤ attempt →
  backoff attempt (effBase New) (effMax New) = Z.min (500 * Millisecond * 2 ^ attempt) (30 * Second).
Proof.
  intros Ha. change (effBase New) with (500 * Millisecond). change (effMax New) with (30 * Second).
  unfold Millisecond, Second. apply backoff_doubles; [done|lia|lia|].
  destruct (decide (attempt ≤ 34)) as [Hle|Hgt]; [left|right].
  - assert (2 ^ attempt ≤ 2 ^ 34) by (apply Z.pow_le_mono_r; lia). unfold MaxInt64. lia.
  - assert (2 ^ 35 ≤ 2 ^ attempt) by (apply Z.pow_le_mono_r; lia). lia.
Qed.

(** ** Examples *)

Definition no_url_error : string → option error := λ _, None.

(** An upstream that fails twice, then is found. *)
Definition flaky_net : Z → Exchange := λ i,
  if bool_decide (i < 2) then MkExchange None (Response 503 "" "" None) None
  else MkExchange None (Response 200 "" "{}" None) None.

Lemma flaky_first : stops_first flaky_net 0 2 4.
Proof.
  split_and!; [done|done| |by intros (_ & ? & _)].
  intros j Hj. unfold flaky_net. by rewrite bool_decide_eq_true_2 by lia.
Defined.

Lemma Get_result_witness :
  (Get no_url_error New "u" flaky_net).1 = Ok "{}" ∧
  (Get no_url_error New "u" flaky_net).2 =
    [Sent "u" ∅; Paused (500 * Millisecond); Sent "u" ∅; Paused Second; Sent "u" ∅].
Proof.
  split; [|vm_compute; done].
  apply (Get_result no_url_error New "u" flaky_net).
  - done.
  - intros i. unfold flaky_net. by case_bool_decide.
  - exists 2, "". split; [apply flaky_first|done].
Defined.

(** An upstream that rate limits every request. *)
Definition limiting_net (retryAfter : string) : Z → Exchange := λ _,
  MkExchange None (Response 429 retryAfter "" None) None.

(** A [Retry-After] of 9223372037 seconds or so overflows the duration
    to a negative one: the client does not pause at all, and sends its four
    requests back to back, where a value just over the cap pauses it for 30
    seconds. It also pauses after the last request, with no request to
    follow. *)
Theorem retry_after_overflow :
  Get no_url_error New "u" (limiting_net "9223372037") =
    (Err (EWrap "%w: %s" ["u"] (ESentinel httpx_ErrRateLimited)),
     [Sent "u" ∅; Sent "u" ∅; Sent "u" ∅; Sent "u" ∅]) ∧
  (Get no_url_error New "u" (limiting_net "31")).2 =
    [Sent "u" ∅; Paused (30 * Second); Sent "u" ∅; Paused (30 * Second);
     Sent "u" ∅; Paused (30 * Second); Sent "u" ∅; Paused (30 * Second)].
Proof. by split. Qed.
