(* ===== verification/NpmIngestor.v ===== *)
(** * The npm ingestor

    engine/publisher/npm/ingestor.go: a package reference becomes the URL of
    the package's registry document, the document is fetched with the HTTP
    client of Httpx.v and decoded, and a publisher snapshot is assembled
    from it. [PathUnescape] (GoURL.v) is what the registry does with the
    path. *)

From S2P Require Import Prelude GoStrings GoText Json JsonEncode JsonShape GoURL GoTime Domain Httpx.
From stdpp Require Import options.

(** ** URLs *)

(** [strings.ReplaceAll] for a non-empty [old]; [skip] bytes of a match are
    still to be passed over. *)
Fixpoint replace_from (old new : string) (skip : nat) (s : string) : string :=
  match s with
  | "" => ""
  | String a s' =>
      match skip with
      | S k => replace_from old new k s'
      | O => if HasPrefix s old then new +:+ replace_from old new (String.length old - 1) s'
             else String a (replace_from old new 0 s')
      end
  end.

Definition ReplaceAll (s old new : string) : string := replace_from old new 0 s.

(** ** Configuration *)

Definition DefaultRegistry : string := "https://registry.npmjs.org".
Definition PackageRefPrefix : string := "npm:".

Record Config := MkConfig {
  Config_RegistryBase : string;
  Config_UserAgent : string;
}.

Record Ingestor := MkIngestor {
  registryBase : string;
  client : Client;
}.

Definition or_default (s fallback : string) : string := if bool_decide (s = "") then fallback else s.

Definition New (cfg : Config) : Ingestor :=
  let base := or_default (Config_RegistryBase cfg) DefaultRegistry in
  let agent := or_default (Config_UserAgent cfg) "rampart-engine" in
  let c := Header_Set Httpx.New "Accept" "application/vnd.npm.install-v1+json, application/json" in
  let c := Header_Set c "User-Agent" agent in
  MkIngestor (TrimRight base "/"%char) c.

(** ** The registry's document *)

Record apiMaintainer := MkApiMaintainer { api_Email : string; api_Name : string }.

Record versionMeta := MkVersionMeta { Signatures : list json }.

Record registryResponse := MkRegistryResponse {
  rr_Name : string;
  rr_Maintainers : list apiMaintainer;
  rr_DistTags : option (gmap string string);
  rr_Time : option (gmap string string);
  rr_Versions : option (gmap string versionMeta);
  rr_Repository : option string;
}.

Definition set_apiMaintainer (tag : string) (m : apiMaintainer) (v : json) : option apiMaintainer :=
  let '(MkApiMaintainer email name) := m in
  if String.eqb tag "email" then x ← decode_string email v; Some (MkApiMaintainer x name)
  else x ← decode_string name v; Some (MkApiMaintainer email x).

Definition decode_apiMaintainer : apiMaintainer → json → option apiMaintainer :=
  decode_struct ["email"; "name"] set_apiMaintainer.

(** The elements of [signatures] are kept raw. *)
Definition decode_signatures (m : versionMeta) (v : json) : option versionMeta :=
  sigs ← decode_slice (λ _ raw, Some raw) JNull (Signatures m) v; Some (MkVersionMeta sigs).

Definition decode_dist : versionMeta → json → option versionMeta :=
  decode_struct ["signatures"] (λ _, decode_signatures).

Definition decode_versionMeta : versionMeta → json → option versionMeta :=
  decode_struct ["dist"] (λ _, decode_dist).

(** [repositoryField.UnmarshalJSON]: a string, or an object with a [url];
    [null] leaves the pointer nil. *)
Definition decode_repository (v : json) : option (option string) :=
  match v with
  | JNull => Some None
  | JString s => Some (Some s)
  | _ => url ← decode_struct ["url"] (λ _, decode_string) "" v; Some (Some url)
  end.

Definition set_registryResponse (tag : string) (r : registryResponse) (v : json) : option registryResponse :=
  let '(MkRegistryResponse name ms tags time vers repo) := r in
  if String.eqb tag "name" then
    x ← decode_string name v; Some (MkRegistryResponse x ms tags time vers repo)
  else if String.eqb tag "maintainers" then
    x ← decode_slice decode_apiMaintainer (MkApiMaintainer "" "") ms v;
    Some (MkRegistryResponse name x tags time vers repo)
  else if String.eqb tag "dist-tags" then
    x ← decode_map (decode_string "") tags v; Some (MkRegistryResponse name ms x time vers repo)
  else if String.eqb tag "time" then
    x ← decode_map (decode_string "") time v; Some (MkRegistryResponse name ms tags x vers repo)
  else if String.eqb tag "versions" then
    x ← decode_map (decode_versionMeta (MkVersionMeta [])) vers v;
    Some (MkRegistryResponse name ms tags time x repo)
  else x ← decode_repository v; Some (MkRegistryResponse name ms tags time vers x).

Definition decode_registryResponse : registryResponse → json → option registryResponse :=
  decode_struct ["name"; "maintainers"; "dist-tags"; "time"; "versions"; "repository"] set_registryResponse.

Definition zero_registryResponse : registryResponse := MkRegistryResponse "" [] None None None None.

(** ** [Ingest] *)

Definition endpoint (base pkgName : string) : string :=
  ReplaceAll (base +:+ "/" +:+ PathEscape pkgName) "%2F" "/".

Definition domainMaintainer (m : apiMaintainer) : Maintainer :=
  MkMaintainer (api_Email m) (api_Name m) (api_Name m).

(** Reading a map that may be nil. *)
Definition map_get {A} (m : option (gmap string A)) (k : string) : option A := m' ← m; m' !! k.

Definition latestTag (r : registryResponse) : option string :=
  latest ← map_get (rr_DistTags r) "latest";
  if bool_decide (latest = "") then None else Some latest.

Definition publishMethod (r : registryResponse) (latest : string) : string :=
  match map_get (rr_Versions r) latest with
  | Some v => if bool_decide (0 < length (Signatures v)) then "oidc-trusted-publisher" else "token"
  | None => "token"
  end.

Definition publishedAt (r : registryResponse) (latest : string) : option Time :=
  when ← map_get (rr_Time r) latest; t ← parse_rfc3339 when; Some (UTC t).

Definition sourceRepo (r : registryResponse) : option string :=
  url ← rr_Repository r; if bool_decide (url = "") then None else Some (TrimPrefix url "git+").

Definition snapshotOf (packageRef body : string) (r : registryResponse) : PublisherSnapshot :=
  let ms : list Maintainer := domainMaintainer <$> rr_Maintainers r in
  let '(latest, published, method) :=
    match latestTag r with
    | Some latest => (latest, publishedAt r latest, publishMethod r latest)
    | None => ("", None, "unknown")
    end in
  MkPublisherSnapshot 0 packageRef 0 ms latest published method (sourceRepo r) body.

Section Ingest.
Context (newRequest : string → option error).

Definition Ingest (i : Ingestor) (packageRef : string) (net : Z → Exchange) :
    result PublisherSnapshot * list Act :=
  let '(pkgName, ok) := CutPrefix packageRef PackageRefPrefix in
  if negb ok then
    (Err (EText "npm ingestor: package_ref %q is not %s-prefixed" [packageRef; PackageRefPrefix]), [])
  else if bool_decide (pkgName = "") then
    (Err (EText "npm ingestor: empty package name in %q" [packageRef]), [])
  else
    let '(got, acts) := Get newRequest (client i) (endpoint (registryBase i) pkgName) net in
    match got with
    | Err err => (Err err, acts)
    | Ok body =>
        match Unmarshal decode_registryResponse zero_registryResponse body with
        | Err err => (Err (EWrap "npm ingestor: decode response for %s: %w" [packageRef] err), acts)
        | Ok resp => (Ok (snapshotOf packageRef body resp), acts)
        end
    end.
End Ingest.

(** * Properties *)

(** ** The URL names the package *)

(** What is left of an escaped byte once the slashes are restored. *)
Definition endpoint_byte (a : ascii) : string := if byte_is a "/" then "/" else escape_byte a.

Lemma replace_escaped a t :
  replace_from "%2F" "/" 0 (escape_byte a +:+ t) = endpoint_byte a +:+ replace_from "%2F" "/" 0 t.
Proof. by destruct a as [[] [] [] [] [] [] [] []]. Qed.

Lemma endpoint_byte_unescape a t :
  PathUnescape (endpoint_byte a +:+ t) = (u ← PathUnescape t; Some (String a u)).
Proof.
  unfold endpoint_byte, escape_byte. destruct (byte_is a "/") eqn:Hs.
  { apply String.eqb_eq in Hs. injection Hs as ->. by apply (byte1_unescape "/"). }
  destruct (segment_byte a) eqn:Hseg; [|apply percent_unescape].
  apply byte1_unescape. by intros ->.
Qed.

Fixpoint endpoint_path (s : string) : string :=
  match s with "" => "" | String a s' => endpoint_byte a +:+ endpoint_path s' end.

Lemma replace_PathEscape s : replace_from "%2F" "/" 0 (PathEscape s) = endpoint_path s.
Proof. induction s as [|a s IH]; [done|]. cbn [PathEscape endpoint_path]. by rewrite replace_escaped, IH. Qed.

(** A match does not run past a slash. *)
Lemma replace_slash base t k :
  k ≤ String.length base →
  replace_from "%2F" "/" k (base +:+ String "/"%char t) =
  replace_from "%2F" "/" k base +:+ String "/"%char (replace_from "%2F" "/" 0 t).
Proof.
  revert k. induction base as [|a base IH]; intros k Hk.
  { simpl in Hk. by replace k with 0 by lia. }
  rewrite string_app_cons. destruct k as [|k]; cbn [replace_from].
  - assert (HasPrefix (String a (base +:+ String "/"%char t)) "%2F" = HasPrefix (String a base) "%2F") as ->.
    { destruct base as [|b [|c base]]; [..|done]; simpl.
      - by destruct (bool_decide _).
      - by destruct (bool_decide _), (bool_decide _). }
    destruct (HasPrefix (String a base) "%2F") eqn:Hp; [|by rewrite IH by lia].
    rewrite IH; [done|]. destruct base as [|b [|c base]]; [| |simpl; lia];
      cbn [HasPrefix] in Hp; go_bool; done.
  - apply IH. simpl in Hk. lia.
Qed.

Lemma endpoint_eq base name :
  endpoint base name = ReplaceAll base "%2F" "/" +:+ "/" +:+ endpoint_path name.
Proof.
  unfold endpoint, ReplaceAll. change ("/" +:+ PathEscape name) with (String "/"%char (PathEscape name)).
  by rewrite replace_slash, replace_PathEscape by lia.
Qed.

(** The bytes of a path: no query, no fragment, no space, no control. *)
Definition path_byte (a : ascii) : bool := segment_byte a || byte_is a "/" || byte_is a "%".

Lemma endpoint_path_bytes s : str_forallb path_byte (endpoint_path s) = true.
Proof.
  assert (∀ a t, str_forallb path_byte (endpoint_byte a +:+ t) = str_forallb path_byte t) as Hb.
  { intros a t. by destruct a as [[] [] [] [] [] [] [] []]. }
  induction s as [|a s IH]; [done|]. cbn [endpoint_path]. by rewrite Hb.
Qed.

Lemma endpoint_path_unescape s : PathUnescape (endpoint_path s) = Some s.
Proof.
  induction s as [|a s IH]; [done|]. cbn [endpoint_path]. rewrite endpoint_byte_unescape, IH. done.
Qed.

(** Every request the npm ingestor sends asks the registry for the
    package of the reference and for nothing else: its URL is the registry
    base, a slash and a path without query, fragment or control bytes that
    unescapes to the package's name, scoped names included. Two packages
    are never fetched from one URL. *)
Theorem npm_request_names_package newRequest i packageRef net url header :
  Sent url header ∈ (Ingest newRequest i packageRef net).2 →
  ∃ name path,
    packageRef = PackageRefPrefix +:+ name ∧ name ≠ "" ∧
    url = ReplaceAll (registryBase i) "%2F" "/" +:+ "/" +:+ path ∧
    PathUnescape path = Some name ∧ str_forallb path_byte path = true ∧
    header = Client_Header (client i).
Proof.
  unfold Ingest, CutPrefix. destruct (HasPrefix packageRef PackageRefPrefix) eqn:Hp; cbn [negb];
    [|by intros ?%not_elem_of_nil].
  apply HasPrefix_spec in Hp as [name ->]. rewrite str_drop_app.
  case_bool_decide as Hname; [by intros ?%not_elem_of_nil|].
  set (u := endpoint _ _). intros Hsent.
  assert (url = u ∧ header = Client_Header (client i)) as [-> ->].
  { apply (Get_sent newRequest (client i) u net).
    destruct (Get _ _ _ _) as [[body|e] acts]; [|done]. by destruct (Unmarshal _ _ _). }
  exists name, (endpoint_path name). split_and!; [done|done|apply endpoint_eq|apply endpoint_path_unescape| |done].
  apply endpoint_path_bytes.
Qed.

(** ** From the registry's document to the snapshot *)

(** *** How the registry writes a package down *)

Definition maintainer_of (v : json) (m : string * string) : Prop :=
  let names := ["email"; "name"] in
  ∃ ms, object_of names v ms ∧ text_of (value_at names "email" ms) m.1 ∧ text_of (value_at names "name" ms) m.2.

(** The signatures of a version, under its [dist]. *)
Definition version_of (v : json) (sigs : list json) : Prop :=
  ∃ ms ds, object_of ["dist"] v ms ∧ object_of ["signatures"] (value_at ["dist"] "dist" ms) ds ∧
    sequence_of eq (value_at ["signatures"] "signatures" ds) sigs.

(** The repository: a text, or an object with a [url]. *)
Definition repository_of (v : json) (r : option string) : Prop :=
  match v with
  | JNull => r = None
  | JString s => r = Some s
  | _ => ∃ ms url, v = JObject ms ∧ one_each ["url"] ms ∧ text_of (value_at ["url"] "url" ms) url ∧ r = Some url
  end.

(** A package as the registry describes it: the maintainers (address and
    name), the tagged versions, the publish times as they are written, the
    signatures of each version, and the repository. *)
Record Packument := MkPackument {
  pk_maintainers : list (string * string);
  pk_tags : gmap string string;
  pk_times : gmap string string;
  pk_versions : gmap string (list json);
  pk_repository : option string;
}.

Definition packument_fields : list string :=
  ["name"; "maintainers"; "dist-tags"; "time"; "versions"; "repository"].

(** The documents that describe a package: an object with the registry's
    members in any order, each of them possibly missing or null, among
    members of its own. *)
Definition describes (v : json) (p : Packument) : Prop :=
  ∃ ms, object_of packument_fields v ms ∧
    (∃ name, text_of (value_at packument_fields "name" ms) name) ∧
    sequence_of maintainer_of (value_at packument_fields "maintainers" ms) (pk_maintainers p) ∧
    mapping_of text_of (value_at packument_fields "dist-tags" ms) (pk_tags p) ∧
    mapping_of text_of (value_at packument_fields "time" ms) (pk_times p) ∧
    mapping_of version_of (value_at packument_fields "versions" ms) (pk_versions p) ∧
    repository_of (value_at packument_fields "repository" ms) (pk_repository p).

(** *** The decoder reads it *)

Lemma decode_maintainer v m :
  maintainer_of v m → decode_apiMaintainer (MkApiMaintainer "" "") v = Some (MkApiMaintainer m.1 m.2).
Proof.
  intros (ms & Hobj & He%decode_text_of & Hn%decode_text_of). destruct m as [email name]. cbn [fst snd] in *.
  apply (decode_object _ set_apiMaintainer (λ d, MkApiMaintainer (if d "email" then email else "")
    (if d "name" then name else "")) _ v ms Hobj).
  - intros f w d Hin <- Hf. repeat (apply elem_of_cons in Hin as [->|Hin]); [..|by apply not_elem_of_nil in Hin];
      cbn [set_apiMaintainer String.eqb Ascii.eqb Bool.eqb]; rewrite Hf, ?He, ?Hn; cbn; by rewrite ?orb_true_r, ?orb_false_r.
  - intros d Hd. f_equal; by eapply (stored_field decode_string); eauto.
Qed.

Lemma decode_version v sigs :
  version_of v sigs → decode_versionMeta (MkVersionMeta []) v = Some (MkVersionMeta sigs).
Proof.
  intros (ms & ds & Hv & Hd & Hs). eapply (decode_one "dist"); [exact Hv| |done].
  eapply (decode_one "signatures"); [exact Hd| |done]. unfold decode_signatures. cbn [Signatures].
  rewrite (decode_sequence eq (λ _ raw, Some raw) JNull id _ _ (λ v x H, f_equal Some H) Hs).
  cbn [mbind option_bind]. by rewrite list_fmap_id.
Qed.

Lemma decode_repository_of v r : repository_of v r → decode_repository v = Some r.
Proof.
  destruct v as [|b|n|s|vs|ms']; cbn [repository_of decode_repository]; try (by intros ->);
    intros (ms & url & Hv & Hone & Hu & ->); try done. injection Hv as <-.
  rewrite (decode_one "url" decode_string "" url _ ms'); [done|by left| |done].
  by apply decode_text_of.
Qed.

(** The struct a package's document is decoded into. *)
Record holds (r : registryResponse) (p : Packument) : Prop := {
  h_maintainers : rr_Maintainers r = (λ m, MkApiMaintainer m.1 m.2) <$> pk_maintainers p;
  h_tags : default ∅ (rr_DistTags r) = pk_tags p;
  h_times : default ∅ (rr_Time r) = pk_times p;
  h_versions : default ∅ (rr_Versions r) = MkVersionMeta <$> pk_versions p;
  h_repository : rr_Repository r = pk_repository p;
}.

Lemma decode_packument v p :
  describes v p → ∃ r, decode_registryResponse zero_registryResponse v = Some r ∧ holds r p.
Proof.
  intros (ms & Hobj & [name Hname%decode_text_of] & Hms & Htags & Htimes & Hvers & Hrepo%decode_repository_of).
  apply (decode_sequence _ decode_apiMaintainer (MkApiMaintainer "" "") (λ m, MkApiMaintainer m.1 m.2)) in Hms;
    [|apply decode_maintainer].
  apply (decode_mapping _ (decode_string "") id) in Htags, Htimes; [|apply decode_text_of..].
  apply (decode_mapping _ (decode_versionMeta (MkVersionMeta [])) MkVersionMeta) in Hvers; [|apply decode_version].
  rewrite map_fmap_id in Htags, Htimes.
  apply fmap_Some in Htags as (tags & Htags & Etags), Htimes as (times & Htimes & Etimes),
    Hvers as (vers & Hvers & Evers).
  exists (MkRegistryResponse name ((λ m, MkApiMaintainer m.1 m.2) <$> pk_maintainers p) tags times vers (pk_repository p)).
  split; [|by split].
  apply (decode_object _ set_registryResponse (λ d, MkRegistryResponse (if d "name" then name else "")
    (if d "maintainers" then (λ m, MkApiMaintainer m.1 m.2) <$> pk_maintainers p else [])
    (if d "dist-tags" then tags else None) (if d "time" then times else None)
    (if d "versions" then vers else None) (if d "repository" then pk_repository p else None)) _ v ms Hobj).
  - intros f w d Hin <- Hf. unfold packument_fields in Hin.
    repeat (apply elem_of_cons in Hin as [->|Hin]); [..|by apply not_elem_of_nil in Hin];
      cbn [set_registryResponse String.eqb Ascii.eqb Bool.eqb];
      rewrite Hf, ?Hname, ?Hms, ?Htags, ?Htimes, ?Hvers, ?Hrepo; cbn [mbind option_bind];
      rewrite ?orb_true_r, ?orb_false_r; done.
  - intros d Hd. f_equal.
    + apply (stored_field decode_string _ _ _ _ Hname); [done|apply Hd].
    + apply (stored_field (decode_slice decode_apiMaintainer (MkApiMaintainer "" "")) _ _ _ _ Hms); [done|apply Hd].
    + apply (stored_field (decode_map (decode_string "")) _ _ _ _ Htags); [done|apply Hd].
    + apply (stored_field (decode_map (decode_string "")) _ _ _ _ Htimes); [done|apply Hd].
    + apply (stored_field (decode_map (decode_versionMeta (MkVersionMeta []))) _ _ _ _ Hvers); [done|apply Hd].
    + apply (stored_field (λ _, decode_repository) _ _ _ _ Hrepo); [done|apply Hd].
Qed.

(** The snapshot the package should give: no id nor date yet; without a
    version under the tag [latest] none is recorded and the publish method is
    unknown; else the version, the instant its publish time denotes (none if
    there is no such time or it is not RFC 3339), and the method by its
    signatures; the repository if it is not empty, its git prefix cut off. *)
Record snapshot_of (ref body : string) (p : Packument) (sn : PublisherSnapshot) : Prop := {
  so_package : PublisherSnapshot_PackageRef sn = ref;
  so_raw : PublisherSnapshot_RawData sn = body;
  so_new : PublisherSnapshot_ID sn = 0%Z ∧ PublisherSnapshot_SnapshotAt sn = 0%Z;
  so_maintainers : PublisherSnapshot_Maintainers sn = (λ m, MkMaintainer m.1 m.2 m.2) <$> pk_maintainers p;
  so_untagged : default "" (pk_tags p !! "latest") = "" →
    PublisherSnapshot_LatestVersion sn = "" ∧ PublisherSnapshot_LatestVersionPublishedAt sn = None ∧
    PublisherSnapshot_PublishMethod sn = "unknown";
  so_version v : pk_tags p !! "latest" = Some v → PublisherSnapshot_LatestVersion sn = v;
  so_published v t : pk_tags p !! "latest" = Some v → v ≠ "" →
    PublisherSnapshot_LatestVersionPublishedAt sn = Some t ↔
    ∃ text, pk_times p !! v = Some text ∧ parse_rfc3339 text = Some t;
  so_method v : pk_tags p !! "latest" = Some v → v ≠ "" →
    PublisherSnapshot_PublishMethod sn =
      if decide (default [] (pk_versions p !! v) = []) then "token" else "oidc-trusted-publisher";
  so_source url : PublisherSnapshot_SourceRepoURL sn = Some url ↔
    ∃ raw, pk_repository p = Some raw ∧ raw ≠ "" ∧
      (raw = "git+" +:+ url ∨ raw = url ∧ HasPrefix url "git+" = false);
}.

Lemma map_get_default {A} (m : option (gmap string A)) k : map_get m k = default ∅ m !! k.
Proof. destruct m; [done|]. cbn. by rewrite lookup_empty. Qed.

Lemma sourceRepo_of r p url : holds r p →
  sourceRepo r = Some url ↔ ∃ raw, pk_repository p = Some raw ∧ raw ≠ "" ∧
    (raw = "git+" +:+ url ∨ raw = url ∧ HasPrefix url "git+" = false).
Proof.
  intros Hr. unfold sourceRepo. rewrite (h_repository _ _ Hr).
  destruct (pk_repository p) as [raw|]; cbn [mbind option_bind]; [|naive_solver].
  case_bool_decide as Hraw; [naive_solver|]. rewrite (inj_iff Some), TrimPrefix_iff. naive_solver.
Qed.

Lemma snapshotOf_holds ref body r p : holds r p → snapshot_of ref body p (snapshotOf ref body r).
Proof.
  intros Hr.
  assert (latestTag r = (v ← pk_tags p !! "latest"; if bool_decide (v = "") then None else Some v)) as Htag.
  { unfold latestTag. by rewrite map_get_default, (h_tags _ _ Hr). }
  unfold snapshotOf. split.
  - by destruct (latestTag r).
  - by destruct (latestTag r).
  - by destruct (latestTag r).
  - rewrite (h_maintainers _ _ Hr), <-list_fmap_compose. by destruct (latestTag r).
  - rewrite Htag. destruct (pk_tags p !! "latest") as [v|]; [|done]. intros Hv. change (v = "") in Hv. by subst v.
  - rewrite Htag. intros v ->. cbn [mbind option_bind]. by case_bool_decide.
  - rewrite Htag. intros v t -> Hv. cbn [mbind option_bind]. rewrite bool_decide_eq_false_2 by done.
    cbn [PublisherSnapshot_LatestVersionPublishedAt]. unfold publishedAt.
    rewrite map_get_default, (h_times _ _ Hr). destruct (pk_times p !! v) as [text|]; cbn [mbind option_bind]; [|naive_solver].
    unfold UTC. destruct (parse_rfc3339 text) as [u|] eqn:Hu; cbn [mbind option_bind]; naive_solver.
  - rewrite Htag. intros v -> Hv. cbn [mbind option_bind]. rewrite bool_decide_eq_false_2 by done.
    cbn [PublisherSnapshot_PublishMethod]. unfold publishMethod.
    rewrite map_get_default, (h_versions _ _ Hr), lookup_fmap. by destruct (pk_versions p !! v) as [[|sig sigs]|].
  - intros url. rewrite <-(sourceRepo_of r p url Hr). by destruct (latestTag r).
Qed.

(** What is no description at all: no JSON, or a value that is no object. *)
Definition no_document (body : string) : Prop :=
  match json_parse body with None => True | Some (JObject _) | Some JNull => False | Some _ => True end.

(** C32: the ingestor is faithful to the registry, bytes to snapshot. For a
    reference with a name, whose URL a request can be built for, when the
    first attempt that does not give way is answered 200 with a body: if the
    body is JSON and describes a package (the registry's members in any
    order, missing or null where there is nothing, among any other members,
    but none of them twice in an object that is read field by field), the
    result is the snapshot of that package: its maintainers; the version
    under the tag [latest], whatever other tags there are, with the instant
    it was published and the publish method by its own signatures; the
    repository, given as a text or as an object, without the git prefix; and
    the body itself as raw data. If the body is not JSON, or neither an
    object nor null, the result is a decoding error. *)
Theorem npm_Ingest_faithful newRequest i name net k header body :
  name ≠ "" → newRequest (endpoint (registryBase i) name) = None →
  stops_first net 0 k (effRetries (client i) + 1) → ex_wait (net k) = None →
  ex_reply (net k) = Response 200 header body None →
  let ref := PackageRefPrefix +:+ name in
  let got := (Ingest newRequest i ref net).1 in
  (∀ v p, json_parse body = Some v → describes v p → ∃ sn, got = Ok sn ∧ snapshot_of ref body p sn) ∧
  (no_document body → ∃ e, got = Err (EWrap "npm ingestor: decode response for %s: %w" [ref] e)).
Proof.
  intros Hname Hurl Hfirst Hwait Hreply ref got.
  assert (got = match Unmarshal decode_registryResponse zero_registryResponse body with
    | Ok r => Ok (snapshotOf ref body r)
    | Err e => Err (EWrap "npm ingestor: decode response for %s: %w" [ref] e) end) as ->.
  { subst got ref. unfold Ingest, CutPrefix.
    replace (HasPrefix (PackageRefPrefix +:+ name) PackageRefPrefix) with true
      by (symmetry; apply HasPrefix_spec; eauto).
    rewrite str_drop_app. cbn [negb]. rewrite bool_decide_eq_false_2 by done.
    pose proof (Get_served newRequest (client i) _ net k header body Hurl Hfirst Hwait Hreply) as Hget.
    destruct (Get _ _ _ _) as [res acts]. cbn [fst] in Hget. subst res. by destruct (Unmarshal _ _ _). }
  unfold Unmarshal. split.
  - intros v p -> (r & -> & Hr)%decode_packument. eexists. split; [done|]. by apply snapshotOf_holds.
  - unfold no_document. destruct (json_parse body) as [[]|]; try done; eauto.
Qed.

(** ** Examples *)

(** A document as the registry sends them, with members of no interest and a
    second tag, and its maintainers last. *)
Definition sample_document : json := JObject [
  ("_id", JString "@acme/pkg");
  ("repository", JString "git+https://github.com/acme/pkg.git");
  ("dist-tags", JObject [("next", JString "2.0.0-rc.1"); ("latest", JString "1.2.0")]);
  ("versions", JObject [
    ("1.2.0", JObject [("name", JString "@acme/pkg");
      ("dist", JObject [("shasum", JString "c0ffee"); ("signatures", JArray [JObject [("keyid", JString "SHA256:k")]])])]);
    ("2.0.0-rc.1", JObject [("name", JString "@acme/pkg")])]);
  ("time", JObject [("2.0.0-rc.1", JString "soon"); ("1.2.0", JString "2026-04-01T10:20:30.5Z")]);
  ("readme", JNull);
  ("maintainers", JArray [JObject [("name", JString "ana"); ("email", JString "ana@acme.io")]])].

Definition sample_packument : Packument := MkPackument [("ana@acme.io", "ana")]
  (list_to_map (reverse [("next", "2.0.0-rc.1"); ("latest", "1.2.0")]))
  (list_to_map (reverse [("2.0.0-rc.1", "soon"); ("1.2.0", "2026-04-01T10:20:30.5Z")]))
  (list_to_map (reverse [("1.2.0", [JObject [("keyid", JString "SHA256:k")]]); ("2.0.0-rc.1", [])]))
  (Some "git+https://github.com/acme/pkg.git").

Definition sample_body : string := encode sample_document.

Definition sample_ingestor : Ingestor := New (MkConfig "" "").

Definition sample_net : Z → Exchange := λ i,
  if bool_decide (i < 2)%Z then MkExchange None (Response 503 "" "" None) None
  else MkExchange None (Response 200 "" sample_body None) None.

Lemma sample_first : stops_first sample_net 0 2 (effRetries (client sample_ingestor) + 1).
Proof.
  split_and!; [done|vm_compute; done| |by intros (_ & ? & _)].
  intros j Hj. unfold sample_net. by rewrite bool_decide_eq_true_2 by lia.
Defined.

Lemma object_read names ms : bool_decide (one_each names ms) = true → object_of names (JObject ms) ms.
Proof. intros Hone%bool_decide_eq_true. by left. Qed.

Lemma sample_versions :
  version_of (JObject [("name", JString "@acme/pkg"); ("dist", JObject [("shasum", JString "c0ffee");
      ("signatures", JArray [JObject [("keyid", JString "SHA256:k")]])])]) [JObject [("keyid", JString "SHA256:k")]] ∧
  version_of (JObject [("name", JString "@acme/pkg")]) [].
Proof.
  split.
  - eexists _, _. split; [by apply object_read; vm_compute|]. split; [by apply object_read; vm_compute|].
    left. eexists. split; [vm_compute; reflexivity|]. repeat constructor.
  - eexists _, []. split; [by apply object_read; vm_compute|]. split; [by right|by right].
Qed.

Lemma sample_described : describes sample_document sample_packument.
Proof.
  eexists. split; [by apply object_read; vm_compute|].
  split; [exists ""; by right|]. split.
  { left. eexists. split; [vm_compute; reflexivity|]. constructor; [|constructor].
    eexists. split; [by apply object_read; vm_compute|]. split; by left. }
  split; [|split; [|split]]; [..|done]; left; eexists _, _; (split; [vm_compute; reflexivity|]); (split; [reflexivity|]);
    repeat constructor; apply sample_versions.
Qed.

Lemma sample_snapshot :
  (Ingest no_url_error sample_ingestor "npm:@acme/pkg" sample_net).1 =
    Ok (MkPublisherSnapshot 0 "npm:@acme/pkg" 0 [MkMaintainer "ana@acme.io" "ana" "ana"] "1.2.0"
      (Some 63910635630500000000%Z) "oidc-trusted-publisher" (Some "https://github.com/acme/pkg.git") sample_body).
Proof. vm_compute. reflexivity. Qed.

Lemma npm_request_names_package_witness :
  let ref := "npm:@acme/a b?c" in
  let url := "https://registry.npmjs.org/@acme/a%20b%3Fc" in
  Sent url (Client_Header (client sample_ingestor)) ∈ (Ingest no_url_error sample_ingestor ref sample_net).2 ∧
  ∃ name path, ref = "npm:" +:+ name ∧ PathUnescape path = Some name.
Proof.
  cbn zeta.
  assert (Sent "https://registry.npmjs.org/@acme/a%20b%3Fc" (Client_Header (client sample_ingestor)) ∈
    (Ingest no_url_error sample_ingestor "npm:@acme/a b?c" sample_net).2) as Hsent.
  { apply list_elem_of_lookup. exists 0. vm_compute. reflexivity. }
  split; [exact Hsent|].
  destruct (npm_request_names_package no_url_error sample_ingestor _ sample_net _ _ Hsent)
    as (name & path & Href & _ & _ & Hp & _).
  exists name, path. split; [exact Href|exact Hp].
Defined.

Lemma npm_Ingest_faithful_witness :
  ∃ sn, (Ingest no_url_error sample_ingestor "npm:@acme/pkg" sample_net).1 = Ok sn ∧
    snapshot_of "npm:@acme/pkg" sample_body sample_packument sn.
Proof.
  destruct (npm_Ingest_faithful no_url_error sample_ingestor "@acme/pkg" sample_net 2 "" sample_body) as [Hok _].
  - done.
  - done.
  - apply sample_first.
  - done.
  - done.
  - apply (Hok sample_document); [vm_compute; reflexivity|apply sample_described].
Defined.
