(* ===== verification/GithubIngestor.v ===== *)
(** * The GitHub ingestor

    engine/publisher/github/ingestor.go: a package reference that points at
    github.com becomes the URL of the repository's latest release; the
    release is fetched with the HTTP client of Httpx.v and becomes a
    publisher snapshot. A release time written with JSON escapes, which
    [Time.UnmarshalJSON] refuses, is read here like the unescaped text. *)

From S2P Require Import Prelude GoStrings GoText Json JsonEncode GoURL GoTime Domain GoJson Httpx NpmIngestor.
From stdpp Require Import options.

Definition DefaultAPIBase : string := "https://api.github.com".

Record GithubConfig := MkGithubConfig {
  gh_APIBase : string;
  gh_Token : string;
  gh_UserAgent : string;
}.

Record GithubIngestor := MkGithubIngestor {
  gh_apiBase : string;
  gh_client : Client;
}.

Definition GithubNew (cfg : GithubConfig) : GithubIngestor :=
  let c := Header_Set Httpx.New "Accept" "application/vnd.github+json" in
  let c := Header_Set c "X-GitHub-Api-Version" "2022-11-28" in
  let c := Header_Set c "User-Agent" (or_default (gh_UserAgent cfg) "rampart-engine") in
  let c := if bool_decide (gh_Token cfg = "") then c
           else Header_Set c "Authorization" ("Bearer " +:+ gh_Token cfg) in
  MkGithubIngestor (TrimRight (or_default (gh_APIBase cfg) DefaultAPIBase) "/"%char) c.

(** ** Releases *)

Record releaseResponse := MkReleaseResponse {
  rel_TagName : string;
  rel_Name : string;
  rel_PublishedAt : Time;
  rel_HTMLURL : string;
  rel_AuthorLogin : string;
}.

Definition set_releaseResponse (tag : string) (r : releaseResponse) (v : json) : option releaseResponse :=
  let '(MkReleaseResponse tagName name at_ url login) := r in
  if String.eqb tag "tag_name" then x ← decode_string tagName v; Some (MkReleaseResponse x name at_ url login)
  else if String.eqb tag "name" then x ← decode_string name v; Some (MkReleaseResponse tagName x at_ url login)
  else if String.eqb tag "published_at" then x ← decode_time at_ v; Some (MkReleaseResponse tagName name x url login)
  else if String.eqb tag "html_url" then x ← decode_string url v; Some (MkReleaseResponse tagName name at_ x login)
  else x ← decode_struct ["login"] (λ _, decode_string) login v; Some (MkReleaseResponse tagName name at_ url x).

Definition decode_releaseResponse : releaseResponse → json → option releaseResponse :=
  decode_struct ["tag_name"; "name"; "published_at"; "html_url"; "author"] set_releaseResponse.

Definition zero_releaseResponse : releaseResponse := MkReleaseResponse "" "" 0 "" "".

(** ** References *)

Definition ParseGithubRef (packageRef : string) : result (string * string) :=
  let '(rest, ok) := CutPrefix packageRef "github:" in
  if ok then
    let '(owner, repo, ok) := Cut rest "/" in
    if negb ok || bool_decide (owner = "") || bool_decide (repo = "") then
      Err (EText "github ingestor: malformed github: ref %q" [packageRef])
    else Ok (owner, repo)
  else
    let '(rest, ok) := CutPrefix packageRef "gomod:github.com/" in
    if ok then
      match SplitN rest "/" 3 with
      | owner :: repo :: _ =>
          if bool_decide (owner = "") || bool_decide (repo = "") then
            Err (EText "github ingestor: malformed gomod github.com ref %q" [packageRef])
          else Ok (owner, repo)
      | _ => Err (EText "github ingestor: malformed gomod github.com ref %q" [packageRef])
      end
    else Err (EText "github ingestor: package_ref %q does not point at github.com" [packageRef]).

(** ** Fetching *)

Definition release_endpoint (apiBase owner repo : string) : string :=
  apiBase +:+ "/repos/" +:+ PathEscape owner +:+ "/" +:+ PathEscape repo +:+ "/releases/latest".

Section Ingest.
Context (newRequest : string → option error).

(** The release and the raw text. *)
Definition LatestRelease (i : GithubIngestor) (owner repo : string) (net : Z → Exchange) :
    result (releaseResponse * string) * list Act :=
  if bool_decide (owner = "") || bool_decide (repo = "") then
    (Err (EText "github ingestor: owner+repo required (got %q / %q)" [owner; repo]), [])
  else
    let '(got, acts) := Get newRequest (gh_client i) (release_endpoint (gh_apiBase i) owner repo) net in
    match got with
    | Err err => (Err err, acts)
    | Ok body =>
        match Unmarshal decode_releaseResponse zero_releaseResponse body with
        | Err err => (Err (EWrap "github ingestor: decode release for %s/%s: %w" [owner; repo] err), acts)
        | Ok resp => (Ok (resp, body), acts)
        end
    end.

Definition GithubIngest (i : GithubIngestor) (packageRef : string) (net : Z → Exchange) :
    result PublisherSnapshot * list Act :=
  match ParseGithubRef packageRef with
  | Err err => (Err err, [])
  | Ok (owner, repo) =>
      match LatestRelease i owner repo net with
      | (Err err, acts) => (Err err, acts)
      | (Ok (rel, raw), acts) =>
          let ms := if bool_decide (rel_AuthorLogin rel = "") then []
                    else [MkMaintainer "" "" (rel_AuthorLogin rel)] in
          (Ok (MkPublisherSnapshot 0 packageRef 0 ms (rel_TagName rel) (Some (UTC (rel_PublishedAt rel)))
                 "unknown" (Some ("https://github.com/" +:+ owner +:+ "/" +:+ repo)) raw), acts)
      end
  end.
End Ingest.

(** * Properties *)

(** The two forms of reference, declaratively. *)
Definition points_at (ref owner repo : string) : Prop :=
  owner ≠ "" ∧ repo ≠ "" ∧ byte_in "/" owner = false ∧
  (ref = "github:" +:+ owner +:+ "/" +:+ repo ∨
   byte_in "/" repo = false ∧ ∃ tail, (tail = "" ∨ ∃ t, tail = "/" +:+ t) ∧
     ref = "gomod:github.com/" +:+ owner +:+ "/" +:+ repo +:+ tail).

Lemma byte_split c s : byte_in c s = false ∨ ∃ h t, s = h +:+ String c t ∧ byte_in c h = false.
Proof.
  destruct (Cut s (String c "")) as [[h t] []] eqn:Hc.
  - right. exists h, t. split; [by apply Cut_true in Hc|].
    unfold Cut in Hc. destruct (index s (String c "")) as [i|] eqn:Hi; [|done].
    injection Hc as <- _. by apply index_byte_take.
  - left. apply Cut_byte_false. unfold Cut in *. destruct (index s _); [done|]. by injection Hc as <- <-.
Qed.

Lemma byte_app_inj c h t h' t' :
  byte_in c h = false → byte_in c h' = false → h +:+ String c t = h' +:+ String c t' → h = h' ∧ t = t'.
Proof.
  intros Hh Hh' Heq. pose proof (Cut_byte_app c h t Hh) as H1. rewrite Heq, Cut_byte_app in H1 by done.
  by injection H1 as <- <-.
Qed.

Lemma byte_in_sep c h t : byte_in c (h +:+ String c "" +:+ t) = true.
Proof. change (String c "" +:+ t) with (String c t). by rewrite byte_in_app, byte_in_cons, bool_decide_eq_true_2, orb_true_r by done. Qed.

Lemma SplitN_byte_free c s n : byte_in c s = false → SplitN s (String c "") (S n) = [s].
Proof.
  intros Hs%Cut_byte_false. destruct n as [|n]; [done|]. unfold Cut in Hs. cbn [SplitN].
  by destruct (index s _).
Qed.

Lemma github_forms_disjoint t t' : "github:" +:+ t ≠ "gomod:github.com/" +:+ t'.
Proof. done. Qed.

Lemma ParseGithubRef_github rest owner repo :
  ParseGithubRef ("github:" +:+ rest) = Ok (owner, repo) ↔
  owner ≠ "" ∧ repo ≠ "" ∧ byte_in "/" owner = false ∧ rest = owner +:+ "/" +:+ repo.
Proof.
  unfold ParseGithubRef, CutPrefix.
  replace (HasPrefix ("github:" +:+ rest) "github:") with true by (symmetry; apply HasPrefix_spec; eauto).
  rewrite str_drop_app. destruct (byte_split "/" rest) as [Hfree|(h & t & -> & Hh)].
  - pose proof Hfree as ->%Cut_byte_false. cbn [negb orb]. split; [done|].
    intros (_ & _ & _ & ->). by rewrite (byte_in_sep "/" owner repo) in Hfree.
  - pose proof (Cut_byte_app "/" h t Hh) as ->. cbn [negb orb].
    assert (∀ o r, byte_in "/" o = false → h +:+ String "/"%char t = o +:+ "/" +:+ r → h = o ∧ t = r) as Hinj.
    { intros o r Ho. by apply byte_app_inj. }
    repeat case_bool_decide; cbn [orb]; split; intros Hr; simplify_eq; try naive_solver.
Qed.

Lemma ParseGithubRef_gomod rest owner repo :
  ParseGithubRef ("gomod:github.com/" +:+ rest) = Ok (owner, repo) ↔
  owner ≠ "" ∧ repo ≠ "" ∧ byte_in "/" owner = false ∧ byte_in "/" repo = false ∧
  ∃ tail, (tail = "" ∨ ∃ t, tail = "/" +:+ t) ∧ rest = owner +:+ "/" +:+ repo +:+ tail.
Proof.
  unfold ParseGithubRef, CutPrefix.
  change (HasPrefix ("gomod:github.com/" +:+ rest) "github:") with false. cbn iota.
  replace (HasPrefix ("gomod:github.com/" +:+ rest) "gomod:github.com/") with true
    by (symmetry; apply HasPrefix_spec; eauto).
  rewrite str_drop_app. destruct (byte_split "/" rest) as [Hfree|(h & t & -> & Hh)].
  { rewrite SplitN_byte_free by done. split; [done|].
    intros (_ & _ & _ & _ & tail & _ & ->). by rewrite (byte_in_sep "/" owner (repo +:+ tail)) in Hfree. }
  rewrite (SplitN_byte_app "/" h t 1) by done.
  assert (∀ o r tail, byte_in "/" o = false →
    h +:+ String "/"%char t = o +:+ "/" +:+ r +:+ tail → h = o ∧ t = r +:+ tail) as Hinj.
  { intros o r tail Ho. by apply byte_app_inj. }
  destruct (byte_split "/" t) as [Hfree|(h' & t' & -> & Hh')].
  - rewrite SplitN_byte_free by done. split.
    + repeat case_bool_decide; cbn [orb]; intros Hr; simplify_eq. split_and!; [done..|].
      exists "". rewrite str_app_nil_r. eauto.
    + intros (Ho & Hr & Hob & Hrb & tail & Htail & [-> ->]%Hinj); [|done].
      destruct Htail as [->|[u ->]]; [|by rewrite (byte_in_sep "/" repo u) in Hfree].
      rewrite str_app_nil_r. by rewrite !bool_decide_eq_false_2.
  - rewrite (SplitN_byte_app "/" h' t' 0) by done. split.
    + repeat case_bool_decide; cbn [orb]; intros Hr; simplify_eq. split_and!; [done..|].
      exists (String "/"%char t'). split; [right; by exists t'|done].
    + intros (Ho & Hr & Hob & Hrb & tail & Htail & [-> Heq]%Hinj); [|done].
      destruct Htail as [->|[u ->]].
      { rewrite str_app_nil_r in Heq. subst repo. pose proof (byte_in_sep "/" h' t') as Hsep.
        change ("/" +:+ t') with (String "/"%char t') in Hsep. congruence. }
      apply byte_app_inj in Heq as [-> _]; [|done..]. by rewrite !bool_decide_eq_false_2.
Qed.

Lemma ParseGithubRef_exact ref owner repo :
  ParseGithubRef ref = Ok (owner, repo) ↔ points_at ref owner repo.
Proof.
  unfold points_at. destruct (HasPrefix ref "github:") eqn:Hg.
  { apply HasPrefix_spec in Hg as [rest ->]. rewrite ParseGithubRef_github. split.
    - intros (? & ? & ? & ->). eauto 10.
    - intros (? & ? & ? & [Heq|(_ & tail & _ & Heq)]); [|by destruct (github_forms_disjoint _ _ Heq)].
      by apply (inj (String.append "github:")) in Heq as ->. }
  destruct (HasPrefix ref "gomod:github.com/") eqn:Hm.
  { apply HasPrefix_spec in Hm as [rest ->]. rewrite ParseGithubRef_gomod. split.
    - intros (? & ? & ? & ? & tail & ? & ->). eauto 10.
    - intros (? & ? & ? & [Heq|(? & tail & ? & Heq)]); [by destruct (github_forms_disjoint _ _ (eq_sym Heq))|].
      apply (inj (String.append "gomod:github.com/")) in Heq as ->. eauto 10. }
  unfold ParseGithubRef, CutPrefix. rewrite Hg, Hm. split; [done|].
  intros (_ & _ & _ & [->|(_ & tail & _ & ->)]).
  - replace (HasPrefix ("github:" +:+ _) "github:") with true in Hg by (symmetry; apply HasPrefix_spec; eauto). done.
  - replace (HasPrefix ("gomod:github.com/" +:+ _) "gomod:github.com/") with true in Hm
      by (symmetry; apply HasPrefix_spec; eauto). done.
Qed.

(** Every request the GitHub ingestor sends is for the latest release of
    the repository the reference points at: the owner and the repository
    are single path segments that unescape to the two names, so no
    reference leads to another endpoint of the API. A reference that points
    at no repository sends none. *)
Theorem github_request_names_repository newRequest i packageRef net url header :
  Sent url header ∈ (GithubIngest newRequest i packageRef net).2 →
  ∃ owner repo p q,
    points_at packageRef owner repo ∧
    url = gh_apiBase i +:+ "/repos/" +:+ p +:+ "/" +:+ q +:+ "/releases/latest" ∧
    PathUnescape p = Some owner ∧ PathUnescape q = Some repo ∧
    byte_in "/" p = false ∧ byte_in "/" q = false ∧ header = Client_Header (gh_client i).
Proof.
  unfold GithubIngest. destruct (ParseGithubRef packageRef) as [[owner repo]|e] eqn:Hp;
    [|by intros ?%not_elem_of_nil].
  apply ParseGithubRef_exact in Hp. unfold LatestRelease.
  destruct (_ || _); [by intros ?%not_elem_of_nil|].
  set (u := release_endpoint _ _ _). intros Hsent.
  assert (url = u ∧ header = Client_Header (gh_client i)) as [-> ->].
  { apply (Get_sent newRequest (gh_client i) u net).
    destruct (Get _ _ _ _) as [[body|e] acts]; [|done]. by destruct (Unmarshal _ _ _). }
  exists owner, repo, (PathEscape owner), (PathEscape repo).
  split_and!; [done|done|apply PathEscape_unescape..|apply PathEscape_no_slash|apply PathEscape_no_slash|done].
Qed.

Definition release_net : Z → Exchange := λ _, MkExchange None (Response 404 "" "" None) None.

Lemma github_request_names_repository_witness :
  let ref := "gomod:github.com/acme/tool/v2/sub" in
  let i := GithubNew (MkGithubConfig "" "" "") in
  ∃ owner repo p q, points_at ref owner repo ∧
    "https://api.github.com/repos/acme/tool/releases/latest"
      = "https://api.github.com/repos/" +:+ p +:+ "/" +:+ q +:+ "/releases/latest".
Proof.
  cbn zeta. set (i := GithubNew (MkGithubConfig "" "" "")).
  assert (Sent "https://api.github.com/repos/acme/tool/releases/latest" (Client_Header (gh_client i)) ∈
    (GithubIngest no_url_error i "gomod:github.com/acme/tool/v2/sub" release_net).2) as Hsent.
  { apply list_elem_of_lookup. exists 0. vm_compute. reflexivity. }
  destruct (github_request_names_repository no_url_error i _ release_net _ _ Hsent)
    as (owner & repo & p & q & Hpoints & Hurl & _).
  exists owner, repo, p, q. split; [exact Hpoints|exact Hurl].
Defined.
