(* ===== verification/PgColumns.v ===== *)
(** * JSON columns of the Postgres backend

    src/engine/internal/storage/postgres/storage.go, the part that turns
    domain values into JSON documents and back: [marshalJSON],
    [unmarshalJSON], [iocBody] and the columns written with them. The
    database's jsonb type and the decimal text of a float64 are parameters:
    [jsonb t] is the text that is read back after [t] was stored, or [None]
    when the server refuses [t]. What is assumed of it is what Postgres
    documents: a document comes back as the same value, up to white space,
    the order and the duplicates of object keys and the spelling of numbers;
    NUL characters and very deep nesting are refused. A nil map or slice and
    an empty one are one value here and come back as one. *)

From S2P Require Import Prelude GoStrings GoText Json JsonEncode GoTime Domain GoJson Native GithubIngestor.
From stdpp Require Import options.

Class FloatText := {
  float_text : string → string;      (* of a float64 that was decoded from this text *)
  hours_text : Z → string;           (* of the [Hours] of a duration *)
  float_text_ok t : json_number (float_text t) = true;
  hours_text_ok n : json_number (hours_text n) = true;
}.

Class Jsonb := { jsonb : string → option string }.

(** ** Documents as values *)

(** The value of a document: members in the order of their keys, the last of
    each key, numbers without their spelling. *)
Fixpoint json_norm (v : json) : json :=
  match v with
  | JNumber _ => JNumber ""
  | JArray elems => JArray (map json_norm elems)
  | JObject members =>
      marshal_map (list_to_map (reverse (map (λ kv, (kv.1, json_norm kv.2)) members)))
  | _ => v
  end.

Fixpoint unique_keys (v : json) : bool :=
  match v with
  | JArray elems => forallb unique_keys elems
  | JObject members =>
      bool_decide (NoDup (map fst members)) && forallb (λ kv, unique_keys kv.2) members
  | _ => true
  end.

Definition NUL : ascii := ascii_of_N 0.

Fixpoint nul_free (v : json) : bool :=
  match v with
  | JString s => negb (byte_in NUL s)
  | JArray elems => forallb nul_free elems
  | JObject members => forallb (λ kv, negb (byte_in NUL kv.1) && nul_free kv.2) members
  | _ => true
  end.

Class JsonbLaws `{Jsonb} := {
  (** A stored document is read back as the same value. *)
  jsonb_value t t' v : jsonb t = Some t' → json_parse t = Some v →
    ∃ v', json_parse t' = Some v' ∧ json_norm v' = json_norm v ∧
      unique_keys v' = true ∧ nul_free v' = true;
  (** The server's stack does not take deeper nesting than encoding/json. *)
  jsonb_depth v t' : numbers_ok v = true → jsonb (encode v) = Some t' →
    (depth v ≤ maxNestingDepth)%Z;
}.

(** ** Values of type any *)

Section any.
Context `{FloatText}.

Fixpoint json_of_any (a : any) : json :=
  match a with
  | ANil => JNull
  | ABool b => JBool b
  | AInt z => json_int z
  | AFloat t => JNumber (float_text t)
  | AHours n => JNumber (hours_text n)
  | AString s => JString s
  | AStrings l => json_strings l
  | AList l => JArray (map json_of_any l)
  | AObject ms => marshal_map (list_to_map (reverse (map (λ kv, (kv.1, json_of_any kv.2)) ms)))
  end.
End any.

(** ** The columns *)

Definition set_Maintainer (name : string) (m : Maintainer) (v : json) : option Maintainer :=
  let '(MkMaintainer email nm user) := m in
  if String.eqb name "email" then x ← decode_string email v; Some (MkMaintainer x nm user)
  else if String.eqb name "name" then x ← decode_string nm v; Some (MkMaintainer email x user)
  else x ← decode_string user v; Some (MkMaintainer email nm x).

Definition decode_Maintainer : Maintainer → json → option Maintainer :=
  decode_struct ["email"; "name"; "username"] set_Maintainer.

Definition decode_maintainers (old : list Maintainer) (v : json) : option (list Maintainer) :=
  decode_slice decode_Maintainer (MkMaintainer "" "" "") old v.

(** [json:"name,omitempty"] of a string. *)
Definition omit_empty_text (name s : string) : list (string * json) :=
  if bool_decide (s = "") then [] else [(name, JString s)].

Definition maintainer_json (m : Maintainer) : json :=
  JObject (omit_empty_text "email" (Maintainer_Email m) ++ omit_empty_text "name" (Maintainer_Name m)
           ++ omit_empty_text "username" (Maintainer_Username m)).

Definition annotations_json (m : gmap string string) : json := marshal_map (JString <$> m).
Definition maintainers_json (l : list Maintainer) : json :=
  if bool_decide (l = []) then JNull else JArray (maintainer_json <$> l).

Section object.
Context `{FloatText}.
Definition object_json (m : gmap string any) : json := marshal_map (json_of_any <$> m).
End object.

(** ** The body of an IoC *)

Definition version_json (b : IoCPackageVersion) : json := JObject [
  ("Name", JString (IoCPackageVersion_Name b)); ("Version", JString (IoCPackageVersion_Version b));
  ("PURL", JString (IoCPackageVersion_PURL b))].

Definition range_json (b : IoCPackageRange) : json := JObject [
  ("Name", JString (IoCPackageRange_Name b)); ("Constraint", JString (IoCPackageRange_Constraint b))].

(** [Time.MarshalJSON]. *)
Definition time_json (t : Time) : option json := JString <$> format_rfc3339 t.

Definition publisher_json (p : Publisher) : option json :=
  first ← time_json (Publisher_FirstSeen p); last ← time_json (Publisher_LastSeen p);
  Some (JObject [("Ecosystem", JString (Publisher_Ecosystem p)); ("Name", JString (Publisher_Name p));
    ("FirstSeen", first); ("LastSeen", last)]).

Section bodies.
Context `{FloatText}.

Definition signal_json (s : PublisherSignal) : option json :=
  publisher ← publisher_json (PublisherSignal_Publisher s);
  at_ ← time_json (PublisherSignal_DetectedAt s);
  Some (JObject [("Type", JString (PublisherSignal_Type s)); ("Publisher", publisher);
    ("Package", from_option package_json JNull (PublisherSignal_Package s));
    ("Severity", JString (PublisherSignal_Severity s));
    ("Description", JString (PublisherSignal_Description s));
    ("Evidence", object_json (PublisherSignal_Evidence s)); ("DetectedAt", at_)]).

Definition publisher_anomaly_json (b : IoCPublisherAnomaly) : option json :=
  signals ← mapM signal_json (IoCPublisherAnomaly_Signals b);
  Some (JObject [("PublisherName", JString (IoCPublisherAnomaly_PublisherName b));
    ("Signals", if bool_decide (signals = []) then JNull else JArray signals)]).

Definition anomaly_body_json (b : IoCBodyAnomaly) : json := JObject [
  ("Kind", JString (IoCBodyAnomaly_Kind b)); ("Confidence", JString (IoCBodyAnomaly_Confidence b));
  ("Explanation", JString (IoCBodyAnomaly_Explanation b));
  ("PackageRef", JString (IoCBodyAnomaly_PackageRef b));
  ("Evidence", object_json (IoCBodyAnomaly_Evidence b))].

(** [omitempty] of a pointer. *)
Definition omit_nil (name : string) (v : option json) : list (string * json) :=
  from_option (λ v, [(name, v)]) [] v.

(** [json.Marshal] of the [iocBody]. *)
Definition iocBody_json (i : IoC) : option json :=
  publisher ← match IoC_PublisherAnomaly i with
              | None => Some None
              | Some b => Some <$> publisher_anomaly_json b
              end;
  Some (JObject (omit_nil "packageVersion" (version_json <$> IoC_PackageVersion i)
    ++ omit_nil "packageRange" (range_json <$> IoC_PackageRange i)
    ++ omit_nil "publisherAnomaly" publisher
    ++ omit_nil "anomalyBody" (anomaly_body_json <$> IoC_AnomalyBody i))).
End bodies.

Definition set_version (name : string) (b : IoCPackageVersion) (v : json) : option IoCPackageVersion :=
  let '(MkIoCPackageVersion nm ver purl) := b in
  if String.eqb name "Name" then x ← decode_string nm v; Some (MkIoCPackageVersion x ver purl)
  else if String.eqb name "Version" then x ← decode_string ver v; Some (MkIoCPackageVersion nm x purl)
  else x ← decode_string purl v; Some (MkIoCPackageVersion nm ver x).

Definition decode_version : IoCPackageVersion → json → option IoCPackageVersion :=
  decode_struct ["Name"; "Version"; "PURL"] set_version.

Definition set_range (name : string) (b : IoCPackageRange) (v : json) : option IoCPackageRange :=
  let '(MkIoCPackageRange nm c) := b in
  if String.eqb name "Name" then x ← decode_string nm v; Some (MkIoCPackageRange x c)
  else x ← decode_string c v; Some (MkIoCPackageRange nm x).

Definition decode_range : IoCPackageRange → json → option IoCPackageRange :=
  decode_struct ["Name"; "Constraint"] set_range.

Definition set_publisher (name : string) (p : Publisher) (v : json) : option Publisher :=
  let '(MkPublisher eco nm first last) := p in
  if String.eqb name "Ecosystem" then x ← decode_string eco v; Some (MkPublisher x nm first last)
  else if String.eqb name "Name" then x ← decode_string nm v; Some (MkPublisher eco x first last)
  else if String.eqb name "FirstSeen" then x ← decode_time first v; Some (MkPublisher eco nm x last)
  else x ← decode_time last v; Some (MkPublisher eco nm first x).

Definition decode_publisher : Publisher → json → option Publisher :=
  decode_struct ["Ecosystem"; "Name"; "FirstSeen"; "LastSeen"] set_publisher.

Definition set_signal (name : string) (s : PublisherSignal) (v : json) : option PublisherSignal :=
  let '(MkPublisherSignal ty pub pkg sev desc ev at_) := s in
  if String.eqb name "Type" then x ← decode_string ty v; Some (MkPublisherSignal x pub pkg sev desc ev at_)
  else if String.eqb name "Publisher" then
    x ← decode_publisher pub v; Some (MkPublisherSignal ty x pkg sev desc ev at_)
  else if String.eqb name "Package" then
    x ← decode_pointer decode_PackageVersion zero_PackageVersion pkg v;
    Some (MkPublisherSignal ty pub x sev desc ev at_)
  else if String.eqb name "Severity" then x ← decode_string sev v; Some (MkPublisherSignal ty pub pkg x desc ev at_)
  else if String.eqb name "Description" then
    x ← decode_string desc v; Some (MkPublisherSignal ty pub pkg sev x ev at_)
  else if String.eqb name "Evidence" then
    x ← decode_any_map ev v; Some (MkPublisherSignal ty pub pkg sev desc x at_)
  else x ← decode_time at_ v; Some (MkPublisherSignal ty pub pkg sev desc ev x).

Definition zero_signal : PublisherSignal := MkPublisherSignal "" (MkPublisher "" "" 0 0) None "" "" ∅ 0.

Definition decode_signal : PublisherSignal → json → option PublisherSignal :=
  decode_struct ["Type"; "Publisher"; "Package"; "Severity"; "Description"; "Evidence"; "DetectedAt"] set_signal.

Definition set_publisher_anomaly (name : string) (b : IoCPublisherAnomaly) (v : json) :
    option IoCPublisherAnomaly :=
  let '(MkIoCPublisherAnomaly nm signals) := b in
  if String.eqb name "PublisherName" then x ← decode_string nm v; Some (MkIoCPublisherAnomaly x signals)
  else x ← decode_slice decode_signal zero_signal signals v; Some (MkIoCPublisherAnomaly nm x).

Definition decode_publisher_anomaly : IoCPublisherAnomaly → json → option IoCPublisherAnomaly :=
  decode_struct ["PublisherName"; "Signals"] set_publisher_anomaly.

Definition set_anomaly_body (name : string) (b : IoCBodyAnomaly) (v : json) : option IoCBodyAnomaly :=
  let '(MkIoCBodyAnomaly kind conf expl ref ev) := b in
  if String.eqb name "Kind" then x ← decode_string kind v; Some (MkIoCBodyAnomaly x conf expl ref ev)
  else if String.eqb name "Confidence" then x ← decode_string conf v; Some (MkIoCBodyAnomaly kind x expl ref ev)
  else if String.eqb name "Explanation" then x ← decode_string expl v; Some (MkIoCBodyAnomaly kind conf x ref ev)
  else if String.eqb name "PackageRef" then x ← decode_string ref v; Some (MkIoCBodyAnomaly kind conf expl x ev)
  else x ← decode_any_map ev v; Some (MkIoCBodyAnomaly kind conf expl ref x).

Definition decode_anomaly_body : IoCBodyAnomaly → json → option IoCBodyAnomaly :=
  decode_struct ["Kind"; "Confidence"; "Explanation"; "PackageRef"; "Evidence"] set_anomaly_body.

(** The four pointers of an [iocBody]. *)
Record iocBody := MkIocBody {
  body_PackageVersion : option IoCPackageVersion;
  body_PackageRange : option IoCPackageRange;
  body_PublisherAnomaly : option IoCPublisherAnomaly;
  body_AnomalyBody : option IoCBodyAnomaly;
}.

Definition zero_iocBody : iocBody := MkIocBody None None None None.

Definition set_iocBody (name : string) (b : iocBody) (v : json) : option iocBody :=
  let '(MkIocBody pv pr pa ab) := b in
  if String.eqb name "packageVersion" then
    x ← decode_pointer decode_version (MkIoCPackageVersion "" "" "") pv v; Some (MkIocBody x pr pa ab)
  else if String.eqb name "packageRange" then
    x ← decode_pointer decode_range (MkIoCPackageRange "" "") pr v; Some (MkIocBody pv x pa ab)
  else if String.eqb name "publisherAnomaly" then
    x ← decode_pointer decode_publisher_anomaly (MkIoCPublisherAnomaly "" []) pa v; Some (MkIocBody pv pr x ab)
  else
    x ← decode_pointer decode_anomaly_body (MkIoCBodyAnomaly "" "" "" "" ∅) ab v; Some (MkIocBody pv pr pa x).

Definition decode_iocBody : iocBody → json → option iocBody :=
  decode_struct ["packageVersion"; "packageRange"; "publisherAnomaly"; "anomalyBody"] set_iocBody.

(** ** Reading a column *)

(** [unmarshalJSON]: an empty object leaves the variable alone. *)
Definition unmarshalJSON {A} (decode : A → json → option A) (zero : A) (b : string) : result A :=
  if bool_decide (b = "") || String.eqb b "{}" then Ok zero
  else match Unmarshal decode zero b with
       | Ok x => Ok x
       | Err e => Err (EWrap "postgres: unmarshal json: %w" [] e)
       end.

(** * Properties *)

(** ** Objects up to order *)

#[global] Instance marshal_map_inj : Inj (=) (=) marshal_map.
Proof.
  intros m m' Heq. destruct (marshal_map_perm m) as (l & Hl & Hp), (marshal_map_perm m') as (l' & Hl' & Hp').
  rewrite Heq in Hl. rewrite Hl in Hl'. injection Hl' as ->. apply map_to_list_inj. by rewrite <- Hp, Hp'.
Qed.

Definition norm_member (kv : string * json) : string * json := (kv.1, json_norm kv.2).

Lemma json_norm_object ms :
  json_norm (JObject ms) = marshal_map (list_to_map (reverse (norm_member <$> ms))).
Proof. done. Qed.

Lemma norm_keys ms : (norm_member <$> ms).*1 = ms.*1.
Proof. induction ms as [|[] ms IH]; [done|]. rewrite !fmap_cons. by f_equal. Qed.

(** A value equal to an object up to order is an object whose members are,
    key by key, equal to members of that object. *)
Lemma norm_object v ms :
  json_norm v = json_norm (JObject ms) → unique_keys v = true →
  ∃ ms', v = JObject ms' ∧ NoDup ms'.*1 ∧
    (∀ k e', (k, e') ∈ ms' → ∃ e, (k, e) ∈ ms ∧ json_norm e' = json_norm e ∧ unique_keys e' = true) ∧
    (∀ k, k ∈ ms'.*1 ↔ k ∈ ms.*1).
Proof.
  intros Hn Hu. destruct v as [| | | | |ms']; try done. exists ms'. split; [done|].
  rewrite !json_norm_object in Hn. apply (inj marshal_map) in Hn.
  simpl in Hu. apply andb_true_iff in Hu as [Hnd%bool_decide_eq_true Hu].
  change (NoDup ms'.*1) in Hnd. split; [exact Hnd|]. split.
  - intros k e' Hin.
    assert (list_to_map (M := gmap string json) (reverse (norm_member <$> ms')) !! k = Some (json_norm e')) as Hl.
    { apply elem_of_list_to_map_1.
      - by rewrite fmap_reverse, norm_keys, reverse_Permutation.
      - rewrite elem_of_reverse. by apply (list_elem_of_fmap_2 norm_member ms' (k, e')). }
    rewrite Hn in Hl. apply elem_of_list_to_map_2 in Hl.
    rewrite elem_of_reverse in Hl. apply list_elem_of_fmap in Hl as ([k2 e] & Heq & Hin2).
    injection Heq as -> Heq. exists e. split_and!; [done|done|].
    rewrite forallb_forall in Hu. by apply (Hu (k2, e')), list_elem_of_In.
  - intros k. rewrite <- (norm_keys ms'), <- (norm_keys ms).
    assert (∀ l : list (string * json), k ∈ l.*1 ↔ is_Some (list_to_map (M := gmap string json) (reverse l) !! k)) as Hk.
    { intros l. rewrite <- elem_of_dom, dom_list_to_map_L, elem_of_list_to_set, fmap_reverse, elem_of_reverse. done. }
    by rewrite !Hk, Hn.
Qed.

Lemma norm_string v s : json_norm v = JString s → v = JString s.
Proof. by destruct v. Qed.

Lemma norm_null v : json_norm v = JNull → v = JNull.
Proof. by destruct v. Qed.

Lemma norm_array v es :
  json_norm v = json_norm (JArray es) → unique_keys v = true →
  ∃ es', v = JArray es' ∧ Forall2 (λ e' e, json_norm e' = json_norm e ∧ unique_keys e' = true) es' es.
Proof.
  destruct v as [| | | |es'|]; try done. intros [= Hn] Hu. exists es'. split; [done|].
  simpl in Hu. revert es Hn Hu. induction es' as [|e' es' IH]; intros [|e es]; simpl; try done.
  intros [= He Hes] [Hu1 Hu2]%andb_true_iff. constructor; [done|]. by apply IH.
Qed.

(** ** Decoding does not depend on the order of members *)

Section structs.
Context {A : Type} (names : list string) (set : string → A → json → option A).

Definition decode_member (acc : option A) (kv : string * json) : option A :=
  let '(k, e) := kv in
  x ← acc; match select_field names k with Some n => set n x e | None => Some x end.

(** [P done x]: what is known of the variable once the members with the
    keys [done] are stored. *)
Lemma decode_struct_inv (P : list string → A → Prop) ms old :
  NoDup ms.*1 → P [] old →
  (∀ seen k e x, (k, e) ∈ ms → k ∉ seen → P seen x →
     match select_field names k with
     | Some n => ∃ y, set n x e = Some y ∧ P (k :: seen) y
     | None => P (k :: seen) x
     end) →
  ∃ y seen, decode_struct names set old (JObject ms) = Some y ∧ P seen y ∧ (∀ k, k ∈ seen ↔ k ∈ ms.*1).
Proof.
  intros Hnd HP Hstep.
  change (decode_struct names set old (JObject ms)) with (foldl decode_member (Some old) ms).
  assert (∀ l x seen, l ⊆ ms → NoDup l.*1 → (∀ k, k ∈ l.*1 → k ∉ seen) → P seen x →
    ∃ y seen', foldl decode_member (Some x) l = Some y ∧ P seen' y ∧
      (∀ k, k ∈ seen' ↔ k ∈ seen ∨ k ∈ l.*1)) as Hgen.
  { induction l as [|[k e] l IH]; intros x seen Hsub Hndl Hdis HPx; simpl.
    { exists x, seen. split_and!; [done..|]. set_solver. }
    rewrite fmap_cons in *. apply NoDup_cons in Hndl as [Hk Hndl]. simpl in *.
    assert (∃ y, match select_field names k with Some n => set n x e | None => Some x end = Some y ∧
      P (k :: seen) y) as (y & Hy & HPy).
    { assert ((k, e) ∈ ms) as Hin by (apply Hsub; by left). assert (k ∉ seen) as Hns by (apply Hdis; by left).
      specialize (Hstep seen k e x Hin Hns HPx). destruct (select_field names k); [exact Hstep|by exists x]. }
    rewrite Hy. destruct (IH y (k :: seen)) as (z & seen' & Hz & HPz & Hs); [|done| |done|].
    { intros z Hz. apply Hsub. by right. }
    { intros k' Hk' [->|Hin]%elem_of_cons; [done|]. apply (Hdis k'); [by right|done]. }
    exists z, seen'. split_and!; [done..|]. intros k'. rewrite Hs. set_solver. }
  destruct (Hgen ms old []) as (y & seen & Hy & HPy & Hs); [done|done|by intros k _ ?%not_elem_of_nil|done|].
  exists y, seen. split_and!; [done..|]. intros k. rewrite Hs. set_solver.
Qed.

Lemma decode_struct_total ms old :
  (∀ k e n x, (k, e) ∈ ms → select_field names k = Some n → is_Some (set n x e)) →
  is_Some (decode_struct names set old (JObject ms)).
Proof.
  intros Hall. change (decode_struct names set old (JObject ms)) with (foldl decode_member (Some old) ms).
  revert old. induction ms as [|[k e] ms IH]; intros old; simpl; [done|].
  assert (∃ y, match select_field names k with Some n => set n old e | None => Some old end = Some y) as [y ->].
  { destruct (select_field names k) eqn:E; [|by eexists]. destruct (Hall k e s old ltac:(by left) E). by eexists. }
  apply IH. intros k' e' n x Hin. apply Hall. by right.
Qed.
End structs.
