(* ===== verification/PgDecode.v ===== *)
(** * What is read back from a JSON column

    The documents the Postgres backend writes are documents the database
    may store, and every document it stores can be read: a decoder of
    PgColumns.v succeeds on whatever the database returns for a document
    that the encoder wrote. What the matcher reads of an IoC comes back as
    it was written. *)

From S2P Require Import Prelude GoStrings GoText Json JsonEncode JsonShape GoTime Domain GoJson Storage Native GithubIngestor PgColumns.
From stdpp Require Import options.

(** ** Texts *)

Lemma sanitize_ascii s : str_forallb is_ascii s = true → sanitize_string s = s.
Proof.
  unfold sanitize_string. induction s as [|a s IH]; [done|]. simpl. intros [Ha Hs]%andb_true_iff.
  rewrite Ha, fmap_cons. simpl. rewrite Ha. change (String a (concat_str (write_rune <$> runes s)) = String a s).
  by rewrite IH.
Qed.

Lemma plain_ascii s : plain s = true → str_forallb is_ascii s = true.
Proof.
  unfold plain. induction s as [|a s IH]; [done|]. simpl. intros [Ha Hs]%andb_true_iff.
  rewrite (proj1 (plain_byte a Ha)). by apply IH.
Qed.

Lemma sanitize_plain s : plain s = true → sanitize_string s = s.
Proof. intros H. by apply sanitize_ascii, plain_ascii. Qed.

(** An ASCII byte cuts a valid text into valid texts. *)
Lemma ascii_no_cont c : is_ascii c = true →
  is_cont c = false ∧ (∀ a, lead3 a c = false) ∧ (∀ a, lead4 a c = false).
Proof.
  intros Hc. assert (N_of_ascii c < 128)%N as Hlt by (by apply bool_decide_eq_true in Hc).
  assert (∀ lo hi, (128 ≤ lo)%N → byte_between lo hi c = false) as Hb.
  { intros lo hi Hlo. unfold byte_between. apply andb_false_iff. left. apply N.leb_gt. lia. }
  unfold lead3, lead4, is_cont. split_and!; intros; rewrite ?Hb by lia; by rewrite ?andb_false_r.
Qed.

Lemma runes_ascii a s : is_ascii a = true → runes (String a s) = byte1 a :: runes s.
Proof. intros Ha. simpl. by rewrite Ha. Qed.

(** An ASCII byte separates runes. *)
Lemma runes_cut c t : is_ascii c = true → ∀ s, runes (s +:+ String c t) = runes s ++ byte1 c :: runes t.
Proof.
  intros Hc. destruct (ascii_no_cont c Hc) as (Hcont & H3 & H4).
  intros s. remember (String.length s) as n eqn:Hn. revert s Hn. induction (lt_wf n) as [n _ IHn]. intros s ->.
  assert (∀ s', String.length s' < String.length s → runes (s' +:+ String c t) = runes s' ++ byte1 c :: runes t) as IH.
  { intros s' Hlt. by apply (IHn _ Hlt). }
  clear IHn. destruct s as [|a s1]; [by apply runes_ascii|].
  destruct (is_ascii a) eqn:Ha; [rewrite string_app_cons, !runes_ascii by done; by rewrite IH by (simpl; lia)|].
  assert (∀ s, runes (String a s) = match s with
    | "" => byte1 a :: runes s
    | String b s2 => if lead2 a && is_cont b then byte2 a b :: runes s2
      else match s2 with
           | "" => byte1 a :: runes s
           | String c s3 => if lead3 a b && is_cont c then byte3 a b c :: runes s3
             else match s3 with
                  | "" => byte1 a :: runes s
                  | String d s4 => if lead4 a b && is_cont c && is_cont d then byte4 a b c d :: runes s4
                                   else byte1 a :: runes s
                  end end end) as Hr.
  { intros s. cbn [runes]. by rewrite Ha. }
  rewrite string_app_cons, !Hr. destruct s1 as [|b s2].
  { change ("" +:+ String c t) with (String c t); cbv beta iota. rewrite Hcont, H3, H4, andb_false_r. cbn [andb].
    rewrite (runes_ascii c) by done. by destruct t as [|? []]. }
  rewrite string_app_cons; cbv beta iota. destruct (lead2 a && is_cont b); [by rewrite IH by (simpl; lia)|].
  destruct s2 as [|x s3].
  { change ("" +:+ String c t) with (String c t); cbv beta iota. rewrite Hcont, andb_false_r. 
    rewrite andb_false_r. cbn [andb].
    change (String b (String c t)) with (String b "" +:+ String c t). rewrite IH by (simpl; lia). by destruct t. }
  rewrite string_app_cons; cbv beta iota. destruct (lead3 a b && is_cont x); [by rewrite IH by (simpl; lia)|].
  destruct s3 as [|y s4].
  { change ("" +:+ String c t) with (String c t); cbv beta iota. rewrite Hcont, andb_false_r.
    change (String b (String x (String c t))) with (String b (String x "") +:+ String c t). by rewrite IH by (simpl; lia). }
  rewrite string_app_cons; cbv beta iota. destruct (lead4 a b && is_cont x && is_cont y); [by rewrite IH by (simpl; lia)|].
  rewrite <- !string_app_cons. by rewrite IH by (simpl; lia).
Qed.

Lemma write_rune_length r : String.length r ≤ String.length (write_rune r).
Proof. destruct r as [|a [|]]; simpl; try lia. destruct (is_ascii a); simpl; lia. Qed.

Lemma concat_runes : ∀ s, concat_str (runes s) = s.
Proof.
  fix IH 1. intros [|a s1]; [done|]. cbn [runes].
  assert (concat_str (byte1 a :: runes s1) = String a s1) as H1.
  { change (String a (concat_str (runes s1)) = String a s1). by rewrite IH. }
  destruct (is_ascii a); [done|]. destruct s1 as [|b s2]; [done|].
  destruct (lead2 a && is_cont b).
  { change (String a (String b (concat_str (runes s2))) = String a (String b s2)). by rewrite IH. }
  destruct s2 as [|c s3]; [done|]. destruct (lead3 a b && is_cont c).
  { change (String a (String b (String c (concat_str (runes s3)))) = String a (String b (String c s3))). by rewrite IH. }
  destruct s3 as [|d s4]; [done|]. destruct (lead4 a b && is_cont c && is_cont d); [|done].
  change (String a (String b (String c (String d (concat_str (runes s4))))) = String a (String b (String c (String d s4)))).
  by rewrite IH.
Qed.

Lemma sanitize_length s : String.length s ≤ String.length (sanitize_string s).
Proof.
  rewrite <- (concat_runes s) at 1. unfold sanitize_string. induction (runes s) as [|r rs IH]; [done|].
  rewrite fmap_cons. change (String.length (r +:+ concat_str rs) ≤
    String.length (write_rune r +:+ concat_str (write_rune <$> rs))).
  rewrite !str_length_app. pose proof (write_rune_length r). lia.
Qed.

Lemma concat_str_app l k : concat_str (l ++ k) = concat_str l +:+ concat_str k.
Proof.
  induction l as [|r l IH]; [done|]. change (r +:+ concat_str (l ++ k) = (r +:+ concat_str l) +:+ concat_str k).
  by rewrite IH, str_app_assoc.
Qed.

Lemma sanitize_cut c s t : is_ascii c = true →
  sanitize_string (s +:+ String c t) = sanitize_string s +:+ String c (sanitize_string t).
Proof.
  intros Hc. unfold sanitize_string. rewrite runes_cut by done. rewrite fmap_app, concat_str_app. f_equal.
  rewrite fmap_cons. simpl write_rune. by rewrite Hc.
Qed.

Lemma str_app_split (s s' t t' : string) : String.length s = String.length s' →
  s +:+ t = s' +:+ t' → s = s' ∧ t = t'.
Proof.
  revert s'. induction s as [|a s IH]; intros [|b s'] Hl; try done. rewrite !string_app_cons.
  intros [= -> Heq]. simpl in Hl. destruct (IH s' ltac:(lia) Heq) as [-> ->]. done.
Qed.

Lemma sanitize_cut_inv c s t : is_ascii c = true →
  sanitize_string (s +:+ String c t) = s +:+ String c t → sanitize_string s = s ∧ sanitize_string t = t.
Proof.
  intros Hc Heq. rewrite sanitize_cut in Heq by done.
  pose proof (sanitize_length s) as Hs. pose proof (sanitize_length t) as Ht.
  pose proof (f_equal String.length Heq) as Hlen. rewrite !str_length_app in Hlen. simpl in Hlen.
  apply str_app_split in Heq as [? [= ?]]; [done|lia].
Qed.

(** ** Timestamps *)

Lemma digits_plain s : str_forallb is_digit s = true → plain s = true.
Proof.
  unfold plain. induction s as [|a s IH]; [done|]. simpl. intros [Ha Hs]%andb_true_iff.
  rewrite IH by done. rewrite andb_true_r. revert Ha. unfold is_digit, byte_between.
  rewrite !andb_true_iff, !N.leb_le. lia.
Qed.

Lemma fixed_digits_plain w n : plain (fixed_digits w n) = true.
Proof. apply digits_plain, fixed_digits_all. Qed.

Lemma TrimRight_plain s c : plain s = true → plain (TrimRight s c) = true.
Proof.
  induction s as [|a s IH]; [done|]. rewrite plain_cons. intros [Ha Hs]%andb_true_iff. simpl.
  specialize (IH Hs). destruct (TrimRight s c) as [|b t]; [case_bool_decide; [done|]|];
    rewrite !plain_cons in *; by rewrite Ha.
Qed.

Lemma format_civil_plain c : plain (format_civil c) = true.
Proof.
  unfold format_civil, format_fraction. rewrite !plain_app, !fixed_digits_plain. cbn [andb].
  case_bool_decide; [done|]. rewrite plain_app, TrimRight_plain by apply fixed_digits_plain. done.
Qed.

Lemma HasSuffix_app s t : HasSuffix (s +:+ t) t = true.
Proof.
  unfold HasSuffix. rewrite str_length_app, Nat.add_sub, str_drop_app.
  rewrite !bool_decide_eq_true_2 by (done || lia). done.
Qed.

Lemma digit_char_ne n c : is_digit c = false → String.eqb (byte1 (digit_char n)) (byte1 c) = false.
Proof.
  intros Hc. apply String.eqb_neq. intros [= Heq]. rewrite <- Heq in Hc. by rewrite (proj1 (digit_char_val n)) in Hc.
Qed.

Lemma format_civil_strict c : strict_rfc3339 (format_civil c) = true.
Proof.
  unfold strict_rfc3339.
  assert (HasSuffix (format_civil c) "Z" = true) as ->.
  { unfold format_civil. rewrite <- !str_app_assoc. apply HasSuffix_app. }
  change (str_byte (format_civil c) 12) with (byte1 (digit_char (c_hour c))).
  change (str_byte (format_civil c) 19) with (str_byte (format_fraction (c_nsec c) +:+ "Z") 0).
  rewrite (digit_char_ne _ ":"%char) by done. unfold format_fraction. by case_bool_decide.
Qed.

Lemma decode_time_format old t s : format_rfc3339 t = Some s →
  decode_time old (JString (sanitize_string s)) = Some t.
Proof.
  intros Hs. pose proof (rfc3339_roundtrip t s Hs) as Hp. revert Hs. unfold format_rfc3339.
  case_bool_decide; [|done]. intros [= <-]. rewrite sanitize_plain by apply format_civil_plain.
  simpl. rewrite Hp. simpl. by rewrite format_civil_strict.
Qed.

(** ** Documents the database returns *)

(** [v']: what is read back of the document [v]. *)
Definition reads_as (v' v : json) : Prop :=
  json_norm v' = json_norm (sanitize v) ∧ unique_keys v' = true.

(** The decoder succeeds on whatever is read back of [v]. *)
Definition readable {A} (dec : A → json → option A) (v : json) : Prop :=
  ∀ v' old, reads_as v' v → is_Some (dec old v').

Lemma reads_as_string v' s : reads_as v' (JString s) → v' = JString (sanitize_string s).
Proof. intros [Hn _]. by apply norm_string. Qed.

Lemma reads_as_null v' : reads_as v' JNull → v' = JNull.
Proof. intros [Hn _]. by apply norm_null. Qed.

Lemma reads_as_array v' es : reads_as v' (JArray es) → ∃ es', v' = JArray es' ∧ Forall2 reads_as es' es.
Proof.
  intros [Hn Hu]. simpl sanitize in Hn.
  destruct (norm_array v' (map sanitize es) Hn Hu) as (es' & -> & Hall). exists es'. split; [done|].
  change (map sanitize es) with (sanitize <$> es) in Hall. by apply Forall2_fmap_r in Hall.
Qed.

Lemma reads_as_object v' ms : reads_as v' (JObject ms) →
  ∃ ms', v' = JObject ms' ∧ NoDup ms'.*1 ∧
    (∀ k' e', (k', e') ∈ ms' → ∃ k e, (k, e) ∈ ms ∧ k' = sanitize_string k ∧ reads_as e' e) ∧
    (∀ k', k' ∈ ms'.*1 ↔ k' ∈ sanitize_string <$> ms.*1).
Proof.
  intros [Hn Hu]. change (sanitize (JObject ms)) with (JObject (sanitize_member <$> ms)) in Hn.
  destruct (norm_object v' _ Hn Hu) as (ms' & -> & Hnd & Hel & Hkeys). exists ms'. split_and!; [done|done| |].
  - intros k' e' (e & ([k e0] & [= -> ->] & Hin)%list_elem_of_fmap & He & Hue)%Hel. by exists k, e0.
  - intros k'. rewrite Hkeys, <- !list_fmap_compose. done.
Qed.

Lemma readable_string s : readable decode_string (JString s).
Proof. intros v' old ->%reads_as_string. by eexists. Qed.

Lemma readable_null {A} (dec : A → json → option A) : (∀ old, is_Some (dec old JNull)) → readable dec JNull.
Proof. intros Hd v' old ->%reads_as_null. apply Hd. Qed.

Lemma readable_time t v : time_json t = Some v → readable decode_time v.
Proof.
  unfold time_json. destruct (format_rfc3339 t) as [s|] eqn:E; [|done]. intros [= <-] v' old ->%reads_as_string.
  rewrite (decode_time_format _ t) by done. by eexists.
Qed.

Lemma readable_struct {A} names (set : string → A → json → option A) ms :
  Forall (λ kv, ∀ n, select_field names (sanitize_string kv.1) = Some n → readable (set n) kv.2) ms →
  readable (decode_struct names set) (JObject ms).
Proof.
  rewrite Forall_forall. intros Hall v' old (ms' & -> & _ & Hel & _)%reads_as_object.
  apply decode_struct_total. intros k' e' n x (k & e & Hin & -> & Hr)%Hel Hn. by apply (Hall (k, e) Hin n Hn).
Qed.

Lemma decode_elems_total {A} (dec : A → json → option A) zero old es' es :
  Forall2 reads_as es' es → Forall (readable dec) es → is_Some (decode_elems dec zero old es').
Proof.
  intros Hall. revert old. induction Hall as [|e' e es' es He _ IH]; intros old Hr; [by eexists|].
  apply Forall_cons in Hr as [Hr Hrs]. simpl. destruct (Hr e' (default zero (head old)) He) as [x ->].
  destruct (IH (tail old) Hrs) as [xs Hxs]. simpl. rewrite Hxs. by eexists.
Qed.

Lemma readable_slice {A} (dec : A → json → option A) zero es :
  Forall (readable dec) es → readable (decode_slice dec zero) (JArray es).
Proof. intros Hr v' old (es' & -> & Hall)%reads_as_array. by apply (decode_elems_total _ _ _ _ es). Qed.

Lemma readable_pointer {A} (dec : A → json → option A) zero v :
  readable dec v → readable (decode_pointer dec zero) v.
Proof.
  intros Hr v' old Hv. destruct (Hr v' (default zero old) Hv) as [x Hx]. unfold decode_pointer.
  destruct v'; try rewrite Hx; by eexists.
Qed.

Lemma readable_bind {A B} (dec : A → json → option A) (get : B → A) (put : A → B → B) v :
  readable dec v → readable (λ old w, x ← dec (get old) w; Some (put x old)) v.
Proof. intros Hr v' old Hv. destruct (Hr v' (get old) Hv) as [x ->]. by eexists. Qed.

(** ** Maps *)

Lemma decode_map_total {A} (dec : json → option A) old ms :
  (∀ k e, (k, e) ∈ ms → is_Some (dec e)) → is_Some (decode_map dec old (JObject ms)).
Proof.
  intros Hall. simpl. apply fmap_is_Some. generalize (default ∅ old). revert Hall.
  induction ms as [|[k e] ms IH]; intros Hall m; [by eexists|]. simpl.
  destruct (Hall k e ltac:(by left)) as [x ->]. simpl. apply IH. intros k' e' Hin. apply (Hall k'). by right.
Qed.

Lemma reads_as_map v' m : reads_as v' (marshal_map m) →
  ∃ ms', v' = JObject ms' ∧ ∀ k' e', (k', e') ∈ ms' → ∃ k e, m !! k = Some e ∧ reads_as e' e.
Proof.
  destruct (marshal_map_perm m) as (l & Hl & Hp). rewrite Hl.
  intros (ms' & -> & _ & Hel & _)%reads_as_object. exists ms'. split; [done|].
  intros k' e' (k & e & Hin & _ & Hr)%Hel. exists k, e. split; [|done].
  apply elem_of_map_to_list. by rewrite <- Hp.
Qed.

Lemma readable_any_map m : readable decode_any_map (marshal_map m).
Proof.
  intros v' old (ms' & -> & _)%reads_as_map. apply fmap_is_Some, decode_map_total. by eexists.
Qed.

Lemma readable_annotations m : readable decode_string_map (annotations_json m).
Proof.
  intros v' old (ms' & -> & Hel)%reads_as_map. apply fmap_is_Some, decode_map_total.
  intros k' e' (k & e & Hk & Hr)%Hel. rewrite lookup_fmap in Hk.
  destruct (m !! k) as [s|]; [|done]. injection Hk as <-. by apply (readable_string s).
Qed.

Lemma numbers_ok_map m :
  (∀ k v, m !! k = Some v → numbers_ok v = true) → numbers_ok (marshal_map m) = true.
Proof.
  intros Hm. destruct (marshal_map_perm m) as (l & -> & Hp). simpl. apply forallb_forall.
  intros [k v] Hin%list_elem_of_In. rewrite Hp, elem_of_map_to_list in Hin. by apply (Hm k).
Qed.

Lemma numbers_ok_annotations m : numbers_ok (annotations_json m) = true.
Proof. apply numbers_ok_map. intros k v. rewrite lookup_fmap. by destruct (m !! k); intros [= <-]. Qed.

(** ** Structs *)

Create HintDb readable.
#[export] Hint Resolve readable_string readable_any_map readable_annotations readable_time : readable.

(** The members of a concrete object, field by field. *)
Ltac readable_field set :=
  intros v' [] Hv; unfold set; cbn [String.eqb Ascii.eqb Bool.eqb]; cbn [snd] in Hv;
  match type of Hv with reads_as _ ?e =>
    match goal with |- is_Some (mbind _ (?dec ?o v')) =>
      let Hr := fresh in assert (readable dec e) as Hr by eauto with readable;
      destruct (Hr v' o Hv) as [? ->]; by eexists
    end end.
Ltac readable_fields set :=
  repeat (apply Forall_cons; split; [intros n Hn; vm_compute in Hn; injection Hn as <-; readable_field set|]);
  by apply Forall_nil.

Lemma readable_strings l : readable (decode_slice decode_string "") (scope_json l).
Proof.
  unfold scope_json. case_bool_decide; [by apply readable_null|]. apply readable_slice.
  apply Forall_fmap, Forall_forall. intros s _. apply readable_string.
Qed.

#[export] Hint Resolve readable_strings : readable.

Lemma readable_PackageVersion p : readable decode_PackageVersion (package_json p).
Proof. apply readable_struct. readable_fields set_PackageVersion. Qed.

Lemma readable_package_pointer zero o :
  readable (decode_pointer decode_PackageVersion zero) (from_option package_json JNull o).
Proof.
  destruct o; [apply readable_pointer, readable_PackageVersion|]. apply readable_null. by eexists.
Qed.
#[export] Hint Resolve readable_package_pointer : readable.

Lemma readable_maintainer m : readable decode_Maintainer (maintainer_json m).
Proof.
  apply readable_struct. unfold omit_empty_text.
  repeat (apply Forall_app; split); case_bool_decide; try apply Forall_nil; try done; readable_fields set_Maintainer.
Qed.

Lemma readable_maintainers l : readable decode_maintainers (maintainers_json l).
Proof.
  unfold maintainers_json. case_bool_decide; [apply readable_null; by eexists|]. apply readable_slice.
  apply Forall_fmap, Forall_forall. intros m _. apply readable_maintainer.
Qed.

Lemma readable_version b : readable decode_version (version_json b).
Proof. apply readable_struct. readable_fields set_version. Qed.

Lemma readable_range b : readable decode_range (range_json b).
Proof. apply readable_struct. readable_fields set_range. Qed.

Lemma readable_publisher p v : publisher_json p = Some v → readable decode_publisher v.
Proof.
  unfold publisher_json. destruct (time_json (Publisher_FirstSeen p)) as [first|] eqn:E1; [|done]. simpl.
  destruct (time_json (Publisher_LastSeen p)) as [last|] eqn:E2; [|done]. intros [= <-].
  apply readable_struct. readable_fields set_publisher.
Qed.
#[export] Hint Resolve readable_publisher : readable.

Section bodies.
Context `{FloatText}.

Lemma readable_object m : readable decode_any_map (object_json m).
Proof. apply readable_any_map. Qed.
Hint Resolve readable_object : readable.

Lemma readable_signal s v : signal_json s = Some v → readable decode_signal v.
Proof.
  unfold signal_json. destruct (publisher_json _) as [pub|] eqn:E1; [|done]. simpl.
  destruct (time_json _) as [at_|] eqn:E2; [|done]. intros [= <-].
  apply readable_struct. readable_fields set_signal.
Qed.

Lemma readable_signals signals vs zero : mapM signal_json signals = Some vs →
  readable (decode_slice decode_signal zero) (if bool_decide (vs = []) then JNull else JArray vs).
Proof.
  intros Hvs. case_bool_decide; [apply readable_null; by eexists|]. apply readable_slice.
  apply mapM_Some_1 in Hvs. induction Hvs; constructor; [by eapply readable_signal|].
  destruct l'; [constructor|]. by apply IHHvs.
Qed.
Hint Resolve readable_signals : readable.

Lemma readable_publisher_anomaly b v : publisher_anomaly_json b = Some v → readable decode_publisher_anomaly v.
Proof.
  unfold publisher_anomaly_json. destruct (mapM _ _) as [vs|] eqn:E; [|done]. intros [= <-].
  apply readable_struct. readable_fields set_publisher_anomaly.
Qed.

Lemma readable_anomaly_body b : readable decode_anomaly_body (anomaly_body_json b).
Proof. apply readable_struct. readable_fields set_anomaly_body. Qed.
End bodies.

(** ** One field of a struct *)

(** A field that only the member [name] sets, to [y] whatever it was. *)
Lemma decode_struct_field {A B} names (set : string → A → json → option A) (get : A → B) name y ms old out :
  select_field names name = Some name →
  (∀ n x e x', n ∈ names → n ≠ name → set n x e = Some x' → get x' = get x) →
  (∀ k e, (k, e) ∈ ms → select_field names k = Some name →
     k = name ∧ ∀ x x', set name x e = Some x' → get x' = y) →
  decode_struct names set old (JObject ms) = Some out →
  get out = if bool_decide (name ∈ ms.*1) then y else get old.
Proof.
  intros Hname Hother Hset. change (decode_struct names set old (JObject ms)) with (foldl (decode_member names set) (Some old) ms).
  revert old. induction ms as [|[k e] ms IH]; intros old; [by intros [= ->]|].
  rewrite fmap_cons. cbn [foldl decode_member mbind option_bind fst].
  assert (∀ k e, (k, e) ∈ ms → select_field names k = Some name →
    k = name ∧ ∀ x x', set name x e = Some x' → get x' = y) as Hset'.
  { intros k' e' Hin. apply Hset. by right. }
  specialize (Hset k e ltac:(by left)). destruct (select_field names k) as [n|] eqn:Ek.
  - destruct (set n old e) as [x|] eqn:Ex.
    2: { intros Hf. exfalso. clear -Hf. by induction ms as [|[] ms IH]. }
    intros Hf. rewrite (IH Hset' x Hf). destruct (decide (n = name)) as [->|Hne].
    + destruct (Hset eq_refl) as [-> Hy]. rewrite (bool_decide_eq_true_2 (name ∈ name :: _)) by (by left).
      case_bool_decide; [done|]. by apply (Hy old).
    + assert (k ≠ name) by congruence. rewrite (Hother n old e x) by (done || by eapply select_field_name).
      rewrite (bool_decide_ext (name ∈ k :: ms.*1) (name ∈ ms.*1)); [done|]. rewrite elem_of_cons. naive_solver.
  - intros Hf. rewrite (IH Hset' old Hf). assert (k ≠ name) by congruence.
    rewrite (bool_decide_ext (name ∈ k :: ms.*1) (name ∈ ms.*1)); [done|]. rewrite elem_of_cons. naive_solver.
Qed.

(** The same for what is read back of a document. *)
Lemma reads_as_field {A B} names (set : string → A → json → option A) (get : A → B) name y ms v' old out :
  reads_as v' (JObject ms) → decode_struct names set old v' = Some out → select_field names name = Some name →
  (∀ n x e x', n ∈ names → n ≠ name → set n x e = Some x' → get x' = get x) →
  (∀ k e, (k, e) ∈ ms → select_field names (sanitize_string k) = Some name →
     sanitize_string k = name ∧ ∀ e' x x', reads_as e' e → set name x e' = Some x' → get x' = y) →
  get out = if bool_decide (name ∈ sanitize_string <$> ms.*1) then y else get old.
Proof.
  intros (ms' & -> & _ & Hel & Hkeys)%reads_as_object Hd Hname Hother Hset.
  rewrite (decode_struct_field names set get name y ms' old out); [|done|done| |done].
  - by rewrite (bool_decide_ext _ _ (Hkeys name)).
  - intros k' e' (k & e & Hin & -> & Hr)%Hel Hk. destruct (Hset k e Hin Hk) as [<- Hy]. split; [done|].
    intros x x'. by apply Hy.
Qed.

(** The other members leave a field alone. *)
Ltac field_frame set :=
  intros n [] e x' Hin Hn; unfold set; rewrite ?elem_of_cons, elem_of_nil in Hin;
  repeat match goal with |- context [String.eqb n ?m] =>
    destruct (String.eqb_spec n m); [subst n; clear Hin; try done|] end; cbv iota;
  try (exfalso; by destruct_or! Hin);
  (match goal with |- mbind _ ?o = _ → _ => destruct o end; simpl; [by intros [= <-]|done]).

(** A text field of a struct that is read back from a concrete object. *)
Ltac text_field set get name Hr Hd :=
  etransitivity; [eapply (reads_as_field _ set get name _ _ _ _ _ Hr Hd); [done|field_frame set|]|done];
  intros k e Hin; rewrite !elem_of_cons, elem_of_nil in Hin; destruct_or! Hin; simplify_eq;
  (intros Hk; vm_compute in Hk; first [discriminate Hk|clear Hk]);
  split; [done|]; intros e' [] x' ->%reads_as_string; unfold set; cbn; by intros [= <-].

Definition sanitize_version (b : IoCPackageVersion) : IoCPackageVersion :=
  MkIoCPackageVersion (sanitize_string (IoCPackageVersion_Name b))
    (sanitize_string (IoCPackageVersion_Version b)) (sanitize_string (IoCPackageVersion_PURL b)).

Definition sanitize_range (b : IoCPackageRange) : IoCPackageRange :=
  MkIoCPackageRange (sanitize_string (IoCPackageRange_Name b)) (sanitize_string (IoCPackageRange_Constraint b)).

Lemma decode_version_exact b v' old : reads_as v' (version_json b) →
  decode_version old v' = Some (sanitize_version b).
Proof.
  intros Hr. destruct (readable_version b v' old Hr) as [out Hd]. rewrite Hd. f_equal.
  assert (IoCPackageVersion_Name out = sanitize_string (IoCPackageVersion_Name b)) as H1.
  { text_field set_version IoCPackageVersion_Name "Name" Hr Hd. }
  assert (IoCPackageVersion_Version out = sanitize_string (IoCPackageVersion_Version b)) as H2.
  { text_field set_version IoCPackageVersion_Version "Version" Hr Hd. }
  assert (IoCPackageVersion_PURL out = sanitize_string (IoCPackageVersion_PURL b)) as H3.
  { text_field set_version IoCPackageVersion_PURL "PURL" Hr Hd. }
  destruct out. simpl in *. by subst.
Qed.

Lemma decode_range_exact b v' old : reads_as v' (range_json b) → decode_range old v' = Some (sanitize_range b).
Proof.
  intros Hr. destruct (readable_range b v' old Hr) as [out Hd]. rewrite Hd. f_equal.
  assert (IoCPackageRange_Name out = sanitize_string (IoCPackageRange_Name b)) as H1.
  { text_field set_range IoCPackageRange_Name "Name" Hr Hd. }
  assert (IoCPackageRange_Constraint out = sanitize_string (IoCPackageRange_Constraint b)) as H2.
  { text_field set_range IoCPackageRange_Constraint "Constraint" Hr Hd. }
  destruct out. simpl in *. by subst.
Qed.

Lemma decode_anomaly_ref `{FloatText} b v' old out : reads_as v' (anomaly_body_json b) →
  decode_anomaly_body old v' = Some out →
  IoCBodyAnomaly_PackageRef out = sanitize_string (IoCBodyAnomaly_PackageRef b).
Proof. intros Hr Hd. text_field set_anomaly_body IoCBodyAnomaly_PackageRef "PackageRef" Hr Hd. Qed.

(** ** The body of an IoC *)

Lemma elem_of_omit_nil k e name v : (k, e) ∈ omit_nil name v ↔ k = name ∧ v = Some e.
Proof. destruct v as [w|]; simpl; [rewrite list_elem_of_singleton|rewrite elem_of_nil]; naive_solver. Qed.

Lemma keys_omit_nil k name v : k ∈ (omit_nil name v).*1 ↔ k = name ∧ is_Some v.
Proof. destruct v; simpl; [rewrite list_elem_of_singleton|rewrite elem_of_nil]; split; naive_solver. Qed.

Lemma reads_as_not_null v' ms : reads_as v' (JObject ms) → v' ≠ JNull.
Proof. by intros (ms' & -> & _)%reads_as_object. Qed.

Lemma decode_pointer_object {A} (dec : A → json → option A) zero old v : v ≠ JNull →
  decode_pointer dec zero old v = Some <$> dec (default zero old) v.
Proof. by destruct v. Qed.

Section iocBody.
Context `{FloatText}.
Hint Resolve readable_pointer readable_version readable_range readable_publisher_anomaly readable_anomaly_body : readable.

Lemma iocBody_members i v : iocBody_json i = Some v → ∃ pub,
  v = JObject (omit_nil "packageVersion" (version_json <$> IoC_PackageVersion i)
    ++ omit_nil "packageRange" (range_json <$> IoC_PackageRange i)
    ++ omit_nil "publisherAnomaly" pub
    ++ omit_nil "anomalyBody" (anomaly_body_json <$> IoC_AnomalyBody i)) ∧
  ∀ w, pub = Some w → ∃ b, publisher_anomaly_json b = Some w.
Proof.
  unfold iocBody_json. destruct (IoC_PublisherAnomaly i) as [b|].
  - destruct (publisher_anomaly_json b) as [w|] eqn:E; [|done]. intros [= <-]. exists (Some w).
    split; [done|]. intros ? [= <-]. by exists b.
  - intros [= <-]. by exists None.
Qed.

Ltac body_member := repeat rewrite elem_of_app; rewrite !elem_of_omit_nil.

Lemma readable_iocBody i v : iocBody_json i = Some v → readable decode_iocBody v.
Proof.
  intros (pub & -> & Hpub)%iocBody_members. apply readable_struct, Forall_forall.
  intros [k e]. body_member. intros Hin n Hn. simpl fst in Hn.
  destruct_or! Hin; destruct Hin as [-> He]; vm_compute in Hn; injection Hn as <-.
  - destruct (IoC_PackageVersion i); [|done]. injection He as <-. readable_field set_iocBody.
  - destruct (IoC_PackageRange i); [|done]. injection He as <-. readable_field set_iocBody.
  - destruct (Hpub e He) as [b Hb]. readable_field set_iocBody.
  - destruct (IoC_AnomalyBody i); [|done]. injection He as <-. readable_field set_iocBody.
Qed.

(** The pointer [get] of the body, which only the member [name] sets, to
    what [y] says of the value that was written. *)
Ltac body_field get name y src Hr Hd :=
  etransitivity; [eapply (reads_as_field _ set_iocBody get name y _ _ _ _ Hr Hd); [done|field_frame set_iocBody|]|];
  [intros k e; body_member; intros Hin Hk; simpl fst in Hk;
   destruct_or! Hin; destruct Hin as [-> He]; vm_compute in Hk; first [discriminate Hk|clear Hk];
   split; [done|]; intros e' [] x' He'; unfold set_iocBody; cbn [String.eqb Ascii.eqb Bool.eqb];
   destruct src; [|done]; injection He as <-;
   rewrite decode_pointer_object by (by eapply reads_as_not_null)
  |case_bool_decide; [reflexivity|]; destruct src; [|done];
   exfalso; match goal with Hk : ¬ _ |- _ => apply Hk end; rewrite !fmap_app; set_solver].

(** What the matcher reads of a body. *)
Lemma decode_iocBody_target i v v' b :
  iocBody_json i = Some v → reads_as v' v → decode_iocBody zero_iocBody v' = Some b →
  body_PackageVersion b = sanitize_version <$> IoC_PackageVersion i ∧
  body_PackageRange b = sanitize_range <$> IoC_PackageRange i ∧
  IoCBodyAnomaly_PackageRef <$> body_AnomalyBody b
    = sanitize_string <$> (IoCBodyAnomaly_PackageRef <$> IoC_AnomalyBody i).
Proof.
  intros (pub & -> & _)%iocBody_members Hr Hd.
  split_and!.
  - body_field body_PackageVersion "packageVersion" (sanitize_version <$> IoC_PackageVersion i) (IoC_PackageVersion i) Hr Hd.
    erewrite decode_version_exact by done. by intros [= <-].
  - body_field body_PackageRange "packageRange" (sanitize_range <$> IoC_PackageRange i) (IoC_PackageRange i) Hr Hd.
    erewrite decode_range_exact by done. by intros [= <-].
  - pose (get b := IoCBodyAnomaly_PackageRef <$> body_AnomalyBody b). change (get b = sanitize_string <$> (IoCBodyAnomaly_PackageRef <$> IoC_AnomalyBody i)).
    body_field get "anomalyBody" (sanitize_string <$> (IoCBodyAnomaly_PackageRef <$> IoC_AnomalyBody i)) (IoC_AnomalyBody i) Hr Hd.
    destruct (decode_anomaly_body _ e') as [out|] eqn:E; [|done]. intros [= <-].
    cbn. f_equal. by eapply decode_anomaly_ref.
Qed.
End iocBody.

(** ** Numbers *)

Section numbers.
Context `{FloatText}.

Lemma strings_numbers l : numbers_ok (json_strings l) = true.
Proof. unfold json_strings. simpl. by induction l. Qed.

Lemma json_of_any_numbers : ∀ a, numbers_ok (json_of_any a) = true.
Proof.
  fix IH 1. intros [| |z|t|n| |l|l|ms]; simpl; try done; [apply json_int_ok|apply float_text_ok|apply hours_text_ok| | |].
  - apply strings_numbers.
  - induction l as [|a l IHl]; [done|]. simpl. by rewrite IH.
  - apply numbers_ok_map.
    assert (Forall (λ kv, numbers_ok (json_of_any kv.2) = true) ms) as Hms.
    { induction ms as [|[k a] ms IHms]; constructor; [apply IH|exact IHms]. }
    intros k v Hv. apply elem_of_list_to_map_2 in Hv. rewrite elem_of_reverse in Hv.
    apply list_elem_of_In, in_map_iff in Hv as ([k' a] & [= <- <-] & Hin%list_elem_of_In).
    rewrite Forall_forall in Hms. by apply (Hms (k', a)).
Qed.

Lemma object_numbers m : numbers_ok (object_json m) = true.
Proof.
  apply numbers_ok_map. intros k v. rewrite lookup_fmap. destruct (m !! k); intros [= <-]. apply json_of_any_numbers.
Qed.

Lemma maintainers_numbers l : numbers_ok (maintainers_json l) = true.
Proof.
  unfold maintainers_json. case_bool_decide; [done|]. simpl. apply forallb_forall.
  intros v (m & <- & _)%in_map_iff. unfold maintainer_json, omit_empty_text. by repeat case_bool_decide.
Qed.

Lemma time_numbers t v : time_json t = Some v → numbers_ok v = true.
Proof. unfold time_json. by destruct (format_rfc3339 t); intros [= <-]. Qed.

Lemma package_numbers p : numbers_ok (package_json p) = true.
Proof.
  cbn [package_json numbers_ok forallb snd andb]. unfold scope_json.
  case_bool_decide; [done|]. by rewrite strings_numbers.
Qed.

Lemma publisher_numbers p v : publisher_json p = Some v → numbers_ok v = true.
Proof.
  unfold publisher_json. destruct (time_json (Publisher_FirstSeen p)) as [first|] eqn:E1; [|done]. simpl.
  destruct (time_json (Publisher_LastSeen p)) as [last|] eqn:E2; [|done]. intros [= <-]. simpl.
  by rewrite (time_numbers _ _ E1), (time_numbers _ _ E2).
Qed.

Lemma signal_numbers s v : signal_json s = Some v → numbers_ok v = true.
Proof.
  unfold signal_json. destruct (publisher_json _) as [pub|] eqn:E1; [|done]. cbn [mbind option_bind].
  destruct (time_json _) as [at_|] eqn:E2; [|done]. intros [= <-]. cbn [numbers_ok forallb snd].
  rewrite (publisher_numbers _ _ E1), (time_numbers _ _ E2), object_numbers.
  destruct (PublisherSignal_Package s); [|done]. cbn [from_option]. by rewrite package_numbers.
Qed.

Lemma publisher_anomaly_numbers b v : publisher_anomaly_json b = Some v → numbers_ok v = true.
Proof.
  unfold publisher_anomaly_json. destruct (mapM _ _) as [vs|] eqn:E; [|done]. intros [= <-]. simpl.
  case_bool_decide; [done|]. simpl. rewrite andb_true_r. apply mapM_Some_1 in E. clear -E.
  induction E; [done|]. simpl. by rewrite (signal_numbers x y).
Qed.

Lemma iocBody_numbers i v : iocBody_json i = Some v → numbers_ok v = true.
Proof.
  intros (pub & -> & Hpub)%iocBody_members. cbn [numbers_ok]. apply forallb_forall.
  intros [k e] Hin%list_elem_of_In. revert Hin. rewrite !elem_of_app, !elem_of_omit_nil. intros Hin.
  destruct_or! Hin; destruct Hin as [-> He]; cbn [snd].
  - destruct (IoC_PackageVersion i); [|done]. by injection He as <-.
  - destruct (IoC_PackageRange i); [|done]. by injection He as <-.
  - destruct (Hpub e He) as [b Hb]. by eapply publisher_anomaly_numbers.
  - destruct (IoC_AnomalyBody i); [|done]. injection He as <-. cbn [anomaly_body_json numbers_ok forallb snd andb].
    by rewrite object_numbers.
Qed.
End numbers.

(** ** Columns *)

Section columns.
Context `{JsonbLaws}.

Lemma column_reads v t : numbers_ok v = true → jsonb (encode v) = Some t →
  ∃ v', json_parse t = Some v' ∧ reads_as v' v ∧ nul_free v' = true.
Proof using Type*.
  intros Hok Ht. assert (json_parse (encode v) = Some (sanitize v)) as Hp.
  { apply json_encode_parse; [done|]. by eapply jsonb_depth. }
  destruct (jsonb_value _ _ _ Ht Hp) as (v' & Hv' & Hn & Hu & Hz). by exists v'.
Qed.

Lemma column_decodes {A} (dec : A → json → option A) zero v t :
  readable dec v → numbers_ok v = true → jsonb (encode v) = Some t → ∃ x, Unmarshal dec zero t = Ok x.
Proof using Type*.
  intros Hr Hok Ht. destruct (column_reads v t Hok Ht) as (v' & Hv' & Hra & _).
  unfold Unmarshal. rewrite Hv'. destruct (Hr v' zero Hra) as [x ->]. by eexists.
Qed.

Lemma column_unmarshals {A} (dec : A → json → option A) zero v t :
  readable dec v → numbers_ok v = true → jsonb (encode v) = Some t → ∃ x, unmarshalJSON dec zero t = Ok x.
Proof using Type*.
  intros Hr Hok Ht. unfold unmarshalJSON. destruct (_ || _); [by eexists|].
  destruct (column_decodes dec zero v t Hr Hok Ht) as [x ->]. by eexists.
Qed.
End columns.

(** ** Texts without NUL *)

Lemma reads_as_member v' ms k e :
  reads_as v' (JObject ms) → nul_free v' = true → (k, e) ∈ ms →
  (∀ k2 e2, (k2, e2) ∈ ms → sanitize_string k2 = sanitize_string k → e2 = e) →
  ∃ e', reads_as e' e ∧ nul_free e' = true.
Proof.
  intros (ms' & -> & _ & Hel & Hkeys)%reads_as_object Hz Hin Huniq.
  assert (sanitize_string k ∈ ms'.*1) as ([k' e'] & Hk' & Hin')%list_elem_of_fmap.
  { apply Hkeys. by apply (list_elem_of_fmap_2 (λ kv, sanitize_string kv.1) ms (k, e)) in Hin;
      rewrite <- list_fmap_compose. }
  destruct (Hel k' e' Hin') as (k2 & e2 & Hin2 & Hk2 & Hr). exists e'.
  rewrite (Huniq k2 e2 Hin2) in Hr by (by rewrite <- Hk2). split; [done|].
  simpl in Hz. rewrite forallb_forall in Hz. specialize (Hz (k', e') ltac:(by apply list_elem_of_In)).
  by apply andb_true_iff in Hz as [_ ?].
Qed.

(** A text member of a concrete object. *)
Ltac text_member Hr Hz name s :=
  destruct (reads_as_member _ _ name (JString s) Hr Hz) as (?e' & ->%reads_as_string & ?H);
    [set_solver
    |intros k2 e2 Hin; rewrite !elem_of_cons, elem_of_nil in Hin; destruct_or! Hin; simplify_eq;
     intros Hk; vm_compute in Hk; (discriminate Hk || done)
    |by apply negb_true_iff].

Lemma version_nul_free b v' : reads_as v' (version_json b) → nul_free v' = true →
  Forall (λ s, byte_in NUL (sanitize_string s) = false)
    [IoCPackageVersion_Name b; IoCPackageVersion_Version b; IoCPackageVersion_PURL b].
Proof.
  intros Hr Hz. repeat constructor.
  - text_member Hr Hz "Name" (IoCPackageVersion_Name b).
  - text_member Hr Hz "Version" (IoCPackageVersion_Version b).
  - text_member Hr Hz "PURL" (IoCPackageVersion_PURL b).
Qed.

Lemma range_nul_free b v' : reads_as v' (range_json b) → nul_free v' = true →
  Forall (λ s, byte_in NUL (sanitize_string s) = false) [IoCPackageRange_Name b; IoCPackageRange_Constraint b].
Proof.
  intros Hr Hz. repeat constructor.
  - text_member Hr Hz "Name" (IoCPackageRange_Name b).
  - text_member Hr Hz "Constraint" (IoCPackageRange_Constraint b).
Qed.

Lemma anomaly_nul_free `{FloatText} b v' : reads_as v' (anomaly_body_json b) → nul_free v' = true →
  byte_in NUL (sanitize_string (IoCBodyAnomaly_PackageRef b)) = false.
Proof. intros Hr Hz. text_member Hr Hz "PackageRef" (IoCBodyAnomaly_PackageRef b). Qed.

Lemma target_nul_free `{FloatText} i v v' :
  iocBody_json i = Some v → reads_as v' v → nul_free v' = true →
  Forall (λ s, byte_in NUL (sanitize_string s) = false) (target_texts i).
Proof.
  intros (pub & -> & _)%iocBody_members Hr Hz. unfold target_texts.
  assert (∀ name e, (name, e) ∈ omit_nil "packageVersion" (version_json <$> IoC_PackageVersion i)
    ++ omit_nil "packageRange" (range_json <$> IoC_PackageRange i) ++ omit_nil "publisherAnomaly" pub
    ++ omit_nil "anomalyBody" (anomaly_body_json <$> IoC_AnomalyBody i) →
    ∃ e', reads_as e' e ∧ nul_free e' = true) as Hmem.
  { intros name e Hin. apply (reads_as_member _ _ name e Hr Hz Hin). intros k2 e2 Hin2.
    revert Hin Hin2. rewrite !elem_of_app, !elem_of_omit_nil. intros Hin Hin2 Hk.
    destruct_or! Hin; destruct Hin as [-> He]; destruct_or! Hin2; destruct Hin2 as [-> He2];
      vm_compute in Hk; congruence. }
  rewrite !Forall_app. split_and!.
  - destruct (IoC_PackageVersion i) as [b|]; [|done]. edestruct (Hmem "packageVersion") as (e' & He & Hez).
    { rewrite !elem_of_app, !elem_of_omit_nil. by left. } by eapply version_nul_free.
  - destruct (IoC_PackageRange i) as [b|]; [|done]. edestruct (Hmem "packageRange") as (e' & He & Hez).
    { rewrite !elem_of_app, !elem_of_omit_nil. right. by left. } by eapply range_nul_free.
  - destruct (IoC_AnomalyBody i) as [b|]; [|done]. edestruct (Hmem "anomalyBody") as (e' & He & Hez).
    { rewrite !elem_of_app, !elem_of_omit_nil. right. right. by right. }
    simpl. constructor; [|done]. by eapply anomaly_nul_free.
Qed.
