(* ===== verification/StreamEvents.v ===== *)
(** * The generated event union (engine/api/gen/api.gen.go)

    [StreamEvent] and the five event types of the API description, as a Go
    client of the stream uses them: a union is the JSON text it was read
    from or built of. Merging two texts is third-party ([JSONMerge]).

    The engine does not build its payloads from these types but from maps
    ([toStreamEnvelope] of Stream.v); the theorem of this file is that the
    two agree to the byte. *)

From S2P Require Import Prelude GoStrings GoText Json JsonEncode GoTime Domain GoJson Bus Storage Native GithubIngestor PgColumns PgDecode Stream.
From stdpp Require Import options.

(** ** The event types *)

Record gen_IncidentOpenedEvent := MkIncidentOpened {
  io_AffectedComponentsSnapshot : option (list string);
  io_IncidentId : string;
  io_IocId : string;
  io_OccurredAt : Time;
  io_Type : string;
}.

Record gen_IncidentTransitionedEvent := MkIncidentTransitioned {
  it_From : string;
  it_IncidentId : string;
  it_OccurredAt : Time;
  it_To : string;
  it_Type : string;
}.

Record gen_RemediationAddedEvent := MkRemediationAdded {
  ra_IncidentId : string;
  ra_Kind : string;
  ra_OccurredAt : Time;
  ra_RemediationId : string;
  ra_Type : string;
}.

Record gen_SBOMIngestedEvent := MkSBOMIngested {
  si_ComponentRef : string;
  si_OccurredAt : Time;
  si_SbomId : string;
  si_Type : string;
}.

Record gen_IoCMatchedEvent := MkIoCMatched {
  im_IocId : string;
  im_MatchedComponentRefs : list string;
  im_OccurredAt : Time;
  im_Type : string;
}.

(** ** Their JSON: fields in the order of the struct *)

(** A slice; the empty list stands for nil. *)
Definition slice_json (l : list string) : json := if bool_decide (l = []) then JNull else json_strings l.

(** [omitempty] on a pointer. *)
Definition omit_nil {A} (name : string) (f : A → json) (x : option A) : list (string * json) :=
  match x with Some a => [(name, f a)] | None => [] end.

Definition IncidentOpened_json (v : gen_IncidentOpenedEvent) : option json :=
  at_ ← time_json (io_OccurredAt v);
  Some (JObject (omit_nil "affectedComponentsSnapshot" slice_json (io_AffectedComponentsSnapshot v) ++ [
    ("incidentId", JString (io_IncidentId v)); ("iocId", JString (io_IocId v)); ("occurredAt", at_);
    ("type", JString (io_Type v))])).

Definition IncidentTransitioned_json (v : gen_IncidentTransitionedEvent) : option json :=
  at_ ← time_json (it_OccurredAt v);
  Some (JObject [("from", JString (it_From v)); ("incidentId", JString (it_IncidentId v)); ("occurredAt", at_);
    ("to", JString (it_To v)); ("type", JString (it_Type v))]).

Definition RemediationAdded_json (v : gen_RemediationAddedEvent) : option json :=
  at_ ← time_json (ra_OccurredAt v);
  Some (JObject [("incidentId", JString (ra_IncidentId v)); ("kind", JString (ra_Kind v)); ("occurredAt", at_);
    ("remediationId", JString (ra_RemediationId v)); ("type", JString (ra_Type v))]).

Definition SBOMIngested_json (v : gen_SBOMIngestedEvent) : option json :=
  at_ ← time_json (si_OccurredAt v);
  Some (JObject [("componentRef", JString (si_ComponentRef v)); ("occurredAt", at_);
    ("sbomId", JString (si_SbomId v)); ("type", JString (si_Type v))]).

Definition IoCMatched_json (v : gen_IoCMatchedEvent) : option json :=
  at_ ← time_json (im_OccurredAt v);
  Some (JObject [("iocId", JString (im_IocId v)); ("matchedComponentRefs", slice_json (im_MatchedComponentRefs v));
    ("occurredAt", at_); ("type", JString (im_Type v))]).

Definition set_IncidentOpened (name : string) (v : gen_IncidentOpenedEvent) (j : json) : option gen_IncidentOpenedEvent :=
  let '(MkIncidentOpened snapshot id ioc at_ ty) := v in
  if String.eqb name "affectedComponentsSnapshot" then
    x ← decode_pointer (decode_slice decode_string "") [] snapshot j; Some (MkIncidentOpened x id ioc at_ ty)
  else if String.eqb name "incidentId" then x ← decode_string id j; Some (MkIncidentOpened snapshot x ioc at_ ty)
  else if String.eqb name "iocId" then x ← decode_string ioc j; Some (MkIncidentOpened snapshot id x at_ ty)
  else if String.eqb name "occurredAt" then x ← decode_time at_ j; Some (MkIncidentOpened snapshot id ioc x ty)
  else x ← decode_string ty j; Some (MkIncidentOpened snapshot id ioc at_ x).

Definition set_IncidentTransitioned (name : string) (v : gen_IncidentTransitionedEvent) (j : json) :
    option gen_IncidentTransitionedEvent :=
  let '(MkIncidentTransitioned from id at_ to_ ty) := v in
  if String.eqb name "from" then x ← decode_string from j; Some (MkIncidentTransitioned x id at_ to_ ty)
  else if String.eqb name "incidentId" then x ← decode_string id j; Some (MkIncidentTransitioned from x at_ to_ ty)
  else if String.eqb name "occurredAt" then x ← decode_time at_ j; Some (MkIncidentTransitioned from id x to_ ty)
  else if String.eqb name "to" then x ← decode_string to_ j; Some (MkIncidentTransitioned from id at_ x ty)
  else x ← decode_string ty j; Some (MkIncidentTransitioned from id at_ to_ x).

Definition set_RemediationAdded (name : string) (v : gen_RemediationAddedEvent) (j : json) : option gen_RemediationAddedEvent :=
  let '(MkRemediationAdded id kind at_ rem ty) := v in
  if String.eqb name "incidentId" then x ← decode_string id j; Some (MkRemediationAdded x kind at_ rem ty)
  else if String.eqb name "kind" then x ← decode_string kind j; Some (MkRemediationAdded id x at_ rem ty)
  else if String.eqb name "occurredAt" then x ← decode_time at_ j; Some (MkRemediationAdded id kind x rem ty)
  else if String.eqb name "remediationId" then x ← decode_string rem j; Some (MkRemediationAdded id kind at_ x ty)
  else x ← decode_string ty j; Some (MkRemediationAdded id kind at_ rem x).

Definition set_SBOMIngested (name : string) (v : gen_SBOMIngestedEvent) (j : json) : option gen_SBOMIngestedEvent :=
  let '(MkSBOMIngested ref at_ id ty) := v in
  if String.eqb name "componentRef" then x ← decode_string ref j; Some (MkSBOMIngested x at_ id ty)
  else if String.eqb name "occurredAt" then x ← decode_time at_ j; Some (MkSBOMIngested ref x id ty)
  else if String.eqb name "sbomId" then x ← decode_string id j; Some (MkSBOMIngested ref at_ x ty)
  else x ← decode_string ty j; Some (MkSBOMIngested ref at_ id x).

Definition set_IoCMatched (name : string) (v : gen_IoCMatchedEvent) (j : json) : option gen_IoCMatchedEvent :=
  let '(MkIoCMatched ioc refs at_ ty) := v in
  if String.eqb name "iocId" then x ← decode_string ioc j; Some (MkIoCMatched x refs at_ ty)
  else if String.eqb name "matchedComponentRefs" then
    x ← decode_slice decode_string "" refs j; Some (MkIoCMatched ioc x at_ ty)
  else if String.eqb name "occurredAt" then x ← decode_time at_ j; Some (MkIoCMatched ioc refs x ty)
  else x ← decode_string ty j; Some (MkIoCMatched ioc refs at_ x).

Definition decode_IncidentOpened : gen_IncidentOpenedEvent → json → option gen_IncidentOpenedEvent :=
  decode_struct ["affectedComponentsSnapshot"; "incidentId"; "iocId"; "occurredAt"; "type"] set_IncidentOpened.
Definition decode_IncidentTransitioned : gen_IncidentTransitionedEvent → json → option gen_IncidentTransitionedEvent :=
  decode_struct ["from"; "incidentId"; "occurredAt"; "to"; "type"] set_IncidentTransitioned.
Definition decode_RemediationAdded : gen_RemediationAddedEvent → json → option gen_RemediationAddedEvent :=
  decode_struct ["incidentId"; "kind"; "occurredAt"; "remediationId"; "type"] set_RemediationAdded.
Definition decode_SBOMIngested : gen_SBOMIngestedEvent → json → option gen_SBOMIngestedEvent :=
  decode_struct ["componentRef"; "occurredAt"; "sbomId"; "type"] set_SBOMIngested.
Definition decode_IoCMatched : gen_IoCMatchedEvent → json → option gen_IoCMatchedEvent :=
  decode_struct ["iocId"; "matchedComponentRefs"; "occurredAt"; "type"] set_IoCMatched.

(** ** The union *)

Record StreamEvent := MkStreamEvent { union : string }.

(** [json.Marshal]. *)
Definition marshal (v : option json) : string * option error :=
  match v with
  | Some j => (encode j, None)
  | None => ("", Some (EText "Time.MarshalJSON: year outside of range [0,9999]" []))
  end.

Definition AsIncidentOpenedEvent (t : StreamEvent) : result gen_IncidentOpenedEvent :=
  Unmarshal decode_IncidentOpened (MkIncidentOpened None "" "" 0 "") (union t).

Definition FromIncidentOpenedEvent (v : gen_IncidentOpenedEvent) : StreamEvent * option error :=
  let v := MkIncidentOpened (io_AffectedComponentsSnapshot v) (io_IncidentId v) (io_IocId v) (io_OccurredAt v)
    "incident.opened" in
  let '(b, err) := marshal (IncidentOpened_json v) in (MkStreamEvent b, err).

Definition AsIncidentTransitionedEvent (t : StreamEvent) : result gen_IncidentTransitionedEvent :=
  Unmarshal decode_IncidentTransitioned (MkIncidentTransitioned "" "" 0 "" "") (union t).

Definition FromIncidentTransitionedEvent (v : gen_IncidentTransitionedEvent) : StreamEvent * option error :=
  let v := MkIncidentTransitioned (it_From v) (it_IncidentId v) (it_OccurredAt v) (it_To v) "incident.transitioned" in
  let '(b, err) := marshal (IncidentTransitioned_json v) in (MkStreamEvent b, err).

Definition AsRemediationAddedEvent (t : StreamEvent) : result gen_RemediationAddedEvent :=
  Unmarshal decode_RemediationAdded (MkRemediationAdded "" "" 0 "" "") (union t).

Definition FromRemediationAddedEvent (v : gen_RemediationAddedEvent) : StreamEvent * option error :=
  let v := MkRemediationAdded (ra_IncidentId v) (ra_Kind v) (ra_OccurredAt v) (ra_RemediationId v) "remediation.added" in
  let '(b, err) := marshal (RemediationAdded_json v) in (MkStreamEvent b, err).

Definition AsSBOMIngestedEvent (t : StreamEvent) : result gen_SBOMIngestedEvent :=
  Unmarshal decode_SBOMIngested (MkSBOMIngested "" 0 "" "") (union t).

Definition FromSBOMIngestedEvent (v : gen_SBOMIngestedEvent) : StreamEvent * option error :=
  let v := MkSBOMIngested (si_ComponentRef v) (si_OccurredAt v) (si_SbomId v) "sbom.ingested" in
  let '(b, err) := marshal (SBOMIngested_json v) in (MkStreamEvent b, err).

Definition AsIoCMatchedEvent (t : StreamEvent) : result gen_IoCMatchedEvent :=
  Unmarshal decode_IoCMatched (MkIoCMatched "" [] 0 "") (union t).

Definition FromIoCMatchedEvent (v : gen_IoCMatchedEvent) : StreamEvent * option error :=
  let v := MkIoCMatched (im_IocId v) (im_MatchedComponentRefs v) (im_OccurredAt v) "ioc.matched" in
  let '(b, err) := marshal (IoCMatched_json v) in (MkStreamEvent b, err).

(** [runtime.JSONMerge]; the union becomes what it returns, also on an error. *)
Class JsonMerge := { JSONMerge : string → string → string * option error }.

(** The part of the five merges after [json.Marshal]. *)
Definition merge_with `{JsonMerge} (t : StreamEvent) (marshalled : string * option error) : StreamEvent * option error :=
  match marshalled with
  | (_, Some e) => (t, Some e)
  | (b, None) => let '(merged, err) := JSONMerge (union t) b in (MkStreamEvent merged, err)
  end.

Definition MergeIncidentOpenedEvent `{JsonMerge} (t : StreamEvent) (v : gen_IncidentOpenedEvent) :=
  merge_with t (marshal (IncidentOpened_json (MkIncidentOpened (io_AffectedComponentsSnapshot v) (io_IncidentId v)
    (io_IocId v) (io_OccurredAt v) "incident.opened"))).

Definition MergeIncidentTransitionedEvent `{JsonMerge} (t : StreamEvent) (v : gen_IncidentTransitionedEvent) :=
  merge_with t (marshal (IncidentTransitioned_json (MkIncidentTransitioned (it_From v) (it_IncidentId v)
    (it_OccurredAt v) (it_To v) "incident.transitioned"))).

Definition MergeRemediationAddedEvent `{JsonMerge} (t : StreamEvent) (v : gen_RemediationAddedEvent) :=
  merge_with t (marshal (RemediationAdded_json (MkRemediationAdded (ra_IncidentId v) (ra_Kind v) (ra_OccurredAt v)
    (ra_RemediationId v) "remediation.added"))).

Definition MergeSBOMIngestedEvent `{JsonMerge} (t : StreamEvent) (v : gen_SBOMIngestedEvent) :=
  merge_with t (marshal (SBOMIngested_json (MkSBOMIngested (si_ComponentRef v) (si_OccurredAt v) (si_SbomId v)
    "sbom.ingested"))).

Definition MergeIoCMatchedEvent `{JsonMerge} (t : StreamEvent) (v : gen_IoCMatchedEvent) :=
  merge_with t (marshal (IoCMatched_json (MkIoCMatched (im_IocId v) (im_MatchedComponentRefs v) (im_OccurredAt v)
    "ioc.matched"))).

Definition Discriminator (t : StreamEvent) : result string :=
  Unmarshal (decode_struct ["type"] (λ _, decode_string)) "" (union t).

(** What is in the interface value that is returned. *)
Inductive EventValue :=
  | VIncidentOpened (v : gen_IncidentOpenedEvent)
  | VIncidentTransitioned (v : gen_IncidentTransitionedEvent)
  | VIoCMatched (v : gen_IoCMatchedEvent)
  | VRemediationAdded (v : gen_RemediationAddedEvent)
  | VSBOMIngested (v : gen_SBOMIngestedEvent).

Definition in_interface {A} (f : A → EventValue) (r : result A) : result EventValue :=
  match r with Ok a => Ok (f a) | Err e => Err e end.

Definition ValueByDiscriminator (t : StreamEvent) : result EventValue :=
  match Discriminator t with
  | Err e => Err e
  | Ok discriminator =>
      if String.eqb discriminator "incident.opened" then in_interface VIncidentOpened (AsIncidentOpenedEvent t)
      else if String.eqb discriminator "incident.transitioned" then
        in_interface VIncidentTransitioned (AsIncidentTransitionedEvent t)
      else if String.eqb discriminator "ioc.matched" then in_interface VIoCMatched (AsIoCMatchedEvent t)
      else if String.eqb discriminator "remediation.added" then in_interface VRemediationAdded (AsRemediationAddedEvent t)
      else if String.eqb discriminator "sbom.ingested" then in_interface VSBOMIngested (AsSBOMIngestedEvent t)
      else Err (EText "unknown discriminator value: %s" [discriminator])
  end.

(** A [json.RawMessage] is its text; an empty one is null. *)
Definition StreamEvent_MarshalJSON (t : StreamEvent) : string := if String.eqb (union t) "" then "null" else union t.

Definition StreamEvent_UnmarshalJSON (b : string) : StreamEvent := MkStreamEvent b.

(** * Properties *)

(** An event as the generated type. *)
Definition from_event (e : DomainEvent) : StreamEvent * option error :=
  match e with
  | IncidentOpenedEvent id ioc snapshot t =>
      FromIncidentOpenedEvent (MkIncidentOpened (if bool_decide (snapshot = []) then None else Some snapshot) id ioc t "")
  | IncidentTransitionedEvent id from to_ t => FromIncidentTransitionedEvent (MkIncidentTransitioned from id t to_ "")
  | RemediationAddedEvent id rem kind t => FromRemediationAddedEvent (MkRemediationAdded id kind t rem "")
  | SBOMIngestedEvent id ref t => FromSBOMIngestedEvent (MkSBOMIngested ref t id "")
  | IoCMatchedEvent ioc refs t => FromIoCMatchedEvent (MkIoCMatched ioc refs t "")
  end.

(** What a client reads: JSON replaces what is not UTF-8. *)
Definition event_value (e : DomainEvent) : EventValue :=
  let s := sanitize_string in
  match e with
  | IncidentOpenedEvent id ioc snapshot t =>
      VIncidentOpened (MkIncidentOpened (if bool_decide (snapshot = []) then None else Some (s <$> snapshot))
        (s id) (s ioc) t "incident.opened")
  | IncidentTransitionedEvent id from to_ t =>
      VIncidentTransitioned (MkIncidentTransitioned (s from) (s id) t (s to_) "incident.transitioned")
  | RemediationAddedEvent id rem kind t =>
      VRemediationAdded (MkRemediationAdded (s id) (s kind) t (s rem) "remediation.added")
  | SBOMIngestedEvent id ref t => VSBOMIngested (MkSBOMIngested (s ref) t (s id) "sbom.ingested")
  | IoCMatchedEvent ioc refs t => VIoCMatched (MkIoCMatched (s ioc) (s <$> refs) t "ioc.matched")
  end.

(** The members of the payload, in order. *)
Definition event_members (e : DomainEvent) (at_ : json) : list (string * json) :=
  match e with
  | IncidentOpenedEvent id ioc snapshot _ =>
      (if bool_decide (snapshot = []) then [] else [("affectedComponentsSnapshot", slice_json snapshot)])
      ++ [("incidentId", JString id); ("iocId", JString ioc); ("occurredAt", at_); ("type", JString "incident.opened")]
  | IncidentTransitionedEvent id from to_ _ =>
      [("from", JString from); ("incidentId", JString id); ("occurredAt", at_); ("to", JString to_);
       ("type", JString "incident.transitioned")]
  | RemediationAddedEvent id rem kind _ =>
      [("incidentId", JString id); ("kind", JString kind); ("occurredAt", at_); ("remediationId", JString rem);
       ("type", JString "remediation.added")]
  | SBOMIngestedEvent id ref _ =>
      [("componentRef", JString ref); ("occurredAt", at_); ("sbomId", JString id); ("type", JString "sbom.ingested")]
  | IoCMatchedEvent ioc refs _ =>
      [("iocId", JString ioc); ("matchedComponentRefs", slice_json refs); ("occurredAt", at_);
       ("type", JString "ioc.matched")]
  end.

Lemma envelope_members e ts : format_rfc3339 (OccurredAt e) = Some ts →
  marshal_map (omap env_json (toStreamEnvelope e)) = JObject (event_members e (JString ts)).
Proof.
  intros Hts.
  assert (∀ m : gmap string env_value, omap env_json (<["occurredAt" := EVTime (OccurredAt e)]> m) = <["occurredAt" := JString ts]> (omap env_json m)) as Hat.
  { intros m. apply omap_insert_Some. simpl. by rewrite Hts. }
  assert (∀ k s (m : gmap string env_value), omap env_json (<[k := EVString s]> m) = <[k := JString s]> (omap env_json m)) as Hs
    by (intros; by apply omap_insert_Some).
  assert (∀ k l (m : gmap string env_value), omap env_json (<[k := EVStrings l]> m) = <[k := slice_json l]> (omap env_json m)) as Hl
    by (intros; by apply omap_insert_Some).
  destruct e as [id ioc snapshot t|id from to_ t|id rem kind t|id ref t|ioc refs t]; cbn [OccurredAt] in Hat;
    unfold toStreamEnvelope, event_members; cbn [EventType OccurredAt];
    try case_bool_decide; rewrite ?Hl, ?Hs, ?Hat, ?Hl, ?Hs, omap_empty; try generalize (slice_json refs);
    try generalize (slice_json snapshot); intros; vm_compute; reflexivity.
Qed.

Lemma payload_members e ts : format_rfc3339 (OccurredAt e) = Some ts →
  payload e = encode (JObject (event_members e (JString ts))) ∧
  json_parse (payload e) = Some (sanitize (JObject (event_members e (JString ts)))).
Proof.
  intros Hts. destruct (payload_json e) as (j & Hj & _ & Hp); [by eexists|].
  apply envelope_json_ok in Hj as (-> & Hn & Hd). rewrite (envelope_members e ts Hts) in *.
  split; [done|]. rewrite Hp. apply json_encode_parse; [done|]. unfold maxNestingDepth. lia.
Qed.

Lemma decode_strings_sanitized l : decode_slice decode_string "" [] (sanitize (slice_json l)) = Some (sanitize_string <$> l).
Proof.
  unfold slice_json. case_bool_decide as Hl; [by subst|]. change (sanitize (json_strings l)) with (JArray (map sanitize (JString <$> l))).
  cbn [decode_slice]. change (map sanitize (JString <$> l)) with (sanitize <$> (JString <$> l)).
  rewrite <- list_fmap_compose. by apply decode_elems_map.
Qed.

Lemma decode_snapshot_sanitized l : l ≠ [] →
  decode_pointer (decode_slice decode_string "") [] None (sanitize (slice_json l)) = Some (Some (sanitize_string <$> l)).
Proof.
  intros Hl. pose proof (decode_strings_sanitized l) as Hd. unfold decode_pointer. change (default [] None) with ([] : list string).
  destruct (sanitize (slice_json l)) eqn:E; try by rewrite Hd.
  unfold slice_json in E. by rewrite bool_decide_eq_false_2 in E.
Qed.

(** Decoding a struct from members whose keys are known. *)
Ltac read_members :=
  cbn [decode_struct foldl];
  repeat match goal with
    | |- context [select_field ?names ?k] =>
        let v := eval vm_compute in (select_field names k) in change (select_field names k) with v
    end.

Lemma Discriminator_payload e : in_range e → Discriminator (MkStreamEvent (payload e)) = Ok (EventType e).
Proof.
  intros [ts Hts]. unfold Discriminator, Unmarshal. cbn [union].
  rewrite (proj2 (payload_members e ts Hts)).
  destruct e; cbn [event_members]; try case_bool_decide; cbn [sanitize map fst snd app]; read_members; reflexivity.
Qed.

(** C17: the engine's stream and the generated client agree on every event. The
    payload the engine writes for an event, which it builds from a map, is
    byte for byte what the generated event type marshals to; and the client
    that looks at the discriminator of a payload gets the event of that type,
    with every field the engine set (text that is not UTF-8 replaced). *)
Theorem stream_payloads_are_generated_events e : in_range e →
  from_event e = (MkStreamEvent (payload e), None) ∧
  ValueByDiscriminator (MkStreamEvent (payload e)) = Ok (event_value e).
Proof.
  intros Hin. destruct (Hin) as [ts Hts]. destruct (payload_members e ts Hts) as [Henc Hparse]. split.
  - rewrite Henc. destruct e; cbn [from_event OccurredAt] in *;
      unfold FromIncidentOpenedEvent, FromIncidentTransitionedEvent, FromRemediationAddedEvent, FromSBOMIngestedEvent,
        FromIoCMatchedEvent, IncidentOpened_json, IncidentTransitioned_json, RemediationAdded_json, SBOMIngested_json,
        IoCMatched_json, time_json; cbn -[encode]; rewrite Hts; cbn -[encode]; try done.
    by case_bool_decide.
  - unfold ValueByDiscriminator. rewrite Discriminator_payload by done.
    unfold AsIncidentOpenedEvent, AsIncidentTransitionedEvent, AsIoCMatchedEvent, AsRemediationAddedEvent,
      AsSBOMIngestedEvent, Unmarshal. cbn [union]. rewrite Hparse. clear Henc Hparse Hin.
    pose proof (λ old, decode_time_format old _ ts Hts) as Htime.
    destruct e as [id ioc snapshot t|id from to_ t|id rem kind t|id ref t|ioc refs t];
      cbn [OccurredAt] in Htime; cbn [EventType String.eqb Ascii.eqb Bool.eqb event_members]; try case_bool_decide as Hl;
      cbn [sanitize map fst snd app];
      unfold decode_IncidentOpened, decode_IncidentTransitioned, decode_RemediationAdded, decode_SBOMIngested, decode_IoCMatched;
      read_members;
      repeat first
        [ rewrite decode_strings_sanitized | rewrite decode_snapshot_sanitized by done | rewrite Htime
        | progress cbn [set_IncidentOpened set_IncidentTransitioned set_RemediationAdded set_SBOMIngested set_IoCMatched
            String.eqb Ascii.eqb Bool.eqb decode_string mbind option_bind event_value] ];
      rewrite ?(bool_decide_eq_true_2 _ Hl), ?(bool_decide_eq_false_2 _ Hl); reflexivity.
Qed.

Lemma stream_payloads_are_generated_events_witness :
  let e := IncidentOpenedEvent "01J" "ioc-1" ["kind:Component/default/web"] 0 in
  from_event e = (MkStreamEvent (payload e), None) ∧
  ValueByDiscriminator (MkStreamEvent (payload e))
  = Ok (VIncidentOpened (MkIncidentOpened (Some ["kind:Component/default/web"]) "01J" "ioc-1" 0 "incident.opened")).
Proof.
  intros e. destruct (stream_payloads_are_generated_events e) as [H1 H2]; [by eexists|].
  split; [exact H1|]. rewrite H2. vm_compute. reflexivity.
Defined.
