(* ===== verification/ApiJson.v ===== *)
(** * Responses as text (engine/api/gen, engine/internal/api/server.go)

    [writeJSON] at every type the handlers answer with: the generated structs
    of api.gen.go, fields in their order, with [omitempty]; and the decoders
    of these types, as a Go client of the API has them. An instant is written
    in UTC; a value that does not marshal (an instant whose year has not four
    digits) leaves the body empty, the status being written already. A slice
    behind a pointer is never nil in what the handlers build. *)

From S2P Require Import Prelude GoStrings GoText Json JsonEncode GoTime Domain GoJson Storage MemoryStore Wire ApiBodies Engine Samples Matcher Matching Handlers GithubIngestor PgColumns PgDecode.
From stdpp Require Import options.

(** What [err.Error()] returns: texts of third-party errors are abbreviated in
    the model. *)
Class ErrorText := { Error : error → string }.

Definition message_text `{ErrorText} (m : Message) : string :=
  match m with MText t => t | MError e => Error e end.

(** ** Encoding *)

Definition opt_string : option string → option json := fmap JString.

(** A pointer to a value that may not marshal. *)
Definition pointer {A} (f : A → option json) (x : option A) : option (option json) :=
  match x with None => Some None | Some a => Some <$> f a end.

Definition items_json (items : list json) : json := JObject [("items", JArray items)].

Definition gen_Component_json (c : gen_Component) : json := JObject (
  omit_nil "annotations" (annotations_json <$> gen_Component_Annotations c)
  ++ ("kind", JString (gen_Component_Kind c)) :: omit_nil "lifecycle" (opt_string (gen_Component_Lifecycle c))
  ++ ("name", JString (gen_Component_Name c)) :: ("namespace", JString (gen_Component_Namespace c))
     :: omit_nil "owner" (opt_string (gen_Component_Owner c))
  ++ ("ref", JString (gen_Component_Ref c)) :: omit_nil "system" (opt_string (gen_Component_System c))
  ++ omit_nil "tags" (json_strings <$> gen_Component_Tags c)).

(** [integrity] has no [omitempty]. *)
Definition gen_PackageVersion_json (p : gen_PackageVersion) : json := JObject (
  ("ecosystem", JString (gen_PackageVersion_Ecosystem p))
  :: ("integrity", default JNull (opt_string (gen_PackageVersion_Integrity p)))
  :: ("name", JString (gen_PackageVersion_Name p)) :: ("purl", JString (gen_PackageVersion_Purl p))
  :: omit_nil "scope" (json_strings <$> gen_PackageVersion_Scope p)
  ++ [("version", JString (gen_PackageVersion_Version p))]).

Definition gen_SBOM_json (b : gen_SBOM) : option json :=
  at_ ← time_json (gen_SBOM_GeneratedAt b);
  Some (JObject (
    omit_nil "commitSha" (opt_string (gen_SBOM_CommitSha b))
    ++ ("componentRef", JString (gen_SBOM_ComponentRef b)) :: ("ecosystem", JString (gen_SBOM_Ecosystem b))
       :: ("generatedAt", at_) :: ("id", JString (gen_SBOM_Id b))
       :: omit_nil "packages" ((λ l, JArray (gen_PackageVersion_json <$> l)) <$> gen_SBOM_Packages b)
    ++ omit_nil "sourceBytes" (json_int <$> gen_SBOM_SourceBytes b)
    ++ [("sourceFormat", JString (gen_SBOM_SourceFormat b))])).

Definition gen_IoCPackageVersion_json (b : gen_IoCPackageVersion) : json := JObject [
  ("name", JString (gen_IoCPackageVersion_Name b)); ("purl", JString (gen_IoCPackageVersion_Purl b));
  ("version", JString (gen_IoCPackageVersion_Version b))].

Definition gen_IoCPackageRange_json (b : gen_IoCPackageRange) : json := JObject [
  ("constraint", JString (gen_IoCPackageRange_Constraint b)); ("name", JString (gen_IoCPackageRange_Name b))].

Definition gen_Publisher_json (p : gen_Publisher) : option json :=
  first ← pointer time_json (gen_Publisher_FirstSeen p);
  last ← pointer time_json (gen_Publisher_LastSeen p);
  Some (JObject (("ecosystem", JString (gen_Publisher_Ecosystem p)) :: omit_nil "firstSeen" first
    ++ omit_nil "lastSeen" last ++ [("name", JString (gen_Publisher_Name p))])).

Section with_floats.
Context `{FloatText}.

Definition gen_IoCBodyAnomaly_json (b : gen_IoCBodyAnomaly) : json := JObject (
  ("confidence", JString (gen_IoCBodyAnomaly_Confidence b))
  :: omit_nil "evidence" (object_json <$> gen_IoCBodyAnomaly_Evidence b)
  ++ omit_nil "explanation" (opt_string (gen_IoCBodyAnomaly_Explanation b))
  ++ [("kind", JString (gen_IoCBodyAnomaly_Kind b)); ("packageRef", JString (gen_IoCBodyAnomaly_PackageRef b))]).

Definition gen_PublisherSignal_json (s : gen_PublisherSignal) : option json :=
  at_ ← time_json (gen_PublisherSignal_DetectedAt s);
  publisher ← gen_Publisher_json (gen_PublisherSignal_Publisher s);
  Some (JObject (omit_nil "description" (opt_string (gen_PublisherSignal_Description s))
    ++ ("detectedAt", at_) :: omit_nil "evidence" (object_json <$> gen_PublisherSignal_Evidence s)
    ++ omit_nil "package" (gen_PackageVersion_json <$> gen_PublisherSignal_Package s)
    ++ [("publisher", publisher); ("severity", JString (gen_PublisherSignal_Severity s));
        ("type", JString (gen_PublisherSignal_Type s))])).

Definition gen_IoCPublisherAnomaly_json (b : gen_IoCPublisherAnomaly) : option json :=
  signals ← pointer (λ l, JArray <$> mapM gen_PublisherSignal_json l) (gen_IoCPublisherAnomaly_Signals b);
  Some (JObject (("publisherName", JString (gen_IoCPublisherAnomaly_PublisherName b)) :: omit_nil "signals" signals)).

Definition gen_IoC_json (i : gen_IoC) : option json :=
  at_ ← time_json (gen_IoC_PublishedAt i);
  publisherAnomaly ← pointer gen_IoCPublisherAnomaly_json (gen_IoC_PublisherAnomaly i);
  Some (JObject (omit_nil "anomalyBody" (gen_IoCBodyAnomaly_json <$> gen_IoC_AnomalyBody i)
    ++ omit_nil "description" (opt_string (gen_IoC_Description i))
    ++ ("ecosystem", JString (gen_IoC_Ecosystem i)) :: ("id", JString (gen_IoC_Id i)) :: ("kind", JString (gen_IoC_Kind i))
       :: omit_nil "packageRange" (gen_IoCPackageRange_json <$> gen_IoC_PackageRange i)
    ++ omit_nil "packageVersion" (gen_IoCPackageVersion_json <$> gen_IoC_PackageVersion i)
    ++ ("publishedAt", at_) :: omit_nil "publisherAnomaly" publisherAnomaly
    ++ ("severity", JString (gen_IoC_Severity i)) :: omit_nil "source" (opt_string (gen_IoC_Source i)))).

Definition gen_Remediation_json (r : gen_Remediation) : option json :=
  at_ ← time_json (gen_Remediation_ExecutedAt r);
  Some (JObject (omit_nil "actorRef" (opt_string (gen_Remediation_ActorRef r))
    ++ omit_nil "details" (object_json <$> gen_Remediation_Details r)
    ++ [("executedAt", at_); ("id", JString (gen_Remediation_Id r)); ("incidentId", JString (gen_Remediation_IncidentId r));
        ("kind", JString (gen_Remediation_Kind r))])).

Definition gen_Incident_json (i : gen_Incident) : option json :=
  last ← time_json (gen_Incident_LastTransitionedAt i);
  opened ← time_json (gen_Incident_OpenedAt i);
  remediations ← pointer (λ l, JArray <$> mapM gen_Remediation_json l) (gen_Incident_Remediations i);
  Some (JObject (
    omit_nil "affectedComponentsSnapshot" (json_strings <$> gen_Incident_AffectedComponentsSnapshot i)
    ++ ("id", JString (gen_Incident_Id i)) :: ("iocId", JString (gen_Incident_IocId i)) :: ("lastTransitionedAt", last)
       :: ("openedAt", opened) :: omit_nil "remediations" remediations
    ++ [("state", JString (gen_Incident_State i))])).

Definition gen_IncidentDetail_json (d : gen_IncidentDetail) : option json :=
  incident ← gen_Incident_json (gen_IncidentDetail_Incident d);
  ioc ← pointer gen_IoC_json (gen_IncidentDetail_Ioc d);
  Some (JObject (
    omit_nil "affectedComponents" ((λ l, JArray (gen_Component_json <$> l)) <$> gen_IncidentDetail_AffectedComponents d)
    ++ ("incident", incident) :: omit_nil "ioc" ioc)).

Definition gen_Anomaly_json (a : gen_Anomaly) : option json :=
  at_ ← time_json (gen_Anomaly_DetectedAt a);
  Some (JObject (("confidence", JString (gen_Anomaly_Confidence a)) :: ("detectedAt", at_)
    :: omit_nil "evidence" (object_json <$> gen_Anomaly_Evidence a)
    ++ [("explanation", JString (gen_Anomaly_Explanation a)); ("id", json_int (gen_Anomaly_Id a));
        ("kind", JString (gen_Anomaly_Kind a)); ("packageRef", JString (gen_Anomaly_PackageRef a))])).

Definition gen_Maintainer_json (m : gen_Maintainer) : json := JObject (
  omit_nil "email" (opt_string (gen_Maintainer_Email m)) ++ omit_nil "name" (opt_string (gen_Maintainer_Name m))
  ++ omit_nil "username" (opt_string (gen_Maintainer_Username m))).

Definition gen_PublisherSnapshot_json (s : gen_PublisherSnapshot) : option json :=
  published ← pointer time_json (gen_PublisherSnapshot_LatestVersionPublishedAt s);
  at_ ← time_json (gen_PublisherSnapshot_SnapshotAt s);
  Some (JObject (("id", json_int (gen_PublisherSnapshot_Id s))
    :: omit_nil "latestVersion" (opt_string (gen_PublisherSnapshot_LatestVersion s))
    ++ omit_nil "latestVersionPublishedAt" published
    ++ omit_nil "maintainers" ((λ l, JArray (gen_Maintainer_json <$> l)) <$> gen_PublisherSnapshot_Maintainers s)
    ++ ("packageRef", JString (gen_PublisherSnapshot_PackageRef s))
       :: omit_nil "publishMethod" (opt_string (gen_PublisherSnapshot_PublishMethod s))
    ++ ("snapshotAt", at_) :: omit_nil "sourceRepoURL" (opt_string (gen_PublisherSnapshot_SourceRepoURL s)))).

(** What is marshalled for each answer; the SBOM listing is a map. *)
Definition body_json `{ErrorText} (b : Body) : option json :=
  match b with
  | BError code m => Some (JObject [("code", JString code); ("message", JString (message_text m))])
  | BHealth status => Some (JObject [("status", JString status)])
  | BComponent c => Some (gen_Component_json c)
  | BComponentPage items => Some (items_json (gen_Component_json <$> items))
  | BSBOM b => gen_SBOM_json b
  | BSBOMItems items => items_json <$> mapM gen_SBOM_json items
  | BIoC i => gen_IoC_json i
  | BIoCPage items => items_json <$> mapM gen_IoC_json items
  | BIncident i => gen_Incident_json i
  | BIncidentPage items => items_json <$> mapM gen_Incident_json items
  | BIncidentDetail d => gen_IncidentDetail_json d
  | BBlastRadius refs at_ =>
      at_ ← time_json at_; Some (JObject [("affectedComponentRefs", json_strings refs); ("computedAt", at_)])
  | BRemediation r => gen_Remediation_json r
  | BAnomaly a => gen_Anomaly_json a
  | BAnomalyPage items => items_json <$> mapM gen_Anomaly_json items
  | BPublisherHistory items => items_json <$> mapM gen_PublisherSnapshot_json items
  end.

(** [writeJSON]: [Encode] writes the value and a line break, or nothing. *)
Definition written (v : option json) : string :=
  match v with Some j => encode j +:+ bytes [10]%N | None => "" end.

Definition body_text `{ErrorText} (b : Body) : string := written (body_json b).
End with_floats.

(** [AuthTokenResponse]. *)
Definition token_json (accessToken : string) (expiresAt : Time) : option json :=
  at_ ← time_json expiresAt; Some (JObject [("access_token", JString accessToken); ("expires_at", at_)]).

(** ** Decoding *)

Definition set_gen_SBOM (name : string) (b : gen_SBOM) (v : json) : option gen_SBOM :=
  let '(MkGenSBOM sha ref eco at_ id pkgs size fmt) := b in
  if String.eqb name "commitSha" then x ← optional_string sha v; Some (MkGenSBOM x ref eco at_ id pkgs size fmt)
  else if String.eqb name "componentRef" then x ← decode_string ref v; Some (MkGenSBOM sha x eco at_ id pkgs size fmt)
  else if String.eqb name "ecosystem" then x ← decode_string eco v; Some (MkGenSBOM sha ref x at_ id pkgs size fmt)
  else if String.eqb name "generatedAt" then x ← decode_time at_ v; Some (MkGenSBOM sha ref eco x id pkgs size fmt)
  else if String.eqb name "id" then x ← decode_string id v; Some (MkGenSBOM sha ref eco at_ x pkgs size fmt)
  else if String.eqb name "packages" then
    x ← decode_pointer (decode_slice decode_gen_PackageVersion (MkGenPackageVersion "" None "" "" None "")) [] pkgs v;
    Some (MkGenSBOM sha ref eco at_ id x size fmt)
  else if String.eqb name "sourceBytes" then x ← optional_int size v; Some (MkGenSBOM sha ref eco at_ id pkgs x fmt)
  else x ← decode_string fmt v; Some (MkGenSBOM sha ref eco at_ id pkgs size x).

Definition decode_gen_SBOM : gen_SBOM → json → option gen_SBOM :=
  decode_strict ["commitSha"; "componentRef"; "ecosystem"; "generatedAt"; "id"; "packages"; "sourceBytes"; "sourceFormat"]
    set_gen_SBOM.

Definition zero_SBOM : gen_SBOM := MkGenSBOM None "" "" 0 "" None None "".

Definition set_gen_Incident (name : string) (i : gen_Incident) (v : json) : option gen_Incident :=
  let '(MkGenIncident snapshot id ioc last opened rems state) := i in
  if String.eqb name "affectedComponentsSnapshot" then
    x ← optional_strings snapshot v; Some (MkGenIncident x id ioc last opened rems state)
  else if String.eqb name "id" then x ← decode_string id v; Some (MkGenIncident snapshot x ioc last opened rems state)
  else if String.eqb name "iocId" then x ← decode_string ioc v; Some (MkGenIncident snapshot id x last opened rems state)
  else if String.eqb name "lastTransitionedAt" then
    x ← decode_time last v; Some (MkGenIncident snapshot id ioc x opened rems state)
  else if String.eqb name "openedAt" then x ← decode_time opened v; Some (MkGenIncident snapshot id ioc last x rems state)
  else if String.eqb name "remediations" then
    x ← decode_pointer (decode_slice decode_gen_Remediation zero_Remediation) [] rems v;
    Some (MkGenIncident snapshot id ioc last opened x state)
  else x ← decode_string state v; Some (MkGenIncident snapshot id ioc last opened rems x).

Definition decode_gen_Incident : gen_Incident → json → option gen_Incident :=
  decode_strict ["affectedComponentsSnapshot"; "id"; "iocId"; "lastTransitionedAt"; "openedAt"; "remediations"; "state"]
    set_gen_Incident.

Definition zero_Incident : gen_Incident := MkGenIncident None "" "" 0 0 None "".

Definition set_gen_IncidentDetail (name : string) (d : gen_IncidentDetail) (v : json) : option gen_IncidentDetail :=
  let '(MkGenIncidentDetail comps inc ioc) := d in
  if String.eqb name "affectedComponents" then
    x ← decode_pointer (decode_slice decode_gen_Component zero_Component) [] comps v; Some (MkGenIncidentDetail x inc ioc)
  else if String.eqb name "incident" then x ← decode_gen_Incident inc v; Some (MkGenIncidentDetail comps x ioc)
  else x ← decode_pointer decode_gen_IoC zero_IoC ioc v; Some (MkGenIncidentDetail comps inc x).

Definition decode_gen_IncidentDetail : gen_IncidentDetail → json → option gen_IncidentDetail :=
  decode_strict ["affectedComponents"; "incident"; "ioc"] set_gen_IncidentDetail.

Definition set_gen_Anomaly (name : string) (a : gen_Anomaly) (v : json) : option gen_Anomaly :=
  let '(MkGenAnomaly conf at_ ev expl id kind ref) := a in
  if String.eqb name "confidence" then x ← decode_string conf v; Some (MkGenAnomaly x at_ ev expl id kind ref)
  else if String.eqb name "detectedAt" then x ← decode_time at_ v; Some (MkGenAnomaly conf x ev expl id kind ref)
  else if String.eqb name "evidence" then x ← optional_any_map ev v; Some (MkGenAnomaly conf at_ x expl id kind ref)
  else if String.eqb name "explanation" then x ← decode_string expl v; Some (MkGenAnomaly conf at_ ev x id kind ref)
  else if String.eqb name "id" then x ← decode_int id v; Some (MkGenAnomaly conf at_ ev expl x kind ref)
  else if String.eqb name "kind" then x ← decode_string kind v; Some (MkGenAnomaly conf at_ ev expl id x ref)
  else x ← decode_string ref v; Some (MkGenAnomaly conf at_ ev expl id kind x).

Definition decode_gen_Anomaly : gen_Anomaly → json → option gen_Anomaly :=
  decode_strict ["confidence"; "detectedAt"; "evidence"; "explanation"; "id"; "kind"; "packageRef"] set_gen_Anomaly.

Definition zero_Anomaly : gen_Anomaly := MkGenAnomaly "" 0 None "" 0 "" "".

Definition set_gen_Maintainer (name : string) (m : gen_Maintainer) (v : json) : option gen_Maintainer :=
  let '(MkGenMaintainer email nm user) := m in
  if String.eqb name "email" then x ← optional_string email v; Some (MkGenMaintainer x nm user)
  else if String.eqb name "name" then x ← optional_string nm v; Some (MkGenMaintainer email x user)
  else x ← optional_string user v; Some (MkGenMaintainer email nm x).

Definition decode_gen_Maintainer : gen_Maintainer → json → option gen_Maintainer :=
  decode_strict ["email"; "name"; "username"] set_gen_Maintainer.

Definition set_gen_PublisherSnapshot (name : string) (s : gen_PublisherSnapshot) (v : json) : option gen_PublisherSnapshot :=
  let '(MkGenPublisherSnapshot id ver pub ms ref method at_ url) := s in
  if String.eqb name "id" then x ← decode_int id v; Some (MkGenPublisherSnapshot x ver pub ms ref method at_ url)
  else if String.eqb name "latestVersion" then
    x ← optional_string ver v; Some (MkGenPublisherSnapshot id x pub ms ref method at_ url)
  else if String.eqb name "latestVersionPublishedAt" then
    x ← optional_time pub v; Some (MkGenPublisherSnapshot id ver x ms ref method at_ url)
  else if String.eqb name "maintainers" then
    x ← decode_pointer (decode_slice decode_gen_Maintainer (MkGenMaintainer None None None)) [] ms v;
    Some (MkGenPublisherSnapshot id ver pub x ref method at_ url)
  else if String.eqb name "packageRef" then
    x ← decode_string ref v; Some (MkGenPublisherSnapshot id ver pub ms x method at_ url)
  else if String.eqb name "publishMethod" then
    x ← optional_string method v; Some (MkGenPublisherSnapshot id ver pub ms ref x at_ url)
  else if String.eqb name "snapshotAt" then
    x ← decode_time at_ v; Some (MkGenPublisherSnapshot id ver pub ms ref method x url)
  else x ← optional_string url v; Some (MkGenPublisherSnapshot id ver pub ms ref method at_ x).

Definition decode_gen_PublisherSnapshot : gen_PublisherSnapshot → json → option gen_PublisherSnapshot :=
  decode_strict ["id"; "latestVersion"; "latestVersionPublishedAt"; "maintainers"; "packageRef"; "publishMethod";
                 "snapshotAt"; "sourceRepoURL"] set_gen_PublisherSnapshot.

Definition zero_PublisherSnapshot : gen_PublisherSnapshot := MkGenPublisherSnapshot 0 None None None "" None 0 None.

(** A page; [nextCursor], which the engine never sets, is not kept. *)
Definition decode_page {A} (dec : A → json → option A) (zero : A) : list A → json → option (list A) :=
  decode_strict ["items"; "nextCursor"] (λ name old v,
    if String.eqb name "items" then decode_slice dec zero old v
    else _ ← optional_string None v; Some old).

(** [AnomalyPage] and [PublisherHistory]. *)
Definition decode_items {A} (dec : A → json → option A) (zero : A) : list A → json → option (list A) :=
  decode_strict ["items"] (λ _, decode_slice dec zero).

(** [Error], whose [details] the engine never sets. *)
Definition decode_Error : string * string → json → option (string * string) :=
  decode_strict ["code"; "details"; "message"] (λ name old v,
    let '(code, message) := old in
    if String.eqb name "code" then x ← decode_string code v; Some (x, message)
    else if String.eqb name "details" then _ ← optional_any_map None v; Some old
    else x ← decode_string message v; Some (code, x)).

Definition decode_Health : string → json → option string :=
  decode_strict ["status"] (λ _, decode_string).

Definition decode_BlastRadiusResponse : list string * Time → json → option (list string * Time) :=
  decode_strict ["affectedComponentRefs"; "computedAt"] (λ name old v,
    let '(refs, at_) := old in
    if String.eqb name "affectedComponentRefs" then x ← decode_slice decode_string "" refs v; Some (x, at_)
    else x ← decode_time at_ v; Some (refs, x)).

Definition decode_AuthTokenResponse : string * Time → json → option (string * Time) :=
  decode_strict ["access_token"; "expires_at"] (λ name old v,
    let '(token, at_) := old in
    if String.eqb name "access_token" then x ← decode_string token v; Some (x, at_)
    else x ← decode_time at_ v; Some (token, x)).

Definition result_map {A B} (f : A → B) (r : result A) : result B :=
  match r with Ok a => Ok (f a) | Err e => Err e end.

(** What a client makes of the text of an answer to the operation that
    answered [b]. There is no generated type for the listing of SBOMs; the
    API description declares an array. *)
Definition client_reads (b : Body) (text : string) : result Body :=
  match b with
  | BError _ _ => result_map (λ '(code, m), BError code (MText m)) (Decode decode_Error ("", "") text)
  | BHealth _ => result_map BHealth (Decode decode_Health "" text)
  | BComponent _ => result_map BComponent (Decode decode_gen_Component zero_Component text)
  | BComponentPage _ => result_map BComponentPage (Decode (decode_page decode_gen_Component zero_Component) [] text)
  | BSBOM _ => result_map BSBOM (Decode decode_gen_SBOM zero_SBOM text)
  | BSBOMItems _ => result_map BSBOMItems (Decode (decode_slice decode_gen_SBOM zero_SBOM) [] text)
  | BIoC _ => result_map BIoC (Decode decode_gen_IoC zero_IoC text)
  | BIoCPage _ => result_map BIoCPage (Decode (decode_page decode_gen_IoC zero_IoC) [] text)
  | BIncident _ => result_map BIncident (Decode decode_gen_Incident zero_Incident text)
  | BIncidentPage _ => result_map BIncidentPage (Decode (decode_page decode_gen_Incident zero_Incident) [] text)
  | BIncidentDetail _ =>
      result_map BIncidentDetail (Decode decode_gen_IncidentDetail (MkGenIncidentDetail None zero_Incident None) text)
  | BBlastRadius _ _ =>
      result_map (λ '(refs, at_), BBlastRadius refs at_) (Decode decode_BlastRadiusResponse ([], 0%Z) text)
  | BRemediation _ => result_map BRemediation (Decode decode_gen_Remediation zero_Remediation text)
  | BAnomaly _ => result_map BAnomaly (Decode decode_gen_Anomaly zero_Anomaly text)
  | BAnomalyPage _ => result_map BAnomalyPage (Decode (decode_items decode_gen_Anomaly zero_Anomaly) [] text)
  | BPublisherHistory _ =>
      result_map BPublisherHistory (Decode (decode_items decode_gen_PublisherSnapshot zero_PublisherSnapshot) [] text)
  end.

(** ** What arrives *)

Section received.
Context `{FloatText, ErrorText}.

(** A value of type any comes back as what encoding/json decodes into. *)
Definition wire_map (m : gmap string any) : gmap string any := (λ a, any_of_json (json_of_any a)) <$> m.

Definition received_anomaly_body (b : gen_IoCBodyAnomaly) : gen_IoCBodyAnomaly :=
  MkGenIoCBodyAnomaly (gen_IoCBodyAnomaly_Confidence b) (wire_map <$> gen_IoCBodyAnomaly_Evidence b)
    (gen_IoCBodyAnomaly_Explanation b) (gen_IoCBodyAnomaly_Kind b) (gen_IoCBodyAnomaly_PackageRef b).

Definition received_signal (s : gen_PublisherSignal) : gen_PublisherSignal :=
  MkGenPublisherSignal (gen_PublisherSignal_Description s) (gen_PublisherSignal_DetectedAt s)
    (wire_map <$> gen_PublisherSignal_Evidence s) (gen_PublisherSignal_Package s) (gen_PublisherSignal_Publisher s)
    (gen_PublisherSignal_Severity s) (gen_PublisherSignal_Type s).

Definition received_publisher_anomaly (b : gen_IoCPublisherAnomaly) : gen_IoCPublisherAnomaly :=
  MkGenIoCPublisherAnomaly (gen_IoCPublisherAnomaly_PublisherName b)
    (fmap (M:=list) received_signal <$> gen_IoCPublisherAnomaly_Signals b).

Definition received_ioc (i : gen_IoC) : gen_IoC :=
  MkGenIoC (received_anomaly_body <$> gen_IoC_AnomalyBody i) (gen_IoC_Description i) (gen_IoC_Ecosystem i) (gen_IoC_Id i)
    (gen_IoC_Kind i) (gen_IoC_PackageRange i) (gen_IoC_PackageVersion i) (gen_IoC_PublishedAt i)
    (received_publisher_anomaly <$> gen_IoC_PublisherAnomaly i) (gen_IoC_Severity i) (gen_IoC_Source i).

Definition received_remediation (r : gen_Remediation) : gen_Remediation :=
  MkGenRemediation (gen_Remediation_ActorRef r) (wire_map <$> gen_Remediation_Details r) (gen_Remediation_ExecutedAt r)
    (gen_Remediation_Id r) (gen_Remediation_IncidentId r) (gen_Remediation_Kind r).

Definition received_incident (i : gen_Incident) : gen_Incident :=
  MkGenIncident (gen_Incident_AffectedComponentsSnapshot i) (gen_Incident_Id i) (gen_Incident_IocId i)
    (gen_Incident_LastTransitionedAt i) (gen_Incident_OpenedAt i)
    (fmap (M:=list) received_remediation <$> gen_Incident_Remediations i) (gen_Incident_State i).

Definition received_detail (d : gen_IncidentDetail) : gen_IncidentDetail :=
  MkGenIncidentDetail (gen_IncidentDetail_AffectedComponents d) (received_incident (gen_IncidentDetail_Incident d))
    (received_ioc <$> gen_IncidentDetail_Ioc d).

Definition received_anomaly (a : gen_Anomaly) : gen_Anomaly :=
  MkGenAnomaly (gen_Anomaly_Confidence a) (gen_Anomaly_DetectedAt a) (wire_map <$> gen_Anomaly_Evidence a)
    (gen_Anomaly_Explanation a) (gen_Anomaly_Id a) (gen_Anomaly_Kind a) (gen_Anomaly_PackageRef a).

Definition received (b : Body) : Body :=
  match b with
  | BError code m => BError code (MText (message_text m))
  | BIoC i => BIoC (received_ioc i)
  | BIoCPage items => BIoCPage (received_ioc <$> items)
  | BIncident i => BIncident (received_incident i)
  | BIncidentPage items => BIncidentPage (received_incident <$> items)
  | BIncidentDetail d => BIncidentDetail (received_detail d)
  | BRemediation r => BRemediation (received_remediation r)
  | BAnomaly a => BAnomaly (received_anomaly a)
  | BAnomalyPage items => BAnomalyPage (received_anomaly <$> items)
  | _ => b
  end.

(** The numbers of a body that are an int64 in the code. *)
Definition body_ints (b : Body) : list Z :=
  match b with
  | BSBOM b => option_list (gen_SBOM_SourceBytes b)
  | BSBOMItems items => items ≫= λ b, option_list (gen_SBOM_SourceBytes b)
  | BAnomaly a => [gen_Anomaly_Id a]
  | BAnomalyPage items => gen_Anomaly_Id <$> items
  | BPublisherHistory items => gen_PublisherSnapshot_Id <$> items
  | _ => []
  end.
End received.

Definition int64 (z : Z) : Prop := (MinInt64 ≤ z ≤ MaxInt64)%Z.

(** * Properties *)

(** ** Pieces *)

Lemma decode_any_map_object `{FloatText} m : decode_any_map ∅ (object_json m) = Some (wire_map m).
Proof.
  unfold decode_any_map, object_json. rewrite (decode_map_marshal _ any_of_json) by done. cbn. f_equal.
  unfold wire_map. by rewrite <- map_fmap_compose.
Qed.

Lemma decode_string_map_annotations m : decode_string_map ∅ (annotations_json m) = Some m.
Proof.
  unfold decode_string_map, annotations_json.
  rewrite (decode_map_marshal _ (λ v, if v is JString s then s else "")); [|done|].
  - cbn. f_equal. rewrite <- map_fmap_compose. apply map_fmap_id.
  - intros k v. rewrite lookup_fmap. by destruct (m !! k); intros [= <-].
Qed.

Lemma decode_pointer_some {A} (dec : A → json → option A) zero v x :
  v ≠ JNull → dec zero v = Some x → decode_pointer dec zero None v = Some (Some x).
Proof. intros Hv Hx. destruct v; [done|..]; cbn [decode_pointer default]; by rewrite Hx. Qed.

Lemma decode_string_list l : decode_slice decode_string "" [] (json_strings l) = Some l.
Proof. change (decode_elems decode_string "" [] (JString <$> l) = Some l). rewrite <- (list_fmap_id l) at 2. by apply decode_elems_map. Qed.

Lemma decode_int_json z : int64 z → decode_int 0 (json_int z) = Some z.
Proof. apply parse_int_pretty. Qed.

Lemma decode_time_json t v : time_json t = Some v → decode_time 0 v = Some t.
Proof.
  unfold time_json. destruct (format_rfc3339 t) as [s|] eqn:E; [|done]. intros [= <-].
  rewrite <- (decode_time_format 0 t s E). f_equal. f_equal. symmetry. apply sanitize_plain.
  unfold format_rfc3339 in E. case_bool_decide; [|done]. injection E as <-. apply format_civil_plain.
Qed.

(** A list whose elements are marshalled one by one. *)
Lemma decode_elems_mapM {A} (dec : A → json → option A) zero (f : A → option json) (g : A → A) l js :
  (∀ x j, x ∈ l → f x = Some j → dec zero j = Some (g x)) → mapM f l = Some js →
  decode_slice dec zero [] (JArray js) = Some (g <$> l).
Proof.
  intros Hf Hl%mapM_Some. cbn [decode_slice]. induction Hl as [|x j l js Hx _ IH]; [done|].
  cbn [decode_elems head tail]. change (default zero None) with zero. rewrite (Hf x j) by (done || by left).
  cbn [mbind option_bind]. rewrite IH by (intros; apply Hf; [by right|done]). done.
Qed.

(** ** Fields that are there *)

Lemma optional_text s : optional_string None (JString s) = Some (Some s).
Proof. done. Qed.

Lemma optional_null : optional_string None JNull = Some None.
Proof. done. Qed.

Lemma optional_texts l : optional_strings None (json_strings l) = Some (Some l).
Proof. apply decode_pointer_some; [done|apply decode_string_list]. Qed.

Lemma optional_annotations m : optional_string_map None (annotations_json m) = Some (Some m).
Proof. apply decode_pointer_some; [done|apply decode_string_map_annotations]. Qed.

Lemma optional_object `{FloatText} m : optional_any_map None (object_json m) = Some (Some (wire_map m)).
Proof. apply decode_pointer_some; [done|apply decode_any_map_object]. Qed.

Lemma optional_instant t v : time_json t = Some v → optional_time None v = Some (Some t).
Proof.
  intros Hv. apply decode_pointer_some; [|by apply decode_time_json].
  unfold time_json in Hv. destruct (format_rfc3339 t); simplify_eq/=. done.
Qed.

Lemma optional_number z : int64 z → optional_int None (json_int z) = Some (Some z).
Proof. intros Hz. apply decode_pointer_some; [done|by apply decode_int_json]. Qed.

Lemma decode_text old s : decode_string old (JString s) = Some s.
Proof. done. Qed.

Create Rewrite HintDb wire.
#[local] Hint Rewrite optional_text optional_null optional_texts optional_annotations @optional_object decode_text decode_string_list : wire.

(** Read the members of an explicit object in their order, each with what is
    known of it. *)
Ltac read_fields set :=
  cbn [omit_nil opt_string from_option default id fmap option_fmap option_map app decode_strict foldl mbind option_bind];
  repeat match goal with
    | |- context [select_field ?names ?k] =>
        let v := eval vm_compute in (select_field names k) in change (select_field names k) with v
    end;
  repeat first
    [ progress cbn [set String.eqb Ascii.eqb Bool.eqb mbind option_bind]
    | progress autorewrite with wire
    | match goal with H : _ = Some _ |- _ => rewrite H end ];
  try reflexivity.

Lemma Component_reads c : decode_gen_Component zero_Component (gen_Component_json c) = Some c.
Proof.
  destruct c as [[ann|] kind [life|] nm ns [owner|] ref [sys|] [tags|]];
    unfold decode_gen_Component, gen_Component_json, zero_Component, Component_fields;
    cbn [gen_Component_Annotations gen_Component_Kind gen_Component_Lifecycle gen_Component_Name gen_Component_Namespace
         gen_Component_Owner gen_Component_Ref gen_Component_System gen_Component_Tags];
    read_fields set_gen_Component.
Qed.

Lemma Components_read l : decode_slice decode_gen_Component zero_Component [] (JArray (gen_Component_json <$> l)) = Some l.
Proof. rewrite <- (list_fmap_id l) at 2. apply decode_elems_map. intros c _. apply Component_reads. Qed.

Lemma PackageVersion_reads p :
  decode_gen_PackageVersion (MkGenPackageVersion "" None "" "" None "") (gen_PackageVersion_json p) = Some p.
Proof.
  destruct p as [eco [integ|] nm purl [scope|] ver]; unfold decode_gen_PackageVersion, gen_PackageVersion_json;
    cbn [gen_PackageVersion_Ecosystem gen_PackageVersion_Integrity gen_PackageVersion_Name gen_PackageVersion_Purl
         gen_PackageVersion_Scope gen_PackageVersion_Version default];
    read_fields set_gen_PackageVersion.
Qed.

Lemma optional_packages l :
  decode_pointer (decode_slice decode_gen_PackageVersion (MkGenPackageVersion "" None "" "" None "")) [] None
    (JArray (gen_PackageVersion_json <$> l)) = Some (Some l).
Proof.
  apply decode_pointer_some; [done|]. rewrite <- (list_fmap_id l) at 2. apply decode_elems_map.
  intros p _. apply PackageVersion_reads.
Qed.

#[local] Hint Rewrite optional_packages : wire.

Lemma SBOM_reads b j : Forall int64 (option_list (gen_SBOM_SourceBytes b)) → gen_SBOM_json b = Some j →
  decode_gen_SBOM zero_SBOM j = Some b.
Proof.
  destruct b as [sha ref eco at_ id pkgs size fmt]. unfold gen_SBOM_json.
  cbn [gen_SBOM_CommitSha gen_SBOM_ComponentRef gen_SBOM_Ecosystem gen_SBOM_GeneratedAt gen_SBOM_Id gen_SBOM_Packages
       gen_SBOM_SourceBytes gen_SBOM_SourceFormat]. intros Hsize Hj.
  apply bind_Some in Hj as (v & Hat & [= <-]). apply decode_time_json in Hat.
  assert (∀ z, size = Some z → optional_int None (json_int z) = Some (Some z)) as Hint.
  { intros z ->. apply optional_number. by inversion Hsize. }
  clear Hsize.
  unfold decode_gen_SBOM, zero_SBOM.
  destruct size as [z|]; [specialize (Hint z eq_refl)|clear Hint]; destruct sha, pkgs; read_fields set_gen_SBOM.
Qed.

Lemma Publisher_reads p j : gen_Publisher_json p = Some j → decode_gen_Publisher (MkGenPublisher "" None None "") j = Some p.
Proof.
  destruct p as [eco first last nm]. unfold gen_Publisher_json.
  cbn [gen_Publisher_Ecosystem gen_Publisher_FirstSeen gen_Publisher_LastSeen gen_Publisher_Name]. intros Hj.
  apply bind_Some in Hj as (v1 & H1 & (v2 & H2 & [= <-])%bind_Some). unfold decode_gen_Publisher.
  destruct first as [t1|]; [apply fmap_Some in H1 as (w1 & H1%optional_instant & ->)|injection H1 as <-];
    (destruct last as [t2|]; [apply fmap_Some in H2 as (w2 & H2%optional_instant & ->)|injection H2 as <-]);
    read_fields set_gen_Publisher.
Qed.

Section with_any.
Context `{FloatText}.

Lemma IoCBodyAnomaly_reads b :
  decode_gen_IoCBodyAnomaly (MkGenIoCBodyAnomaly "" None None "" "") (gen_IoCBodyAnomaly_json b) = Some (received_anomaly_body b).
Proof.
  destruct b as [conf [ev|] [expl|] kind ref]; unfold decode_gen_IoCBodyAnomaly, gen_IoCBodyAnomaly_json, received_anomaly_body;
    cbn [gen_IoCBodyAnomaly_Confidence gen_IoCBodyAnomaly_Evidence gen_IoCBodyAnomaly_Explanation gen_IoCBodyAnomaly_Kind
         gen_IoCBodyAnomaly_PackageRef]; read_fields set_gen_IoCBodyAnomaly.
Qed.

Lemma PublisherSignal_reads s j : gen_PublisherSignal_json s = Some j →
  decode_gen_PublisherSignal zero_PublisherSignal j = Some (received_signal s).
Proof.
  destruct s as [desc at_ ev pkg pub sev ty]. unfold gen_PublisherSignal_json, received_signal.
  cbn [gen_PublisherSignal_Description gen_PublisherSignal_DetectedAt gen_PublisherSignal_Evidence gen_PublisherSignal_Package
       gen_PublisherSignal_Publisher gen_PublisherSignal_Severity gen_PublisherSignal_Type]. intros Hj.
  apply bind_Some in Hj as (v1 & H1%decode_time_json & (v2 & H2%Publisher_reads & [= <-])%bind_Some).
  assert (∀ p, decode_pointer decode_gen_PackageVersion (MkGenPackageVersion "" None "" "" None "") None (gen_PackageVersion_json p)
    = Some (Some p)) as Hpkg by (intros p; apply decode_pointer_some; [done|apply PackageVersion_reads]).
  unfold decode_gen_PublisherSignal, zero_PublisherSignal.
  destruct pkg as [p|]; [specialize (Hpkg p)|clear Hpkg]; destruct desc, ev; read_fields set_gen_PublisherSignal.
Qed.

Lemma IoCPublisherAnomaly_reads b j : gen_IoCPublisherAnomaly_json b = Some j →
  decode_gen_IoCPublisherAnomaly (MkGenIoCPublisherAnomaly "" None) j = Some (received_publisher_anomaly b).
Proof.
  destruct b as [nm signals]. unfold gen_IoCPublisherAnomaly_json, received_publisher_anomaly.
  cbn [gen_IoCPublisherAnomaly_PublisherName gen_IoCPublisherAnomaly_Signals]. intros Hj.
  apply bind_Some in Hj as (v & Hv & [= <-]). unfold decode_gen_IoCPublisherAnomaly.
  destruct signals as [l|]; [|injection Hv as <-; read_fields set_gen_IoCPublisherAnomaly].
  apply fmap_Some in Hv as (w & (js & Hjs & ->)%fmap_Some & ->).
  assert (decode_pointer (decode_slice decode_gen_PublisherSignal zero_PublisherSignal) [] None (JArray js)
    = Some (Some (received_signal <$> l))) as Hl.
  { apply decode_pointer_some; [done|]. eapply decode_elems_mapM; [|exact Hjs]. intros s j _. apply PublisherSignal_reads. }
  read_fields set_gen_IoCPublisherAnomaly.
Qed.
Lemma optional_anomaly_body b :
  decode_pointer decode_gen_IoCBodyAnomaly (MkGenIoCBodyAnomaly "" None None "" "") None (gen_IoCBodyAnomaly_json b)
  = Some (Some (received_anomaly_body b)).
Proof. apply decode_pointer_some; [done|apply IoCBodyAnomaly_reads]. Qed.

Lemma optional_version b :
  decode_pointer decode_gen_IoCPackageVersion (MkGenIoCPackageVersion "" "" "") None (gen_IoCPackageVersion_json b) = Some (Some b).
Proof. apply decode_pointer_some; [done|by destruct b]. Qed.

Lemma optional_range b :
  decode_pointer decode_gen_IoCPackageRange (MkGenIoCPackageRange "" "") None (gen_IoCPackageRange_json b) = Some (Some b).
Proof. apply decode_pointer_some; [done|by destruct b]. Qed.

Lemma optional_publisher_anomaly b j : gen_IoCPublisherAnomaly_json b = Some j →
  decode_pointer decode_gen_IoCPublisherAnomaly (MkGenIoCPublisherAnomaly "" None) None j = Some (Some (received_publisher_anomaly b)).
Proof.
  intros Hj. apply decode_pointer_some; [|by apply IoCPublisherAnomaly_reads].
  by apply bind_Some in Hj as (v & _ & [= <-]).
Qed.
End with_any.

#[local] Hint Rewrite @optional_anomaly_body optional_version optional_range : wire.

Section with_any.
Context `{FloatText}.

Lemma IoC_reads i j : gen_IoC_json i = Some j → decode_gen_IoC zero_IoC j = Some (received_ioc i).
Proof.
  destruct i as [ab desc eco id kind pr pv pub pa sev src]. unfold gen_IoC_json, received_ioc.
  cbn [gen_IoC_AnomalyBody gen_IoC_Description gen_IoC_Ecosystem gen_IoC_Id gen_IoC_Kind gen_IoC_PackageRange
       gen_IoC_PackageVersion gen_IoC_PublishedAt gen_IoC_PublisherAnomaly gen_IoC_Severity gen_IoC_Source]. intros Hj.
  apply bind_Some in Hj as (v & Hat%decode_time_json & (w & Hpa & [= <-])%bind_Some).
  unfold decode_gen_IoC, zero_IoC, IoC_fields.
  destruct pa as [b|]; [apply fmap_Some in Hpa as (u & Hpa%optional_publisher_anomaly & ->)|injection Hpa as <-];
    destruct ab, desc, pr, pv, src; read_fields set_gen_IoC.
Qed.

Lemma Remediation_reads r j : gen_Remediation_json r = Some j →
  decode_gen_Remediation zero_Remediation j = Some (received_remediation r).
Proof.
  destruct r as [actor details at_ id inc kind]. unfold gen_Remediation_json, received_remediation.
  cbn [gen_Remediation_ActorRef gen_Remediation_Details gen_Remediation_ExecutedAt gen_Remediation_Id
       gen_Remediation_IncidentId gen_Remediation_Kind]. intros (v & Hat%decode_time_json & [= <-])%bind_Some.
  unfold decode_gen_Remediation, zero_Remediation. destruct actor, details; read_fields set_gen_Remediation.
Qed.

Lemma Incident_reads i j : gen_Incident_json i = Some j → decode_gen_Incident zero_Incident j = Some (received_incident i).
Proof.
  destruct i as [snapshot id ioc last opened rems state]. unfold gen_Incident_json, received_incident.
  cbn [gen_Incident_AffectedComponentsSnapshot gen_Incident_Id gen_Incident_IocId gen_Incident_LastTransitionedAt
       gen_Incident_OpenedAt gen_Incident_Remediations gen_Incident_State]. intros Hj.
  apply bind_Some in Hj as (v1 & H1%decode_time_json & (v2 & H2%decode_time_json & (w & Hr & [= <-])%bind_Some)%bind_Some).
  unfold decode_gen_Incident, zero_Incident.
  destruct rems as [l|]; [|injection Hr as <-; destruct snapshot; read_fields set_gen_Incident].
  apply fmap_Some in Hr as (u & (js & Hjs & ->)%fmap_Some & ->).
  assert (decode_pointer (decode_slice decode_gen_Remediation zero_Remediation) [] None (JArray js)
    = Some (Some (received_remediation <$> l))) as Hl.
  { apply decode_pointer_some; [done|]. eapply decode_elems_mapM; [|exact Hjs]. intros r j _. apply Remediation_reads. }
  destruct snapshot; read_fields set_gen_Incident.
Qed.

Lemma IncidentDetail_reads d j : gen_IncidentDetail_json d = Some j →
  decode_gen_IncidentDetail (MkGenIncidentDetail None zero_Incident None) j = Some (received_detail d).
Proof.
  destruct d as [comps inc ioc]. unfold gen_IncidentDetail_json, received_detail.
  cbn [gen_IncidentDetail_AffectedComponents gen_IncidentDetail_Incident gen_IncidentDetail_Ioc]. intros Hj.
  apply bind_Some in Hj as (v & Hinc%Incident_reads & (w & Hioc & [= <-])%bind_Some).
  assert (∀ l, decode_pointer (decode_slice decode_gen_Component zero_Component) [] None (JArray (gen_Component_json <$> l))
    = Some (Some l)) as Hcomps by (intros l; apply decode_pointer_some; [done|apply Components_read]).
  assert (∀ i v, gen_IoC_json i = Some v → decode_pointer decode_gen_IoC zero_IoC None v = Some (Some (received_ioc i))) as Hptr.
  { intros i u Hu. apply decode_pointer_some; [|by apply IoC_reads].
    by apply bind_Some in Hu as (? & _ & (? & _ & [= <-])%bind_Some). }
  unfold decode_gen_IncidentDetail.
  destruct ioc as [i|]; [apply fmap_Some in Hioc as (u & Hioc%Hptr & ->)|injection Hioc as <-]; clear Hptr;
    (destruct comps as [l|]; [specialize (Hcomps l)|clear Hcomps]); read_fields set_gen_IncidentDetail.
Qed.

Lemma Anomaly_reads a j : int64 (gen_Anomaly_Id a) → gen_Anomaly_json a = Some j →
  decode_gen_Anomaly zero_Anomaly j = Some (received_anomaly a).
Proof.
  destruct a as [conf at_ ev expl id kind ref]. unfold gen_Anomaly_json, received_anomaly.
  cbn [gen_Anomaly_Confidence gen_Anomaly_DetectedAt gen_Anomaly_Evidence gen_Anomaly_Explanation gen_Anomaly_Id
       gen_Anomaly_Kind gen_Anomaly_PackageRef]. intros Hid%decode_int_json (v & Hat%decode_time_json & [= <-])%bind_Some.
  unfold decode_gen_Anomaly, zero_Anomaly. destruct ev; read_fields set_gen_Anomaly.
Qed.
End with_any.

Lemma Maintainer_reads m : decode_gen_Maintainer (MkGenMaintainer None None None) (gen_Maintainer_json m) = Some m.
Proof. by destruct m as [[email|] [nm|] [user|]]. Qed.

Lemma PublisherSnapshot_reads s j : int64 (gen_PublisherSnapshot_Id s) → gen_PublisherSnapshot_json s = Some j →
  decode_gen_PublisherSnapshot zero_PublisherSnapshot j = Some s.
Proof.
  destruct s as [id ver pub ms ref method at_ url]. unfold gen_PublisherSnapshot_json.
  cbn [gen_PublisherSnapshot_Id gen_PublisherSnapshot_LatestVersion gen_PublisherSnapshot_LatestVersionPublishedAt
       gen_PublisherSnapshot_Maintainers gen_PublisherSnapshot_PackageRef gen_PublisherSnapshot_PublishMethod
       gen_PublisherSnapshot_SnapshotAt gen_PublisherSnapshot_SourceRepoURL]. intros Hid%decode_int_json Hj.
  apply bind_Some in Hj as (v & Hpub & (w & Hat%decode_time_json & [= <-])%bind_Some).
  assert (∀ l, decode_pointer (decode_slice decode_gen_Maintainer (MkGenMaintainer None None None)) [] None
    (JArray (gen_Maintainer_json <$> l)) = Some (Some l)) as Hms.
  { intros l. apply decode_pointer_some; [done|]. rewrite <- (list_fmap_id l) at 2. apply decode_elems_map.
    intros m _. apply Maintainer_reads. }
  unfold decode_gen_PublisherSnapshot, zero_PublisherSnapshot.
  destruct pub as [t|]; [apply fmap_Some in Hpub as (u & Hpub%optional_instant & ->)|injection Hpub as <-];
    (destruct ms as [l|]; [specialize (Hms l)|clear Hms]); destruct ver, method, url; read_fields set_gen_PublisherSnapshot.
Qed.
