(* ===== verification/Postgres.v ===== *)
(** * The Postgres backend (engine/internal/storage/postgres)

    storage.go: every method of [Store], over the tables of the seven
    migrations. A table with a primary key that is looked up by it is a
    finite map from the key to the other columns; the tables whose rows
    have an order (positions, sequence numbers) are lists of rows in the
    order of insertion.

    The database is not code of the repository. What a statement does to
    the tables is written out from its SQL text; what remains open is a
    parameter: whether the statement is executed and answered ([Call]),
    the order of rows that [ORDER BY] leaves open, the collation, what the
    jsonb type makes of a document, the texts of the server's errors.
    Instants are stored in microseconds, and text only as UTF-8 without NUL.
    The instants are those of the range of timestamptz (4713 BC to 294276),
    which holds every instant that the API can name. *)

From S2P Require Import Prelude GoStrings GoText Json JsonEncode Domain GoJson Storage PgColumns.
From stdpp Require Import options.

(** ** Columns *)

(** timestamptz counts microseconds. *)
Definition pg_time (t : Time) : Time := (t / 1000 * 1000)%Z.

(** What the server takes as text. *)
Definition text_ok (s : string) : bool :=
  negb (byte_in NUL s) && String.eqb (sanitize_string s) s.

Class Collation := { collate : string → string → bool; collate_swo : StrictWeakOrder collate }.

(** The server's refusals, and whether pgx reports them from [Query] or from
    [Rows.Err]. *)
Class Refusals := {
  text_error : string → db_error;
  jsonb_error : string → db_error;
  int4_error : Z → db_error;
  unique_error : db_error;
  foreign_key_error : db_error;
  early_refusal : bool;
}.

Record component_row := MkComponentRow {
  co_kind : string; co_namespace : string; co_name : string; co_owner : string;
  co_system : string; co_lifecycle : string; co_tags : list string; co_annotations : string;
}.

Record sbom_row := MkSbomRow {
  sb_component_ref : string; sb_commit_sha : string; sb_ecosystem : string;
  sb_generated_at : Time; sb_source_format : string; sb_source_bytes : Z;
}.

Record package_row := MkPackageRow {
  pk_sbom_id : string; pk_position : Z; pk_ecosystem : string; pk_name : string;
  pk_version : string; pk_purl : string; pk_scope : list string; pk_integrity : string;
}.

Record ioc_row := MkIocRow {
  io_kind : string; io_severity : string; io_ecosystem : string; io_source : string;
  io_published_at : Time; io_description : string; io_body : string;
}.

Record incident_row := MkIncidentRow {
  in_ioc_id : string; in_state : string; in_opened_at : Time; in_last_transitioned_at : Time;
  in_snapshot : list string;
}.

Record remediation_row := MkRemediationRow {
  re_id : string; re_incident_id : string; re_kind : string; re_executed_at : Time;
  re_actor_ref : string; re_details : string; re_seq : Z;
}.

Record publisher_row := MkPublisherRow { pu_first_seen : Time; pu_last_seen : Time }.

Record profile_row := MkProfileRow {
  pp_package_count : Z; pp_publish_count : Z; pp_last_30day_publishes : Z; pp_uses_oidc : bool;
  pp_has_git_tags : bool; pp_maintainer_emails : list string; pp_last_email_change : option Time;
}.

Record history_row := MkHistoryRow {
  hi_id : Z; hi_package_ref : string; hi_snapshot_at : Time; hi_maintainers : string;
  hi_latest_version : option string; hi_latest_version_published_at : option Time;
  hi_publish_method : option string; hi_source_repo_url : option string; hi_raw_data : string;
}.

Record anomaly_row := MkAnomalyRow {
  an_kind : string; an_package_ref : string; an_detected_at : Time; an_confidence : string;
  an_explanation : string; an_evidence : string;
}.

(** ** Tables, and the sequences behind BIGSERIAL *)

Record Db := MkDb {
  t_components : gmap string component_row;
  t_sboms : gmap string sbom_row;
  t_packages : list package_row;
  t_iocs : gmap string ioc_row;
  t_incidents : gmap string incident_row;
  t_remediations : list remediation_row;
  t_publishers : gmap (string * string) publisher_row;
  t_profiles : gmap (string * string) profile_row;
  t_history : list history_row;
  t_anomalies : gmap Z anomaly_row;
  remediations_seq : Z;
  history_seq : Z;
  anomalies_seq : Z;
}.

(** A migrated, empty database. *)
Definition migrated : Db := MkDb ∅ ∅ [] ∅ ∅ [] ∅ ∅ [] ∅ 1 1 1.

Definition set_components f d := MkDb (f (t_components d)) (t_sboms d) (t_packages d) (t_iocs d)
  (t_incidents d) (t_remediations d) (t_publishers d) (t_profiles d) (t_history d) (t_anomalies d)
  (remediations_seq d) (history_seq d) (anomalies_seq d).
Definition set_sboms f d := MkDb (t_components d) (f (t_sboms d)) (t_packages d) (t_iocs d)
  (t_incidents d) (t_remediations d) (t_publishers d) (t_profiles d) (t_history d) (t_anomalies d)
  (remediations_seq d) (history_seq d) (anomalies_seq d).
Definition set_packages f d := MkDb (t_components d) (t_sboms d) (f (t_packages d)) (t_iocs d)
  (t_incidents d) (t_remediations d) (t_publishers d) (t_profiles d) (t_history d) (t_anomalies d)
  (remediations_seq d) (history_seq d) (anomalies_seq d).
Definition set_iocs f d := MkDb (t_components d) (t_sboms d) (t_packages d) (f (t_iocs d))
  (t_incidents d) (t_remediations d) (t_publishers d) (t_profiles d) (t_history d) (t_anomalies d)
  (remediations_seq d) (history_seq d) (anomalies_seq d).
Definition set_incidents f d := MkDb (t_components d) (t_sboms d) (t_packages d) (t_iocs d)
  (f (t_incidents d)) (t_remediations d) (t_publishers d) (t_profiles d) (t_history d) (t_anomalies d)
  (remediations_seq d) (history_seq d) (anomalies_seq d).
Definition set_remediations f d := MkDb (t_components d) (t_sboms d) (t_packages d) (t_iocs d)
  (t_incidents d) (f (t_remediations d)) (t_publishers d) (t_profiles d) (t_history d) (t_anomalies d)
  (remediations_seq d + 1) (history_seq d) (anomalies_seq d).
Definition set_publishers f d := MkDb (t_components d) (t_sboms d) (t_packages d) (t_iocs d)
  (t_incidents d) (t_remediations d) (f (t_publishers d)) (t_profiles d) (t_history d) (t_anomalies d)
  (remediations_seq d) (history_seq d) (anomalies_seq d).
Definition set_profiles f d := MkDb (t_components d) (t_sboms d) (t_packages d) (t_iocs d)
  (t_incidents d) (t_remediations d) (t_publishers d) (f (t_profiles d)) (t_history d) (t_anomalies d)
  (remediations_seq d) (history_seq d) (anomalies_seq d).
Definition set_history f d := MkDb (t_components d) (t_sboms d) (t_packages d) (t_iocs d)
  (t_incidents d) (t_remediations d) (t_publishers d) (t_profiles d) (f (t_history d)) (t_anomalies d)
  (remediations_seq d) (history_seq d + 1) (anomalies_seq d).
Definition set_anomalies f d := MkDb (t_components d) (t_sboms d) (t_packages d) (t_iocs d)
  (t_incidents d) (t_remediations d) (t_publishers d) (t_profiles d) (t_history d) (f (t_anomalies d))
  (remediations_seq d) (history_seq d) (anomalies_seq d + 1).

(** ** Statements *)

(** A method talks to the pool: statements are numbered, and an error stops
    it. *)
Definition Pg (A : Type) : Type := Call → nat → Db → result A * nat * Db.

#[global] Instance Pg_ret : MRet Pg := λ A a k n d, (Ok a, n, d).
#[global] Instance Pg_bind : MBind Pg := λ A B f m k n d,
  match m k n d with
  | (Ok a, n', d') => f a k n' d'
  | (Err e, n', d') => (Err e, n', d')
  end.

Definition fail {A} (e : error) : Pg A := λ k n d, (Err e, n, d).

(** [if err != nil { return h(err) }]. *)
Definition or_else {A} (h : error → error) (m : Pg A) : Pg A := λ k n d,
  match m k n d with
  | (Err e, n', d') => (Err (h e), n', d')
  | r => r
  end.

(** [v, err := m], with the error as a value. *)
Definition try {A} (m : Pg A) : Pg (result A) := λ k n d,
  let '(r, n', d') := m k n d in (Ok r, n', d').

Definition from_result {A} (r : result A) : Pg A := λ k n d, (r, n, d).

(** [fmt.Errorf] with one [%w]. *)
Definition wrapped (format : string) : error → error := EWrap format [].

(** The error of a call as a Go value; a [*pgconn.PgError] shows its
    message and its code. *)
Definition PgError_format : string := "%s (SQLSTATE %s)".
Definition go_error (e : db_error) : error :=
  match e with
  | PgError message code => EText PgError_format [message; code]
  | CtxError c => ctx_sentinel c
  | DriverError text => EText text []
  end.

(** [errors.As(err, &pgErr)]. *)
Fixpoint as_PgError (e : error) : option (string * string) :=
  match e with
  | EText format [message; code] => if String.eqb format PgError_format then Some (message, code) else None
  | EWrap _ _ e' => as_PgError e'
  | EWrap2 _ _ e1 e2 => match as_PgError e1 with Some p => Some p | None => as_PgError e2 end
  | _ => None
  end.

Definition wrapPgErr (op : string) (e : error) : error :=
  match as_PgError e with
  | Some (message, code) => EText "postgres: %s: %s (code %s)" [op; message; code]
  | None => EWrap "postgres: %s: %w" [op] e
  end.

Inductive answer (A : Type) :=
  | Answered (a : A)
  | Refused (e : db_error)
  | Failed (e : db_error)
  | Broken (delivered : nat) (a : A) (e : db_error).
Arguments Answered {_} _.
Arguments Refused {_} _.
Arguments Failed {_} _.
Arguments Broken {_} _ _ _.

(** One statement: [effect] is what the server does when it executes it. *)
Definition statement {A} (effect : GoRuntime → Db → db_error + A * Db) : Call → nat → Db → answer A * nat * Db :=
  λ k n d,
  match call_err k with
  | Some c => (Failed (CtxError c), n, d)
  | None =>
      match db_result (call_db k n), effect (db_rt (call_db k n)) d with
      | DbFailed e, _ => (Failed e, S n, d)
      | _, inl e => (Refused e, S n, d)
      | DbExecuted, inr (a, d') => (Answered a, S n, d')
      | DbLost m e, inr (a, d') => (Broken m a e, S n, d')
      end
  end.

Definition Exec (effect : GoRuntime → Db → db_error + () * Db) : Pg () := λ k n d,
  let '(a, n', d') := statement effect k n d in
  (match a with Answered _ => Ok () | Refused e | Failed e | Broken _ _ e => Err (go_error e) end, n', d').

(** [QueryRow(...).Scan]. *)
Definition QueryRow {R} (effect : GoRuntime → Db → db_error + option R * Db) : Pg R := λ k n d,
  let '(a, n', d') := statement effect k n d in
  (match a with
   | Answered (Some r) => Ok r
   | Answered None => Err (ESentinel pgx_ErrNoRows)
   | Refused e | Failed e | Broken _ _ e => Err (go_error e)
   end, n', d').

(** The rows [Next] delivers and what [Err] says after them. *)
Record Rows (R : Type) := MkRows { rows_delivered : list R; rows_Err : option error }.
Arguments MkRows {_} _ _.
Arguments rows_delivered {_} _.
Arguments rows_Err {_} _.

Section statements.
Context `{Jsonb, Refusals}.

Definition Query {R} (effect : GoRuntime → Db → db_error + list R * Db) : Pg (Rows R) := λ k n d,
  let '(a, n', d') := statement effect k n d in
  (match a with
   | Answered rows => Ok (MkRows rows None)
   | Broken m rows e => Ok (MkRows (take m rows) (Some (go_error e)))
   | Refused e => if early_refusal then Err (go_error e) else Ok (MkRows [] (Some (go_error e)))
   | Failed e => Err (go_error e)
   end, n', d').

(** The parameters a statement can be refused for; the driver checks the
    integers before anything is sent, the server the others in turn. *)
Inductive param :=
  | PText (s : string)
  | PTexts (l : list string)
  | PJson (t : string)
  | PInt4 (z : Z).

Definition int4_ok (z : Z) : bool := bool_decide (- 2 ^ 31 ≤ z < 2 ^ 31)%Z.

Definition driver_refusal (p : param) : option db_error :=
  match p with PInt4 z => if int4_ok z then None else Some (int4_error z) | _ => None end.

Definition server_refusal (p : param) : option db_error :=
  match p with
  | PText s => if text_ok s then None else Some (text_error s)
  | PTexts l => text_error <$> find (λ s, negb (text_ok s)) l
  | PJson t => match jsonb t with Some _ => None | None => Some (jsonb_error t) end
  | PInt4 _ => None
  end.

Definition first_refusal (check : param → option db_error) (ps : list param) : option db_error :=
  head (omap check ps).

(** The statement with these parameters. *)
Definition with_params {A} (ps : list param) (effect : GoRuntime → Db → db_error + A * Db) :
    GoRuntime → Db → db_error + A * Db := λ rt d,
  match first_refusal driver_refusal ps with
  | Some e => inl e
  | None => match first_refusal server_refusal ps with Some e => inl e | None => effect rt d end
  end.

(** A document as it is stored. *)
Definition stored (t : string) : string := default "" (jsonb t).
End statements.

(** A statement that only changes tables, and one that only reads. *)
Definition update (f : Db → Db) : GoRuntime → Db → db_error + () * Db := λ _ d, inr ((), f d).
Definition select {A} (f : GoRuntime → Db → A) : GoRuntime → Db → db_error + A * Db := λ rt d, inr (f rt d, d).

Definition ORDER_BY {A} (rt : GoRuntime) (less : A → A → bool) (rows : list A) : list A :=
  @sort_slice rt A less rows.

(** [for rows.Next() { x, err := scan(rows) ... }; return out, rows.Err()]. *)
Fixpoint scan_all {R A} (scan : R → Pg A) (rows : list R) : Pg (list A) :=
  match rows with
  | [] => mret []
  | r :: rows' => x ← scan r; xs ← scan_all scan rows'; mret (x :: xs)
  end.

Definition collect {R A} (scan : R → Pg A) (rs : Rows R) : Pg (list A) :=
  out ← scan_all scan (rows_delivered rs);
  match rows_Err rs with Some e => fail e | None => mret out end.

(** A method that reads, and one that writes. *)
Definition reading {A} (m : Pg A) (k : Call) (d : Db) : result A := (m k 0 d).1.1.
Definition writing {A} (m : Pg A) (k : Call) (d : Db) : Db * result A :=
  let '(r, _, d') := m k 0 d in (d', r).
Definition executing (m : Pg ()) (k : Call) (d : Db) : Db * option error :=
  let '(d', r) := writing m k d in (d', result_error r).

Definition now (f : Time → Pg ()) : Pg () := λ k n d, f (call_now k) k n d.

(** [if errors.Is(err, pgx.ErrNoRows) { return storage.ErrNotFound }]. *)
Definition not_found (format : string) (e : error) : error :=
  if errors_Is e pgx_ErrNoRows then ESentinel ErrNotFound else wrapped format e.

Section methods.
Context `{FloatText, Jsonb, Collation, Refusals, UnicodeCase}.

(** ** Components *)

Definition component_params (c : Component) : list param :=
  [PText (Component_Ref c); PText (Component_Kind c); PText (Component_Namespace c);
   PText (Component_Name c); PText (Component_Owner c); PText (Component_System c);
   PText (Component_Lifecycle c); PTexts (Component_Tags c);
   PJson (encode (annotations_json (Component_Annotations c)))].

Definition Pg_UpsertComponent (c : Component) : Pg () :=
  let ann := encode (annotations_json (Component_Annotations c)) in
  or_else (wrapPgErr "UpsertComponent") (Exec (with_params (component_params c)
    (update (set_components (<[Component_Ref c :=
       MkComponentRow (Component_Kind c) (Component_Namespace c) (Component_Name c) (Component_Owner c)
         (Component_System c) (Component_Lifecycle c) (Component_Tags c) (stored ann)]>))))).

Definition scanComponent (row : string * component_row) : result Component :=
  let '(ref, r) := row in
  match unmarshalJSON decode_string_map ∅ (co_annotations r) with
  | Err e => Err e
  | Ok ann => Ok (MkComponent ref (co_kind r) (co_namespace r) (co_name r) (co_owner r) (co_system r)
                    (co_lifecycle r) (co_tags r) ann)
  end.

Definition Pg_GetComponent (ref : string) : Pg Component :=
  or_else (not_found "postgres: GetComponent: %w")
    (row ← QueryRow (with_params [PText ref] (select (λ _ d, pair ref <$> t_components d !! ref)));
     from_result (scanComponent row)).

Definition Pg_ListComponents : Pg (list Component) :=
  rows ← or_else (wrapped "postgres: ListComponents: %w") (Query (select (λ rt d,
    ORDER_BY rt (λ x y, collate x.1 y.1) (map_to_list (t_components d)))));
  collect (λ r, or_else (wrapped "postgres: ListComponents scan: %w") (from_result (scanComponent r))) rows.

(** ** SBOMs *)

(** [pool.Begin], the statements, [tx.Commit]; any other return rolls back. *)
Definition transaction (begin_wrap : error → error) (body : Pg ()) : Pg () := λ k n d,
  let '(began, n, _) := or_else begin_wrap (Exec (update id)) k n d in
  match began with
  | Err e => (Err e, n, d)
  | Ok _ =>
      let '(r, n, d') := body k n d in
      match r with
      | Err e => (Err e, n, d)
      | Ok _ => Exec (λ _ _, inr ((), d')) k n d
      end
  end.

Definition package_params (id : string) (i : Z) (p : PackageVersion) : list param :=
  [PText id; PInt4 i; PText (PackageVersion_Ecosystem p); PText (PackageVersion_Name p);
   PText (PackageVersion_Version p); PText (PackageVersion_PURL p);
   PTexts (PackageVersion_Scope p); PText (PackageVersion_Integrity p)].

Definition insert_package (id : string) (i : Z) (p : PackageVersion) : Pg () :=
  or_else (wrapped "postgres: UpsertSBOM insert package: %w") (Exec (with_params (package_params id i p)
    (λ _ d,
       if existsb (λ r, bool_decide (pk_sbom_id r = id) && bool_decide (pk_position r = i)) (t_packages d)
       then inl unique_error
       else if bool_decide (id ∈ dom (t_sboms d)) then
         inr ((), set_packages (λ rows, rows ++ [MkPackageRow id i (PackageVersion_Ecosystem p)
           (PackageVersion_Name p) (PackageVersion_Version p) (PackageVersion_PURL p)
           (PackageVersion_Scope p) (PackageVersion_Integrity p)]) d)
       else inl foreign_key_error))).

Fixpoint insert_packages (id : string) (i : Z) (ps : list PackageVersion) : Pg () :=
  match ps with
  | [] => mret ()
  | p :: ps' => insert_package id i p ;; insert_packages id (i + 1) ps'
  end.

Definition sbom_params (b : SBOM) : list param :=
  [PText (SBOM_ID b); PText (SBOM_ComponentRef b); PText (SBOM_CommitSHA b);
   PText (SBOM_Ecosystem b); PText (SBOM_SourceFormat b)].

Definition Pg_UpsertSBOM (b : SBOM) : Pg () :=
  transaction (wrapped "postgres: UpsertSBOM begin: %w")
    (or_else (wrapPgErr "UpsertSBOM") (Exec (with_params (sbom_params b)
       (update (set_sboms (<[SBOM_ID b := MkSbomRow (SBOM_ComponentRef b) (SBOM_CommitSHA b)
          (SBOM_Ecosystem b) (pg_time (UTC (SBOM_GeneratedAt b))) (SBOM_SourceFormat b)
          (SBOM_SourceBytes b)]>))))) ;;
     or_else (wrapped "postgres: UpsertSBOM clear packages: %w") (Exec (with_params [PText (SBOM_ID b)]
       (update (set_packages (filter (λ r, pk_sbom_id r ≠ SBOM_ID b)))))) ;;
     insert_packages (SBOM_ID b) 0 (SBOM_Packages b)).

Definition scanSBOM (row : string * sbom_row) : SBOM :=
  let '(id, r) := row in
  MkSBOM id (sb_component_ref r) (sb_commit_sha r) (sb_ecosystem r) (UTC (sb_generated_at r)) []
    (sb_source_format r) (sb_source_bytes r).

Definition scan_package (r : package_row) : PackageVersion :=
  MkPackageVersion (pk_ecosystem r) (pk_name r) (pk_version r) (pk_purl r) (pk_scope r) (pk_integrity r).

Definition hydrateSBOMPackages (b : SBOM) : Pg SBOM :=
  rows ← or_else (wrapped "postgres: hydrateSBOMPackages: %w") (Query (with_params [PText (SBOM_ID b)]
    (select (λ rt d, ORDER_BY rt (λ x y, bool_decide (pk_position x < pk_position y)%Z)
      (filter (λ r, pk_sbom_id r = SBOM_ID b) (t_packages d))))));
  ps ← collect (λ r, mret (scan_package r)) rows;
  mret (MkSBOM (SBOM_ID b) (SBOM_ComponentRef b) (SBOM_CommitSHA b) (SBOM_Ecosystem b) (SBOM_GeneratedAt b)
    ps (SBOM_SourceFormat b) (SBOM_SourceBytes b)).

Definition Pg_GetSBOM (id : string) : Pg SBOM :=
  row ← or_else (not_found "postgres: GetSBOM: %w")
    (QueryRow (with_params [PText id] (select (λ _ d, pair id <$> t_sboms d !! id))));
  hydrateSBOMPackages (scanSBOM row).

Definition Pg_ListSBOMsByComponent (ref : string) : Pg (list SBOM) :=
  rows ← or_else (wrapped "postgres: ListSBOMsByComponent: %w") (Query (with_params [PText ref]
    (select (λ rt d, ORDER_BY rt (λ x y, Before (sb_generated_at x.2) (sb_generated_at y.2))
      (filter (λ row, sb_component_ref row.2 = ref) (map_to_list (t_sboms d)))))));
  collect (λ r, hydrateSBOMPackages (scanSBOM r)) rows.

(** [FROM sbom_packages sp JOIN sboms s ON s.id = sp.sbom_id]. *)
Definition package_join (d : Db) : list (sbom_row * package_row) :=
  omap (λ r, (λ s, (s, r)) <$> t_sboms d !! pk_sbom_id r) (t_packages d).

Definition Pg_ListSBOMPackages (ecosystem name : string) : Pg (list SBOMPackageRef) :=
  rows ← or_else (wrapped "postgres: ListSBOMPackages: %w") (Query (with_params [PText ecosystem; PText name]
    (select (λ rt d, ORDER_BY rt
      (λ x y, if bool_decide (sb_component_ref x.1 = sb_component_ref y.1)
              then collate (pk_version x.2) (pk_version y.2)
              else collate (sb_component_ref x.1) (sb_component_ref y.1))
      (filter (λ x, pk_ecosystem x.2 = ecosystem ∧ pk_name x.2 = name) (package_join d))))));
  collect (λ x, mret (MkSBOMPackageRef (sb_component_ref x.1) (scan_package x.2))) rows.
(** ** IoCs *)

Definition ioc_params (i : IoC) (body : json) : list param :=
  [PText (IoC_ID i); PText (IoC_Kind i); PText (IoC_Severity i); PText (IoC_Ecosystem i);
   PText (IoC_Source i); PText (IoC_Description i); PJson (encode body)].

Definition ioc_as_row (i : IoC) (body : json) : ioc_row :=
  MkIocRow (IoC_Kind i) (IoC_Severity i) (IoC_Ecosystem i) (IoC_Source i)
    (pg_time (UTC (IoC_PublishedAt i))) (IoC_Description i) (stored (encode body)).

Definition Pg_UpsertIoC (i : IoC) : Pg () :=
  match iocBody_json i with
  | None => fail (EWrap "postgres: UpsertIoC marshal body: %w" [] (EText "json: error calling MarshalJSON" []))
  | Some body =>
      or_else (wrapPgErr "UpsertIoC") (Exec (with_params (ioc_params i body)
        (update (set_iocs (<[IoC_ID i := ioc_as_row i body]>)))))
  end.

Definition scanIoC (row : string * ioc_row) : result IoC :=
  let '(id, r) := row in
  match Unmarshal decode_iocBody zero_iocBody (io_body r) with
  | Err e => Err (EWrap "postgres: decode ioc body: %w" [] e)
  | Ok parsed =>
      Ok (MkIoC id (io_kind r) (io_severity r) (io_ecosystem r) (io_source r) (UTC (io_published_at r))
            (io_description r) (body_PackageVersion parsed) (body_PackageRange parsed)
            (body_PublisherAnomaly parsed) (body_AnomalyBody parsed))
  end.

Definition Pg_GetIoC (id : string) : Pg IoC :=
  or_else (not_found "postgres: GetIoC: %w")
    (row ← QueryRow (with_params [PText id] (select (λ _ d, pair id <$> t_iocs d !! id)));
     from_result (scanIoC row)).

Definition Pg_ListIoCs : Pg (list IoC) :=
  rows ← or_else (wrapped "postgres: ListIoCs: %w") (Query (select (λ rt d,
    ORDER_BY rt (λ x y, Before (io_published_at x.2) (io_published_at y.2)) (map_to_list (t_iocs d)))));
  collect (λ r, from_result (scanIoC r)) rows.

(** ** Incidents *)

Definition incident_params (i : Incident) : list param :=
  [PText (Incident_ID i); PText (Incident_IoCID i); PText (Incident_State i);
   PTexts (Incident_AffectedComponentsSnapshot i)].

Definition Pg_UpsertIncident (i : Incident) : Pg () :=
  or_else (wrapPgErr "UpsertIncident") (Exec (with_params (incident_params i)
    (update (set_incidents (<[Incident_ID i := MkIncidentRow (Incident_IoCID i) (Incident_State i)
       (pg_time (UTC (Incident_OpenedAt i))) (pg_time (UTC (Incident_LastTransitionedAt i)))
       (Incident_AffectedComponentsSnapshot i)]>))))).

(** The audit log is not part of the row. *)
Definition scanIncident (row : string * incident_row) : Incident :=
  let '(id, r) := row in
  MkIncident id (in_ioc_id r) (in_state r) (UTC (in_opened_at r)) (UTC (in_last_transitioned_at r))
    (in_snapshot r) [].

Definition scan_remediation (r : remediation_row) : result Remediation :=
  match unmarshalJSON decode_any_map ∅ (re_details r) with
  | Err e => Err e
  | Ok details => Ok (MkRemediation (re_id r) (re_incident_id r) (re_kind r) (UTC (re_executed_at r))
                        (re_actor_ref r) details)
  end.

Definition listRemediationsTx (incidentID : string) : Pg (list Remediation) :=
  rows ← or_else (wrapped "postgres: listRemediations: %w") (Query (with_params [PText incidentID]
    (select (λ rt d, ORDER_BY rt (λ x y, bool_decide (re_seq x < re_seq y)%Z)
      (filter (λ r, re_incident_id r = incidentID) (t_remediations d))))));
  collect (λ r, from_result (scan_remediation r)) rows.

Definition Pg_GetIncident (id : string) : Pg Incident :=
  row ← or_else (not_found "postgres: GetIncident: %w")
    (QueryRow (with_params [PText id] (select (λ _ d, pair id <$> t_incidents d !! id))));
  rems ← listRemediationsTx id;
  let i := scanIncident row in
  mret (MkIncident (Incident_ID i) (Incident_IoCID i) (Incident_State i) (Incident_OpenedAt i)
    (Incident_LastTransitionedAt i) (Incident_AffectedComponentsSnapshot i) rems).

Definition Pg_ListIncidents : Pg (list Incident) :=
  rows ← or_else (wrapped "postgres: ListIncidents: %w") (Query (select (λ rt d,
    ORDER_BY rt (λ x y, Before (in_opened_at x.2) (in_opened_at y.2)) (map_to_list (t_incidents d)))));
  collect (λ r, mret (scanIncident r)) rows.

(** [SELECT DISTINCT u.ref FROM incidents i, unnest(...) AS u(ref) WHERE i.ioc_id = $1]. *)
Definition Pg_MatchedComponentRefsByIoC (iocID : string) : Pg (list string) :=
  rows ← or_else (wrapped "postgres: MatchedComponentRefsByIoC: %w") (Query (with_params [PText iocID]
    (select (λ rt d, ORDER_BY rt collate (remove_dups
      (filter (λ row, in_ioc_id row.2 = iocID) (map_to_list (t_incidents d)) ≫= λ row, in_snapshot row.2))))));
  collect (λ ref, mret ref) rows.

Definition noLimitSentinel : Z := 2 ^ 31.
Definition effectiveLimit (limit : Z) : Z := if bool_decide (limit ≤ 0)%Z then noLimitSentinel else limit.

(** The WHERE clause; an empty list of states is passed as NULL. *)
Definition indexed_where (f : IncidentFilter) (r : incident_row) : bool :=
  (bool_decide (IncidentFilter_States f = []) || bool_decide (in_state r ∈ IncidentFilter_States f))
  && from_option (λ t, bool_decide (pg_time t ≤ in_opened_at r)%Z) true (IncidentFilter_From f)
  && from_option (λ t, bool_decide (in_opened_at r ≤ pg_time t)%Z) true (IncidentFilter_To f).

(** [fetched, err := get(key); if err != nil { cache[key] = nil } else { cache[key] = fetched }]. *)
Definition cached {A} (get : string → Pg A) (key : string) (cache : gmap string (option A)) :
    Pg (option A * gmap string (option A)) :=
  match cache !! key with
  | Some v => mret (v, cache)
  | None =>
      r ← try (get key);
      let v := result_value r in
      mret (v, <[key := v]> cache)
  end.

Definition Pg_matchesEcosystemFilter (inc : Incident) (f : IncidentFilter) (cache : gmap string (option IoC)) :
    Pg (bool * gmap string (option IoC)) :=
  if bool_decide (length (IncidentFilter_Ecosystems f) = 0) then mret (true, cache)
  else
    '(ioc, cache) ← cached Pg_GetIoC (Incident_IoCID inc) cache;
    match ioc with
    | None => mret (false, cache)
    | Some ioc =>
        mret (existsb (λ eco, bool_decide (eco ≠ "") && bool_decide (IoC_Ecosystem ioc = eco))
                (IncidentFilter_Ecosystems f), cache)
    end.

Fixpoint owner_loop (owner : string) (refs : list string) (cache : gmap string (option Component)) :
    Pg (bool * gmap string (option Component)) :=
  match refs with
  | [] => mret (false, cache)
  | ref :: refs' =>
      '(c, cache) ← cached Pg_GetComponent ref cache;
      match c with
      | None => owner_loop owner refs' cache
      | Some c => if bool_decide (Component_Owner c = owner) then mret (true, cache)
                  else owner_loop owner refs' cache
      end
  end.

Definition Pg_matchesOwnerFilter (inc : Incident) (f : IncidentFilter) (cache : gmap string (option Component)) :
    Pg (bool * gmap string (option Component)) :=
  if bool_decide (IncidentFilter_Owner f = "") then mret (true, cache)
  else owner_loop (IncidentFilter_Owner f) (Incident_AffectedComponentsSnapshot inc) cache.

Definition matchesSearchFilterPg (inc : Incident) (f : IncidentFilter) : bool :=
  if bool_decide (IncidentFilter_Search f = "") then true
  else
    let q := ToLower (IncidentFilter_Search f) in
    if Contains (ToLower (Incident_ID inc)) q || Contains (ToLower (Incident_IoCID inc)) q then true
    else existsb (λ ref, Contains (ToLower ref) q) (Incident_AffectedComponentsSnapshot inc).

(** The post-filter; [out] is newest first. *)
Fixpoint post_filter (f : IncidentFilter) (limit : Z) (indexed : list Incident)
    (iocs : gmap string (option IoC)) (components : gmap string (option Component))
    (out : list Incident) : Pg (list Incident) :=
  match indexed with
  | [] => mret out
  | inc :: indexed' =>
      '(ok, iocs) ← Pg_matchesEcosystemFilter inc f iocs;
      if negb ok then post_filter f limit indexed' iocs components out
      else if negb (matchesSearchFilterPg inc f) then post_filter f limit indexed' iocs components out
      else
        '(ok, components) ← Pg_matchesOwnerFilter inc f components;
        if negb ok then post_filter f limit indexed' iocs components out
        else
          let out := out ++ [inc] in
          if bool_decide (limit ≤ Z.of_nat (length out))%Z then mret out
          else post_filter f limit indexed' iocs components out
  end.

Definition Pg_ListIncidentsFiltered (f : IncidentFilter) : Pg (list Incident) :=
  let limit := effectiveLimit (IncidentFilter_Limit f) in
  rows ← or_else (wrapped "postgres: ListIncidentsFiltered: %w") (Query (with_params
    [PTexts (IncidentFilter_States f)]
    (select (λ rt d, ORDER_BY rt (λ x y, After (in_opened_at x.2) (in_opened_at y.2))
      (filter (λ row, indexed_where f row.2 = true) (map_to_list (t_incidents d)))))));
  indexed ← collect (λ r, mret (scanIncident r)) rows;
  post_filter f limit indexed ∅ ∅ [].

(** ** Remediations *)

Definition incident_exists (id format : string) : Pg () :=
  exists_ ← or_else (wrapped format) (QueryRow (with_params [PText id]
    (select (λ _ d, Some (bool_decide (id ∈ dom (t_incidents d)))))));
  if (exists_ : bool) then mret () else fail (ESentinel ErrNotFound).

(** [ON CONFLICT (id) DO UPDATE] keeps the incident and the sequence number
    of the row that has the id; the new number is spent all the same. *)
Definition upsert_remediation (new : remediation_row) (rows : list remediation_row) : list remediation_row :=
  if bool_decide (re_id new ∈ re_id <$> rows) then
    (λ r, if bool_decide (re_id r = re_id new)
          then MkRemediationRow (re_id r) (re_incident_id r) (re_kind new) (re_executed_at new)
                 (re_actor_ref new) (re_details new) (re_seq r)
          else r) <$> rows
  else rows ++ [new].

Definition remediation_params (incidentID : string) (r : Remediation) : list param :=
  [PText (Remediation_ID r); PText incidentID; PText (Remediation_Kind r);
   PText (Remediation_ActorRef r); PJson (encode (object_json (Remediation_Details r)))].

Definition Pg_AppendRemediation (incidentID : string) (r : Remediation) : Pg () :=
  incident_exists incidentID "postgres: AppendRemediation exists: %w" ;;
  let details := encode (object_json (Remediation_Details r)) in
  or_else (wrapPgErr "AppendRemediation") (Exec (with_params (remediation_params incidentID r)
    (λ _ d,
       if bool_decide (Remediation_ID r ∈ re_id <$> t_remediations d) || bool_decide (incidentID ∈ dom (t_incidents d))
       then inr ((), set_remediations (upsert_remediation (MkRemediationRow (Remediation_ID r) incidentID
              (Remediation_Kind r) (pg_time (UTC (Remediation_ExecutedAt r))) (Remediation_ActorRef r)
              (stored details) (remediations_seq d))) d)
       else inl foreign_key_error))).

Definition Pg_ListRemediations (incidentID : string) : Pg (list Remediation) :=
  incident_exists incidentID "postgres: ListRemediations exists: %w" ;;
  listRemediationsTx incidentID.

(** ** Publishers *)

Definition Pg_UpsertPublisher (p : Publisher) : Pg () :=
  or_else (wrapPgErr "UpsertPublisher") (Exec (with_params
    [PText (Publisher_Ecosystem p); PText (Publisher_Name p)]
    (update (set_publishers (<[(Publisher_Ecosystem p, Publisher_Name p) :=
       MkPublisherRow (pg_time (UTC (Publisher_FirstSeen p))) (pg_time (UTC (Publisher_LastSeen p)))]>))))).

Definition scan_publisher (row : (string * string) * publisher_row) : Publisher :=
  let '((eco, name), r) := row in MkPublisher eco name (UTC (pu_first_seen r)) (UTC (pu_last_seen r)).

Definition Pg_GetPublisher (ecosystem name : string) : Pg Publisher :=
  row ← or_else (not_found "postgres: GetPublisher: %w")
    (QueryRow (with_params [PText ecosystem; PText name]
       (select (λ _ d, pair (ecosystem, name) <$> t_publishers d !! (ecosystem, name)))));
  mret (scan_publisher row).

(** Two statements, not one transaction. *)
Definition Pg_UpsertPublisherProfile (pf : PublisherProfile) : Pg () :=
  let p := PublisherProfile_Publisher pf in
  let key := (Publisher_Ecosystem p, Publisher_Name p) in
  Pg_UpsertPublisher p ;;
  or_else (wrapPgErr "UpsertPublisherProfile") (Exec (with_params
    [PText (Publisher_Ecosystem p); PText (Publisher_Name p); PInt4 (PublisherProfile_PackageCount pf);
     PInt4 (PublisherProfile_PublishCount pf); PInt4 (PublisherProfile_Last30DayPublishes pf);
     PTexts (PublisherProfile_MaintainerEmails pf)]
    (λ (_ : GoRuntime) (d : Db),
       if bool_decide (key ∈ dom (t_publishers d)) then
         inr ((), set_profiles (<[key := MkProfileRow (PublisherProfile_PackageCount pf)
           (PublisherProfile_PublishCount pf) (PublisherProfile_Last30DayPublishes pf)
           (PublisherProfile_UsesOIDC pf) (PublisherProfile_HasGitTags pf)
           (PublisherProfile_MaintainerEmails pf)
           ((λ t, pg_time (UTC t)) <$> PublisherProfile_LastEmailChange pf)]>) d)
       else inl foreign_key_error))).

Definition scan_profile (row : ((string * string) * publisher_row) * profile_row) : PublisherProfile :=
  let '(p, r) := row in
  MkPublisherProfile (scan_publisher p) (pp_package_count r) (pp_publish_count r) (pp_last_30day_publishes r)
    (pp_uses_oidc r) (pp_has_git_tags r) (pp_maintainer_emails r) (UTC <$> pp_last_email_change r).

Definition Pg_GetPublisherProfile (ecosystem name : string) : Pg PublisherProfile :=
  let key := (ecosystem, name) in
  row ← or_else (not_found "postgres: GetPublisherProfile: %w")
    (QueryRow (with_params [PText ecosystem; PText name]
       (select (λ _ d, pp ← t_profiles d !! key; p ← t_publishers d !! key; Some ((key, p), pp)))));
  mret (scan_profile row).

Definition Pg_ListPublishers (ecosystem : string) : Pg (list Publisher) :=
  rows ← or_else (wrapped "postgres: ListPublishers: %w") (Query (with_params [PText ecosystem]
    (select (λ rt d, ORDER_BY rt (λ x y, collate x.1.2 y.1.2)
      (filter (λ row, row.1.1 = ecosystem) (map_to_list (t_publishers d)))))));
  collect (λ r, mret (scan_publisher r)) rows.

(** ** Publisher snapshots *)

Definition nullableString (s : string) : option string := if bool_decide (s = "") then None else Some s.

(** A NULL is not refused. *)
Definition PNullable (s : option string) : list param := from_option (λ s, [PText s]) [] s.

Definition raw_document (raw : string) : string := if bool_decide (raw = "") then "null" else raw.

Definition snapshot_params (snap : PublisherSnapshot) : list param :=
  [PText (PublisherSnapshot_PackageRef snap);
   PJson (encode (maintainers_json (PublisherSnapshot_Maintainers snap)))]
  ++ PNullable (nullableString (PublisherSnapshot_LatestVersion snap))
  ++ PNullable (nullableString (PublisherSnapshot_PublishMethod snap))
  ++ PNullable (PublisherSnapshot_SourceRepoURL snap)
  ++ [PJson (raw_document (PublisherSnapshot_RawData snap))].

Definition Pg_SavePublisherSnapshot (snap : PublisherSnapshot) : Pg () :=
  let maintainersJSON := encode (maintainers_json (PublisherSnapshot_Maintainers snap)) in
  let rawData := raw_document (PublisherSnapshot_RawData snap) in
  let version := nullableString (PublisherSnapshot_LatestVersion snap) in
  let method := nullableString (PublisherSnapshot_PublishMethod snap) in
  now (λ now,
  let snapAt := if IsZero (PublisherSnapshot_SnapshotAt snap) then UTC now
                else PublisherSnapshot_SnapshotAt snap in
  or_else (wrapPgErr "SavePublisherSnapshot") (Exec (with_params (snapshot_params snap)
    (λ (_ : GoRuntime) (d : Db), inr ((), set_history (λ rows, rows ++ [MkHistoryRow (history_seq d)
       (PublisherSnapshot_PackageRef snap) (pg_time snapAt) (stored maintainersJSON) version
       (pg_time <$> PublisherSnapshot_LatestVersionPublishedAt snap) method
       (PublisherSnapshot_SourceRepoURL snap) (stored rawData)]) d))))).

Definition scan_snapshot (r : history_row) : result PublisherSnapshot :=
  match unmarshalJSON decode_maintainers [] (hi_maintainers r) with
  | Err e => Err e
  | Ok maintainers =>
      Ok (MkPublisherSnapshot (hi_id r) (hi_package_ref r) (UTC (hi_snapshot_at r)) maintainers
        (default "" (hi_latest_version r)) (UTC <$> hi_latest_version_published_at r)
        (default "" (hi_publish_method r)) (hi_source_repo_url r)
        (if negb (bool_decide (hi_raw_data r = "")) && negb (String.eqb (hi_raw_data r) "null")
         then hi_raw_data r else ""))
  end.

Definition Pg_GetPublisherHistory (packageRef : string) (limit : Z) : Pg (list PublisherSnapshot) :=
  rows ← or_else (wrapped "postgres: GetPublisherHistory: %w") (Query (with_params [PText packageRef]
    (select (λ rt d, capped (effectiveLimit limit)
      (ORDER_BY rt (λ x y, After (hi_snapshot_at x) (hi_snapshot_at y))
        (filter (λ r, hi_package_ref r = packageRef) (t_history d)))))));
  collect (λ r, from_result (scan_snapshot r)) rows.

(** [MAX(snapshot_at)] of the group of a package. *)
Definition latest_snapshot (ref : string) (rows : list history_row) : option Time :=
  match hi_snapshot_at <$> filter (λ r, hi_package_ref r = ref) rows with
  | [] => None
  | t :: ts => Some (foldl Z.max t ts)
  end.

Definition snapshot_groups (rows : list history_row) : list (string * Time) :=
  omap (λ ref, pair ref <$> latest_snapshot ref rows) (remove_dups (hi_package_ref <$> rows)).

Definition Pg_ListPackagesNeedingRefresh (olderThan : Time) (limit : Z) : Pg (list string) :=
  rows ← or_else (wrapped "postgres: ListPackagesNeedingRefresh: %w") (Query
    (select (λ rt d, capped (effectiveLimit limit)
      (ORDER_BY rt (λ x y, Before x.2 y.2)
        (filter (λ g, g.2 < pg_time olderThan)%Z (snapshot_groups (t_history d)))).*1)));
  collect (λ ref, mret ref) rows.

(** ** Anomalies *)

(** [ON CONFLICT (kind, package_ref, detected_at) DO UPDATE SET id = anomalies.id
    RETURNING id]: the number taken from the sequence is spent either way. *)
Definition upsert_anomaly (new : anomaly_row) (d : Db) : Z * Db :=
  let same (kv : Z * anomaly_row) :=
    bool_decide (an_kind kv.2 = an_kind new) && bool_decide (an_package_ref kv.2 = an_package_ref new)
    && bool_decide (an_detected_at kv.2 = an_detected_at new) in
  match find same (map_to_list (t_anomalies d)) with
  | Some (id, _) => (id, set_anomalies (λ rows, rows) d)
  | None => (anomalies_seq d, set_anomalies (<[anomalies_seq d := new]>) d)
  end.

Definition anomaly_params (a : Anomaly) : list param :=
  [PText (Anomaly_Kind a); PText (Anomaly_PackageRef a); PText (Anomaly_Confidence a);
   PText (Anomaly_Explanation a); PJson (encode (object_json (Anomaly_Evidence a)))].

Definition Pg_SaveAnomaly (a : Anomaly) : Pg Z := λ k,
  let evidenceJSON := encode (object_json (Anomaly_Evidence a)) in
  let detectedAt := if IsZero (Anomaly_DetectedAt a) then UTC (call_now k) else Anomaly_DetectedAt a in
  or_else (wrapPgErr "SaveAnomaly") (QueryRow (with_params (anomaly_params a)
    (λ (_ : GoRuntime) (d : Db),
       let '(id, d') := upsert_anomaly (MkAnomalyRow (Anomaly_Kind a) (Anomaly_PackageRef a)
         (pg_time detectedAt) (Anomaly_Confidence a) (Anomaly_Explanation a) (stored evidenceJSON)) d in
       inr (Some id, d')))) k.

Definition scanAnomaly (row : Z * anomaly_row) : result Anomaly :=
  let '(id, r) := row in
  match unmarshalJSON decode_any_map ∅ (an_evidence r) with
  | Err e => Err e
  | Ok evidence => Ok (MkAnomaly id (an_kind r) (an_package_ref r) (UTC (an_detected_at r))
                         (an_confidence r) (an_explanation r) evidence)
  end.

Definition Pg_GetAnomaly (id : Z) : Pg Anomaly :=
  or_else (not_found "postgres: GetAnomaly: %w")
    (row ← QueryRow (select (λ _ d, pair id <$> t_anomalies d !! id)); from_result (scanAnomaly row)).

Definition anomaly_where (f : AnomalyFilter) (r : anomaly_row) : bool :=
  (bool_decide (AnomalyFilter_PackageRef f = "") || bool_decide (an_package_ref r = AnomalyFilter_PackageRef f))
  && (bool_decide (AnomalyFilter_Kind f = "") || bool_decide (an_kind r = AnomalyFilter_Kind f))
  && from_option (λ t, bool_decide (pg_time t ≤ an_detected_at r)%Z) true (AnomalyFilter_From f)
  && from_option (λ t, bool_decide (an_detected_at r ≤ pg_time t)%Z) true (AnomalyFilter_To f).

Definition Pg_ListAnomalies (f : AnomalyFilter) : Pg (list Anomaly) :=
  rows ← or_else (wrapped "postgres: ListAnomalies: %w") (Query (with_params
    (PNullable (nullableString (AnomalyFilter_PackageRef f)) ++ PNullable (nullableString (AnomalyFilter_Kind f)))
    (select (λ rt d, capped (effectiveLimit (AnomalyFilter_Limit f))
      (ORDER_BY rt (λ x y, After (an_detected_at x.2) (an_detected_at y.2))
        (filter (λ row, anomaly_where f row.2 = true) (map_to_list (t_anomalies d))))))));
  collect (λ r, from_result (scanAnomaly r)) rows.

#[global] Instance Db_Storage : Storage Db := {|
  UpsertComponent k c := executing (Pg_UpsertComponent c) k;
  GetComponent k ref := reading (Pg_GetComponent ref) k;
  ListComponents := reading Pg_ListComponents;
  UpsertSBOM k b := executing (Pg_UpsertSBOM b) k;
  GetSBOM k id := reading (Pg_GetSBOM id) k;
  ListSBOMsByComponent k ref := reading (Pg_ListSBOMsByComponent ref) k;
  ListSBOMPackages k eco name := reading (Pg_ListSBOMPackages eco name) k;
  UpsertIoC k i := executing (Pg_UpsertIoC i) k;
  GetIoC k id := reading (Pg_GetIoC id) k;
  ListIoCs := reading Pg_ListIoCs;
  UpsertIncident k i := executing (Pg_UpsertIncident i) k;
  GetIncident k id := reading (Pg_GetIncident id) k;
  ListIncidents := reading Pg_ListIncidents;
  ListIncidentsFiltered k f := reading (Pg_ListIncidentsFiltered f) k;
  MatchedComponentRefsByIoC k ioc := reading (Pg_MatchedComponentRefsByIoC ioc) k;
  AppendRemediation k id r := executing (Pg_AppendRemediation id r) k;
  ListRemediations k id := reading (Pg_ListRemediations id) k;
  UpsertPublisher k p := executing (Pg_UpsertPublisher p) k;
  GetPublisher k eco name := reading (Pg_GetPublisher eco name) k;
  UpsertPublisherProfile k p := executing (Pg_UpsertPublisherProfile p) k;
  GetPublisherProfile k eco name := reading (Pg_GetPublisherProfile eco name) k;
  ListPublishers k eco := reading (Pg_ListPublishers eco) k;
  SavePublisherSnapshot k sn := executing (Pg_SavePublisherSnapshot sn) k;
  GetPublisherHistory k ref limit := reading (Pg_GetPublisherHistory ref limit) k;
  ListPackagesNeedingRefresh k t limit := reading (Pg_ListPackagesNeedingRefresh t limit) k;
  SaveAnomaly k a := writing (Pg_SaveAnomaly a) k;
  GetAnomaly k id := reading (Pg_GetAnomaly id) k;
  ListAnomalies k f := reading (Pg_ListAnomalies f) k;
|}.
End methods.

(** ** Opening the store, and the migrations

    The pool and the migration tool are not code of the repository. *)
Section opening.
Context {Config Pool DB : Type}.
Context (ParseConfig : string → result Config) (set_MaxConns : Z → Config → Config).
Context (NewWithConfig : Config → result Pool) (Ping : Pool → option error).
Context (sql_Open : string → result DB) (SetDialect : option error) (UpContext : DB → option error).

Definition Pg_Open (dsn : string) (maxConns : Z) : result Pool :=
  match ParseConfig dsn with
  | Err e => Err (wrapped "postgres: parse dsn: %w" e)
  | Ok cfg =>
      let cfg := if bool_decide (0 < maxConns)%Z then set_MaxConns maxConns cfg else cfg in
      match NewWithConfig cfg with
      | Err e => Err (wrapped "postgres: new pool: %w" e)
      | Ok pool => match Ping pool with
                   | Some e => Err (wrapped "postgres: ping: %w" e)
                   | None => Ok pool
                   end
      end
  end.

Definition Pg_MigrateUp (dsn : string) : option error :=
  match sql_Open dsn with
  | Err e => Some (wrapped "postgres: open for migrate: %w" e)
  | Ok db =>
      match SetDialect with
      | Some e => Some (wrapped "postgres: set dialect: %w" e)
      | None => wrapped "postgres: migrate up: %w" <$> UpContext db
      end
  end.
End opening.
