(* ===== verification/PgLogic.v ===== *)
(** * Reasoning about statements

    The rules by which the methods of Postgres.v are verified: what a
    statement, a query with its loop over the rows and a lookup of one row
    guarantee, whatever becomes of the connection. [reads] is a triple for
    programs that leave the tables alone; a call is answered when the
    context is live and every statement of it is executed and answered. *)

From S2P Require Import Prelude GoStrings GoText Json JsonEncode Domain GoJson Storage PgColumns Postgres.
From stdpp Require Import options.

Definition pg_answered (k : Call) : Prop :=
  call_err k = None ∧ ∀ n, db_result (call_db k n) = DbExecuted.

(** ** Parameters *)

Section params.
Context `{Jsonb, Refusals}.

Definition param_ok (p : param) : bool :=
  match p with
  | PText s => text_ok s
  | PTexts l => forallb text_ok l
  | PJson t => bool_decide (is_Some (jsonb t))
  | PInt4 z => int4_ok z
  end.

Definition params_ok (ps : list param) : bool := forallb param_ok ps.

Lemma param_ok_refusals p : param_ok p = true ↔ driver_refusal p = None ∧ server_refusal p = None.
Proof.
  destruct p as [s|l|t|z]; simpl.
  - destruct (text_ok s); naive_solver.
  - rewrite forallb_forall. split.
    + intros Hall. split; [done|]. apply fmap_None. apply eq_None_not_Some. intros [s [Hin Hs]%find_some].
      by rewrite Hall in Hs.
    + intros [_ Hf%fmap_None] s Hin. by apply negb_false_iff, (find_none _ _ Hf s).
  - rewrite bool_decide_eq_true. destruct (jsonb t); split; [done|by eexists|by intros []|by intros []].
  - destruct (int4_ok z); naive_solver.
Qed.

Lemma first_refusal_None check ps : first_refusal check ps = None ↔ Forall (λ p, check p = None) ps.
Proof.
  unfold first_refusal. induction ps as [|p ps IH]; [split; [by constructor|done]|]. simpl.
  rewrite Forall_cons, <- IH. destruct (check p); simpl; naive_solver.
Qed.

Lemma with_params_ok {A} ps (eff : GoRuntime → Db → db_error + A * Db) rt d :
  params_ok ps = true → with_params ps eff rt d = eff rt d.
Proof.
  unfold params_ok, with_params. rewrite forallb_forall. intros Hall.
  assert (∀ p, p ∈ ps → driver_refusal p = None ∧ server_refusal p = None) as Hp.
  { intros p Hin. by apply param_ok_refusals, Hall, list_elem_of_In. }
  rewrite (proj2 (first_refusal_None driver_refusal ps)), (proj2 (first_refusal_None server_refusal ps)); [done|..];
    apply Forall_forall; intros p Hin; by apply Hp.
Qed.

Lemma with_params_refused {A} ps (eff : GoRuntime → Db → db_error + A * Db) rt d :
  params_ok ps = false → ∃ e, with_params ps eff rt d = inl e.
Proof.
  unfold params_ok, with_params. intros Hf.
  destruct (first_refusal driver_refusal ps) eqn:E1; [by eexists|].
  destruct (first_refusal server_refusal ps) eqn:E2; [by eexists|].
  apply first_refusal_None in E1, E2. rewrite Forall_forall in E1, E2. exfalso.
  assert (forallb param_ok ps = true) as Ht; [|congruence].
  apply forallb_forall. intros p Hin%list_elem_of_In. apply param_ok_refusals. auto.
Qed.
End params.

(** ** Statements *)

Section rules.
Context `{Jsonb, Refusals}.

(** What becomes of a statement: it takes effect, and is answered or breaks
    off; or it does not. *)
Lemma statement_cases {A} ps (eff : GoRuntime → Db → db_error + A * Db) k n d :
  ∃ an n' d', statement (with_params ps eff) k n d = (an, n', d') ∧
  ((∃ rt a, params_ok ps = true ∧ eff rt d = inr (a, d') ∧
      (an = Answered a ∨ (∃ m e, an = Broken m a e) ∧ ¬ pg_answered k)) ∨
   (d' = d ∧ (∃ e, an = Refused e ∨ an = Failed e) ∧
      (pg_answered k → params_ok ps = false ∨ ∃ rt e, eff rt d = inl e))).
Proof.
  unfold statement. destruct (call_err k) as [c|] eqn:Ek.
  { eexists _, _, _. split; [done|]. right. split_and!; [done|eauto|]. intros [Hk _]. congruence. }
  set (rt := db_rt (call_db k n)).
  destruct (params_ok ps) eqn:Ep.
  - rewrite with_params_ok by done. destruct (db_result (call_db k n)) as [|e|m e] eqn:Er.
    + destruct (eff rt d) as [e|[a d']] eqn:Ee; eexists _, _, _; (split; [done|]).
      * right. split_and!; [done|eauto|]. intros _. right. eauto.
      * left. exists rt, a. auto.
    + eexists _, _, _. split; [done|]. right. split_and!; [done|eauto|]. intros [_ Hk]. specialize (Hk n). congruence.
    + assert (¬ pg_answered k) as Hk by (intros [_ Hk]; specialize (Hk n); congruence).
      destruct (eff rt d) as [e'|[a d']] eqn:Ee; eexists _, _, _; (split; [done|]).
      * right. split_and!; [done|eauto|done].
      * left. exists rt, a. split_and!; [done|done|]. right. eauto.
  - destruct (with_params_refused ps eff rt d Ep) as [e He]. rewrite He.
    destruct (db_result (call_db k n)); eexists _, _, _; (split; [done|]); right; (split_and!; [done|eauto|by left]).
Qed.

Lemma go_error_other e s : s = ErrNotFound ∨ s = pgx_ErrNoRows → errors_Is (go_error e) s = false.
Proof. destruct e as [| []|]; intros [-> | ->]; done. Qed.

(** ** Programs that read *)

Definition reads {A} (m : Pg A) (d : Db) (P : A → Prop) (E : Call → error → Prop) : Prop := ∀ k n,
  let '(r, _, d') := m k n d in d' = d ∧ match r with Ok a => P a | Err e => E k e end.

(** An error that is not about a missing row, of a call that is not
    answered or that was given what the server refuses. *)
Definition fault (accepted : Prop) (k : Call) (e : error) : Prop :=
  errors_Is e ErrNotFound = false ∧ errors_Is e pgx_ErrNoRows = false ∧ ¬ (pg_answered k ∧ accepted).

(** The same, or [ErrNotFound] because there is no row. *)
Definition fault_or_none (accepted none : Prop) (k : Call) (e : error) : Prop :=
  fault accepted k e ∨ errors_Is e ErrNotFound = true ∧ none.

Lemma fault_weaken (acc acc' : Prop) k e : (acc' → acc) → fault acc k e → fault acc' k e.
Proof. unfold fault. tauto. Qed.

Lemma reads_ret {A} (a : A) d (P : A → Prop) E : P a → reads (mret a) d P E.
Proof. by intros HP k n. Qed.

Lemma reads_bind {A B} (m : Pg A) (f : A → Pg B) d P Q E :
  reads m d P E → (∀ a, P a → reads (f a) d Q E) → reads (m ≫= f) d Q E.
Proof.
  intros Hm Hf k n. specialize (Hm k n). unfold mbind, Pg_bind.
  destruct (m k n d) as [[[a|e] n'] d']; destruct Hm as [-> Hm]; [|done]. by apply Hf.
Qed.

Lemma reads_mono {A} (m : Pg A) d (P Q : A → Prop) (E F : Call → error → Prop) :
  reads m d P E → (∀ a, P a → Q a) → (∀ k e, E k e → F k e) → reads m d Q F.
Proof.
  intros Hm HP HE k n. specialize (Hm k n). destruct (m k n d) as [[[a|e] n'] d']; destruct Hm as [-> Hm]; auto.
Qed.

Lemma reads_or_else {A} h (m : Pg A) d P (E F : Call → error → Prop) :
  reads m d P E → (∀ k e, E k e → F k (h e)) → reads (or_else h m) d P F.
Proof.
  intros Hm Hh k n. specialize (Hm k n). unfold or_else.
  destruct (m k n d) as [[[a|e] n'] d']; destruct Hm as [-> Hm]; auto.
Qed.

Lemma reads_result {A} (r : result A) a d (P : A → Prop) E : r = Ok a → P a → reads (from_result r) d P E.
Proof. by intros -> HP k n. Qed.

Lemma fault_wrapped acc k e format : fault acc k e → fault acc k (wrapped format e).
Proof. done. Qed.

Lemma fault_go_error (acc : Prop) k e : ¬ (pg_answered k ∧ acc) → fault acc k (go_error e).
Proof. intros Hk. split_and!; [apply go_error_other; auto..|done]. Qed.

Lemma reads_scan_all {R A} (scan : R → Pg A) (Q : R → A → Prop) rows d E :
  (∀ r, r ∈ rows → reads (scan r) d (Q r) E) → reads (scan_all scan rows) d (Forall2 Q rows) E.
Proof.
  induction rows as [|r rows IH]; intros Hall; simpl; [by apply reads_ret; constructor|].
  eapply reads_bind; [apply Hall; by left|]. intros x Hx.
  eapply reads_bind; [apply IH; intros r' Hr'; apply Hall; by right|]. intros xs Hxs.
  apply reads_ret. by constructor.
Qed.

(** A query and the loop over its rows. *)
Lemma reads_rows {R A} ps (f : GoRuntime → Db → list R) (scan : R → Pg A) (Q : R → A → Prop) (acc : Prop) format d :
  (acc → params_ok ps = true) →
  (∀ rt r, r ∈ f rt d → reads (scan r) d (Q r) (fault acc)) →
  reads (rows ← or_else (wrapped format) (Query (with_params ps (select f))); collect scan rows) d
    (λ l, ∃ rt, Forall2 Q (f rt d) l) (fault acc).
Proof.
  intros Hacc Hscan k n. unfold mbind at 1, Pg_bind at 1, or_else, Query.
  destruct (statement_cases ps (select f) k n d) as (an & n' & d' & -> & Hcases).
  destruct Hcases as [(rt & rows & Hps & [= <- <-] & Han)|(-> & [e He] & Hrefused)].
  - destruct Han as [-> |[(m & e & ->) Hk]].
    + unfold collect. cbn [rows_delivered rows_Err].
      assert (reads (out ← scan_all scan (f rt d); mret out) d (λ l, ∃ rt, Forall2 Q (f rt d) l) (fault acc)) as Hr.
      { eapply reads_bind; [apply reads_scan_all, Hscan|]. intros l Hl. apply reads_ret. by exists rt. }
      apply (Hr k n').
    + unfold collect. cbn [rows_delivered rows_Err].
      assert (reads (scan_all scan (take m (f rt d))) d (λ _, True) (fault acc)) as Hr.
      { eapply reads_mono; [apply (reads_scan_all _ Q)|done|done]. intros r Hr. apply (Hscan rt).
        eapply elem_of_sublist; [exact Hr|apply sublist_take]. }
      specialize (Hr k n'). unfold mbind, Pg_bind. destruct (scan_all scan (take m (f rt d)) k n' d) as [[[l|e'] n2] d2];
        destruct Hr as [-> Hr]; [|done]. split; [done|]. apply fault_go_error. tauto.
  - assert (¬ (pg_answered k ∧ acc)) as Hk.
    { intros [Hk Ha]. destruct (Hrefused Hk) as [Hp|(rt & e' & ?)]; [|done]. rewrite Hacc in Hp by done. done. }
    destruct He as [-> | ->].
    + destruct early_refusal; (split; [done|]).
      * by apply fault_wrapped, fault_go_error.
      * by apply fault_go_error.
    + split; [done|]. by apply fault_wrapped, fault_go_error.
Qed.

(** One row, or none. *)
Definition no_row (acc none : Prop) (k : Call) (e : error) : Prop :=
  fault acc k e ∨ e = ESentinel pgx_ErrNoRows ∧ none.

Lemma reads_row {R} ps (f : GoRuntime → Db → option R) (acc : Prop) d :
  (acc → params_ok ps = true) →
  reads (QueryRow (with_params ps (select f))) d (λ r, ∃ rt, f rt d = Some r)
    (no_row acc (∃ rt, f rt d = None)).
Proof.
  intros Hacc k n. unfold QueryRow.
  destruct (statement_cases ps (select f) k n d) as (an & n' & d' & -> & Hcases).
  destruct Hcases as [(rt & row & Hps & [= <- <-] & Han)|(-> & [e He] & Hrefused)].
  - split; [done|]. destruct Han as [-> |[(m & e & ->) Hk]].
    + destruct (f rt d) as [r|] eqn:E; [by exists rt|]. right. split; [done|]. by exists rt.
    + left. apply fault_go_error. tauto.
  - assert (¬ (pg_answered k ∧ acc)) as Hk.
    { intros [Hk Ha]. destruct (Hrefused Hk) as [Hp|(rt & e' & ?)]; [|done]. rewrite Hacc in Hp by done. done. }
    split; [done|]. destruct He as [-> | ->]; left; by apply fault_go_error.
Qed.

Lemma reads_not_found {A} (m : Pg A) d P (acc none : Prop) format :
  reads m d P (no_row acc none) → reads (or_else (not_found format) m) d P (fault_or_none acc none).
Proof.
  intros Hm. eapply reads_or_else; [exact Hm|]. intros k e [Hf|[-> Hn]].
  - left. unfold not_found. destruct Hf as (H1 & H2 & H3). by rewrite H2.
  - by right.
Qed.

Lemma reads_Returns {A} (m : Pg A) d P (acc : Prop) k :
  reads m d P (fault acc) → Returns (pg_answered k ∧ acc) (reading m k d) P.
Proof.
  intros Hm. specialize (Hm k 0). unfold reading, Returns. destruct (m k 0 d) as [[[a|e] n'] d']; simpl;
    destruct Hm as [_ Hm]; [done|]. by apply Hm.
Qed.

Lemma reads_Looks {A} (m : Pg A) d (acc : Prop) found k :
  reads m d (λ a, found = Some a) (fault_or_none acc (found = None)) →
  Looks (pg_answered k ∧ acc) (reading m k d) found.
Proof.
  intros Hm. specialize (Hm k 0). unfold reading, Looks. destruct (m k 0 d) as [[[a|e] n'] d']; simpl;
    destruct Hm as [_ Hm]; [done|]. destruct Hm as [(H1 & H2 & H3)|[H1 H2]]; split; intros; try done; congruence.
Qed.

(** ** Programs that write *)

Lemma exec_cases h ps (eff : GoRuntime → Db → db_error + () * Db) k n d :
  ∃ r n' d', or_else h (Exec (with_params ps eff)) k n d = (r, n', d') ∧
  ((∃ rt, params_ok ps = true ∧ eff rt d = inr ((), d') ∧ (pg_answered k → r = Ok ())) ∨
   (d' = d ∧ (∃ e, r = Err e) ∧ (pg_answered k → params_ok ps = false ∨ ∃ rt e, eff rt d = inl e))).
Proof.
  unfold or_else, Exec.
  destruct (statement_cases ps eff k n d) as (an & n' & d' & -> & Hcases).
  destruct Hcases as [(rt & [] & Hps & Heff & Han)|(-> & [e He] & Hrefused)].
  - destruct Han as [-> |[(m & e & ->) Hk]]; eexists _, _, _; (split; [done|]); left; exists rt;
      (split_and!; [done|done|]); [done|tauto].
  - destruct He as [-> | ->]; eexists _, _, _; (split; [done|]); right; eauto.
Qed.

(** [Wrote], for a program that ends with one such statement. *)
Lemma exec_Wrote (inv : Db → Prop) (vw : Db → View) h ps eff d k n (acc : Prop) upd :
  inv d → (acc ↔ params_ok ps = true) →
  (params_ok ps = true → ∀ rt, ∃ d', eff rt d = inr ((), d') ∧ inv d' ∧ vw d' = upd (vw d)) →
  let '(r, _, d') := or_else h (Exec (with_params ps eff)) k n d in
  Wrote (inv d') (pg_answered k) acc (vw d) (vw d') (result_error r) upd.
Proof.
  intros Hinv Hacc Heff. destruct (exec_cases h ps eff k n d) as (r & n' & d' & -> & Hc).
  destruct Hc as [(rt & Hps & He & Hk)|(-> & [e ->] & Hk)].
  - destruct (Heff Hps rt) as (d2 & He2 & Hinv2 & Hv). rewrite He in He2. injection He2 as <-.
    split; [done| |by rewrite Hacc|by left|].
    + intros Ha _. by rewrite Hk.
    + intros Ha Hn. by rewrite Hk in Hn.
  - split; [done| |done|by right|done]. intros Ha Hacc'. exfalso. apply Hacc in Hacc'.
    destruct (Hk Ha) as [Hp|(rt & e2 & He)]; [congruence|]. destruct (Heff Hacc' rt) as (d2 & He2 & _). congruence.
Qed.
End rules.
