(* ===== verification/PgView.v ===== *)
(** * The Postgres tables as the abstract view

    [pg_keeping]: what the backend keeps of a value. [pg_view]: the tables
    as the view of the storage contract, a record per row that can be read.
    [pg_inv]: every row can be read, its texts are such as the server takes,
    positions and sequence numbers are in order, and the foreign keys
    hold. *)

From S2P Require Import Prelude GoStrings GoText Json JsonEncode GoTime Domain GoJson Storage Native GithubIngestor PgColumns PgDecode Postgres PgLogic.
From stdpp Require Import options.

Section keeping.
Context `{FloatText, !Jsonb, !JsonbLaws, !Collation, !Refusals, !UnicodeCase}.

(** What is read back of a document. *)
Definition kept {A} (dec : A → json → option A) (zero : A) (v : json) : A :=
  match unmarshalJSON dec zero (stored (encode v)) with Ok x => x | Err _ => zero end.

Definition pg_keep_ioc (i : IoC) : IoC :=
  match iocBody_json i with
  | Some body => match scanIoC (IoC_ID i, ioc_as_row i body) with Ok j => j | Err _ => i end
  | None => i
  end.

Definition shown_raw (raw : string) : string :=
  if negb (bool_decide (raw = "")) && negb (String.eqb raw "null") then raw else "".

#[export] Instance pg_keeping : Keeping := {|
  keep_time := pg_time;
  keep_text := sanitize_string;
  keep_annotations m := kept decode_string_map ∅ (annotations_json m);
  keep_object m := kept decode_any_map ∅ (object_json m);
  keep_maintainers l := kept decode_maintainers [] (maintainers_json l);
  keep_raw raw := shown_raw (stored (raw_document raw));
  keep_ioc := pg_keep_ioc;
  listed _ := [];
  text_less := collate;
  row_cap := Some noLimitSentinel;
  accepts_text s := text_ok s = true;
  accepts_component c := params_ok (component_params c) = true;
  accepts_sbom b := params_ok (sbom_params b) = true ∧
    ∀ (n : nat) p, SBOM_Packages b !! n = Some p → params_ok (package_params (SBOM_ID b) (Z.of_nat n) p) = true;
  accepts_ioc i := ∃ body, iocBody_json i = Some body ∧ params_ok (ioc_params i body) = true;
  accepts_remediation r := params_ok (remediation_params (Remediation_IncidentID r) r) = true;
  accepts_snapshot sn := params_ok (snapshot_params sn) = true;
  accepts_anomaly a := params_ok (anomaly_params a) = true;
|}.

(** A document that was stored can be read. *)
Lemma kept_ok {A} (dec : A → json → option A) zero v :
  readable dec v → numbers_ok v = true → is_Some (jsonb (encode v)) →
  unmarshalJSON dec zero (stored (encode v)) = Ok (kept dec zero v).
Proof using Type*.
  intros Hr Hn [t Ht]. unfold kept, stored. rewrite Ht. simpl.
  by destruct (column_unmarshals dec zero v t Hr Hn Ht) as [x ->].
Qed.

Lemma text_ok_spec s : text_ok s = true ↔ byte_in NUL s = false ∧ sanitize_string s = s.
Proof. unfold text_ok. by rewrite andb_true_iff, negb_true_iff, String.eqb_eq. Qed.

Lemma pg_time_mono t u : (t ≤ u)%Z → (pg_time t ≤ pg_time u)%Z.
Proof. unfold pg_time. intros. pose proof (Z.div_le_mono t u 1000). lia. Qed.

Lemma pg_time_le t : (pg_time t ≤ t)%Z.
Proof. unfold pg_time. pose proof (Z.mul_div_le t 1000). lia. Qed.

Lemma pg_time_idemp t : pg_time (pg_time t) = pg_time t.
Proof. unfold pg_time. by rewrite Z.div_mul. Qed.

(** The stored IoC, when it is accepted. *)
Lemma kept_ioc_body i body : iocBody_json i = Some body → is_Some (jsonb (encode body)) →
  ∃ v' b, reads_as v' body ∧ nul_free v' = true ∧ decode_iocBody zero_iocBody v' = Some b ∧
    scanIoC (IoC_ID i, ioc_as_row i body) = Ok (MkIoC (IoC_ID i) (IoC_Kind i) (IoC_Severity i) (IoC_Ecosystem i)
      (IoC_Source i) (pg_time (IoC_PublishedAt i)) (IoC_Description i) (body_PackageVersion b) (body_PackageRange b)
      (body_PublisherAnomaly b) (body_AnomalyBody b)).
Proof using Type*.
  intros Hb [t Ht]. destruct (column_reads body t) as (v' & Hp & Hr & Hz); [by eapply iocBody_numbers|done|].
  destruct (readable_iocBody i body Hb v' zero_iocBody Hr) as [b Hd]. exists v', b. split_and!; [done..|].
  unfold scanIoC, ioc_as_row, stored. cbn [io_body]. rewrite Ht. simpl. unfold Unmarshal. by rewrite Hp, Hd.
Qed.

Lemma keep_ioc_scan i body : iocBody_json i = Some body → is_Some (jsonb (encode body)) →
  scanIoC (IoC_ID i, ioc_as_row i body) = Ok (pg_keep_ioc i).
Proof using Type*.
  intros Hb Hj. destruct (kept_ioc_body i body Hb Hj) as (v' & b & _ & _ & _ & Hs).
  unfold pg_keep_ioc. by rewrite Hb, Hs.
Qed.

Lemma params_ok_json t ps : params_ok ps = true → PJson t ∈ ps → is_Some (jsonb t).
Proof.
  unfold params_ok. rewrite forallb_forall. intros Hall Hin%list_elem_of_In.
  apply (bool_decide_eq_true (is_Some (jsonb t))). apply (Hall _ Hin).
Qed.

Lemma params_ok_text s ps : params_ok ps = true → PText s ∈ ps → text_ok s = true.
Proof. unfold params_ok. rewrite forallb_forall. intros Hall Hin%list_elem_of_In. apply (Hall _ Hin). Qed.

#[export] Instance pg_keeping_laws : KeepingLaws.
Proof using Type*.
  split; cbn [keep_time keep_text accepts_text accepts_ioc keep_ioc listed text_less pg_keeping].
  - apply pg_time_mono.
  - apply pg_time_le.
  - apply pg_time_idemp.
  - intros s Hs. apply text_ok_spec. split; [by apply plain_byte_in|by apply sanitize_plain].
  - by intros s [_ ?]%text_ok_spec.
  - intros s t [Hz Hs]%text_ok_spec. 
    destruct (sanitize_cut_inv ":"%char s t) as [Hs1 Hs2]; [done|done|]. rewrite !text_ok_spec.
    change (":" +:+ t) with (String ":"%char t) in Hz. rewrite byte_in_app, byte_in_cons in Hz.
    apply orb_false_iff in Hz as [? [_ ?]%orb_false_iff]. done.
  - intros i (body & Hb & Hps) Hst. constructor.
    { eapply params_ok_text; [exact Hps|]. unfold ioc_params. set_solver. }
    destruct (kept_ioc_body i body Hb) as (v' & b & Hr & Hz & _).
    { eapply params_ok_json; [exact Hps|]. unfold ioc_params. set_solver. }
    pose proof (target_nul_free i body v' Hb Hr Hz) as Hnul. unfold storable_ioc in Hst. rewrite Forall_forall in *.
    intros s Hin. apply text_ok_spec. specialize (Hst s Hin). simpl in Hst. split; [|done].
    rewrite <- Hst. by apply Hnul.
  - intros i. unfold pg_keep_ioc. destruct (iocBody_json i) as [body|]; [|done]. unfold scanIoC.
    by destruct (Unmarshal _ _ _).
  - intros i Hst (body & Hb & Hps). unfold pg_keep_ioc. rewrite Hb.
    destruct (kept_ioc_body i body Hb) as (v' & b & Hr & _ & Hd & Hs).
    { eapply params_ok_json; [exact Hps|]. unfold ioc_params. set_solver. }
    rewrite Hs. destruct (decode_iocBody_target i body v' b Hb Hr Hd) as (HV & HR & HA).
    unfold storable_ioc, target_texts in Hst. rewrite !Forall_app in Hst. destruct Hst as (SV & SR & SA).
    split; simpl; try done.
    + rewrite HV. destruct (IoC_PackageVersion i) as [pv|]; [|done]. simpl in *. unfold sanitize_version.
      rewrite !Forall_cons in SV. destruct SV as (-> & -> & -> & _). by destruct pv.
    + rewrite HR. destruct (IoC_PackageRange i) as [pr|]; [|done]. simpl in *. unfold sanitize_range.
      rewrite !Forall_cons in SR. destruct SR as (-> & -> & _). by destruct pr.
    + rewrite HA. destruct (IoC_AnomalyBody i) as [ab|]; [|done]. simpl in *.
      rewrite Forall_cons in SA. by destruct SA as (-> & _).
  - done.
  - apply collate_swo.
Qed.
End keeping.

(** ** Lists and maps *)

Lemma imap_insert {K A B} `{Countable K} (f : K → A → option B) i x y (m : gmap K A) :
  f i x = Some y → map_imap f (<[i := x]> m) = <[i := y]> (map_imap f m).
Proof.
  intros Hf. apply map_eq. intros j. rewrite map_lookup_imap. destruct (decide (i = j)) as [<-|Hne].
  - rewrite !lookup_insert_eq. done.
  - rewrite !lookup_insert_ne, map_lookup_imap by done. done.
Qed.

Lemma values_imap {K A B} `{Countable K} (f : K → A → option B) (m : gmap K A) :
  values (map_imap f m) ≡ₚ omap (λ kv, f kv.1 kv.2) (map_to_list m).
Proof.
  unfold values. induction m as [|k x m Hk IH] using map_ind.
  { by rewrite map_imap_empty, !map_to_list_empty. }
  rewrite (map_to_list_insert m k x) by done. set (g := λ kv : K * A, f kv.1 kv.2) in *.
  change (omap g ((k, x) :: map_to_list m)) with
    (match f k x with Some y => y :: omap g (map_to_list m) | None => omap g (map_to_list m) end).
  destruct (f k x) as [y|] eqn:E.
  - rewrite (imap_insert f k x y) by done. rewrite map_to_list_insert by (by rewrite map_lookup_imap, Hk). rewrite fmap_cons. simpl. by rewrite IH.
  - assert (map_imap f (<[k := x]> m) = map_imap f m) as ->; [|done].
    apply map_eq. intros j. rewrite !map_lookup_imap. destruct (decide (k = j)) as [<-|Hne].
    + by rewrite lookup_insert_eq, Hk.
    + by rewrite lookup_insert_ne.
Qed.

Lemma Forall2_omap {A B} (f : A → option B) l k : Forall2 (λ x y, f x = Some y) l k → k = omap f l.
Proof. induction 1 as [|x y l k Hxy _ IH]; [done|]. simpl. rewrite Hxy. by f_equal. Qed.

Lemma Forall2_fmap_eq {A B} (f : A → B) l k : Forall2 (λ x y, y = f x) l k → k = f <$> l.
Proof. induction 1 as [|x y l k -> _ IH]; [done|]. rewrite fmap_cons. by f_equal. Qed.

(** Reading sorted rows gives sorted records. *)
Lemma SortedBy_Forall2 {A B} (Q : A → B → Prop) (less : A → A → bool) (less' : B → B → bool) l k :
  Forall2 Q l k → (∀ x y x' y', Q x x' → Q y y' → less' x' y' = less x y) →
  SortedBy less l → SortedBy less' k.
Proof.
  intros HF Hless. unfold SortedBy. induction HF as [|x x' l k Hx HF IH]; [constructor|].
  intros Hs. apply Sorted_inv in Hs as [Hs Hhd]. constructor; [by apply IH|].
  destruct HF as [|y y' l k Hy HF]; constructor. apply HdRel_inv in Hhd. by rewrite (Hless y x).
Qed.

(** ** The tables as a view *)

Section view.
Context `{FloatText, !Jsonb}.

Definition packages_of (rows : list package_row) (id : string) : list PackageVersion :=
  scan_package <$> filter (λ r, pk_sbom_id r = id) rows.

Definition sbom_of (d : Db) (id : string) (r : sbom_row) : SBOM :=
  MkSBOM id (sb_component_ref r) (sb_commit_sha r) (sb_ecosystem r) (sb_generated_at r)
    (packages_of (t_packages d) id) (sb_source_format r) (sb_source_bytes r).

Definition remediations_of (rows : list remediation_row) (id : string) : list Remediation :=
  omap (λ r, result_value (scan_remediation r)) (filter (λ r, re_incident_id r = id) rows).

Definition incident_of (d : Db) (id : string) (r : incident_row) : Incident :=
  MkIncident id (in_ioc_id r) (in_state r) (in_opened_at r) (in_last_transitioned_at r) (in_snapshot r)
    (remediations_of (t_remediations d) id).

Definition snapshots_of (rows : list history_row) (ref : string) : list PublisherSnapshot :=
  omap (λ r, result_value (scan_snapshot r)) (filter (λ r, hi_package_ref r = ref) rows).

Definition history_of (rows : list history_row) : gmap string (list PublisherSnapshot) :=
  list_to_map ((λ ref, (ref, snapshots_of rows ref)) <$> remove_dups (hi_package_ref <$> rows)).

Definition pg_view (d : Db) : View := {|
  v_components := map_imap (λ ref r, result_value (scanComponent (ref, r))) (t_components d);
  v_sboms := map_imap (λ id r, Some (sbom_of d id r)) (t_sboms d);
  v_iocs := map_imap (λ id r, result_value (scanIoC (id, r))) (t_iocs d);
  v_incidents := map_imap (λ id r, Some (incident_of d id r)) (t_incidents d);
  v_publishers := map_imap (λ key r, Some (scan_publisher (key, r))) (t_publishers d);
  v_profiles := map_imap (λ key r, (λ p, scan_profile ((key, p), r)) <$> t_publishers d !! key) (t_profiles d);
  v_history := history_of (t_history d);
  v_anomalies := map_imap (λ id r, result_value (scanAnomaly (id, r))) (t_anomalies d);
|}.

Definition readable_row {R A} (scan : R → result A) (r : R) : Prop := ∃ x, scan r = Ok x.

Definition row_texts (id : string) (r : incident_row) : list string :=
  id :: in_ioc_id r :: in_state r :: in_snapshot r.

Record pg_inv (d : Db) : Prop := {
  inv_components ref r : t_components d !! ref = Some r → text_ok ref = true ∧ readable_row scanComponent (ref, r);
  inv_sboms id r : t_sboms d !! id = Some r → text_ok id = true ∧ text_ok (sb_component_ref r) = true;
  (** the packages of an SBOM are in the order of their positions *)
  inv_positions id : StronglySorted Z.lt (pk_position <$> filter (λ r, pk_sbom_id r = id) (t_packages d));
  inv_packages r : r ∈ t_packages d → is_Some (t_sboms d !! pk_sbom_id r);
  inv_iocs id r : t_iocs d !! id = Some r → text_ok id = true ∧ readable_row scanIoC (id, r);
  inv_incidents id r : t_incidents d !! id = Some r → Forall (λ s, text_ok s = true) (row_texts id r);
  (** remediations are in the order of their sequence numbers *)
  inv_remediations r : r ∈ t_remediations d →
    is_Some (t_incidents d !! re_incident_id r) ∧ readable_row scan_remediation r;
  inv_seq : StronglySorted Z.lt (re_seq <$> t_remediations d);
  inv_next_seq r : r ∈ t_remediations d → (re_seq r < remediations_seq d)%Z;
  inv_history r : r ∈ t_history d → text_ok (hi_package_ref r) = true ∧ readable_row scan_snapshot r;
  inv_anomalies id r : t_anomalies d !! id = Some r → (id < anomalies_seq d)%Z ∧ readable_row scanAnomaly (id, r);
  inv_profiles key r : t_profiles d !! key = Some r → is_Some (t_publishers d !! key);
}.

Lemma migrated_inv : pg_inv migrated.
Proof. split; try set_solver; try (intros; by rewrite lookup_empty in *); intros; constructor. Qed.
End view.
