(* ===== verification/PgReads.v ===== *)
(** * What the methods of the Postgres backend read

    For every method of Postgres.v that reads: what it returns of tables
    that satisfy the invariant, whatever becomes of the connection. *)

From S2P Require Import Prelude GoStrings GoText Json JsonEncode Domain GoJson Storage PgColumns PgDecode Postgres PgLogic PgView.
From stdpp Require Import options.
Unset Default Proof Using.

Section reads.
Context `{FloatText, !Jsonb, !JsonbLaws, !Collation, !Refusals, !UnicodeCase}.

Lemma text_params s : params_ok [PText s] = text_ok s.
Proof. unfold params_ok. simpl. by rewrite andb_true_r. Qed.

(** A lookup by primary key. *)
Lemma reads_by_text {R} s (f : GoRuntime → Db → option R) d :
  reads (QueryRow (with_params [PText s] (select f))) d (λ r, ∃ rt, f rt d = Some r)
    (no_row (text_ok s = true) (∃ rt, f rt d = None)).
Proof. apply reads_row. by rewrite text_params. Qed.

Lemma no_row_mono (acc none none' : Prop) k e : (none → none') → no_row acc none k e → no_row acc none' k e.
Proof. unfold no_row. tauto. Qed.

Lemma collate_by {A} (f : A → string) : StrictWeakOrder (λ x y, collate (f x) (f y)).
Proof.
  pose proof collate_swo as Hc. split; intros *; [apply (@swo_asym _ collate)|apply (@swo_negtrans _ collate)]; done.
Qed.

(** Rows in order, each read as the record [g] says. *)
Lemma ordered_rows {R A} (rt : GoRuntime) (g : R → option A) (less : R → R → bool) (less' : A → A → bool) rows l :
  Forall2 (λ r x, g r = Some x) (ORDER_BY rt less rows) l →
  StrictWeakOrder less →
  (∀ x y x' y', g x = Some x' → g y = Some y' → less' x' y' = less x y) →
  l ≡ₚ omap g rows ∧ SortedBy less' l.
Proof.
  intros HF Hswo Hless. split.
  - rewrite (Forall2_omap _ _ _ HF). unfold ORDER_BY. by rewrite sort_slice_perm.
  - eapply SortedBy_Forall2; [exact HF|exact Hless|]. by apply sort_slice_sorted.
Qed.

Lemma elem_of_ORDER_BY {R} rt (less : R → R → bool) rows r : r ∈ ORDER_BY rt less rows ↔ r ∈ rows.
Proof. unfold ORDER_BY. by rewrite sort_slice_perm. Qed.

(** Rows that are stored in the order that is asked for. *)
Lemma strict_keys_inj {R} (key : R → Z) rows x y :
  StronglySorted Z.lt (key <$> rows) → x ∈ rows → y ∈ rows → key x = key y → x = y.
Proof.
  induction rows as [|r rows IH]; [by intros _ ?%not_elem_of_nil|].
  rewrite fmap_cons. intros [Hs Hr]%StronglySorted_inv. rewrite Forall_fmap, Forall_forall in Hr.
  rewrite !elem_of_cons. intros [->|Hx] [->|Hy] Hk; [done|..|by apply IH].
  - specialize (Hr y Hy). simpl in Hr. lia.
  - specialize (Hr x Hx). simpl in Hr. lia.
Qed.

Lemma ORDER_BY_stored {R} rt (key : R → Z) rows :
  StronglySorted Z.lt (key <$> rows) → ORDER_BY rt (λ x y, bool_decide (key x < key y)%Z) rows = rows.
Proof.
  intros Hs. symmetry. pose proof (less_by_Z_swo key) as Hswo.
  apply (SortedBy_unique (λ x y, bool_decide (key x < key y)%Z)).
  - intros x y Hx Hy ?%bool_decide_eq_false ?%bool_decide_eq_false. apply (strict_keys_inj key rows); [done..|lia].
  - clear rt. unfold SortedBy. induction rows as [|r rows IH]; [constructor|]. rewrite fmap_cons in Hs.
    apply StronglySorted_inv in Hs as [Hs Hr]. constructor; [by apply IH|].
    destruct rows as [|r' rows]; constructor. rewrite fmap_cons in Hr. apply Forall_inv in Hr.
    apply bool_decide_eq_false. lia.
  - by apply sort_slice_sorted, less_by_Z_swo.
  - unfold ORDER_BY. by rewrite sort_slice_perm.
Qed.

Lemma reads_assoc {A B C} (m : Pg A) (f : A → Pg B) (g : B → Pg C) d P E :
  reads ((m ≫= f) ≫= g) d P E → reads (m ≫= λ a, f a ≫= g) d P E.
Proof.
  intros Hr k n. specialize (Hr k n). unfold mbind, Pg_bind in *. by destruct (m k n d) as [[[a|e] n'] d'].
Qed.

(** ** Components *)

Lemma reads_GetComponent d ref : pg_inv d →
  reads (Pg_GetComponent ref) d (λ c, v_components (pg_view d) !! ref = Some c)
    (fault_or_none (text_ok ref = true) (v_components (pg_view d) !! ref = None)).
Proof.
  intros Hinv. apply reads_not_found. eapply reads_bind.
  - eapply reads_mono; [apply reads_by_text|intros a Ha; exact Ha|]. intros k e. apply no_row_mono.
    intros [rt Hn%fmap_None]. cbn [v_components pg_view]. by rewrite map_lookup_imap, Hn.
  - intros row [rt (r & Hr & ->)%fmap_Some].
    destruct (inv_components d Hinv ref r Hr) as [_ [c Hc]]. eapply reads_result; [exact Hc|].
    cbn [v_components pg_view]. rewrite map_lookup_imap, Hr. cbn [mbind option_bind]. by rewrite Hc.
Qed.

Lemma reads_ListComponents d : pg_inv d →
  reads Pg_ListComponents d (λ l, l ≡ₚ values (v_components (pg_view d)) ∧
    SortedBy (λ x y, collate (Component_Ref x) (Component_Ref y)) l) (fault True).
Proof.
  intros Hinv. eapply reads_mono.
  - apply (reads_rows [] (λ rt d, ORDER_BY rt (λ x y, collate x.1 y.1) (map_to_list (t_components d)))
      _ (λ row c, scanComponent row = Ok c) True); [done|].
    intros rt [ref r] Hin%elem_of_ORDER_BY%elem_of_map_to_list.
    destruct (inv_components d Hinv ref r Hin) as [_ [c Hc]].
    apply (reads_or_else _ _ _ _ (fault True)); [by eapply reads_result|]. intros k e. apply fault_wrapped.
  - intros l [rt HF]. cbn [v_components pg_view]. rewrite values_imap.
    apply (ordered_rows rt (λ kv, result_value (scanComponent (kv.1, kv.2))) (λ x y, collate x.1 y.1)).
    + eapply Forall2_impl; [exact HF|]. intros [k r] c Hc. cbn [fst snd]. by rewrite Hc.
    + apply collate_by.
    + intros [k1 r1] [k2 r2] c1 c2. unfold scanComponent. simpl.
      destruct (unmarshalJSON _ _ (co_annotations r1)), (unmarshalJSON _ _ (co_annotations r2)); try done.
      by intros [= <-] [= <-].
  - done.
Qed.

(** ** SBOMs *)

Definition hydrated (d : Db) (b : SBOM) : SBOM :=
  MkSBOM (SBOM_ID b) (SBOM_ComponentRef b) (SBOM_CommitSHA b) (SBOM_Ecosystem b) (SBOM_GeneratedAt b)
    (packages_of (t_packages d) (SBOM_ID b)) (SBOM_SourceFormat b) (SBOM_SourceBytes b).

Lemma reads_hydrate d b (acc : Prop) : pg_inv d → (acc → text_ok (SBOM_ID b) = true) →
  reads (hydrateSBOMPackages b) d (λ b', b' = hydrated d b) (fault acc).
Proof.
  intros Hinv Hacc. apply reads_assoc. eapply reads_bind.
  - apply (reads_rows [PText (SBOM_ID b)] (λ rt d, ORDER_BY rt (λ x y, bool_decide (pk_position x < pk_position y)%Z)
      (filter (λ r, pk_sbom_id r = SBOM_ID b) (t_packages d))) _ (λ r p, p = scan_package r)).
    + by rewrite text_params.
    + intros rt r _. by apply reads_ret.
  - intros ps [rt HF]. apply reads_ret. apply Forall2_fmap_eq in HF.
    rewrite ORDER_BY_stored in HF by apply (inv_positions d Hinv). unfold hydrated, packages_of. by rewrite HF.
Qed.

Lemma hydrated_row d id r : hydrated d (scanSBOM (id, r)) = sbom_of d id r.
Proof. done. Qed.

Lemma reads_GetSBOM d id : pg_inv d →
  reads (Pg_GetSBOM id) d (λ b, v_sboms (pg_view d) !! id = Some b)
    (fault_or_none (text_ok id = true) (v_sboms (pg_view d) !! id = None)).
Proof.
  intros Hinv. eapply reads_bind.
  - apply reads_not_found. eapply reads_mono; [apply reads_by_text|intros a Ha; exact Ha|]. intros k e.
    apply no_row_mono. intros [rt Hn%fmap_None]. cbn [v_sboms pg_view]. by rewrite map_lookup_imap, Hn.
  - intros row [rt (r & Hr & ->)%fmap_Some]. eapply reads_mono; [by apply (reads_hydrate d _ (text_ok id = true))| |].
    + intros b ->. cbn [v_sboms pg_view]. rewrite map_lookup_imap, Hr. cbn [mbind option_bind]. by rewrite hydrated_row.
    + intros k e He. by left.
Qed.

Lemma reads_ListSBOMsByComponent d ref : pg_inv d →
  reads (Pg_ListSBOMsByComponent ref) d (λ l,
      l ≡ₚ filter (λ b, SBOM_ComponentRef b = ref) (values (v_sboms (pg_view d))) ∧
      SortedBy (λ x y, Before (SBOM_GeneratedAt x) (SBOM_GeneratedAt y)) l)
    (fault (text_ok ref = true)).
Proof.
  intros Hinv. eapply reads_mono.
  - apply (reads_rows [PText ref] (λ rt d, ORDER_BY rt (λ x y, Before (sb_generated_at x.2) (sb_generated_at y.2))
      (filter (λ row, sb_component_ref row.2 = ref) (map_to_list (t_sboms d)))) _
      (λ row b, Some (sbom_of d row.1 row.2) = Some b) (text_ok ref = true)).
    + by rewrite text_params.
    + intros rt [id r] (_ & Hin%elem_of_map_to_list)%elem_of_ORDER_BY%list_elem_of_filter.
      eapply reads_mono; [apply (reads_hydrate d _ (text_ok ref = true) Hinv)| |done].
      * intros _. by apply (inv_sboms d Hinv id r).
      * intros b ->. by rewrite hydrated_row.
  - intros l [rt HF]. cbn [v_sboms pg_view]. rewrite values_imap.
    destruct (ordered_rows _ _ _ (λ x y, Before (SBOM_GeneratedAt x) (SBOM_GeneratedAt y)) _ _ HF) as [Hp Hs].
    + apply less_by_Z_swo.
    + intros [] [] ? ? [= <-] [= <-]. done.
    + split; [|exact Hs]. rewrite Hp. clear. induction (map_to_list (t_sboms d)) as [|[id r] rows IH]; [done|].
      rewrite filter_cons. simpl. rewrite filter_cons. simpl. case_decide; simpl; by rewrite IH.
  - done.
Qed.

(** *** The join of packages and SBOMs *)

Lemma bind_both {A B} (f g : A → list B) l : (l ≫= λ x, f x ++ g x) ≡ₚ (l ≫= f) ++ (l ≫= g).
Proof.
  induction l as [|x l IH]; [done|]. rewrite !bind_cons, IH, !(assoc_L (++)). f_equiv.
  rewrite <- !(assoc_L (++)). f_equiv. apply Permutation_app_comm.
Qed.

Lemma bind_none {A B} (f : A → list B) l : (∀ x, x ∈ l → f x = []) → l ≫= f = [].
Proof.
  induction l as [|x l IH]; intros Hf; [done|]. rewrite bind_cons, Hf by (by left).
  apply IH. intros y Hy. apply Hf. by right.
Qed.

(** The entry of a key, found by going through the map. *)
Lemma bind_lookup {K V B} `{Countable K} (m : gmap K V) k (f : V → B) :
  (map_to_list m ≫= λ kv, if decide (k = kv.1) then [f kv.2] else []) ≡ₚ option_list (f <$> m !! k).
Proof.
  destruct (m !! k) as [v|] eqn:Hk.
  - rewrite <- (map_to_list_delete m k v Hk). rewrite bind_cons. simpl. rewrite decide_True by done.
    rewrite bind_none; [done|]. intros [k' v'] Hin. simpl. apply elem_of_map_to_list, lookup_delete_Some in Hin.
    by rewrite decide_False by naive_solver.
  - rewrite bind_none; [done|]. intros [k' v'] Hin. simpl. rewrite decide_False; [done|].
    intros ->. apply elem_of_map_to_list in Hin. congruence.
Qed.

Lemma join_by_key {K V R} `{Countable K} (m : gmap K V) (key : R → K) (rows : list R) :
  omap (λ r, (λ v, (v, r)) <$> m !! key r) rows
  ≡ₚ map_to_list m ≫= λ kv, (λ r, (kv.2, r)) <$> filter (λ r, key r = kv.1) rows.
Proof.
  induction rows as [|r rows IH]; [by rewrite bind_none|].
  transitivity (option_list ((λ v, (v, r)) <$> m !! key r) ++ omap (λ r, (λ v, (v, r)) <$> m !! key r) rows).
  { simpl. by destruct (m !! key r). }
  rewrite IH, <- (bind_lookup m (key r) (λ v, (v, r))), <- bind_both. apply reflexive_eq, list_bind_ext; [|done].
  intros [k v]. rewrite filter_cons. simpl. by case_decide.
Qed.

Lemma fmap_filter_bind {A B C} (g : B → C) (P : B → Prop) `{!∀ x, Decision (P x)} (h : A → list B) l :
  g <$> filter P (l ≫= h) = l ≫= λ x, g <$> filter P (h x).
Proof. induction l as [|x l IH]; [done|]. by rewrite !bind_cons, filter_app, fmap_app, IH. Qed.

Definition joined_ref (x : sbom_row * package_row) : SBOMPackageRef :=
  MkSBOMPackageRef (sb_component_ref x.1) (scan_package x.2).

(** The packages of one SBOM that are asked for. *)
Lemma sbom_join d id r eco name :
  sbom_wf (sbom_of d id r) →
  joined_ref <$> filter (λ x, pk_ecosystem x.2 = eco ∧ pk_name x.2 = name)
    (pair r <$> filter (λ p, pk_sbom_id p = id) (t_packages d))
  = sbom_rows eco name (sbom_of d id r).
Proof.
  intros (_ & _ & Hwf). unfold sbom_rows, sbom_of. cbn [SBOM_Ecosystem SBOM_ComponentRef SBOM_Packages].
  unfold sbom_of in Hwf. cbn [SBOM_Ecosystem SBOM_Packages] in Hwf. unfold packages_of in *.
  induction (filter (λ p, pk_sbom_id p = id) (t_packages d)) as [|p ps IH]; [by case_bool_decide|].
  rewrite fmap_cons in *. assert (pk_ecosystem p = sb_ecosystem r) as Hp by (apply (Hwf (scan_package p)); by left).
  specialize (IH ltac:(intros q Hq; apply Hwf; by right)). rewrite filter_cons. cbn [fst snd].
  case_bool_decide as He.
  - rewrite fmap_cons, filter_cons. cbn [PackageVersion_Name scan_package].
    destruct (decide (pk_name p = name)); [rewrite decide_True by (split; congruence)|rewrite decide_False by tauto].
    + rewrite !fmap_cons. f_equal. exact IH.
    + exact IH.
  - rewrite decide_False by (intros [? _]; congruence). exact IH.
Qed.

Lemma reads_ListSBOMPackages d eco name : pg_inv d → sboms_wf (pg_view d) →
  reads (Pg_ListSBOMPackages eco name) d (λ l, l ≡ₚ (values (v_sboms (pg_view d)) ≫= sbom_rows eco name))
    (fault (text_ok eco = true ∧ text_ok name = true)).
Proof.
  intros Hinv Hwf. eapply reads_mono.
  - apply (reads_rows [PText eco; PText name] (λ rt d, ORDER_BY rt
      (λ x y, if bool_decide (sb_component_ref x.1 = sb_component_ref y.1)
              then collate (pk_version x.2) (pk_version y.2)
              else collate (sb_component_ref x.1) (sb_component_ref y.1))
      (filter (λ x, pk_ecosystem x.2 = eco ∧ pk_name x.2 = name) (package_join d)))
      _ (λ x r, r = joined_ref x) (text_ok eco = true ∧ text_ok name = true)).
    + intros [He Hn]. unfold params_ok. simpl. by rewrite He, Hn.
    + intros rt x _. by apply reads_ret.
  - intros l [rt ->%Forall2_fmap_eq]. unfold ORDER_BY. rewrite sort_slice_perm. unfold package_join.
    rewrite (join_by_key (t_sboms d) pk_sbom_id). rewrite fmap_filter_bind.
    cbn [v_sboms pg_view]. rewrite values_imap, <- list_fmap_alt, list_fmap_bind.
    apply reflexive_eq, Forall_bind_ext, Forall_forall. intros [id r] Hin%elem_of_map_to_list. simpl.
    apply (sbom_join d id r eco name). apply (Hwf id). cbn [v_sboms pg_view]. by rewrite map_lookup_imap, Hin.
  - done.
Qed.

(** ** IoCs *)

Lemma reads_GetIoC d id : pg_inv d →
  reads (Pg_GetIoC id) d (λ i, v_iocs (pg_view d) !! id = Some i)
    (fault_or_none (text_ok id = true) (v_iocs (pg_view d) !! id = None)).
Proof.
  intros Hinv. apply reads_not_found. eapply reads_bind.
  - eapply reads_mono; [apply reads_by_text|intros a Ha; exact Ha|]. intros k e. apply no_row_mono.
    intros [rt Hn%fmap_None]. cbn [v_iocs pg_view]. by rewrite map_lookup_imap, Hn.
  - intros row [rt (r & Hr & ->)%fmap_Some].
    destruct (inv_iocs d Hinv id r Hr) as [_ [c Hc]]. eapply reads_result; [exact Hc|].
    cbn [v_iocs pg_view]. rewrite map_lookup_imap, Hr. cbn [mbind option_bind]. by rewrite Hc.
Qed.

Lemma scanIoC_at row i : scanIoC row = Ok i → IoC_PublishedAt i = io_published_at row.2.
Proof. destruct row as [id r]. unfold scanIoC. by destruct (Unmarshal _ _ _); intros [= <-]. Qed.

Lemma reads_ListIoCs d : pg_inv d →
  reads Pg_ListIoCs d (λ l, l ≡ₚ values (v_iocs (pg_view d)) ∧
    SortedBy (λ x y, Before (IoC_PublishedAt x) (IoC_PublishedAt y)) l) (fault True).
Proof.
  intros Hinv. eapply reads_mono.
  - apply (reads_rows [] (λ rt d, ORDER_BY rt (λ x y, Before (io_published_at x.2) (io_published_at y.2))
      (map_to_list (t_iocs d))) _ (λ row i, scanIoC row = Ok i) True); [done|].
    intros rt [id r] Hin%elem_of_ORDER_BY%elem_of_map_to_list.
    destruct (inv_iocs d Hinv id r Hin) as [_ [i Hi]]. by eapply reads_result.
  - intros l [rt HF]. cbn [v_iocs pg_view]. rewrite values_imap.
    eapply (ordered_rows rt (λ kv, result_value (scanIoC (kv.1, kv.2)))).
    + eapply Forall2_impl; [exact HF|]. intros [k r] i Hi. cbn [fst snd]. by rewrite Hi.
    + apply less_by_Z_swo.
    + intros [k1 r1] [k2 r2] i1 i2. cbn [fst snd].
      destruct (scanIoC (k1, r1)) as [j1|] eqn:E1, (scanIoC (k2, r2)) as [j2|] eqn:E2; try done.
      intros [= <-] [= <-]. by rewrite (scanIoC_at _ _ E1), (scanIoC_at _ _ E2).
  - done.
Qed.

(** ** Incidents *)

Lemma StronglySorted_filter {R} (key : R → Z) (P : R → Prop) `{!∀ x, Decision (P x)} rows :
  StronglySorted Z.lt (key <$> rows) → StronglySorted Z.lt (key <$> filter P rows).
Proof.
  induction rows as [|r rows IH]; [done|]. rewrite fmap_cons. intros [Hs Hr]%StronglySorted_inv.
  rewrite filter_cons. case_decide; [|by apply IH]. rewrite fmap_cons. constructor; [by apply IH|].
  rewrite Forall_fmap, Forall_forall in *. intros x [_ Hx]%list_elem_of_filter. by apply Hr.
Qed.

Lemma reads_listRemediationsTx d id (acc : Prop) : pg_inv d → (acc → text_ok id = true) →
  reads (listRemediationsTx id) d (λ l, l = remediations_of (t_remediations d) id) (fault acc).
Proof.
  intros Hinv Hacc. eapply reads_mono.
  - apply (reads_rows [PText id] (λ rt d, ORDER_BY rt (λ x y, bool_decide (re_seq x < re_seq y)%Z)
      (filter (λ r, re_incident_id r = id) (t_remediations d))) _ (λ r x, scan_remediation r = Ok x) acc).
    + by rewrite text_params.
    + intros rt r (_ & Hin)%elem_of_ORDER_BY%list_elem_of_filter.
      destruct (inv_remediations d Hinv r Hin) as [_ [x Hx]]. by eapply reads_result.
  - intros l [rt HF]. rewrite ORDER_BY_stored in HF by apply StronglySorted_filter, (inv_seq d Hinv).
    unfold remediations_of. apply Forall2_omap. eapply Forall2_impl; [exact HF|]. intros r x Hx. simpl. by rewrite Hx.
  - done.
Qed.

Lemma reads_GetIncident d id : pg_inv d →
  reads (Pg_GetIncident id) d (λ i, v_incidents (pg_view d) !! id = Some i)
    (fault_or_none (text_ok id = true) (v_incidents (pg_view d) !! id = None)).
Proof.
  intros Hinv. eapply reads_bind.
  - apply reads_not_found. eapply reads_mono; [apply reads_by_text|intros a Ha; exact Ha|]. intros k e.
    apply no_row_mono. intros [rt Hn%fmap_None]. cbn [v_incidents pg_view]. by rewrite map_lookup_imap, Hn.
  - intros row [rt (r & Hr & ->)%fmap_Some]. eapply reads_bind.
    + eapply reads_mono; [by apply (reads_listRemediationsTx d id (text_ok id = true))|intros l Hl; exact Hl|].
      intros k e He. by left.
    + intros l ->. apply reads_ret. cbn [v_incidents pg_view]. by rewrite map_lookup_imap, Hr.
Qed.

Lemma listed_values d :
  listed_incident <$> values (v_incidents (pg_view d)) ≡ₚ scanIncident <$> map_to_list (t_incidents d).
Proof.
  cbn [v_incidents pg_view]. rewrite values_imap, <- list_fmap_alt, <- list_fmap_compose.
  apply reflexive_eq, list_fmap_ext. by intros _ [id r] _.
Qed.

Lemma reads_ListIncidents d : pg_inv d →
  reads Pg_ListIncidents d (λ l, l ≡ₚ listed_incident <$> values (v_incidents (pg_view d)) ∧
    SortedBy (λ x y, Before (Incident_OpenedAt x) (Incident_OpenedAt y)) l) (fault True).
Proof.
  intros Hinv. eapply reads_mono.
  - apply (reads_rows [] (λ rt d, ORDER_BY rt (λ x y, Before (in_opened_at x.2) (in_opened_at y.2))
      (map_to_list (t_incidents d))) _ (λ row i, Some (scanIncident row) = Some i) True); [done|].
    intros rt row _. by apply reads_ret.
  - intros l [rt HF]. rewrite listed_values, list_fmap_alt. eapply ordered_rows; [exact HF| |].
    + apply less_by_Z_swo.
    + by intros [] [] ? ? [= <-] [= <-].
  - done.
Qed.

Lemma reads_MatchedComponentRefsByIoC d ioc : pg_inv d →
  reads (Pg_MatchedComponentRefsByIoC ioc) d (λ l, NoDup l ∧ SortedBy collate l ∧
      ∀ ref, ref ∈ l ↔ ∃ id i, v_incidents (pg_view d) !! id = Some i ∧
        Incident_IoCID i = ioc ∧ ref ∈ Incident_AffectedComponentsSnapshot i)
    (fault (text_ok ioc = true)).
Proof.
  intros Hinv. eapply reads_mono.
  - apply (reads_rows [PText ioc] (λ rt d, ORDER_BY rt collate (remove_dups
      (filter (λ row, in_ioc_id row.2 = ioc) (map_to_list (t_incidents d)) ≫= λ row, in_snapshot row.2))) _
      (λ r x, x = r) (text_ok ioc = true)).
    + by rewrite text_params.
    + intros rt r _. by apply reads_ret.
  - intros l [rt HF]. apply (Forall2_fmap_eq (λ x, x)) in HF. rewrite list_fmap_id in HF. subst l. split_and!.
    + unfold ORDER_BY. rewrite sort_slice_perm. apply NoDup_remove_dups.
    + apply sort_slice_sorted, collate_swo.
    + intros ref. rewrite elem_of_ORDER_BY, elem_of_remove_dups, list_elem_of_bind. cbn [v_incidents pg_view]. split.
      * intros ([id r] & Href & [Hioc Hin%elem_of_map_to_list]%list_elem_of_filter).
        exists id, (incident_of d id r). by rewrite map_lookup_imap, Hin.
      * intros (id & i & Hi & Hioc & Href). rewrite map_lookup_imap in Hi.
        destruct (t_incidents d !! id) as [r|] eqn:Hr; [|done]. injection Hi as <-.
        exists (id, r). split; [done|]. apply list_elem_of_filter. split; [done|]. by apply elem_of_map_to_list.
  - done.
Qed.

(** ** Remediations *)

Lemma reads_exists d id format :
  reads (incident_exists id format) d (λ _, is_Some (t_incidents d !! id))
    (fault_or_none (text_ok id = true) (t_incidents d !! id = None)).
Proof.
  unfold incident_exists. eapply reads_bind.
  - eapply reads_or_else; [apply reads_by_text|]. intros k e [Hf|[-> [rt ?]]]; [left; exact Hf|done].
  - intros b [rt [= <-]]. case_bool_decide as Hd.
    + apply reads_ret. by apply elem_of_dom.
    + intros k n. split; [done|]. right. split; [done|]. by apply not_elem_of_dom.
Qed.

Lemma reads_ListRemediations d id : pg_inv d →
  reads (Pg_ListRemediations id) d (λ l, Incident_Remediations <$> v_incidents (pg_view d) !! id = Some l)
    (fault_or_none (text_ok id = true) (Incident_Remediations <$> v_incidents (pg_view d) !! id = None)).
Proof.
  intros Hinv. cbn [v_incidents pg_view]. rewrite map_lookup_imap. eapply reads_bind.
  - eapply reads_mono; [apply reads_exists|intros a Ha; exact Ha|]. intros k e [Hf|[He ->]]; [by left|by right].
  - intros _ [r Hr]. eapply reads_mono; [by apply (reads_listRemediationsTx d id (text_ok id = true))| |].
    + intros l ->. by rewrite Hr.
    + intros k e He. by left.
Qed.

(** ** Limits *)

Lemma capped_limited {A} limit (l : list A) : capped (effectiveLimit limit) l = limited limit l.
Proof.
  unfold effectiveLimit, limited. cbn [row_cap pg_keeping]. case_bool_decide as Hl.
  - by rewrite bool_decide_eq_false_2 by lia.
  - rewrite bool_decide_eq_true_2 by lia. unfold capped. case_bool_decide; [|done]. rewrite take_ge by lia. done.
Qed.

Lemma capped_Forall2 {A B} (Q : A → B → Prop) cap l k : Forall2 Q l k → Forall2 Q (capped cap l) (capped cap k).
Proof. intros HF. unfold capped. rewrite <- (Forall2_length _ _ _ HF). case_bool_decide; [done|]. by apply Forall2_take. Qed.

Lemma readable_rows {R A} (g : R → option A) rows : (∀ r, r ∈ rows → is_Some (g r)) →
  Forall2 (λ r x, g r = Some x) rows (omap g rows).
Proof.
  induction rows as [|r rows IH]; intros Hall; [constructor|]. destruct (Hall r ltac:(by left)) as [x Hx]. simpl.
  rewrite Hx. constructor; [done|]. apply IH. intros r' Hr'. apply Hall. by right.
Qed.

(** ** Snapshots *)

Lemma lookup_history rows ref : history_of rows !! ref =
  if decide (ref ∈ hi_package_ref <$> rows) then Some (snapshots_of rows ref) else None.
Proof.
  unfold history_of.
  assert (∀ refs, list_to_map (M := gmap string (list PublisherSnapshot)) ((λ ref, (ref, snapshots_of rows ref)) <$> refs) !! ref
    = if decide (ref ∈ refs) then Some (snapshots_of rows ref) else None) as Hl.
  { induction refs as [|ref' refs IH]; [by rewrite decide_False by apply not_elem_of_nil|]. rewrite fmap_cons. simpl.
    destruct (decide (ref' = ref)) as [->|Hne].
    - rewrite lookup_insert_eq. by rewrite decide_True by (by left).
    - rewrite lookup_insert_ne, IH by done.
      destruct (decide (ref ∈ refs)); [rewrite decide_True by (by right)|rewrite decide_False by set_solver]; done. }
  rewrite Hl. destruct (decide (ref ∈ hi_package_ref <$> rows)) as [Hin|Hn].
  - by rewrite decide_True by (by apply elem_of_remove_dups).
  - rewrite decide_False; [done|]. by rewrite elem_of_remove_dups.
Qed.

Lemma default_history rows ref : default [] (history_of rows !! ref) = snapshots_of rows ref.
Proof.
  rewrite lookup_history. case_decide as Hn; [done|]. unfold snapshots_of. simpl.
  rewrite filter_none; [done|]. intros r Hr <-. apply Hn. by apply list_elem_of_fmap_2.
Qed.

Lemma scan_snapshot_at r sn : scan_snapshot r = Ok sn → PublisherSnapshot_SnapshotAt sn = hi_snapshot_at r.
Proof. unfold scan_snapshot. by destruct (unmarshalJSON _ _ _); intros [= <-]. Qed.

Lemma reads_GetPublisherHistory d ref limit : pg_inv d →
  reads (Pg_GetPublisherHistory ref limit) d (λ l,
      ∃ full, full ≡ₚ default [] (v_history (pg_view d) !! ref) ∧
        SortedBy (λ x y, After (PublisherSnapshot_SnapshotAt x) (PublisherSnapshot_SnapshotAt y)) full ∧
        l = limited limit full)
    (fault (text_ok ref = true)).
Proof.
  intros Hinv. pose (g r := result_value (scan_snapshot r)).
  assert (∀ rt r, r ∈ ORDER_BY rt (λ x y, After (hi_snapshot_at x) (hi_snapshot_at y))
    (filter (λ r, hi_package_ref r = ref) (t_history d)) → ∃ x, scan_snapshot r = Ok x) as Hread.
  { intros rt r (_ & Hin)%elem_of_ORDER_BY%list_elem_of_filter. by apply (inv_history d Hinv r). }
  eapply reads_mono.
  - apply (reads_rows [PText ref] (λ rt d, capped (effectiveLimit limit)
      (ORDER_BY rt (λ x y, After (hi_snapshot_at x) (hi_snapshot_at y))
        (filter (λ r, hi_package_ref r = ref) (t_history d)))) _ (λ r x, scan_snapshot r = Ok x) (text_ok ref = true)).
    + by rewrite text_params.
    + intros rt r Hin. destruct (Hread rt r) as [x Hx]; [|by eapply reads_result].
      unfold capped in Hin. case_bool_decide; [done|]. eapply elem_of_sublist; [exact Hin|apply sublist_take].
  - intros l [rt HF]. cbn [v_history pg_view]. rewrite default_history.
    set (rows := ORDER_BY _ _ _) in *.
    assert (Forall2 (λ r x, g r = Some x) rows (omap g rows)) as Hfull.
    { apply readable_rows. intros r Hr. destruct (Hread rt r Hr) as [x Hx]. unfold g. rewrite Hx. by eexists. }
    destruct (ordered_rows _ _ _ (λ x y, After (PublisherSnapshot_SnapshotAt x) (PublisherSnapshot_SnapshotAt y)) _ _ Hfull)
      as [Hp Hs].
    { apply greater_by_Z_swo. }
    { intros x y x' y'. unfold g. destruct (scan_snapshot x) as [s1|] eqn:E1, (scan_snapshot y) as [s2|] eqn:E2; try done.
      intros [= <-] [= <-]. by rewrite (scan_snapshot_at _ _ E1), (scan_snapshot_at _ _ E2). }
    exists (omap g rows). split_and!; [exact Hp|exact Hs|]. rewrite <- capped_limited.
    transitivity (omap g (capped (effectiveLimit limit) rows)).
    + apply Forall2_omap. eapply Forall2_impl; [exact HF|]. intros r x Hx. unfold g. by rewrite Hx.
    + symmetry. by apply Forall2_omap, capped_Forall2.
  - done.
Qed.

(** *** The newest snapshot of each package *)

Lemma foldl_max_spec t ts : foldl Z.max t ts ∈ t :: ts ∧ ∀ u, u ∈ t :: ts → (u ≤ foldl Z.max t ts)%Z.
Proof.
  revert t. induction ts as [|u ts IH]; intros t; simpl.
  { split; [by left|]. intros u ->%list_elem_of_singleton. done. }
  destruct (IH (Z.max t u)) as [Hin Hmax]. split.
  - apply elem_of_cons in Hin as [->|Hin]; [|by right; right]. destruct (Z.max_spec t u) as [[_ ->]|[_ ->]];
      [by right; left|by left].
  - intros v [->|[->|Hv]%elem_of_cons]%elem_of_cons.
    + specialize (Hmax (Z.max t u) ltac:(by left)). lia.
    + specialize (Hmax (Z.max t u) ltac:(by left)). lia.
    + apply Hmax. by right.
Qed.

Lemma snapshots_at d ref t : pg_inv d →
  (∃ s, s ∈ snapshots_of (t_history d) ref ∧ PublisherSnapshot_SnapshotAt s = t) ↔
  t ∈ hi_snapshot_at <$> filter (λ r, hi_package_ref r = ref) (t_history d).
Proof.
  intros Hinv. unfold snapshots_of. rewrite list_elem_of_fmap. split.
  - intros (s & (r & Hr & Hs)%list_elem_of_omap & <-). exists r. split; [|done].
    destruct (scan_snapshot r) as [s'|] eqn:E; [|done]. injection Hs as <-. by apply scan_snapshot_at.
  - intros (r & -> & Hr). pose proof Hr as [_ Hin]%list_elem_of_filter.
    destruct (inv_history d Hinv r Hin) as [_ [s Hs]]. exists s. split; [|by apply scan_snapshot_at].
    apply list_elem_of_omap. exists r. split; [done|]. by rewrite Hs.
Qed.

Lemma latest_snapshot_newest d ref t : pg_inv d →
  latest_snapshot ref (t_history d) = Some t ↔ newest_snapshot (snapshots_of (t_history d) ref) t.
Proof.
  intros Hinv. unfold newest_snapshot, latest_snapshot. rewrite snapshots_at by done.
  assert (∀ P : Time → Prop, (∀ s, s ∈ snapshots_of (t_history d) ref → P (PublisherSnapshot_SnapshotAt s)) ↔
    ∀ u, u ∈ hi_snapshot_at <$> filter (λ r, hi_package_ref r = ref) (t_history d) → P u) as Hall.
  { intros P. split.
    - intros HP u Hu. apply snapshots_at in Hu as (s & Hs & <-); [by apply HP|done].
    - intros HP s Hs. apply HP. apply snapshots_at; [done|]. by exists s. }
  rewrite (Hall (λ u, (u ≤ t)%Z)).
  destruct (hi_snapshot_at <$> filter _ _) as [|u us]; [split; [done|by intros [?%not_elem_of_nil _]]|].
  destruct (foldl_max_spec u us) as [Hin Hmax]. split.
  - intros [= <-]. by split.
  - intros [Ht Hle]. f_equal. specialize (Hmax t Ht). specialize (Hle _ Hin). lia.
Qed.

Lemma elem_of_snapshot_groups d ref t : pg_inv d →
  (ref, t) ∈ snapshot_groups (t_history d) ↔
  ∃ hist, v_history (pg_view d) !! ref = Some hist ∧ newest_snapshot hist t.
Proof.
  intros Hinv. unfold snapshot_groups. rewrite list_elem_of_omap. cbn [v_history pg_view]. rewrite lookup_history. split.
  - intros (ref' & Hin & (t' & Ht & [= -> ->])%fmap_Some).
    rewrite elem_of_remove_dups in Hin. rewrite decide_True by done. eexists. split; [done|]. by apply latest_snapshot_newest.
  - intros (hist & Hh & Hn). case_decide as Hin; [|done]. injection Hh as <-. exists ref.
    split; [by apply elem_of_remove_dups|]. apply (latest_snapshot_newest d) in Hn; [|done]. by rewrite Hn.
Qed.

Lemma snapshot_groups_NoDup rows : NoDup (snapshot_groups rows).*1.
Proof.
  unfold snapshot_groups. pose proof (NoDup_remove_dups (hi_package_ref <$> rows)) as Hnd.
  induction (remove_dups _) as [|ref refs IH]; [constructor|]. apply NoDup_cons in Hnd as [Hn Hnd]. simpl.
  destruct (latest_snapshot ref rows); [|by apply IH]. simpl. constructor; [|by apply IH].
  intros ([ref' t'] & -> & (r & Hr & (t2 & _ & [= -> ->])%fmap_Some)%list_elem_of_omap)%list_elem_of_fmap. done.
Qed.

Lemma reads_ListPackagesNeedingRefresh d olderThan limit : pg_inv d →
  reads (Pg_ListPackagesNeedingRefresh olderThan limit) d
    (stale_first (pg_view d) (pg_time olderThan) limit) (fault True).
Proof.
  intros Hinv. eapply reads_mono.
  - apply (reads_rows [] (λ rt d, capped (effectiveLimit limit) (ORDER_BY rt (λ x y, Before x.2 y.2)
        (filter (λ g, g.2 < pg_time olderThan)%Z (snapshot_groups (t_history d)))).*1) _ (λ r x, x = r) True); [done|].
    intros rt r _. by apply reads_ret.
  - intros l [rt HF]. apply (Forall2_fmap_eq (λ x, x)) in HF. rewrite list_fmap_id in HF. subst l.
    eexists. split_and!; [| | |apply capped_limited].
    + unfold ORDER_BY. rewrite sort_slice_perm. eapply sublist_NoDup; [apply (snapshot_groups_NoDup (t_history d))|].
      apply fmap_sublist, sublist_filter.
    + intros ref t. rewrite elem_of_ORDER_BY, list_elem_of_filter, elem_of_snapshot_groups by done. simpl. naive_solver.
    + apply sort_slice_sorted, (less_by_Z_swo snd).
  - done.
Qed.

(** ** Anomalies *)

Lemma reads_GetAnomaly d id : pg_inv d →
  reads (Pg_GetAnomaly id) d (λ a, v_anomalies (pg_view d) !! id = Some a)
    (fault_or_none True (v_anomalies (pg_view d) !! id = None)).
Proof.
  intros Hinv. apply reads_not_found. eapply reads_bind.
  - eapply reads_mono; [by apply (reads_row [] _ True)|intros a Ha; exact Ha|]. intros k e. apply no_row_mono.
    intros [rt Hn%fmap_None]. cbn [v_anomalies pg_view]. by rewrite map_lookup_imap, Hn.
  - intros row [rt (r & Hr & ->)%fmap_Some].
    destruct (inv_anomalies d Hinv id r Hr) as [_ [a Ha]]. eapply reads_result; [exact Ha|].
    cbn [v_anomalies pg_view]. rewrite map_lookup_imap, Hr. cbn [mbind option_bind]. by rewrite Ha.
Qed.

Record row_of_anomaly (row : Z * anomaly_row) (a : Anomaly) : Prop := {
  ra_kind : Anomaly_Kind a = an_kind row.2;
  ra_ref : Anomaly_PackageRef a = an_package_ref row.2;
  ra_at : Anomaly_DetectedAt a = an_detected_at row.2;
}.

Lemma scanAnomaly_row row a : scanAnomaly row = Ok a → row_of_anomaly row a.
Proof. destruct row as [id r]. unfold scanAnomaly. by destruct (unmarshalJSON _ _ _); intros [= <-]. Qed.

Lemma anomaly_where_spec f row a : row_of_anomaly row a →
  anomaly_where f row.2 = true ↔ anomaly_matches (keep_anomaly_filter f) a.
Proof.
  intros [Hk Hr Ha]. unfold anomaly_where. rewrite !andb_true_iff, !orb_true_iff, !bool_decide_eq_true.
  rewrite <- Hk, <- Hr, <- Ha. destruct f as [ref kind from to limit]. simpl. split.
  - intros [[[H1' H2'] H3'] H4']. split; simpl; [done|done|..].
    + intros t. destruct from; [|done]. intros [= <-]. by apply bool_decide_eq_true in H3'.
    + intros t. destruct to; [|done]. intros [= <-]. by apply bool_decide_eq_true in H4'.
  - intros [M1 M2 M3 M4]. simpl in *. split_and!; [done|done|..].
    + destruct from; [|done]. simpl. by apply bool_decide_eq_true, M3.
    + destruct to; [|done]. simpl. by apply bool_decide_eq_true, M4.
Qed.

Lemma nullable_params s : params_ok (PNullable (nullableString s)) = true ↔ s = "" ∨ text_ok s = true.
Proof.
  unfold nullableString. case_bool_decide; simpl; [naive_solver|]. unfold params_ok. simpl. rewrite andb_true_r. naive_solver.
Qed.

Lemma params_ok_app ps qs : params_ok (ps ++ qs) = params_ok ps && params_ok qs.
Proof. apply forallb_app. Qed.

Lemma reads_ListAnomalies d f : pg_inv d →
  reads (Pg_ListAnomalies f) d
    (newest_first (anomaly_matches (keep_anomaly_filter f)) Anomaly_DetectedAt
       (AnomalyFilter_Limit f) (values (v_anomalies (pg_view d))))
    (fault (text_ok (AnomalyFilter_PackageRef f) = true ∧ text_ok (AnomalyFilter_Kind f) = true)).
Proof.
  intros Hinv. pose (g (row : Z * anomaly_row) := result_value (scanAnomaly (row.1, row.2))).
  assert (∀ rt row, row ∈ ORDER_BY rt (λ x y, After (an_detected_at x.2) (an_detected_at y.2))
    (filter (λ row, anomaly_where f row.2 = true) (map_to_list (t_anomalies d))) →
    ∃ a, scanAnomaly row = Ok a) as Hread.
  { intros rt [id r] (_ & Hin%elem_of_map_to_list)%elem_of_ORDER_BY%list_elem_of_filter. by apply (inv_anomalies d Hinv id r). }
  assert (∀ row a, g row = Some a → row_of_anomaly row a) as Hrow.
  { intros [id r] a. unfold g. cbn [fst snd]. destruct (scanAnomaly (id, r)) as [a'|] eqn:E; [|done].
    intros [= <-]. by apply scanAnomaly_row. }
  eapply reads_mono.
  - apply (reads_rows (PNullable (nullableString (AnomalyFilter_PackageRef f)) ++ PNullable (nullableString (AnomalyFilter_Kind f)))
      (λ rt d, capped (effectiveLimit (AnomalyFilter_Limit f))
      (ORDER_BY rt (λ x y, After (an_detected_at x.2) (an_detected_at y.2))
        (filter (λ row, anomaly_where f row.2 = true) (map_to_list (t_anomalies d))))) _
      (λ row a, scanAnomaly row = Ok a) (text_ok (AnomalyFilter_PackageRef f) = true ∧ text_ok (AnomalyFilter_Kind f) = true)).
    + intros [Hr Hk]. rewrite params_ok_app, andb_true_iff, !nullable_params. by split; right.
    + intros rt row Hin. destruct (Hread rt row) as [a Ha]; [|by eapply reads_result].
      unfold capped in Hin. case_bool_decide; [done|]. eapply elem_of_sublist; [exact Hin|apply sublist_take].
  - intros l [rt HF]. set (rows := ORDER_BY _ _ _) in *.
    assert (Forall2 (λ row a, g row = Some a) rows (omap g rows)) as Hfull.
    { apply readable_rows. intros [id r] Hr. destruct (Hread rt _ Hr) as [a Ha]. unfold g. cbn [fst snd]. rewrite Ha. by eexists. }
    destruct (ordered_rows _ _ _ (λ x y, After (Anomaly_DetectedAt x) (Anomaly_DetectedAt y)) _ _ Hfull) as [Hp Hs].
    { apply (greater_by_Z_swo (λ x : Z * anomaly_row, an_detected_at x.2)). }
    { intros x y x' y' [_ _ Hx]%Hrow [_ _ Hy]%Hrow. by rewrite Hx, Hy. }
    exists (omap g rows). cbn [v_anomalies pg_view]. split_and!.
    + intros a. rewrite Hp, values_imap, !list_elem_of_omap. split.
      * intros (row & [Hw Hin]%list_elem_of_filter & Ha). split; [by exists row|].
        by apply (anomaly_where_spec f row a (Hrow _ _ Ha)).
      * intros [(row & Hin & Ha) Hm]. exists row. split; [|done]. apply list_elem_of_filter. split; [|done].
        by apply (anomaly_where_spec f row a (Hrow _ _ Ha)).
    + rewrite Hp, values_imap. apply sublist_submseteq. fold g. clear. induction (map_to_list (t_anomalies d)) as [|row rows IH]; [done|].
      rewrite filter_cons. simpl. case_decide; simpl; destruct (g row); by repeat constructor.
    + exact Hs.
    + rewrite <- capped_limited. transitivity (omap g (capped (effectiveLimit (AnomalyFilter_Limit f)) rows)).
      * apply Forall2_omap. eapply Forall2_impl; [exact HF|]. intros [id r] a Ha. unfold g. cbn [fst snd]. by rewrite Ha.
      * symmetry. by apply Forall2_omap, capped_Forall2.
  - done.
Qed.
End reads.
