(* ===== verification/PgFilter.v ===== *)
(** * The filtered incident listing of the Postgres backend

    The indexed dimensions are decided by the WHERE clause, the others in
    Go, with one lookup per IoC and per component and a cache of what was
    found. When the call is answered, the caches do not change the result:
    it is the documented filter, cut at the limit. *)

From S2P Require Import Prelude GoStrings GoText Json JsonEncode Domain GoJson Storage MemoryStore PgColumns PgDecode Postgres PgLogic PgView PgReads.
From stdpp Require Import options.
Unset Default Proof Using.

(** ** Calls that are answered *)

Definition runs {A} (m : Pg A) (k : Call) (d : Db) (P : A → Prop) : Prop :=
  ∀ n, ∃ a n', m k n d = (Ok a, n', d) ∧ P a.

Lemma runs_reads {A} (m : Pg A) k d P (acc : Prop) :
  reads m d P (fault acc) → pg_answered k → acc → runs m k d P.
Proof.
  intros Hm Hk Hacc n. specialize (Hm k n). destruct (m k n d) as [[[a|e] n'] d']; destruct Hm as [-> Hm].
  - by exists a, n'.
  - exfalso. by apply Hm.
Qed.

Lemma runs_try {A} (m : Pg A) k d P (acc none : Prop) :
  reads m d P (fault_or_none acc none) → pg_answered k → acc →
  runs (try m) k d (λ r, (∃ a, r = Ok a ∧ P a) ∨ (∃ e, r = Err e) ∧ none).
Proof.
  intros Hm Hk Hacc n. specialize (Hm k n). unfold try. destruct (m k n d) as [[[a|e] n'] d']; destruct Hm as [-> Hm].
  - exists (Ok a), n'. split; [done|]. left. by exists a.
  - exists (Err e), n'. split; [done|]. destruct Hm as [Hf|[_ Hn]]; [by exfalso; apply Hf|]. right. by split; [exists e|].
Qed.

Lemma runs_ret {A} (a : A) k d (P : A → Prop) : P a → runs (mret a) k d P.
Proof. intros HP n. by exists a, n. Qed.

Lemma runs_bind {A B} (m : Pg A) (f : A → Pg B) k d P Q :
  runs m k d P → (∀ a, P a → runs (f a) k d Q) → runs (m ≫= f) k d Q.
Proof.
  intros Hm Hf n. destruct (Hm n) as (a & n' & Heq & HP). destruct (Hf a HP n') as (b & n2 & Heq2 & HQ).
  exists b, n2. split; [|done]. unfold mbind, Pg_bind. by rewrite Heq.
Qed.

Lemma runs_assoc {A B C} (m : Pg A) (f : A → Pg B) (g : B → Pg C) k d P :
  runs ((m ≫= f) ≫= g) k d P → runs (m ≫= λ a, f a ≫= g) k d P.
Proof.
  intros Hr n. destruct (Hr n) as (a & n' & Heq & HP). exists a, n'. split; [|done].
  rewrite <- Heq. unfold mbind, Pg_bind. by destruct (m k n d) as [[[]] ?].
Qed.

Section filter.
Context `{FloatText, !Jsonb, !JsonbLaws, !Collation, !Refusals, !UnicodeCase}.

(** ** The caches *)

(** What the cache holds is what is on record. *)
Definition cache_of {A} (records : gmap string A) (cache : gmap string (option A)) : Prop :=
  ∀ key v, cache !! key = Some v → v = records !! key.

Lemma cache_empty {A} (records : gmap string A) : cache_of records ∅.
Proof. by intros key v. Qed.

Lemma runs_cached {A} (get : string → Pg A) records key cache k d :
  pg_answered k → text_ok key = true → cache_of records cache →
  reads (get key) d (λ a, records !! key = Some a) (fault_or_none (text_ok key = true) (records !! key = None)) →
  runs (cached get key cache) k d (λ '(v, cache'), v = records !! key ∧ cache_of records cache').
Proof.
  intros Hk Hkey Hc Hget. unfold cached. destruct (cache !! key) as [v|] eqn:E.
  { apply runs_ret. split; [by apply Hc|done]. }
  eapply runs_bind; [by eapply runs_try|]. intros r Hr. apply runs_ret.
  assert (result_value r = records !! key) as Hv.
  { destruct Hr as [(a & -> & ->)|[[e ->] ->]]; done. }
  split; [done|]. intros key' v'. destruct (decide (key' = key)) as [->|Hne].
  - rewrite lookup_insert_eq. intros [= <-]. done.
  - rewrite lookup_insert_ne by done. apply Hc.
Qed.

Context (d : Db) (k : Call).
Context (Hinv : pg_inv d) (Hk : pg_answered k).

Let iocs := v_iocs (pg_view d).
Let comps := v_components (pg_view d).

Lemma runs_ecosystem inc f cache :
  text_ok (Incident_IoCID inc) = true → cache_of iocs cache →
  runs (Pg_matchesEcosystemFilter inc f cache) k d
    (λ '(b, cache'), b = matchesEcosystemFilter inc f iocs ∧ cache_of iocs cache').
Proof.
  intros Ht Hc. unfold Pg_matchesEcosystemFilter, matchesEcosystemFilter.
  case_bool_decide; [by apply runs_ret|].
  eapply runs_bind; [by apply (runs_cached _ iocs); [..|apply reads_GetIoC]|].
  intros [v cache'] [-> Hc']. destruct (iocs !! Incident_IoCID inc); by apply runs_ret.
Qed.

Lemma runs_owner_loop owner refs cache :
  Forall (λ s, text_ok s = true) refs → cache_of comps cache →
  runs (owner_loop owner refs cache) k d
    (λ '(b, cache'), b = existsb (λ ref, match comps !! ref with
       | None => false | Some c => bool_decide (Component_Owner c = owner) end) refs ∧ cache_of comps cache').
Proof.
  revert cache. induction refs as [|ref refs IH]; intros cache Ht Hc; simpl; [by apply runs_ret|].
  apply Forall_cons in Ht as [Hr Ht].
  eapply runs_bind; [by apply (runs_cached _ comps); [..|apply reads_GetComponent]|].
  intros [v cache'] [-> Hc']. destruct (comps !! ref) as [c|]; [|by apply IH].
  case_bool_decide; [by apply runs_ret|by apply IH].
Qed.

Lemma runs_owner inc f cache :
  Forall (λ s, text_ok s = true) (Incident_AffectedComponentsSnapshot inc) → cache_of comps cache →
  runs (Pg_matchesOwnerFilter inc f cache) k d
    (λ '(b, cache'), b = matchesOwnerFilter inc f comps ∧ cache_of comps cache').
Proof.
  intros Ht Hc. unfold Pg_matchesOwnerFilter, matchesOwnerFilter.
  case_bool_decide; [by apply runs_ret|]. by apply runs_owner_loop.
Qed.

(** Both backends have their own copy of the search filter. *)
Lemma matchesSearchFilterPg_same inc f : matchesSearchFilterPg inc f = matchesSearchFilter inc f.
Proof.
  unfold matchesSearchFilterPg, matchesSearchFilter. case_bool_decide; [done|].
  by destruct (Contains (ToLower (Incident_ID inc)) _).
Qed.

(** ** The loop *)

Definition passes (f : IncidentFilter) (inc : Incident) : bool :=
  matchesEcosystemFilter inc f iocs && matchesSearchFilter inc f && matchesOwnerFilter inc f comps.

Lemma runs_post_filter f limit indexed ci cc out :
  Forall (λ inc, Forall (λ s, text_ok s = true) (Incident_IoCID inc :: Incident_AffectedComponentsSnapshot inc)) indexed →
  cache_of iocs ci → cache_of comps cc → (Z.of_nat (length out) < limit)%Z →
  runs (post_filter f limit indexed ci cc out) k d
    (λ l, l = take (Z.to_nat limit) (out ++ filter (λ inc, passes f inc = true) indexed)).
Proof.
  revert ci cc out. induction indexed as [|inc indexed IH]; intros ci cc out Ht Hi Hc Hout; simpl.
  { apply runs_ret. by rewrite app_nil_r, take_ge by lia. }
  apply Forall_cons in Ht as [[Hioc Hsnap]%Forall_cons Ht].
  assert (passes f inc = matchesEcosystemFilter inc f iocs && matchesSearchFilter inc f
    && matchesOwnerFilter inc f comps) as Hp by done.
  eapply runs_bind; [by apply runs_ecosystem|]. intros [b ci'] [-> Hi']. rewrite filter_cons, matchesSearchFilterPg_same.
  destruct (matchesEcosystemFilter inc f iocs); simpl; [|rewrite decide_False by (by rewrite Hp); by apply IH].
  destruct (matchesSearchFilter inc f); simpl; [|rewrite decide_False by (by rewrite Hp); by apply IH].
  eapply runs_bind; [by apply runs_owner|]. intros [b cc'] [-> Hc'].
  destruct (matchesOwnerFilter inc f comps); simpl; [|rewrite decide_False by (by rewrite Hp); by apply IH].
  rewrite decide_True by done.
  rewrite (cons_middle inc out (filter _ indexed)), (assoc_L (++) out [inc] (filter _ indexed)).
  case_bool_decide as Hl.
  - apply runs_ret. assert (length (out ++ [inc]) = S (length out)) as Hlen by (rewrite length_app; simpl; lia).
    replace (Z.to_nat limit) with (length (out ++ [inc])) by lia. by rewrite take_app_length.
  - apply IH; [done..|]. lia.
Qed.

(** ** The listing *)

Lemma indexed_where_spec f id r :
  indexed_where f r = true ↔ matchesIndexedFilter (scanIncident (id, r)) (keep_incident_filter f) = true.
Proof.
  rewrite matchesIndexedFilter_true. unfold indexed_where.
  rewrite !andb_true_iff, orb_true_iff, !bool_decide_eq_true.
  destruct f as [states ecos from to search owner limit]. simpl. split.
  - intros [[Hs Hf] Ht]. split_and!; [done|..].
    + intros t. destruct from; [|done]. intros [= <-]. by apply bool_decide_eq_true in Hf.
    + intros t. destruct to; [|done]. intros [= <-]. by apply bool_decide_eq_true in Ht.
  - intros (Hs & Hf & Ht). split_and!; [done|..].
    + destruct from; [|done]. by apply bool_decide_eq_true, Hf.
    + destruct to; [|done]. by apply bool_decide_eq_true, Ht.
Qed.

Lemma incident_filter_spec f id r :
  indexed_where f r = true ∧ passes f (scanIncident (id, r)) = true ↔
  incident_matches (pg_view d) (keep_incident_filter f) (scanIncident (id, r)).
Proof.
  rewrite (indexed_where_spec f id). unfold passes.
  change (matchesEcosystemFilter ?i f ?m) with (matchesEcosystemFilter i (keep_incident_filter f) m).
  change (matchesSearchFilter ?i f) with (matchesSearchFilter i (keep_incident_filter f)).
  change (matchesOwnerFilter ?i f ?m) with (matchesOwnerFilter i (keep_incident_filter f) m).
  rewrite !andb_true_iff, matchesIndexedFilter_true, matchesEcosystemFilter_true,
    matchesSearchFilter_true, matchesOwnerFilter_true. split.
  - intros [(? & ? & ?) [[? ?] ?]]. by split.
  - intros []. by split_and!.
Qed.

Lemma take_limited {A} limit (l : list A) : take (Z.to_nat (effectiveLimit limit)) l = limited limit l.
Proof.
  rewrite <- capped_limited. unfold capped. case_bool_decide as Hle; [|done]. rewrite take_ge; [done|].
  unfold effectiveLimit, noLimitSentinel in *. case_bool_decide; lia.
Qed.

Lemma runs_ListIncidentsFiltered f : Forall (λ s, text_ok s = true) (IncidentFilter_States f) →
  runs (Pg_ListIncidentsFiltered f) k d
    (newest_first (incident_matches (pg_view d) (keep_incident_filter f)) Incident_OpenedAt
       (IncidentFilter_Limit f) (listed_incident <$> values (v_incidents (pg_view d)))).
Proof.
  intros Hstates. set (rows d := filter (λ row : string * incident_row, indexed_where f row.2 = true) (map_to_list (t_incidents d))).
  assert (runs (rows ← or_else (wrapped "postgres: ListIncidentsFiltered: %w") (Query (with_params
      [PTexts (IncidentFilter_States f)] (select (λ rt d, ORDER_BY rt (λ x y, After (in_opened_at x.2) (in_opened_at y.2)) (rows d)))));
    collect (λ r, mret (scanIncident r)) rows) k d (λ l, ∃ rt,
      Forall2 (λ row i, Some (scanIncident row) = Some i) (ORDER_BY rt (λ x y, After (in_opened_at x.2) (in_opened_at y.2)) (rows d)) l)) as Hindexed.
  { eapply (runs_reads _ _ _ _ True); [|done|done]. apply reads_rows.
    - intros _. unfold params_ok. simpl. rewrite andb_true_r. apply forallb_forall. rewrite Forall_forall in Hstates.
      intros s Hs%list_elem_of_In. by apply Hstates.
    - intros rt row _. by apply reads_ret. }
  apply runs_assoc. eapply runs_bind; [exact Hindexed|]. intros indexed [rt HF].
  destruct (ordered_rows _ _ _ (λ x y, After (Incident_OpenedAt x) (Incident_OpenedAt y)) _ _ HF) as [Hp Hs].
  { apply (greater_by_Z_swo (λ x : string * incident_row, in_opened_at x.2)). }
  { by intros [] [] ? ? [= <-] [= <-]. }
  rewrite <- list_fmap_alt in Hp.
  assert (∀ inc, inc ∈ indexed ↔ ∃ id r, inc = scanIncident (id, r) ∧ t_incidents d !! id = Some r ∧ indexed_where f r = true) as Hin.
  { intros inc. rewrite Hp, list_elem_of_fmap. unfold rows. setoid_rewrite list_elem_of_filter. split.
    - intros ([id r] & -> & Hw & Hr%elem_of_map_to_list). by exists id, r.
    - intros (id & r & -> & Hr & Hw). exists (id, r). by rewrite elem_of_map_to_list. }
  intros n. destruct (runs_post_filter f (effectiveLimit (IncidentFilter_Limit f)) indexed ∅ ∅ []) with (n := n) as (l & n' & Heq & Hl).
  - apply Forall_forall. intros inc (id & r & -> & Hr & _)%Hin. pose proof (inv_incidents d Hinv id r Hr) as Ht.
    unfold row_texts in Ht. rewrite !Forall_cons in Ht. simpl. rewrite Forall_cons. tauto.
  - apply cache_empty.
  - apply cache_empty.
  - simpl. unfold effectiveLimit, noLimitSentinel. case_bool_decide; lia.
  - exists l, n'. split; [exact Heq|]. simpl in Hl. rewrite take_limited in Hl. subst l.
    exists (filter (λ inc, passes f inc = true) indexed). split_and!; [| | |done].
    + intros inc. rewrite list_elem_of_filter, Hin, listed_values, list_elem_of_fmap. split.
      * intros (Hpass & id & r & -> & Hr & Hw). split; [exists (id, r); by rewrite elem_of_map_to_list|].
        by apply incident_filter_spec.
      * intros [([id r] & -> & Hr%elem_of_map_to_list) Hm]. apply incident_filter_spec in Hm as [Hw Hpass].
        split; [done|]. by exists id, r.
    + rewrite listed_values. etrans; [apply sublist_submseteq, sublist_filter|]. rewrite Hp.
      apply sublist_submseteq, fmap_sublist, sublist_filter.
    + eapply SortedBy_sublist; [apply (greater_by_Z_swo Incident_OpenedAt)|exact Hs|apply sublist_filter].
Qed.
End filter.
