(* ===== verification/PgWrites.v ===== *)
(** * What the methods of the Postgres backend write

    For every method of Postgres.v that writes: the invariant is kept, and
    the view changes as the storage contract says, whatever becomes of the
    connection. *)

From S2P Require Import Prelude GoStrings GoText Json JsonEncode Domain GoJson Storage PgColumns PgDecode Postgres PgLogic PgView PgReads.
From stdpp Require Import options.
Unset Default Proof Using.

(** The parts of the invariant that a statement does not touch. *)
Ltac inv_keep Hinv := split; try first
  [exact (inv_components _ Hinv) | exact (inv_sboms _ Hinv) | exact (inv_positions _ Hinv)
  |exact (inv_packages _ Hinv) | exact (inv_iocs _ Hinv) | exact (inv_incidents _ Hinv)
  |exact (inv_remediations _ Hinv) | exact (inv_seq _ Hinv) | exact (inv_next_seq _ Hinv)
  |exact (inv_history _ Hinv) | exact (inv_anomalies _ Hinv) | exact (inv_profiles _ Hinv)].

Section writes.
Context `{FloatText, !Jsonb, !JsonbLaws, !Collation, !Refusals, !UnicodeCase}.

(** The law of a method that is one statement. *)
Lemma executing_Wrote h ps eff d k (acc : Prop) upd :
  pg_inv d → (acc ↔ params_ok ps = true) →
  (params_ok ps = true → ∀ rt, ∃ d', eff rt d = inr ((), d') ∧ pg_inv d' ∧ pg_view d' = upd (pg_view d)) →
  let '(d', err) := executing (or_else h (Exec (with_params ps eff))) k d in
  Wrote (pg_inv d') (pg_answered k) acc (pg_view d) (pg_view d') err upd.
Proof.
  intros Hinv Hacc Heff. pose proof (exec_Wrote pg_inv pg_view h ps eff d k 0 acc upd Hinv Hacc Heff) as Hw.
  unfold executing, writing. by destruct (or_else h _ k 0 d) as [[r n'] d'].
Qed.

(** ** Components *)

Lemma component_row_scan c : params_ok (component_params c) = true →
  scanComponent (Component_Ref c, MkComponentRow (Component_Kind c) (Component_Namespace c) (Component_Name c)
    (Component_Owner c) (Component_System c) (Component_Lifecycle c) (Component_Tags c)
    (stored (encode (annotations_json (Component_Annotations c))))) = Ok (keep_component c).
Proof.
  intros Hps. unfold scanComponent. cbn [co_annotations].
  rewrite kept_ok; [done|apply readable_annotations|apply numbers_ok_annotations|].
  eapply params_ok_json; [exact Hps|]. unfold component_params. set_solver.
Qed.

Lemma UpsertComponent_Wrote k c d : pg_inv d →
  let '(d', err) := executing (Pg_UpsertComponent c) k d in
  Wrote (pg_inv d') (pg_answered k) (accepts_component c) (pg_view d) (pg_view d') err
    (put_component (keep_component c)).
Proof.
  intros Hinv. apply executing_Wrote; [done|done|]. intros Hps rt. eexists. split; [done|].
  pose proof (component_row_scan c Hps) as Hscan. split.
  - inv_keep Hinv. intros ref r. simpl. rewrite lookup_insert_Some.
    intros [[<- <-]|[_ Hr]]; [|by apply (inv_components d Hinv)]. split; [|by eexists].
    eapply params_ok_text; [exact Hps|]. unfold component_params. set_solver.
  - unfold pg_view, put_component. f_equal. apply imap_insert. exact (f_equal result_value Hscan).
Qed.

(** ** IoCs *)

Lemma UpsertIoC_Wrote k i d : pg_inv d →
  let '(d', err) := executing (Pg_UpsertIoC i) k d in
  Wrote (pg_inv d') (pg_answered k) (accepts_ioc i) (pg_view d) (pg_view d') err (put_ioc (keep_ioc i)).
Proof.
  intros Hinv. unfold Pg_UpsertIoC. destruct (iocBody_json i) as [body|] eqn:Hb.
  - apply executing_Wrote; [done| |].
    { simpl. rewrite Hb. split; [by intros (? & [= <-] & ?)|by exists body]. }
    intros Hps rt. eexists. split; [done|].
    assert (scanIoC (IoC_ID i, ioc_as_row i body) = Ok (pg_keep_ioc i)) as Hscan.
    { apply keep_ioc_scan; [done|]. eapply params_ok_json; [exact Hps|]. unfold ioc_params. set_solver. }
    split.
    + inv_keep Hinv. intros id r. simpl. rewrite lookup_insert_Some.
      intros [[<- <-]|[_ Hr]]; [|by apply (inv_iocs d Hinv)]. split; [|by eexists].
      eapply params_ok_text; [exact Hps|]. unfold ioc_params. set_solver.
    + unfold pg_view, put_ioc. f_equal. 
      assert (IoC_ID (keep_ioc i) = IoC_ID i) as -> by apply keep_ioc_id.
      apply imap_insert. exact (f_equal result_value Hscan).
  - split; [done| |done|by right|done]. simpl. rewrite Hb. by intros _ (? & ? & ?).
Qed.

(** ** Incidents *)

Lemma incident_params_ok i : accepts_incident i ↔ params_ok (incident_params i) = true.
Proof.
  unfold accepts_incident, incident_texts. rewrite !Forall_cons. simpl. unfold params_ok. simpl.
  rewrite andb_true_r, !andb_true_iff, forallb_forall, Forall_forall. setoid_rewrite list_elem_of_In. tauto.
Qed.

Definition incident_as_row (i : Incident) : incident_row :=
  MkIncidentRow (Incident_IoCID i) (Incident_State i) (pg_time (Incident_OpenedAt i))
    (pg_time (Incident_LastTransitionedAt i)) (Incident_AffectedComponentsSnapshot i).

Lemma incident_upsert_inv i d : pg_inv d → params_ok (incident_params i) = true →
  pg_inv (set_incidents (<[Incident_ID i := incident_as_row i]>) d).
Proof.
  intros Hinv Hps. inv_keep Hinv.
  - intros id r. simpl. rewrite lookup_insert_Some. intros [[<- <-]|[_ Hr]]; [|by apply (inv_incidents d Hinv)].
    by apply incident_params_ok in Hps.
  - intros r Hr. destruct (inv_remediations d Hinv r Hr) as [Hfk Hread]. split; [|done]. simpl.
    destruct (decide (re_incident_id r = Incident_ID i)) as [->|Hne]; [by rewrite lookup_insert_eq|].
    by rewrite lookup_insert_ne.
Qed.

(** An incident that is not on record has no audit log. *)
Lemma stored_remediations_of d id : pg_inv d →
  stored_remediations (pg_view d) id = remediations_of (t_remediations d) id.
Proof.
  intros Hinv. unfold stored_remediations. cbn [v_incidents pg_view]. rewrite map_lookup_imap.
  destruct (t_incidents d !! id) as [r|] eqn:Hr; [done|]. simpl. unfold remediations_of.
  rewrite filter_none; [done|]. intros row Hrow <-. destruct (inv_remediations d Hinv row Hrow) as [[? ?] _]. congruence.
Qed.

Lemma UpsertIncident_Wrote k i d : pg_inv d →
  Incident_Remediations i = stored_remediations (pg_view d) (Incident_ID i) →
  let '(d', err) := executing (Pg_UpsertIncident i) k d in
  Wrote (pg_inv d') (pg_answered k) (accepts_incident i) (pg_view d) (pg_view d') err
    (put_incident (keep_incident i)).
Proof.
  intros Hinv Hrems. apply executing_Wrote; [done|apply incident_params_ok|].
  intros Hps rt. eexists. split; [done|]. split; [by apply incident_upsert_inv|].
  unfold pg_view, put_incident. f_equal. apply imap_insert. unfold incident_of, keep_incident. simpl.
  by rewrite Hrems, stored_remediations_of.
Qed.

Lemma UpsertIncident_only k i d : pg_inv d →
  pg_inv (executing (Pg_UpsertIncident i) k d).1 ∧
  only_incidents (pg_view d) (pg_view (executing (Pg_UpsertIncident i) k d).1).
Proof.
  intros Hinv. unfold executing, writing.
  destruct (exec_cases (wrapPgErr "UpsertIncident") (incident_params i)
    (update (set_incidents (<[Incident_ID i := incident_as_row i]>))) k 0 d) as (r & n' & d' & Heq & Hc).
  change (Pg_UpsertIncident i k 0 d = (r, n', d')) in Heq. rewrite Heq. simpl.
  destruct Hc as [(rt & Hps & [= <-] & _)|(-> & _)]; [|done]. split; [by apply incident_upsert_inv|done].
Qed.

(** ** Remediations *)

Definition remediation_as_row (seq : Z) (id : string) (r : Remediation) : remediation_row :=
  MkRemediationRow (Remediation_ID r) id (Remediation_Kind r) (pg_time (Remediation_ExecutedAt r))
    (Remediation_ActorRef r) (stored (encode (object_json (Remediation_Details r)))) seq.

Lemma remediation_row_scan seq id r : params_ok (remediation_params id r) = true →
  scan_remediation (remediation_as_row seq id r) = Ok (MkRemediation (Remediation_ID r) id (Remediation_Kind r)
    (pg_time (Remediation_ExecutedAt r)) (Remediation_ActorRef r) (keep_object (Remediation_Details r))).
Proof.
  intros Hps. unfold scan_remediation, remediation_as_row. cbn [re_details].
  rewrite kept_ok; [done|apply readable_object|apply object_numbers|].
  eapply params_ok_json; [exact Hps|]. unfold remediation_params. set_solver.
Qed.

Definition remediation_effect (id : string) (r : Remediation) : GoRuntime → Db → db_error + () * Db := λ _ d,
  if bool_decide (Remediation_ID r ∈ re_id <$> t_remediations d) || bool_decide (id ∈ dom (t_incidents d))
  then inr ((), set_remediations (upsert_remediation (remediation_as_row (remediations_seq d) id r)) d)
  else inl foreign_key_error.

Lemma upsert_remediation_row new rows row : row ∈ upsert_remediation new rows →
  row = new ∨ row ∈ rows ∨ ∃ old, old ∈ rows ∧ row = MkRemediationRow (re_id old) (re_incident_id old) (re_kind new)
    (re_executed_at new) (re_actor_ref new) (re_details new) (re_seq old).
Proof.
  unfold upsert_remediation. case_bool_decide.
  - intros (old & -> & Hin)%list_elem_of_fmap. case_bool_decide; [|auto]. right. right. by exists old.
  - intros [?| ->%list_elem_of_singleton]%elem_of_app; auto.
Qed.

Lemma upsert_remediation_seq new rows :
  StronglySorted Z.lt (re_seq <$> rows) → (∀ r, r ∈ rows → (re_seq r < re_seq new)%Z) →
  StronglySorted Z.lt (re_seq <$> upsert_remediation new rows).
Proof.
  intros Hs Hlt. unfold upsert_remediation. case_bool_decide.
  - rewrite <- list_fmap_compose. erewrite list_fmap_ext; [exact Hs|]. intros _ r _. simpl. by case_bool_decide.
  - clear -Hs Hlt. induction rows as [|r rows IH]; [by repeat constructor|]. rewrite fmap_cons in Hs.
    apply StronglySorted_inv in Hs as [Hs Hr]. change ((r :: rows) ++ [new]) with (r :: rows ++ [new]).
    rewrite fmap_cons, fmap_app. constructor.
    + rewrite <- fmap_app. apply IH; [done|]. intros r' Hr'. apply Hlt. by right.
    + apply Forall_app. split; [done|]. apply Forall_singleton. apply Hlt. by left.
Qed.

Lemma remediation_upsert_inv id r d : pg_inv d → params_ok (remediation_params id r) = true →
  is_Some (t_incidents d !! id) →
  pg_inv (set_remediations (upsert_remediation (remediation_as_row (remediations_seq d) id r)) d).
Proof.
  intros Hinv Hps Hid. inv_keep Hinv.
  - intros row Hrow%upsert_remediation_row. simpl. destruct Hrow as [->|[Hrow|(old & Hold & ->)]].
    + split; [done|]. eexists. by apply remediation_row_scan.
    + by apply (inv_remediations d Hinv).
    + destruct (inv_remediations d Hinv old Hold) as [Hfk _]. split; [done|].
      pose proof (remediation_row_scan (remediations_seq d) id r Hps) as Hs.
      unfold readable_row, scan_remediation in *. cbn [re_details remediation_as_row] in *.
      destruct (unmarshalJSON _ _ _); [by eexists|done].
  - apply upsert_remediation_seq; [apply (inv_seq d Hinv)|]. intros row Hrow. by apply (inv_next_seq d Hinv).
  - intros row Hrow%upsert_remediation_row. simpl. destruct Hrow as [->|[Hrow|(old & Hold & ->)]]; simpl.
    + lia.
    + pose proof (inv_next_seq d Hinv row Hrow). lia.
    + pose proof (inv_next_seq d Hinv old Hold). lia.
Qed.

(** The log of another incident, and of this one, when the id is new. *)
Lemma remediations_of_snoc rows new id x : scan_remediation new = Ok x →
  remediations_of (rows ++ [new]) id = remediations_of rows id ++ (if decide (re_incident_id new = id) then [x] else []).
Proof.
  intros Hx. unfold remediations_of. rewrite filter_app, omap_app. f_equal. rewrite filter_cons, filter_nil.
  case_decide; simpl; [by rewrite Hx|done].
Qed.

Lemma fresh_row d rid : pg_inv d → remediation_fresh (pg_view d) rid → rid ∉ re_id <$> t_remediations d.
Proof.
  intros Hinv Hfresh (row & -> & Hrow)%list_elem_of_fmap.
  destruct (inv_remediations d Hinv row Hrow) as [[ir Hir] [x Hx]].
  apply (Hfresh (re_incident_id row) (incident_of d (re_incident_id row) ir) x).
  - cbn [v_incidents pg_view]. by rewrite map_lookup_imap, Hir.
  - simpl. apply list_elem_of_omap. exists row. rewrite Hx. split; [|done]. by apply list_elem_of_filter.
  - unfold scan_remediation in Hx. destruct (unmarshalJSON _ _ _); [|done]. by injection Hx as <-.
Qed.

Lemma append_view d id r : pg_inv d → params_ok (remediation_params id r) = true →
  Remediation_IncidentID r = id → remediation_fresh (pg_view d) (Remediation_ID r) →
  pg_view (set_remediations (upsert_remediation (remediation_as_row (remediations_seq d) id r)) d)
  = append_remediation id (keep_remediation r) (pg_view d).
Proof.
  intros Hinv Hps Hid Hfresh.
  assert (set_remediations (upsert_remediation (remediation_as_row (remediations_seq d) id r)) d
    = set_remediations (λ rows, rows ++ [remediation_as_row (remediations_seq d) id r]) d) as ->.
  { unfold set_remediations. f_equal. unfold upsert_remediation. by rewrite bool_decide_eq_false_2 by (by apply fresh_row). }
  unfold pg_view at 1, append_remediation. f_equal. cbn [v_incidents pg_view].
  apply map_eq. intros id'. cbn [t_incidents set_remediations]. rewrite map_lookup_imap.
  pose proof (remediation_row_scan (remediations_seq d) id r Hps) as Hs.
  assert (∀ ir, incident_of (set_remediations (λ rows, rows ++ [remediation_as_row (remediations_seq d) id r]) d) id' ir
    = if decide (id = id') then add_remediation (keep_remediation r) (incident_of d id' ir) else incident_of d id' ir) as Hof.
  { intros ir. unfold incident_of. cbn [t_remediations set_remediations]. rewrite (remediations_of_snoc _ _ _ _ Hs).
    cbn [re_incident_id remediation_as_row]. unfold add_remediation, keep_remediation. simpl. rewrite Hid.
    case_decide; [done|]. by rewrite app_nil_r. }
  destruct (decide (id = id')) as [<-|Hne].
  - rewrite lookup_alter_eq, map_lookup_imap. destruct (t_incidents d !! id) as [ir|]; [|done]. simpl. f_equal.
    etrans; [apply (Hof ir)|]. done.
  - rewrite lookup_alter_ne, map_lookup_imap by done. destruct (t_incidents d !! id') as [ir|]; [|done]. simpl. f_equal.
    apply (Hof ir).
Qed.

Lemma remediation_effect_known id r d rt : is_Some (t_incidents d !! id) →
  remediation_effect id r rt d
  = inr ((), set_remediations (upsert_remediation (remediation_as_row (remediations_seq d) id r)) d).
Proof.
  intros Hid. unfold remediation_effect. rewrite (bool_decide_eq_true_2 (id ∈ _)) by (by apply elem_of_dom).
  by rewrite orb_true_r.
Qed.

(** The existence check, then the insertion. *)
Lemma append_cases k id r d : pg_inv d →
  (∃ e, executing (Pg_AppendRemediation id r) k d = (d, Some e) ∧
     fault_or_none (text_ok id = true) (t_incidents d !! id = None) k e) ∨
  is_Some (t_incidents d !! id) ∧ ∃ n,
    executing (Pg_AppendRemediation id r) k d =
    let '(res, _, d') := or_else (wrapPgErr "AppendRemediation")
      (Exec (with_params (remediation_params id r) (remediation_effect id r))) k n d in (d', result_error res).
Proof.
  intros Hinv. pose proof (reads_exists d id "postgres: AppendRemediation exists: %w" k 0) as He.
  unfold executing, writing.
  change (Pg_AppendRemediation id r k 0 d) with
    (match incident_exists id "postgres: AppendRemediation exists: %w" k 0 d with
     | (Ok _, n', d') => or_else (wrapPgErr "AppendRemediation")
         (Exec (with_params (remediation_params id r) (remediation_effect id r))) k n' d'
     | (Err e, n', d') => (Err e, n', d')
     end).
  destruct (incident_exists _ _ k 0 d) as [[[[]|e] n'] d']; destruct He as [-> He].
  - right. split; [done|]. exists n'. by destruct (or_else _ _ k n' d) as [[res n2] d2].
  - left. by exists e.
Qed.

Lemma AppendRemediation_Wrote k id r d : pg_inv d → Remediation_IncidentID r = id →
  remediation_fresh (pg_view d) (Remediation_ID r) →
  let '(d', err) := executing (Pg_AppendRemediation id r) k d in
  match v_incidents (pg_view d) !! id with
  | Some _ => Wrote (pg_inv d') (pg_answered k) (accepts_remediation r) (pg_view d) (pg_view d') err
                (append_remediation id (keep_remediation r))
  | None => pg_inv d' ∧ pg_view d' = pg_view d ∧ err ≠ None ∧
      (pg_answered k → accepts_text id → ∃ e, err = Some e ∧ errors_Is e ErrNotFound = true)
  end.
Proof.
  intros Hinv Hid Hfresh. cbn [v_incidents pg_view]. rewrite map_lookup_imap.
  destruct (append_cases k id r d Hinv) as [(e & -> & He)|([ir Hir] & n & ->)].
  - destruct (t_incidents d !! id) as [ir|] eqn:Hir; simpl.
    + destruct He as [(_ & _ & Hf)|[_ ?]]; [|done]. split; [done| |done|by right|done].
      intros Hk Hps. destruct Hf. split; [done|].
      apply (params_ok_text id (remediation_params (Remediation_IncidentID r) r) Hps).
      unfold remediation_params. rewrite Hid. set_solver.
    + split_and!; [done|done|done|]. intros Hk Ht. exists e. split; [done|].
      destruct He as [(_ & _ & Hf)|[? _]]; [|done]. by destruct Hf.
  - rewrite Hir. simpl.
    pose proof (exec_Wrote pg_inv pg_view (wrapPgErr "AppendRemediation") (remediation_params id r) (remediation_effect id r) d k n
      (params_ok (remediation_params (Remediation_IncidentID r) r) = true) (append_remediation id (keep_remediation r)) Hinv) as Hw.
    destruct (or_else _ _ k n d) as [[res n'] d']. apply Hw; [by rewrite Hid|]. intros Hps rt.
    rewrite remediation_effect_known by done. eexists. split; [done|].
    split; [by apply remediation_upsert_inv|by apply append_view].
Qed.

Lemma AppendRemediation_only k id r d : pg_inv d →
  pg_inv (executing (Pg_AppendRemediation id r) k d).1 ∧
  only_incidents (pg_view d) (pg_view (executing (Pg_AppendRemediation id r) k d).1).
Proof.
  intros Hinv. destruct (append_cases k id r d Hinv) as [(e & -> & _)|(Hid & n & ->)]; [done|].
  destruct (exec_cases (wrapPgErr "AppendRemediation") (remediation_params id r) (remediation_effect id r) k n d)
    as (res & n' & d' & -> & Hc). simpl.
  destruct Hc as [(rt & Hps & He & _)|(-> & _)]; [|done]. rewrite remediation_effect_known in He by done.
  injection He as <-. split; [by apply remediation_upsert_inv|done].
Qed.

(** ** Snapshots *)

Definition snapshot_as_row (seq : Z) (now : Time) (sn : PublisherSnapshot) : history_row :=
  MkHistoryRow seq (PublisherSnapshot_PackageRef sn)
    (pg_time (if IsZero (PublisherSnapshot_SnapshotAt sn) then now else PublisherSnapshot_SnapshotAt sn))
    (stored (encode (maintainers_json (PublisherSnapshot_Maintainers sn))))
    (nullableString (PublisherSnapshot_LatestVersion sn))
    (pg_time <$> PublisherSnapshot_LatestVersionPublishedAt sn)
    (nullableString (PublisherSnapshot_PublishMethod sn)) (PublisherSnapshot_SourceRepoURL sn)
    (stored (raw_document (PublisherSnapshot_RawData sn))).

Lemma nullable_default s : default "" (nullableString s) = s.
Proof. unfold nullableString. by case_bool_decide. Qed.

Lemma snapshot_row_scan seq now sn : params_ok (snapshot_params sn) = true →
  scan_snapshot (snapshot_as_row seq now sn) = Ok (keep_snapshot now seq sn).
Proof.
  intros Hps. unfold scan_snapshot, snapshot_as_row. cbn [hi_maintainers].
  rewrite kept_ok; [|apply readable_maintainers|apply maintainers_numbers|].
  - unfold keep_snapshot. simpl. rewrite !nullable_default, option_fmap_id. unfold UTC. by destruct (IsZero _).
  - eapply params_ok_json; [exact Hps|]. unfold snapshot_params. set_solver.
Qed.

Lemma history_of_snoc rows new x : scan_snapshot new = Ok x →
  history_of (rows ++ [new]) =
  <[hi_package_ref new := default [] (history_of rows !! hi_package_ref new) ++ [x]]> (history_of rows).
Proof.
  intros Hx. apply map_eq. intros ref. rewrite default_history, lookup_history, fmap_app.
  assert (snapshots_of (rows ++ [new]) ref = snapshots_of rows ref ++ (if decide (hi_package_ref new = ref) then [x] else [])) as Hs.
  { unfold snapshots_of. rewrite filter_app, omap_app. f_equal. rewrite filter_cons, filter_nil.
    case_decide; simpl; [by rewrite Hx|done]. }
  rewrite Hs. destruct (decide (hi_package_ref new = ref)) as [<-|Hne].
  - rewrite lookup_insert_eq. by rewrite decide_True by set_solver.
  - rewrite lookup_insert_ne, lookup_history by done. rewrite app_nil_r.
    destruct (decide (ref ∈ hi_package_ref <$> rows)); [rewrite decide_True by set_solver|rewrite decide_False by set_solver]; done.
Qed.

Lemma SavePublisherSnapshot_Wrote k sn d : pg_inv d →
  let '(d', err) := executing (Pg_SavePublisherSnapshot sn) k d in
  ∃ id, Wrote (pg_inv d') (pg_answered k) (accepts_snapshot sn) (pg_view d) (pg_view d') err
    (push_snapshot (keep_snapshot (call_now k) id sn)).
Proof.
  intros Hinv. pose (eff (_ : GoRuntime) (d : Db) := inr (A := db_error) ((), set_history (λ rows, rows ++ [snapshot_as_row (history_seq d) (call_now k) sn]) d)).
  pose proof (executing_Wrote (wrapPgErr "SavePublisherSnapshot") (snapshot_params sn) eff d k (accepts_snapshot sn)
    (push_snapshot (keep_snapshot (call_now k) (history_seq d) sn)) Hinv) as Hw.
  change (executing (Pg_SavePublisherSnapshot sn) k d) with
    (executing (or_else (wrapPgErr "SavePublisherSnapshot") (Exec (with_params (snapshot_params sn) eff))) k d).
  destruct (executing _ k d) as [d' err]. exists (history_seq d). apply Hw; [done|]. intros Hps rt.
  eexists. split; [done|]. pose proof (snapshot_row_scan (history_seq d) (call_now k) sn Hps) as Hscan. split.
  - inv_keep Hinv. intros r. simpl. rewrite elem_of_app, list_elem_of_singleton.
    intros [Hr| ->]; [by apply (inv_history d Hinv)|]. split; [|by eexists].
    eapply params_ok_text; [exact Hps|]. unfold snapshot_params. set_solver.
  - unfold pg_view at 1, push_snapshot. f_equal. cbn [v_history pg_view t_history set_history].
    by apply history_of_snoc.
Qed.

(** ** Anomalies *)

Definition anomaly_as_row (now : Time) (a : Anomaly) : anomaly_row :=
  MkAnomalyRow (Anomaly_Kind a) (Anomaly_PackageRef a)
    (pg_time (if IsZero (Anomaly_DetectedAt a) then now else Anomaly_DetectedAt a))
    (Anomaly_Confidence a) (Anomaly_Explanation a) (stored (encode (object_json (Anomaly_Evidence a)))).

Lemma anomaly_row_scan now id a : params_ok (anomaly_params a) = true →
  scanAnomaly (id, anomaly_as_row now a) = Ok (with_id id (stamped now a)).
Proof.
  intros Hps. unfold scanAnomaly, anomaly_as_row. cbn [an_evidence].
  rewrite kept_ok; [|apply readable_object|apply object_numbers|].
  - unfold with_id, stamped. simpl. unfold UTC. by destruct (IsZero _).
  - eapply params_ok_json; [exact Hps|]. unfold anomaly_params. set_solver.
Qed.

Definition row_key (r : anomaly_row) : string * string * Time := (an_kind r, an_package_ref r, an_detected_at r).

Lemma scanned_key id r x : scanAnomaly (id, r) = Ok x → anomaly_key x = row_key r.
Proof. intros [Hk Hr Ha]%scanAnomaly_row. unfold anomaly_key, row_key. by rewrite Hk, Hr, Ha. Qed.

Lemma stamped_key now a : anomaly_key (stamped now a) = row_key (anomaly_as_row now a).
Proof. unfold anomaly_key, stamped, row_key, anomaly_as_row. simpl. unfold UTC. by destruct (IsZero _). Qed.

(** The row that is found, or the new one. *)
Lemma upsert_anomaly_cases new d :
  (∃ id r, t_anomalies d !! id = Some r ∧ row_key r = row_key new ∧
     upsert_anomaly new d = (id, set_anomalies (λ rows, rows) d)) ∨
  (∀ id r, t_anomalies d !! id = Some r → row_key r ≠ row_key new) ∧
    upsert_anomaly new d = (anomalies_seq d, set_anomalies (<[anomalies_seq d := new]>) d).
Proof.
  unfold upsert_anomaly. set (same := λ kv : Z * anomaly_row, _).
  assert (∀ kv, same kv = true ↔ row_key kv.2 = row_key new) as Hsame.
  { intros [id r]. unfold same, row_key. simpl. rewrite !andb_true_iff, !bool_decide_eq_true.
    split; [by intros [[-> ->] ->]|by intros [= -> -> ->]]. }
  destruct (find same (map_to_list (t_anomalies d))) as [[id r]|] eqn:E.
  - apply find_some in E as [Hin%list_elem_of_In%elem_of_map_to_list Hs%Hsame]. left. by exists id, r.
  - right. split; [|done]. intros id r Hr Hkey. apply elem_of_map_to_list, list_elem_of_In in Hr.
    pose proof (find_none _ _ E _ Hr) as Hf. rewrite (proj2 (Hsame (id, r)) Hkey) in Hf. done.
Qed.

Definition anomaly_effect (now : Time) (a : Anomaly) : GoRuntime → Db → db_error + option Z * Db := λ _ d,
  let '(id, d') := upsert_anomaly (anomaly_as_row now a) d in inr (Some id, d').

(** What becomes of the statement. *)
Lemma anomaly_cases k a d :
  (∃ id d' r, writing (Pg_SaveAnomaly a) k d = (d', r) ∧ params_ok (anomaly_params a) = true ∧
     upsert_anomaly (anomaly_as_row (call_now k) a) d = (id, d') ∧
     (r = Ok id ∨ (∃ e, r = Err e) ∧ ¬ pg_answered k)) ∨
  ∃ e, writing (Pg_SaveAnomaly a) k d = (d, Err e) ∧ (pg_answered k → params_ok (anomaly_params a) = false).
Proof.
  unfold writing. change (Pg_SaveAnomaly a k 0 d) with
    (or_else (wrapPgErr "SaveAnomaly") (QueryRow (with_params (anomaly_params a) (anomaly_effect (call_now k) a))) k 0 d).
  unfold or_else, QueryRow.
  destruct (statement_cases (anomaly_params a) (anomaly_effect (call_now k) a) k 0 d) as (an & n' & d' & -> & Hc).
  unfold anomaly_effect in Hc. destruct (upsert_anomaly _ d) as [id d2].
  destruct Hc as [(rt & x & Hps & [= <- <-] & Han)|(-> & [e He] & Hk)].
  - left. exists id, d2. destruct Han as [-> |[(m & e & ->) Hk]]; eexists; (split; [done|]); split_and!; try done; eauto.
  - right. destruct He as [-> | ->]; eexists; (split; [done|]); intros Ha; by destruct (Hk Ha) as [?|(? & ? & ?)].
Qed.

Lemma set_anomalies_inv d : pg_inv d → pg_inv (set_anomalies (λ rows, rows) d).
Proof.
  intros Hinv. inv_keep Hinv. intros id r Hr. destruct (inv_anomalies d Hinv id r Hr). split; [simpl; lia|done].
Qed.

Lemma SaveAnomaly_Wrote k a d : pg_inv d →
  let '(d', r) := writing (Pg_SaveAnomaly a) k d in
  let a' := stamped (call_now k) a in
  pg_inv d' ∧
  ((∃ id x, v_anomalies (pg_view d) !! id = Some x ∧ anomaly_key x = anomaly_key a' ∧
      pg_view d' = pg_view d ∧ Returns (pg_answered k ∧ accepts_anomaly a) r (λ n, n = id)) ∨
   (∀ id x, v_anomalies (pg_view d) !! id = Some x → anomaly_key x ≠ anomaly_key a') ∧
   ∃ id, v_anomalies (pg_view d) !! id = None ∧
     Wrote (pg_inv d') (pg_answered k) (accepts_anomaly a) (pg_view d) (pg_view d') (result_error r)
       (put_anomaly (with_id id a')) ∧
     Returns (pg_answered k ∧ accepts_anomaly a) r (λ n, n = id)).
Proof.
  intros Hinv. cbv zeta. rewrite stamped_key.
  assert (∀ (r : result Z) (id' : Z), (∃ e, r = Err e) ∧ ¬ pg_answered k ∨ r = Ok id' →
    Returns (pg_answered k ∧ accepts_anomaly a) r (λ n, n = id')) as Hret.
  { intros r id' [[[e ->] Hk]| ->]; simpl; tauto. }
  destruct (upsert_anomaly_cases (anomaly_as_row (call_now k) a) d) as [(id & row & Hrow & Hkey & Hup)|(Hnone & Hup)].
  - destruct (inv_anomalies d Hinv id row Hrow) as [Hlt [x Hx]].
    destruct (anomaly_cases k a d) as [(id' & d' & r & -> & Hps & Hup' & Hr)|(e & -> & Hk)].
    + rewrite Hup in Hup'. injection Hup' as <- <-. split; [by apply set_anomalies_inv|]. left. exists id, x.
      split_and!; [|by rewrite (scanned_key id row x Hx)|done|apply Hret; tauto].
      cbn [v_anomalies pg_view]. rewrite map_lookup_imap, Hrow. cbn [mbind option_bind]. by rewrite Hx.
    + split; [done|]. left. exists id, x. split_and!; [|by rewrite (scanned_key id row x Hx)|done|].
      * cbn [v_anomalies pg_view]. rewrite map_lookup_imap, Hrow. cbn [mbind option_bind]. by rewrite Hx.
      * intros [Ha Hps]. specialize (Hk Ha). change (params_ok (anomaly_params a) = true) in Hps. congruence.
  - assert (t_anomalies d !! anomalies_seq d = None) as Hfree.
    { destruct (t_anomalies d !! anomalies_seq d) as [r|] eqn:E; [|done].
      destruct (inv_anomalies d Hinv _ _ E). lia. }
    assert (∀ id x, v_anomalies (pg_view d) !! id = Some x → anomaly_key x ≠ row_key (anomaly_as_row (call_now k) a)) as Hno.
    { intros id x. cbn [v_anomalies pg_view]. rewrite map_lookup_imap. destruct (t_anomalies d !! id) as [row|] eqn:E; [|done].
      cbn [mbind option_bind]. destruct (scanAnomaly (id, row)) as [y|] eqn:Ey; [|done]. intros [= <-].
      rewrite (scanned_key id row y Ey). by eapply Hnone. }
    assert (v_anomalies (pg_view d) !! anomalies_seq d = None) as Hfree'.
    { cbn [v_anomalies pg_view]. by rewrite map_lookup_imap, Hfree. }
    destruct (anomaly_cases k a d) as [(id' & d' & r & -> & Hps & Hup' & Hr)|(e & -> & Hk)].
    + rewrite Hup in Hup'. injection Hup' as <- <-.
      pose proof (anomaly_row_scan (call_now k) (anomalies_seq d) a Hps) as Hscan.
      assert (pg_inv (set_anomalies (<[anomalies_seq d := anomaly_as_row (call_now k) a]>) d)) as Hinv'.
      { inv_keep Hinv. intros id row. simpl. rewrite lookup_insert_Some. intros [[<- <-]|[_ Hr']].
        - split; [lia|]. by eexists.
        - destruct (inv_anomalies d Hinv id row Hr'). split; [lia|done]. }
      split; [exact Hinv'|]. right. split; [exact Hno|]. exists (anomalies_seq d).
      split_and!; [exact Hfree'| |apply Hret; tauto]. split; [exact Hinv'| |done| |].
      * intros Ha _. by destruct Hr as [-> |[_ ?]].
      * left. unfold pg_view at 1, put_anomaly. f_equal. cbn [v_anomalies pg_view t_anomalies set_anomalies].
        apply imap_insert. exact (f_equal result_value Hscan).
      * intros Ha Hn. by destruct Hr as [-> |[_ ?]].
    + assert (¬ (pg_answered k ∧ accepts_anomaly a)) as Hna.
      { intros [Ha Hps]. specialize (Hk Ha). change (params_ok (anomaly_params a) = true) in Hps. congruence. }
      split; [done|]. right. split; [exact Hno|]. exists (anomalies_seq d). split_and!; [exact Hfree'| |exact Hna].
      split; [done|tauto|done|by right|done].
Qed.

(** ** SBOMs *)

Definition package_as_row (id : string) (i : Z) (p : PackageVersion) : package_row :=
  MkPackageRow id i (PackageVersion_Ecosystem p) (PackageVersion_Name p) (PackageVersion_Version p)
    (PackageVersion_PURL p) (PackageVersion_Scope p) (PackageVersion_Integrity p).

Fixpoint package_rows (id : string) (i : Z) (ps : list PackageVersion) : list package_row :=
  match ps with
  | [] => []
  | p :: ps' => package_as_row id i p :: package_rows id (i + 1) ps'
  end.

Lemma package_rows_row id i ps r : r ∈ package_rows id i ps → pk_sbom_id r = id ∧ (i ≤ pk_position r)%Z.
Proof.
  revert i. induction ps as [|p ps IH]; intros i; simpl; [by intros ?%not_elem_of_nil|].
  intros [->|Hr]%elem_of_cons; [done|]. destruct (IH _ Hr). split; [done|lia].
Qed.

Lemma package_rows_sorted id i ps : StronglySorted Z.lt (pk_position <$> package_rows id i ps).
Proof.
  revert i. induction ps as [|p ps IH]; intros i; simpl; constructor; [by apply IH|].
  apply Forall_fmap, Forall_forall. intros r [_ Hr]%package_rows_row. simpl. lia.
Qed.

Lemma scan_package_rows id i ps : scan_package <$> package_rows id i ps = ps.
Proof. revert i. induction ps as [|[] ps IH]; intros i; simpl; [done|]. f_equal. apply IH. Qed.

Definition packages_accepted (id : string) (i : Z) (ps : list PackageVersion) : Prop :=
  ∀ (n : nat) p, ps !! n = Some p → params_ok (package_params id (i + Z.of_nat n) p) = true.

Lemma packages_accepted_cons id i p ps :
  packages_accepted id i (p :: ps) ↔ params_ok (package_params id i p) = true ∧ packages_accepted id (i + 1) ps.
Proof.
  unfold packages_accepted. split.
  - intros Hall. split; [specialize (Hall 0 p eq_refl); by rewrite Z.add_0_r in Hall|].
    intros n q Hq. specialize (Hall (S n) q Hq). by replace (i + 1 + Z.of_nat n)%Z with (i + Z.of_nat (S n))%Z by lia.
  - intros [Hp Hall] [|n] q; simpl; [intros [= <-]; by rewrite Z.add_0_r|].
    intros Hq. specialize (Hall n q Hq). by replace (i + Z.of_nat (S n))%Z with (i + 1 + Z.of_nat n)%Z by lia.
Qed.

Definition package_effect (id : string) (i : Z) (p : PackageVersion) : GoRuntime → Db → db_error + () * Db := λ _ d,
  if existsb (λ r, bool_decide (pk_sbom_id r = id) && bool_decide (pk_position r = i)) (t_packages d)
  then inl unique_error
  else if bool_decide (id ∈ dom (t_sboms d)) then
    inr ((), set_packages (λ rows, rows ++ [package_as_row id i p]) d)
  else inl foreign_key_error.

Lemma package_effect_new id i p rt d :
  (∀ r, r ∈ t_packages d → pk_sbom_id r = id → (pk_position r < i)%Z) → is_Some (t_sboms d !! id) →
  package_effect id i p rt d = inr ((), set_packages (λ rows, rows ++ [package_as_row id i p]) d).
Proof.
  intros Hpos Hid. unfold package_effect. rewrite (bool_decide_eq_true_2 (id ∈ dom _)) by (by apply elem_of_dom).
  assert (existsb (λ r, bool_decide (pk_sbom_id r = id) && bool_decide (pk_position r = i)) (t_packages d) = false) as ->;
    [|done].
  apply not_true_iff_false. rewrite existsb_exists. intros (row & Hin%list_elem_of_In & Hrow). go_bool.
  specialize (Hpos row Hin ltac:(done)). lia.
Qed.

(** The rest of a transaction, when every statement succeeds; else an
    error, which an answered call only returns for a package it was not
    given rightly. *)
Lemma insert_packages_spec id ps k i n d :
  (∀ r, r ∈ t_packages d → pk_sbom_id r = id → (pk_position r < i)%Z) → is_Some (t_sboms d !! id) →
  let '(r, _, d') := insert_packages id i ps k n d in
  (r = Ok () ∧ d' = set_packages (λ rows, rows ++ package_rows id i ps) d ∧ packages_accepted id i ps) ∨
  (∃ e, r = Err e) ∧ (pg_answered k → ¬ packages_accepted id i ps).
Proof.
  revert i n d. induction ps as [|p ps IH]; intros i n d Hpos Hid; simpl.
  { left. split_and!; [done| |done]. unfold set_packages. rewrite app_nil_r. by destruct d. }
  unfold mbind, Pg_bind.
  destruct (exec_cases (wrapped "postgres: UpsertSBOM insert package: %w") (package_params id i p)
    (package_effect id i p) k n d) as (r & n' & d' & Heq & Hc).
  change (insert_package id i p k n d = (r, n', d')) in Heq. rewrite Heq. clear Heq.
  assert (∀ rt, package_effect id i p rt d = inr ((), set_packages (λ rows, rows ++ [package_as_row id i p]) d)) as Heff.
  { intros rt. by apply package_effect_new. }
  destruct Hc as [(rt & Hps & Hd & Hk)|(-> & [e ->] & Hk)].
  - destruct r as [[]|e]; [|right; split; [by exists e|]; intros Ha; by specialize (Hk Ha)].
    rewrite Heff in Hd. injection Hd as <-.
    specialize (IH (i + 1)%Z n' (set_packages (λ rows, rows ++ [package_as_row id i p]) d)).
    destruct (insert_packages id (i + 1) ps k n' _) as [[r n2] d2].
    destruct IH as [(-> & -> & Hacc)|[[e ->] Hacc]].
    + intros row. simpl. rewrite elem_of_app, list_elem_of_singleton. intros [Hin| ->] Hrow; [|simpl; lia].
      specialize (Hpos row Hin Hrow). lia.
    + done.
    + left. rewrite packages_accepted_cons. split_and!; [done| |done|done]. unfold set_packages. simpl.
      by rewrite <- (assoc_L (++)).
    + right. split; [by exists e|]. rewrite packages_accepted_cons. intros Ha [_ Hps']. by apply Hacc.
  - right. split; [by exists e|]. rewrite packages_accepted_cons. intros Ha [Hps _]. destruct (Hk Ha) as [?|(rt & e' & ?)]; congruence.
Qed.

Definition sbom_as_row (b : SBOM) : sbom_row :=
  MkSbomRow (SBOM_ComponentRef b) (SBOM_CommitSHA b) (SBOM_Ecosystem b) (pg_time (SBOM_GeneratedAt b))
    (SBOM_SourceFormat b) (SBOM_SourceBytes b).

(** The tables after the commit. *)
Definition sbom_written (b : SBOM) (d : Db) : Db :=
  set_packages (λ rows, filter (λ r, pk_sbom_id r ≠ SBOM_ID b) rows ++ package_rows (SBOM_ID b) 0 (SBOM_Packages b))
    (set_sboms (<[SBOM_ID b := sbom_as_row b]>) d).

Lemma filter_every {A} (P : A → Prop) `{!∀ x, Decision (P x)} (l : list A) : (∀ x, x ∈ l → P x) → filter P l = l.
Proof.
  induction l as [|x l IH]; intros Hall; [done|]. rewrite filter_cons_True by (apply Hall; by left).
  f_equal. apply IH. intros y Hy. apply Hall. by right.
Qed.

Lemma filter_written b rows id :
  filter (λ r, pk_sbom_id r = id)
    (filter (λ r, pk_sbom_id r ≠ SBOM_ID b) rows ++ package_rows (SBOM_ID b) 0 (SBOM_Packages b))
  = if decide (id = SBOM_ID b) then package_rows (SBOM_ID b) 0 (SBOM_Packages b) else filter (λ r, pk_sbom_id r = id) rows.
Proof.
  rewrite filter_app, list_filter_filter. destruct (decide (id = SBOM_ID b)) as [->|Hne].
  - rewrite filter_none by (intros r _ [? ?]; done). simpl. apply filter_every.
    intros r [Hr _]%package_rows_row. done.
  - rewrite (filter_none _ (package_rows _ _ _)).
    + rewrite app_nil_r. apply list_filter_iff. intros r. split; [by intros [? _]|]. intros <-. done.
    + intros r [Hr _]%package_rows_row. congruence.
Qed.

Lemma sbom_written_inv b d : pg_inv d → params_ok (sbom_params b) = true → pg_inv (sbom_written b d).
Proof.
  intros Hinv Hps. inv_keep Hinv.
  - intros id r. simpl. rewrite lookup_insert_Some. intros [[<- <-]|[_ Hr]]; [|by apply (inv_sboms d Hinv)].
    split; (eapply params_ok_text; [exact Hps|]); unfold sbom_params; set_solver.
  - intros id. simpl. rewrite filter_written. case_decide; [apply package_rows_sorted|apply (inv_positions d Hinv)].
  - intros r. simpl. rewrite elem_of_app. intros [[Hne Hr]%list_elem_of_filter|[-> _]%package_rows_row].
    + rewrite lookup_insert_ne by done. by apply (inv_packages d Hinv).
    + by rewrite lookup_insert_eq.
Qed.

Lemma sbom_written_view b d : pg_view (sbom_written b d) = put_sbom (keep_sbom b) (pg_view d).
Proof.
  unfold pg_view at 1, put_sbom. f_equal. cbn [v_sboms pg_view t_sboms sbom_written set_packages set_sboms].
  apply map_eq. intros id. rewrite map_lookup_imap. change (SBOM_ID (keep_sbom b)) with (SBOM_ID b).
  destruct (decide (id = SBOM_ID b)) as [->|Hne].
  - rewrite !lookup_insert_eq. simpl. f_equal. unfold sbom_of, keep_sbom, packages_of. simpl.
    rewrite filter_written, decide_True by done. by rewrite scan_package_rows.
  - rewrite !lookup_insert_ne, map_lookup_imap by done. destruct (t_sboms d !! id) as [r|]; [|done]. simpl. f_equal.
    unfold sbom_of, packages_of. simpl. by rewrite filter_written, decide_False.
Qed.

(** A statement inside a transaction: what matters is whether it succeeds. *)
Lemma exec_step h ps f k n d : ∃ r n' d',
  or_else h (Exec (with_params ps (update f))) k n d = (r, n', d') ∧
  ((r = Ok () ∧ d' = f d ∧ params_ok ps = true) ∨ (∃ e, r = Err e) ∧ (pg_answered k → params_ok ps = false)).
Proof.
  destruct (exec_cases h ps (update f) k n d) as (r & n' & d' & -> & Hc). exists r, n', d'. split; [done|].
  destruct Hc as [(rt & Hps & [= <-] & Hk)|(-> & He & Hk)].
  - destruct r as [[]|e]; [by left|]. right. split; [by exists e|]. intros Ha. by specialize (Hk Ha).
  - right. split; [done|]. intros Ha. by destruct (Hk Ha) as [?|(? & ? & ?)].
Qed.

Definition sbom_body (b : SBOM) : Pg () :=
  or_else (wrapPgErr "UpsertSBOM") (Exec (with_params (sbom_params b)
    (update (set_sboms (<[SBOM_ID b := sbom_as_row b]>))))) ;;
  or_else (wrapped "postgres: UpsertSBOM clear packages: %w") (Exec (with_params [PText (SBOM_ID b)]
    (update (set_packages (filter (λ r, pk_sbom_id r ≠ SBOM_ID b)))))) ;;
  insert_packages (SBOM_ID b) 0 (SBOM_Packages b).

Lemma sbom_body_spec b k n d : ∃ r n' d', sbom_body b k n d = (r, n', d') ∧
  ((r = Ok () ∧ d' = sbom_written b d ∧ accepts_sbom b) ∨ (∃ e, r = Err e) ∧ (pg_answered k → ¬ accepts_sbom b)).
Proof.
  unfold sbom_body. unfold mbind at 1, Pg_bind.
  destruct (exec_step (wrapPgErr "UpsertSBOM") (sbom_params b) (set_sboms (<[SBOM_ID b := sbom_as_row b]>)) k n d)
    as (r1 & n1 & d1 & -> & [(-> & -> & Hps)|[[e ->] Hk]]).
  2: { eexists _, _, _. split; [done|]. right. split; [by exists e|]. intros Ha [Hps _]. specialize (Hk Ha). congruence. }
  assert (text_ok (SBOM_ID b) = true) as Hid.
  { eapply params_ok_text; [exact Hps|]. unfold sbom_params. set_solver. }
  unfold mbind at 1, Pg_bind.
  destruct (exec_step (wrapped "postgres: UpsertSBOM clear packages: %w") [PText (SBOM_ID b)]
    (set_packages (filter (λ r, pk_sbom_id r ≠ SBOM_ID b))) k n1 (set_sboms (<[SBOM_ID b := sbom_as_row b]>) d))
    as (r2 & n2 & d2 & -> & [(-> & -> & _)|[[e ->] Hk]]).
  2: { eexists _, _, _. split; [done|]. right. split; [by exists e|]. intros Ha _. specialize (Hk Ha).
       rewrite text_params in Hk. congruence. }
  set (d2 := set_packages _ _).
  pose proof (insert_packages_spec (SBOM_ID b) (SBOM_Packages b) k 0 n2 d2) as Hins.
  destruct (insert_packages (SBOM_ID b) 0 (SBOM_Packages b) k n2 d2) as [[r n'] d']. exists r, n', d'. split; [done|].
  destruct Hins as [(-> & -> & Hacc)|[He Hacc]].
  - intros row. simpl. by intros [Hne _]%list_elem_of_filter.
  - simpl. by rewrite lookup_insert_eq.
  - by left.
  - right. split; [done|]. intros Ha [_ Hps2]. by apply Hacc.
Qed.

Lemma UpsertSBOM_Wrote k b d : pg_inv d →
  let '(d', err) := executing (Pg_UpsertSBOM b) k d in
  Wrote (pg_inv d') (pg_answered k) (accepts_sbom b) (pg_view d) (pg_view d') err (put_sbom (keep_sbom b)).
Proof.
  intros Hinv. unfold executing, writing. change (Pg_UpsertSBOM b k 0 d) with
    (transaction (wrapped "postgres: UpsertSBOM begin: %w") (sbom_body b) k 0 d). unfold transaction.
  assert (∀ e : error, (pg_answered k → ¬ accepts_sbom b) →
    Wrote (pg_inv d) (pg_answered k) (accepts_sbom b) (pg_view d) (pg_view d) (Some e) (put_sbom (keep_sbom b))) as Hfail.
  { intros e Hk. split; [done| |done|by right|done]. intros Ha Hacc. by destruct (Hk Ha). }
  destruct (exec_step (wrapped "postgres: UpsertSBOM begin: %w") [] id k 0 d) as (r0 & n0 & d0 & Heq & Hc).
  change (with_params [] ?eff) with eff in Heq. rewrite Heq.
  destruct Hc as [(-> & _ & _)|[[e ->] Hk]]; [|apply Hfail; intros Ha; by specialize (Hk Ha)].
  destruct (sbom_body_spec b k n0 d) as (r & n' & d' & -> & [(-> & -> & Hacc)|[[e ->] Hk]]); [|by apply Hfail].
  pose proof (exec_Wrote pg_inv pg_view (λ e, e) [] (λ _ _, inr ((), sbom_written b d)) d k n' (accepts_sbom b)
    (put_sbom (keep_sbom b)) Hinv) as Hw.
  change (with_params [] ?eff) with eff in Hw. unfold or_else in Hw.
  destruct (Exec (λ _ _, inr ((), sbom_written b d)) k n' d) as [[r1 n1] d1].
  assert (Wrote (pg_inv d1) (pg_answered k) (accepts_sbom b) (pg_view d) (pg_view d1) (result_error r1)
    (put_sbom (keep_sbom b))) as Hw1; [|exact Hw1].
  destruct r1; apply Hw; try done; intros _ rt; eexists; (split; [done|]);
    (split; [apply sbom_written_inv; [done|apply Hacc]|apply sbom_written_view]).
Qed.
End writes.
