(* ===== verification/PostgresLaws.v ===== *)
(** * The Postgres backend satisfies the storage contract

    Every method satisfies its law of [StorageLaws] (PgReads.v, PgFilter.v,
    PgWrites.v), so the theorems that are proved against the contract hold
    of the engine on Postgres. The publisher tables, which the contract of
    the two backends does not share, have theorems of their own. *)

From S2P Require Import Prelude GoStrings GoText Json JsonEncode Domain GoJson Storage PgColumns PgDecode Postgres PgLogic PgView PgReads PgFilter PgWrites.
From stdpp Require Import options.
Unset Default Proof Using.

Section laws.
Context `{FloatText, !Jsonb, !JsonbLaws, !Collation, !Refusals, !UnicodeCase}.

Lemma pg_view_wf d : view_wf (pg_view d).
Proof.
  split; cbn [v_components v_sboms v_iocs v_incidents v_publishers v_anomalies pg_view]; intros k x;
    rewrite map_lookup_imap.
  - destruct (t_components d !! k) as [r|]; [|done]. simpl. destruct (unmarshalJSON _ _ _); [|done]. by intros [= <-].
  - destruct (t_sboms d !! k) as [r|]; [|done]. by intros [= <-].
  - destruct (t_iocs d !! k) as [r|]; [|done]. simpl. destruct (Unmarshal _ _ _); [|done]. by intros [= <-].
  - destruct (t_incidents d !! k) as [r|]; [|done]. by intros [= <-].
  - destruct (t_publishers d !! k) as [r|]; [|done]. destruct k as [eco name]. by intros [= <-].
  - destruct (t_anomalies d !! k) as [r|]; [|done]. simpl. destruct (unmarshalJSON _ _ _); [|done]. by intros [= <-].
Qed.

(** Methods whose parameters cannot be refused. *)
Lemma returns_plain {A} (m : Pg A) d P k : reads m d P (fault True) → Returns (pg_answered k) (reading m k d) P.
Proof.
  intros Hm%(reads_Returns _ _ _ _ k). unfold Returns in *. destruct (reading m k d); tauto.
Qed.

Lemma looks_plain {A} (m : Pg A) d found k :
  reads m d (λ a, found = Some a) (fault_or_none True (found = None)) → Looks (pg_answered k) (reading m k d) found.
Proof. intros Hm%(reads_Looks _ _ _ _ k). unfold Looks in *. destruct (reading m k d); tauto. Qed.

#[export] Instance Db_StorageLaws : StorageLaws Db.
Proof.
  refine {| store_keeping := pg_keeping; store_keeping_laws := pg_keeping_laws;
            view := pg_view; store_inv := pg_inv; answered := pg_answered |}.
  - intros d _. apply pg_view_wf.
  - intros d ref c Hinv. cbn [v_components pg_view]. rewrite map_lookup_imap.
    destruct (t_components d !! ref) as [r|] eqn:Hr; [|done]. intros _. by apply (inv_components d Hinv ref r).
  - intros d id i Hinv. cbn [v_iocs pg_view]. rewrite map_lookup_imap.
    destruct (t_iocs d !! id) as [r|] eqn:Hr; [|done]. intros _. by apply (inv_iocs d Hinv id r).
  - intros d id b Hinv. cbn [v_sboms pg_view]. rewrite map_lookup_imap.
    destruct (t_sboms d !! id) as [r|] eqn:Hr; [|done]. intros [= <-]. by apply (inv_sboms d Hinv id r).
  - intros d id i Hinv. cbn [v_incidents pg_view]. rewrite map_lookup_imap.
    destruct (t_incidents d !! id) as [r|] eqn:Hr; [|done]. intros [= <-]. by apply (inv_incidents d Hinv id r).
  - intros d ref Hinv. cbn [v_history pg_view]. rewrite lookup_history. case_decide as Hin; [|by intros []].
    intros _. apply list_elem_of_fmap in Hin as (r & -> & Hr). by apply (inv_history d Hinv r).
  - intros k c d. apply UpsertComponent_Wrote.
  - intros k ref d Hinv. by apply reads_Looks, reads_GetComponent.
  - intros k d Hinv. by apply returns_plain, reads_ListComponents.
  - intros k b d. apply UpsertSBOM_Wrote.
  - intros k id d Hinv. by apply reads_Looks, reads_GetSBOM.
  - intros k ref d Hinv. by apply reads_Returns, reads_ListSBOMsByComponent.
  - intros k eco name d Hinv Hwf. by apply reads_Returns, reads_ListSBOMPackages.
  - intros k i d. apply UpsertIoC_Wrote.
  - intros k id d Hinv. by apply reads_Looks, reads_GetIoC.
  - intros k d Hinv. by apply returns_plain, reads_ListIoCs.
  - intros k i d. apply UpsertIncident_only.
  - intros k id r d. apply AppendRemediation_only.
  - intros k i d. apply UpsertIncident_Wrote.
  - intros k id d Hinv. by apply reads_Looks, reads_GetIncident.
  - intros k d Hinv. by apply returns_plain, reads_ListIncidents.
  - intros k f d Hinv Hf Hk. destruct (runs_ListIncidentsFiltered d k Hinv Hk f Hf 0) as (l & n' & Heq & Hl).
    exists l. split; [|exact Hl]. unfold ListIncidentsFiltered. simpl. unfold reading. by rewrite Heq.
  - intros k ioc d Hinv. by apply reads_Returns, reads_MatchedComponentRefsByIoC.
  - intros k id r d. apply AppendRemediation_Wrote.
  - intros k id d Hinv. by apply reads_Looks, reads_ListRemediations.
  - intros k sn d. apply SavePublisherSnapshot_Wrote.
  - intros k ref limit d Hinv. by apply reads_Returns, reads_GetPublisherHistory.
  - intros k t limit d Hinv. by apply returns_plain, reads_ListPackagesNeedingRefresh.
  - intros k a d. apply SaveAnomaly_Wrote.
  - intros k id d Hinv. by apply looks_plain, reads_GetAnomaly.
  - intros k f d Hinv. by apply reads_Returns, reads_ListAnomalies.
Defined.
End laws.
