(* ===== verification/PgSamples.v ===== *)
(** * A concrete database

    An instance of every parameter of the Postgres backend: a jsonb type
    that keeps a document as it was written and refuses what Postgres
    refuses, floats as they were spelled, the collation of the bytes, and
    the refusals of a server. The witnesses of the theorems about the
    backend evaluate in it. *)

From S2P Require Import Prelude GoStrings GoText Json JsonEncode Domain GoJson Storage MemoryStore Engine Samples PgColumns Postgres.
From stdpp Require Import options.

(** ** jsonb *)

Fixpoint opens (s : string) : Z :=
  match s with
  | "" => 0
  | String a s' => (if byte_is a "[" || byte_is a "{" then 1 else 0) + opens s'
  end.

Lemma opens_app s t : opens (s +:+ t) = (opens s + opens t)%Z.
Proof.
  induction s as [|a s IH]; [done|]. change (String a s +:+ t) with (String a (s +:+ t)).
  cbn [opens]. rewrite IH. lia.
Qed.

Lemma opens_nonneg s : (0 ≤ opens s)%Z.
Proof. induction s as [|a s IH]; cbn [opens]; [lia|]. case_match; lia. Qed.

Lemma opens_Join (l : list string) sep x : x ∈ l → (opens x ≤ opens (Join l sep))%Z.
Proof.
  induction l as [|y l IH]; [by intros ?%not_elem_of_nil|]. intros [-> |Hx]%elem_of_cons.
  - destruct l as [|z l]; [done|]. change (Join (y :: z :: l) sep) with (y +:+ sep +:+ Join (z :: l) sep).
    rewrite !opens_app. pose proof (opens_nonneg sep). pose proof (opens_nonneg (Join (z :: l) sep)). lia.
  - destruct l as [|z l]; [by apply not_elem_of_nil in Hx|]. specialize (IH Hx).
    change (Join (y :: z :: l) sep) with (y +:+ sep +:+ Join (z :: l) sep).
    rewrite !opens_app. pose proof (opens_nonneg sep). pose proof (opens_nonneg y). lia.
Qed.

(** Each level of nesting opens a bracket. *)
Lemma depth_opens v : (depth v ≤ opens (encode v))%Z.
Proof.
  induction v as [| | | |es IH|ms IH] using json_nested_ind; cbn [depth encode];
    try apply opens_nonneg; rewrite !opens_app.
  - pose proof (opens_nonneg "]"). cut (max_list (map depth es) ≤ opens (Join (map encode es) ","))%Z.
    { change (opens "[") with 1%Z. lia. }
    apply max_list_le; [apply opens_nonneg|]. intros x (v & -> & Hv)%list_elem_of_fmap.
    rewrite Forall_forall in IH. etrans; [by apply IH|]. apply opens_Join. by apply (list_elem_of_fmap_2 encode).
  - pose proof (opens_nonneg "}").
    cut (max_list (map (λ kv, depth kv.2) ms)
         ≤ opens (Join (map (λ kv, quote kv.1 +:+ ":" +:+ encode kv.2) ms) ","))%Z.
    { change (opens "{") with 1%Z. lia. }
    apply max_list_le; [apply opens_nonneg|]. intros x (kv & -> & Hkv)%list_elem_of_fmap.
    rewrite Forall_forall in IH. etrans; [by apply IH|].
    etrans; [|apply opens_Join; by apply (list_elem_of_fmap_2 (λ kv, quote kv.1 +:+ ":" +:+ encode kv.2))].
    cbv beta. rewrite !opens_app. pose proof (opens_nonneg (quote kv.1)). pose proof (opens_nonneg ":"). lia.
Qed.

Definition sample_jsonb : Jsonb := {|
  jsonb t :=
    match json_parse t with
    | Some v => if unique_keys v && nul_free v && bool_decide (opens t ≤ maxNestingDepth)%Z then Some t else None
    | None => None
    end
|}.

Lemma sample_jsonb_laws : @JsonbLaws sample_jsonb.
Proof.
  split; cbn [jsonb sample_jsonb].
  - intros t t' v Ht Hv. rewrite Hv in Ht. case_match eqn:Hc; [|done]. injection Ht as <-. go_bool. eauto.
  - intros v t' _ Ht. destruct (json_parse (encode v)); [|done]. case_match eqn:Hc; [|done]. go_bool.
    pose proof (depth_opens v). lia.
Qed.

(** ** Floats, collation, refusals *)

Definition sample_float : FloatText.
Proof.
  refine {| float_text t := if json_number t then t else "0"; hours_text := pretty |}.
  - intros t. by destruct (json_number t) eqn:E.
  - apply json_int_ok.
Defined.

Definition sample_collation : Collation := {| collate := String.ltb; collate_swo := less_by_string_swo id |}.

Definition sample_refusals : Refusals := {|
  text_error s := PgError "invalid byte sequence for encoding UTF8" "22021";
  jsonb_error t := PgError "unsupported Unicode escape sequence" "22P05";
  int4_error z := DriverError "is greater than maximum value for int4";
  unique_error := PgError "duplicate key value violates unique constraint" "23505";
  foreign_key_error := PgError "insert or update violates foreign key constraint" "23503";
  early_refusal := false;
|}.

#[export] Existing Instance sample_jsonb.
#[export] Existing Instance sample_jsonb_laws.
#[export] Existing Instance sample_float.
#[export] Existing Instance sample_collation.
#[export] Existing Instance sample_refusals.
