(* ===== verification/ApiAnswers.v ===== *)
(** * Answers as their readers see them (engine/internal/api)

    What a Go client that decodes strictly makes of the text of an answer:
    the value the handler answered with. ApiJson.v has the encoders and the
    decoders, and that they fit type by type; here are the bodies, and what
    becomes of an answer that does not marshal. *)

From S2P Require Import Prelude GoStrings GoText Json JsonEncode GoTime Domain GoJson Storage MemoryStore Wire ApiBodies Engine Samples Matcher Matching Handlers GithubIngestor PgColumns PgDecode ApiJson Postgres PgSamples.
From stdpp Require Import options.

(** ** Numbers *)

Lemma members_numbers ms : Forall (λ kv, numbers_ok kv.2 = true) ms → numbers_ok (JObject ms) = true.
Proof. intros Hms. cbn [numbers_ok]. induction Hms as [|kv ms Hkv _ IH]; [done|]. cbn [forallb]. by rewrite Hkv. Qed.

Lemma array_numbers es : Forall (λ e, numbers_ok e = true) es → numbers_ok (JArray es) = true.
Proof. intros Hes. cbn [numbers_ok]. induction Hes as [|e es He _ IH]; [done|]. cbn [forallb]. by rewrite He. Qed.

Lemma omit_text_numbers name x : Forall (λ kv, numbers_ok kv.2 = true) (omit_nil name (opt_string x)).
Proof. destruct x; repeat constructor. Qed.

Lemma omit_numbers {A} name (f : A → json) x :
  (∀ a, numbers_ok (f a) = true) → Forall (λ kv, numbers_ok kv.2 = true) (omit_nil name (f <$> x)).
Proof. intros Hf. destruct x; repeat constructor. apply Hf. Qed.

Lemma pointer_numbers {A} name (f : A → option json) x v :
  (∀ a j, f a = Some j → numbers_ok j = true) → pointer f x = Some v →
  Forall (λ kv, numbers_ok kv.2 = true) (omit_nil name v).
Proof.
  intros Hf. destruct x as [a|]; [|intros [= <-]; constructor].
  intros (j & Hj & ->)%fmap_Some. repeat constructor. by apply (Hf a).
Qed.

Lemma mapM_numbers {A} (f : A → option json) l js :
  (∀ a j, f a = Some j → numbers_ok j = true) → mapM f l = Some js → numbers_ok (JArray js) = true.
Proof.
  intros Hf Hl%mapM_Some. apply array_numbers. induction Hl as [|a j l js Hj _ IH]; constructor; [by apply (Hf a)|exact IH].
Qed.

Lemma slice_numbers {A} (f : A → json) l : (∀ a, numbers_ok (f a) = true) → numbers_ok (JArray (f <$> l)) = true.
Proof. intros Hf. apply array_numbers, Forall_fmap, Forall_true. exact Hf. Qed.

Lemma int_numbers z : numbers_ok (json_int z) = true.
Proof. apply json_int_ok. Qed.

Create HintDb numbers.
#[local] Hint Resolve omit_text_numbers omit_numbers strings_numbers numbers_ok_annotations int_numbers
  object_numbers slice_numbers time_numbers : numbers.

Ltac numbers :=
  apply members_numbers;
  repeat first [apply Forall_nil_2 | apply Forall_cons; split | apply Forall_app; split];
  cbn [snd]; try reflexivity; eauto with numbers.

Section numbers.
Context `{FloatText, ErrorText}.

Lemma Component_numbers c : numbers_ok (gen_Component_json c) = true.
Proof. numbers. Qed.

Lemma PackageVersion_numbers p : numbers_ok (gen_PackageVersion_json p) = true.
Proof. numbers. by destruct (gen_PackageVersion_Integrity p). Qed.

Lemma Maintainer_numbers m : numbers_ok (gen_Maintainer_json m) = true.
Proof. numbers. Qed.

Hint Resolve Component_numbers PackageVersion_numbers Maintainer_numbers : numbers.

Lemma SBOM_numbers b j : gen_SBOM_json b = Some j → numbers_ok j = true.
Proof. intros (v & Hat & [= <-])%bind_Some. numbers. Qed.

Lemma gen_Publisher_numbers p j : gen_Publisher_json p = Some j → numbers_ok j = true.
Proof.
  intros (v & Hv & (w & Hw & [= <-])%bind_Some)%bind_Some.
  numbers; eapply pointer_numbers; try eassumption; apply time_numbers.
Qed.

Lemma gen_PublisherSignal_numbers s j : gen_PublisherSignal_json s = Some j → numbers_ok j = true.
Proof. intros (v & Hv & (w & Hw%gen_Publisher_numbers & [= <-])%bind_Some)%bind_Some. numbers. Qed.

Lemma gen_IoCPublisherAnomaly_numbers b j : gen_IoCPublisherAnomaly_json b = Some j → numbers_ok j = true.
Proof.
  intros (v & Hv & [= <-])%bind_Some. numbers. eapply pointer_numbers; [|exact Hv].
  intros l u (js & Hjs & ->)%fmap_Some. eapply mapM_numbers, Hjs. apply gen_PublisherSignal_numbers.
Qed.

Lemma IoC_numbers i j : gen_IoC_json i = Some j → numbers_ok j = true.
Proof.
  intros (v & Hv & (w & Hw & [= <-])%bind_Some)%bind_Some. numbers.
  - apply omit_numbers. intros b. numbers.
  - eapply pointer_numbers; [|exact Hw]. apply gen_IoCPublisherAnomaly_numbers.
Qed.

Lemma Remediation_numbers r j : gen_Remediation_json r = Some j → numbers_ok j = true.
Proof. intros (v & Hv & [= <-])%bind_Some. numbers. Qed.

Lemma Incident_numbers i j : gen_Incident_json i = Some j → numbers_ok j = true.
Proof.
  intros (v & Hv & (w & Hw & (u & Hu & [= <-])%bind_Some)%bind_Some)%bind_Some. numbers.
  eapply pointer_numbers; [|exact Hu]. intros l e (js & Hjs & ->)%fmap_Some.
  eapply mapM_numbers, Hjs. apply Remediation_numbers.
Qed.

Lemma Anomaly_numbers a j : gen_Anomaly_json a = Some j → numbers_ok j = true.
Proof. intros (v & Hv & [= <-])%bind_Some. numbers. Qed.

Lemma PublisherSnapshot_numbers s j : gen_PublisherSnapshot_json s = Some j → numbers_ok j = true.
Proof.
  intros (v & Hv & (w & Hw & [= <-])%bind_Some)%bind_Some. numbers.
  eapply pointer_numbers; [|exact Hv]. apply time_numbers.
Qed.
End numbers.

(** ** Whole answers *)

Definition is_object (v : json) : bool := match v with JObject _ => true | _ => false end.

Lemma Decode_written {A} (dec : A → json → option A) zero j x :
  numbers_ok j = true → is_object j = true → sanitize j = j → (depth j ≤ maxNestingDepth)%Z → dec zero j = Some x →
  Decode dec zero (written (Some j)) = Ok x.
Proof.
  intros Hn Ho Hs Hd Hx. apply Decode_value; [done|by destruct j|done|]. by rewrite Hs.
Qed.

Lemma Decode_not_array {A} (dec : A → json → option A) zero j :
  numbers_ok j = true → is_object j = true → sanitize j = j → (depth j ≤ maxNestingDepth)%Z →
  ∃ e, Decode (decode_slice dec zero) [] (written (Some j)) = Err e.
Proof.
  intros Hn Ho Hs Hd. unfold written. rewrite Decode_encoded, Hs by (done || by destruct j).
  destruct j; try done. by eexists.
Qed.

Lemma decode_nothing {A} (dec : A → json → option A) zero : ∃ e, Decode dec zero "" = Err e.
Proof. by eexists. Qed.

Lemma decode_page_items {A} (dec : A → json → option A) zero js l :
  decode_slice dec zero [] (JArray js) = Some l → decode_page dec zero [] (items_json js) = Some l.
Proof. intros Hl. unfold decode_page, items_json. cbn -[decode_slice]. by rewrite Hl. Qed.

Lemma decode_items_items {A} (dec : A → json → option A) zero js l :
  decode_slice dec zero [] (JArray js) = Some l → decode_items dec zero [] (items_json js) = Some l.
Proof. intros Hl. unfold decode_items, items_json. cbn -[decode_slice]. by rewrite Hl. Qed.

Lemma items_numbers js : numbers_ok (JArray js) = true → numbers_ok (items_json js) = true.
Proof. intros Hn. unfold items_json. apply members_numbers. by repeat constructor. Qed.

Lemma Forall_fmap_forall {A B} (P : B → Prop) (f : A → B) l x : Forall P (f <$> l) → x ∈ l → P (f x).
Proof. rewrite Forall_fmap, Forall_forall. intros Hl. apply Hl. Qed.

Ltac reads_to x :=
  lazymatch goal with
  | Hn : numbers_ok ?j = true, Ho : is_object ?j = true, Hs : sanitize ?j = ?j |- context [Decode ?dec ?zero _] =>
      rewrite (Decode_written dec zero j x Hn Ho Hs); [done|assumption|]
  end.

Section answers.
Context `{FloatText, ErrorText}.

Lemma body_object b j : body_json b = Some j → is_object j = true.
Proof.
  destruct b; cbn [body_json]; intros Hj; try by injection Hj as <-.
  all: repeat match goal with
    | H : fmap _ _ = Some _ |- _ => apply fmap_Some in H as (? & _ & ->)
    | H : mbind _ _ = Some _ |- _ => apply bind_Some in H as (? & _ & H)
    | H : Some _ = Some _ |- _ => injection H as <-
    | |- _ => progress unfold gen_SBOM_json, gen_IoC_json, gen_Incident_json, gen_IncidentDetail_json, gen_Remediation_json,
        gen_Anomaly_json in *
    end; done.
Qed.

Lemma body_numbers b j : body_json b = Some j → numbers_ok j = true.
Proof.
  destruct b as [code m|status|c|items|sb|items|i|items|i|items|d|refs at_|r|a|items|items]; cbn [body_json].
  all: try (intros (js & Hjs & ->)%fmap_Some; apply items_numbers; eapply mapM_numbers, Hjs).
  - by intros [= <-].
  - by intros [= <-].
  - intros [= <-]. apply Component_numbers.
  - intros [= <-]. apply items_numbers, slice_numbers, Component_numbers.
  - apply SBOM_numbers.
  - apply SBOM_numbers.
  - apply IoC_numbers.
  - apply IoC_numbers.
  - apply Incident_numbers.
  - apply Incident_numbers.
  - intros (v & Hv%Incident_numbers & (w & Hw & [= <-])%bind_Some)%bind_Some. numbers.
    + apply omit_numbers. intros l. apply slice_numbers, Component_numbers.
    + eapply pointer_numbers; [|exact Hw]. apply IoC_numbers.
  - intros (v & Hv & [= <-])%bind_Some. numbers.
  - apply Remediation_numbers.
  - apply Anomaly_numbers.
  - apply Anomaly_numbers.
  - apply PublisherSnapshot_numbers.
Qed.

(** C18: what the API answers is what its clients read, with one exception.
    A client that decodes
    the text of an answer into the generated type, and refuses fields it does
    not know, gets the value the handler answered with, every optional field
    as it was; of a value of type any, what encoding/json decodes its text
    into. This holds of every answer that marshals, as long as its text is
    UTF-8, its int64 fields fit and its evidence nests no deeper than
    encoding/json reads; and of an answer that does not marshal the client
    gets an error. The exception is the listing of a component's SBOMs: the
    API description declares an array of SBOMs, the engine writes an object
    with an items member, and a client that decodes the array gets an error. *)
Theorem answers_read_back b :
  match body_json b with
  | Some j =>
      sanitize j = j → (depth j ≤ maxNestingDepth)%Z → Forall int64 (body_ints b) →
      match b with
      | BSBOMItems _ => ∃ e, client_reads b (body_text b) = Err e
      | _ => client_reads b (body_text b) = Ok (received b)
      end
  | None => body_text b = "" ∧ ∃ e, client_reads b (body_text b) = Err e
  end.
Proof.
  unfold body_text. destruct (body_json b) as [j|] eqn:Hj; [|split; [done|destruct b; by eexists]].
  intros Hs Hd Hints. pose proof (body_numbers b j Hj) as Hn. pose proof (body_object b j Hj) as Ho.
  destruct b as [code m|status|c|items|sb|items|i|items|i|items|d|refs at_|r|a|items|items];
    cbn [client_reads received body_json body_ints] in *.
  - reads_to (code, message_text m). by injection Hj as <-.
  - reads_to status. by injection Hj as <-.
  - reads_to c. injection Hj as <-. apply Component_reads.
  - reads_to items. injection Hj as <-. apply decode_page_items, Components_read.
  - reads_to sb. by apply SBOM_reads.
  - destruct (Decode_not_array decode_gen_SBOM zero_SBOM j Hn Ho Hs Hd) as [e ->]. by eexists.
  - reads_to (received_ioc i). by apply IoC_reads.
  - reads_to (received_ioc <$> items). apply fmap_Some in Hj as (js & Hjs & ->). apply decode_page_items.
    eapply decode_elems_mapM, Hjs. intros x v _. apply IoC_reads.
  - reads_to (received_incident i). by apply Incident_reads.
  - reads_to (received_incident <$> items). apply fmap_Some in Hj as (js & Hjs & ->). apply decode_page_items.
    eapply decode_elems_mapM, Hjs. intros x v _. apply Incident_reads.
  - reads_to (received_detail d). by apply IncidentDetail_reads.
  - apply bind_Some in Hj as (v & Hv%decode_time_json & [= <-]).
    reads_to (refs, at_). unfold decode_BlastRadiusResponse. cbn -[decode_slice decode_time].
    rewrite decode_string_list. cbn -[decode_time]. by rewrite Hv.
  - reads_to (received_remediation r). by apply Remediation_reads.
  - reads_to (received_anomaly a). apply Anomaly_reads; [by inversion Hints|done].
  - reads_to (received_anomaly <$> items). apply fmap_Some in Hj as (js & Hjs & ->). apply decode_items_items.
    eapply decode_elems_mapM, Hjs. intros x v Hin. apply Anomaly_reads. by apply (Forall_fmap_forall _ _ _ _ Hints).
  - reads_to items. apply fmap_Some in Hj as (js & Hjs & ->). apply decode_items_items.
    rewrite <- (list_fmap_id items). eapply decode_elems_mapM, Hjs. intros x v Hin. apply PublisherSnapshot_reads.
    by apply (Forall_fmap_forall _ _ _ _ Hints).
Qed.
End answers.

(** The token endpoint's answer. *)
Lemma token_reads token at_ j : token_json token at_ = Some j →
  decode_AuthTokenResponse ("", 0%Z) j = Some (token, at_).
Proof.
  intros (v & Hv%decode_time_json & [= <-])%bind_Some. unfold decode_AuthTokenResponse. cbn -[decode_time]. by rewrite Hv.
Qed.

(** ** Answers that do not marshal *)

Lemma mapM_none {A B} (f : A → option B) l x : x ∈ l → f x = None → mapM f l = None.
Proof.
  intros Hx Hf. destruct (mapM f l) as [ys|] eqn:E; [|done]. apply mapM_Some in E.
  apply (Forall2_Forall_l _ (λ x, is_Some (f x))) in E.
  - rewrite Forall_forall in E. destruct (E x Hx). congruence.
  - apply Forall_true. by intros y z ->.
Qed.

Lemma IoC_unmarshallable `{FloatText} i : format_rfc3339 (IoC_PublishedAt i) = None → gen_IoC_json (toGenIoC i) = None.
Proof. intros Hi. unfold gen_IoC_json, time_json. cbn [toGenIoC gen_IoC_PublishedAt]. by rewrite Hi. Qed.

(** One IoC whose instant has no RFC 3339 text (a year of five digits in UTC)
    takes the listing of all IoCs away: the answer says 200, and has no body. *)
Lemma one_ioc_empties_the_listing {St} `{Env, UnicodeCase, !Storage St, !StorageLaws St, FloatText, ErrorText}
    params (w : World St) id i :
  store_inv (w_store w) → answered (this_call w) → v_iocs (view (w_store w)) !! id = Some i →
  iocPasses params i = true → format_rfc3339 (IoC_PublishedAt i) = None →
  let r := (Server_ListIoCs params w).1 in resp_status r = 200%Z ∧ body_text (resp_body r) = "".
Proof.
  intros Hinv Hans Hi Hpass Hfar. unfold Server_ListIoCs, mbind, M_bind, st_read.
  pose proof (ListIoCs_law (this_call w) (w_store w) Hinv) as Hl.
  destruct (ListIoCs (this_call w) (w_store w)) as [l|e]; [|by destruct (Hl Hans)]. destruct Hl as [Hp _].
  split; [done|]. cbn. unfold body_text. cbn [body_json].
  rewrite (mapM_none _ _ (toGenIoC i)); [done| |by apply IoC_unmarshallable].
  apply list_elem_of_fmap_2, list_elem_of_filter. split; [done|]. rewrite Hp. apply elem_of_values. eauto.
Qed.

(** Any client can submit such an IoC: the last second of the year 9999, some
    hours west of Greenwich. *)
Definition far_submission : string :=
  let member k v := quote k +:+ ":" +:+ quote v in
  "{" +:+ Join [member "id" "ioc-far"; member "kind" "packageVersion"; member "severity" "high"; member "ecosystem" "npm";
    member "publishedAt" "9999-12-31T23:59:59-08:00";
    quote "packageVersion" +:+ ":{" +:+ member "name" "axios" +:+ "," +:+ member "version" "1.11.0" +:+ "}"] "," +:+ "}".

Example far_submission_accepted :
  match decodeJSON decode_gen_IoC zero_IoC far_submission with
  | Ok g => IoC_Validate (fromGenIoC g) = None ∧ constraintError (fromGenIoC g) = None ∧
      format_rfc3339 (IoC_PublishedAt (fromGenIoC g)) = None
  | Err _ => False
  end.
Proof. vm_compute. done. Qed.

(** ** Witness *)

#[local] Instance sample_error_text : ErrorText := {| Error := error_text |}.

Definition sample_detail : gen_IncidentDetail :=
  MkGenIncidentDetail (Some [toGenComponent sample_component])
    (MkGenIncident (Some [sample_ref]) "INC1" "IOC1" 0 0
       (Some [MkGenRemediation (Some "user:alice") (Some (<["pr" := AInt 42]> ∅)) 0 "R1" "INC1" "notify"]) "pending")
    (Some (toGenIoC sample_ioc)).

Lemma answers_read_back_witness :
  client_reads (BIncidentDetail sample_detail) (body_text (BIncidentDetail sample_detail))
  = Ok (received (BIncidentDetail sample_detail)).
Proof.
  pose proof (answers_read_back (BIncidentDetail sample_detail)) as Hread.
  destruct (body_json (BIncidentDetail sample_detail)) as [j|] eqn:Hj; [|vm_compute in Hj; discriminate].
  apply Hread; [| |constructor].
  - vm_compute in Hj. injection Hj as <-. reflexivity.
  - vm_compute in Hj. injection Hj as <-. vm_compute. discriminate.
Defined.
