(* ===== verification/Lockfiles.v ===== *)
(** * Lockfiles that programs write

    What the two generators of synthetic lockfiles (cmd/gen-lockfile-fixture
    and test/load) have in common: draws of a random generator, names with a
    padded number, and the JSON of a lockfile; with the lemma that the npm
    parser reads such a file back entry by entry. The generator of math/rand
    is the class [Rand]: all that is known of a draw is its range. *)

From S2P Require Import Prelude GoStrings GoText Json JsonEncode GoJson Domain Storage Sbom SbomNpm PgColumns PgDecode.
From stdpp Require Import options.

(** ** Draws *)

Class Rand := {
  rng : Type;
  Intn : Z → rng → Z * rng;                  (* of a positive bound *)
  Float64 : rng → Z * rng;                   (* the numerator over 2^53 *)
  Intn_range n r : (0 < n)%Z → (0 ≤ (Intn n r).1 < n)%Z;
}.

(** A computation that draws; [None] is a panic. *)
Definition Gen `{Rand} (A : Type) : Type := rng → option (A * rng).

#[global] Instance Gen_ret `{Rand} : MRet Gen := λ A a r, Some (a, r).
#[global] Instance Gen_bind `{Rand} : MBind Gen := λ A B f g r, '(a, r) ← g r; f a r.

(** [Intn] panics when its bound is not positive. *)
Definition draw `{Rand} (n : Z) : Gen Z := λ r, if bool_decide (0 < n)%Z then Some (Intn n r) else None.

Definition draw_float `{Rand} : Gen Z := λ r, Some (Float64 r).

(** ** Names *)

(** The verb [%0wd] for a number that is not negative. *)
Fixpoint zeros (n : nat) : string := match n with 0 => "" | S n' => String "0" (zeros n') end.

Definition zero_pad (w : nat) (n : Z) : string := zeros (w - String.length (pretty n)) +:+ pretty n.

Definition version_text (a b c : Z) : string := pretty a +:+ "." +:+ pretty b +:+ "." +:+ pretty c.

(** * Properties *)

Lemma str_forallb_app p s t : str_forallb p (s +:+ t) = str_forallb p s && str_forallb p t.
Proof. induction s as [|a s IH]; [done|]. rewrite string_app_cons. cbn [str_forallb]. by rewrite IH, andb_assoc. Qed.

Lemma zeros_digits n : str_forallb digit (zeros n) = true.
Proof. by induction n. Qed.

Lemma zero_pad_digits w n : (0 ≤ n)%Z → str_forallb digit (zero_pad w n) = true.
Proof. intros Hn. unfold zero_pad. by rewrite str_forallb_app, zeros_digits, (proj1 (pretty_digits n Hn)). Qed.

Lemma zero_pad_value w n : (0 ≤ n)%Z → digits_value (zero_pad w n) 0 = Some n.
Proof.
  intros Hn. unfold zero_pad. induction (w - _) as [|m IH]; [by apply pretty_digits|].
  cbn [zeros]. rewrite string_app_cons. cbn [digits_value]. exact IH.
Qed.

Lemma zero_pad_inj w n m : (0 ≤ n)%Z → (0 ≤ m)%Z → zero_pad w n = zero_pad w m → n = m.
Proof. intros Hn Hm Heq. pose proof (zero_pad_value w n Hn). rewrite Heq, zero_pad_value in *; congruence. Qed.

Lemma digits_ascii s : str_forallb digit s = true → str_forallb is_ascii s = true.
Proof.
  induction s as [|a s IH]; [done|]. cbn [str_forallb]. intros [Ha Hs]%andb_true_iff. rewrite (IH Hs), andb_true_r.
  unfold digit in Ha. apply byte_between_spec in Ha. apply bool_decide_eq_true. lia.
Qed.

Lemma digits_no_slash s : str_forallb digit s = true → byte_in "/" s = false.
Proof.
  induction s as [|a s IH]; [done|]. cbn [str_forallb]. intros [Ha Hs]%andb_true_iff. rewrite byte_in_cons, (IH Hs), orb_false_r.
  apply bool_decide_eq_false. intros ->. vm_compute in Ha. discriminate.
Qed.

(** ** Values whose text is ASCII *)

Fixpoint ascii_json (v : json) : bool :=
  match v with
  | JString s => str_forallb is_ascii s
  | JArray es => forallb ascii_json es
  | JObject ms => forallb (λ kv, str_forallb is_ascii kv.1 && ascii_json kv.2) ms
  | _ => true
  end.

Lemma sanitize_ascii_json v : ascii_json v = true → sanitize v = v.
Proof.
  induction v as [| | |s|es IH|ms IH] using json_nested_ind; cbn [ascii_json sanitize]; intros Hv; try done.
  - by rewrite sanitize_ascii.
  - f_equal. induction IH as [|e es He _ IHes]; [done|]. cbn in *. apply andb_true_iff in Hv as [H1 H2].
    by rewrite He, IHes.
  - f_equal. induction IH as [|[k e] ms He _ IHms]; [done|]. cbn in *. apply andb_true_iff in Hv as [[H0 H1]%andb_true_iff H2].
    change (concat_str (write_rune <$> runes k)) with (sanitize_string k). by rewrite He, IHms, sanitize_ascii.
Qed.

Lemma ascii_map m : map_Forall (λ k v, str_forallb is_ascii k = true ∧ ascii_json v = true) m → ascii_json (marshal_map m) = true.
Proof.
  intros Hm. destruct (marshal_map_perm m) as (l & -> & Hp). cbn [ascii_json]. apply forallb_forall.
  intros [k v] Hin%list_elem_of_In. rewrite Hp, elem_of_map_to_list in Hin. destruct (Hm k v Hin) as [H1 H2]. cbn. by rewrite H1, H2.
Qed.

Lemma depth_map n m : (0 ≤ n)%Z → map_Forall (λ _ v, depth v ≤ n)%Z m → (depth (marshal_map m) ≤ 1 + n)%Z.
Proof.
  intros Hn Hm. destruct (marshal_map_perm m) as (l & -> & Hp). cbn [depth]. apply Z.add_le_mono_l, max_list_le; [done|].
  intros x ([k v] & -> & Hin)%list_elem_of_fmap. rewrite Hp, elem_of_map_to_list in Hin. by apply (Hm k v).
Qed.

(** ** Reading back *)

Lemma extractName_marker name : byte_in "/" name = false → extractName (marker +:+ name) = name.
Proof.
  intros Hname. destruct (extractName_spec (marker +:+ name)) as (pre & Heq & _); [by exists "", name|].
  revert Heq. generalize (extractName (marker +:+ name)). intros x Heq.
  destruct pre as [|a pre]; [symmetry; apply (str_app_inj_l marker); exact Heq|]. exfalso.
  change (String "n" ("ode_modules/" +:+ name) = String a (pre +:+ marker +:+ x)) in Heq. injection Heq as <- Heq.
  do 12 (destruct pre as [|? pre]; [discriminate|injection Heq as <- Heq]).
  change ("" +:+ name) with name in Heq. rewrite Heq, byte_in_app, byte_in_app in Hname. apply orb_false_iff in Hname as [_ [Hm _]%orb_false_iff]. discriminate.
Qed.

Lemma json_parse_line v : numbers_ok v = true → is_number v = false → (depth v ≤ maxNestingDepth)%Z →
  json_parse (encode v +:+ bytes [10]%N) = Some (sanitize v).
Proof.
  intros Hn Hnum Hd. unfold json_parse. by rewrite all_read_back by (done || lia || by destruct v).
Qed.

(** The parser on the text of a lockfile, with or without a line break after
    it: one package for each entry that stands for one. *)
Lemma Parse_written k j lf packages nl :
  ctx_Err k = None → nl = "" ∨ nl = bytes [10]%N →
  numbers_ok j = true → is_number j = false → (depth j ≤ maxNestingDepth)%Z → ascii_json j = true →
  decode_Lockfile zero_Lockfile j = Some lf → lf_LockfileVersion lf = 3%Z → lf_Packages lf = Some packages →
  ∃ parsed, Parse k (encode j +:+ nl) = Ok parsed ∧
    ParsedSBOM_Packages parsed ≡ₚ omap (λ '(path, entry), lockEntry path entry) (map_to_list packages).
Proof.
  intros Hk Hnl Hn Hnum Hd Ha Hlf Hver Hpk.
  assert (json_parse (encode j +:+ nl) = Some j) as Hp.
  { rewrite <- (sanitize_ascii_json j Ha) at 2. destruct Hnl as [-> | ->]; [|by apply json_parse_line].
    by rewrite str_app_nil_r, json_encode_parse. }
  unfold Parse, Unmarshal. rewrite Hk, Hp, Hlf, bool_decide_false by tauto. rewrite Hpk. eexists. split; [done|].
  cbn [ParsedSBOM_Packages]. rewrite sort_pkgs_perm. apply omap_Permutation. apply (@map_range_perm (call_rt k)).
Qed.
