(* ===== verification/LockfileFixture.v ===== *)
(** * The lockfile generator (engine/cmd/gen-lockfile-fixture)

    [main] after the flags are parsed: the values of the flags, the error of
    creating the file if there is one, and the state of the random generator
    are its arguments; the file's text and the exit status its result. *)

From S2P Require Import Prelude GoStrings GoText Json JsonEncode GoJson Domain Storage Samples Sbom SbomNpm PgColumns PgDecode Lockfiles.
From stdpp Require Import options.

Record lockPackage := MkFixturePackage {
  fp_Version : string;
  fp_Integrity : string;
  fp_Dev : bool;
  fp_Optional : bool;
  fp_Peer : bool;
}.

Record lockfile := MkFixture {
  fx_Name : string;
  fx_Version : string;
  fx_LockfileVersion : Z;
  fx_Packages : gmap string lockPackage;
}.

(** [json:"name,omitempty"] of a bool. *)
Definition omit_false (name : string) (b : bool) : list (string * json) := if b then [(name, JBool true)] else [].

Definition lockPackage_json (p : lockPackage) : json := JObject (
  ("version", JString (fp_Version p)) :: omit_empty_text "integrity" (fp_Integrity p) ++ omit_false "dev" (fp_Dev p)
  ++ omit_false "optional" (fp_Optional p) ++ omit_false "peer" (fp_Peer p)).

Definition lockfile_json (f : lockfile) : json := JObject [
  ("name", JString (fx_Name f)); ("version", JString (fx_Version f));
  ("lockfileVersion", json_int (fx_LockfileVersion f));
  ("packages", marshal_map (lockPackage_json <$> fx_Packages f))].

Section generator.
Context `{Rand}.

Definition randomVersion : Gen string :=
  a ← draw 20; b ← draw 50; c ← draw 200; mret (version_text a b c).

(** A digit of [hex]; the draw is in its range. *)
Definition hex_digit (n : Z) : string := str_take 1 (str_drop (Z.to_nat n) "0123456789abcdef").

Fixpoint randomHex (n : nat) : Gen string :=
  match n with
  | 0 => mret ""
  | S n' => d ← draw 16; rest ← randomHex n'; mret (hex_digit d +:+ rest)
  end.

(** [rng.Float64() < 0.20], 0.05 and 0.03: the constants are the nearest
    fractions over 2^54, 2^56 and 2^55, the draw is one over 2^53. *)
Definition below_20 (f : Z) : bool := bool_decide (2 * f < 3602879701896397)%Z.
Definition below_5 (f : Z) : bool := bool_decide (8 * f < 3602879701896397)%Z.
Definition below_3 (f : Z) : bool := bool_decide (4 * f < 1080863910568919)%Z.

Definition package_name (i : Z) : string := "pkg-" +:+ zero_pad 6 i.
Definition package_path (i : Z) : string := "node_modules/" +:+ package_name i.

Definition random_package : Gen lockPackage :=
  version ← randomVersion;
  hex ← randomHex 86;
  dev ← draw_float; peer ← draw_float; optional ← draw_float;
  mret (MkFixturePackage version ("sha512-" +:+ hex +:+ "==") (below_20 dev) (below_3 optional) (below_5 peer)).

(** The loop from [i] on, [todo] packages to go. *)
Fixpoint fill (todo : nat) (i : Z) (packages : gmap string lockPackage) : Gen (gmap string lockPackage) :=
  match todo with
  | 0 => mret packages
  | S todo' => p ← random_package; fill todo' (i + 1) (<[package_path i := p]> packages)
  end.

Definition root_package : lockPackage := MkFixturePackage "1.0.0" "" false false false.

(** The exit status and the text of the file, if one is written. *)
Definition main (packages : Z) (output : string) (create : option error) : Gen (Z * option string) :=
  if String.eqb output "" then mret (2%Z, None)
  else if bool_decide (packages < 1)%Z then mret (2%Z, None)
  else
    entries ← fill (Z.to_nat packages) 1 {["" := root_package]};
    match create with
    | Some _ => mret (1%Z, None)
    | None => mret (0%Z, Some (encode (lockfile_json (MkFixture "synthetic" "1.0.0" 3 entries)) +:+ bytes [10]%N))
    end.
End generator.

(** * Properties *)

(** The package the parser makes of an entry. *)
Definition fixture_package (i : Z) (p : lockPackage) : PackageVersion :=
  MkPackageVersion "npm" (package_name i) (fp_Version p) (CanonicalPURL "npm" (package_name i) (fp_Version p))
    ((if fp_Dev p then ["dev"] else []) ++ (if fp_Optional p then ["optional"] else []) ++ (if fp_Peer p then ["peer"] else []))
    (fp_Integrity p).

(** What every generated entry has. *)
Record generated (p : lockPackage) : Prop := {
  gn_version : ∃ a b c, (0 ≤ a < 20 ∧ 0 ≤ b < 50 ∧ 0 ≤ c < 200)%Z ∧ fp_Version p = version_text a b c;
  gn_integrity : String.length (fp_Integrity p) = 95%nat;
  gn_ascii : str_forallb is_ascii (fp_Integrity p) = true;
}.

Section proofs.
Context `{Rand}.

Lemma draw_ok n r : (0 < n)%Z → ∃ d r', draw n r = Some (d, r') ∧ (0 ≤ d < n)%Z.
Proof.
  intros Hn. unfold draw. rewrite bool_decide_true by done. pose proof (Intn_range n r Hn).
  destruct (Intn n r) as [d r']. by exists d, r'.
Qed.

Lemma hex_digit_ok d : (0 ≤ d < 16)%Z → String.length (hex_digit d) = 1%nat ∧ str_forallb is_ascii (hex_digit d) = true.
Proof.
  intros Hd. assert (∃ n : nat, n < 16 ∧ d = Z.of_nat n) as (n & Hn & ->) by (exists (Z.to_nat d); lia).
  unfold hex_digit. rewrite Nat2Z.id. do 16 (destruct n as [|n]; [done|]). lia.
Qed.

Lemma randomHex_ok n r : ∃ s r', randomHex n r = Some (s, r') ∧ String.length s = n ∧ str_forallb is_ascii s = true.
Proof.
  revert r. induction n as [|n IH]; intros r; [by eexists _, _|].
  destruct (draw_ok 16 r) as (d & r1 & E1 & Hd); [done|]. destruct (IH r1) as (s & r2 & E2 & Hs & Ha).
  destruct (hex_digit_ok d Hd) as [Hl Hx]. exists (hex_digit d +:+ s), r2. split.
  - cbn [randomHex]. unfold mbind, Gen_bind. rewrite E1. cbn -[hex_digit]. by rewrite E2.
  - by rewrite str_length_app, str_forallb_app, Hl, Hs, Hx, Ha.
Qed.

Lemma randomVersion_ok r : ∃ a b c r', randomVersion r = Some (version_text a b c, r') ∧
  (0 ≤ a < 20 ∧ 0 ≤ b < 50 ∧ 0 ≤ c < 200)%Z.
Proof.
  destruct (draw_ok 20 r) as (a & r1 & E1 & Ha); [done|]. destruct (draw_ok 50 r1) as (b & r2 & E2 & Hb); [done|].
  destruct (draw_ok 200 r2) as (c & r3 & E3 & Hc); [done|]. exists a, b, c, r3. split; [|done].
  unfold randomVersion, mbind, Gen_bind. rewrite E1. cbn. rewrite E2. cbn. by rewrite E3.
Qed.

Lemma random_package_ok r : ∃ p r', random_package r = Some (p, r') ∧ generated p.
Proof.
  destruct (randomVersion_ok r) as (a & b & c & r1 & E1 & Habc). destruct (randomHex_ok 86 r1) as (s & r2 & E2 & Hs & Ha).
  unfold random_package, mbind, Gen_bind. rewrite E1. cbn -[randomHex]. rewrite E2. cbn -[String.length].
  unfold draw_float. destruct (Float64 r2) as [f1 r3]. cbn -[String.length]. destruct (Float64 r3) as [f2 r4].
  cbn -[String.length]. destruct (Float64 r4) as [f3 r5]. cbn -[String.length].
  eexists _, _. split; [done|]. split; cbn [fp_Version fp_Integrity].
  - by exists a, b, c.
  - rewrite !str_length_app, Hs. done.
  - by rewrite !str_forallb_app, Ha.
Qed.

(** The entries of the loop, the last one first. *)
Definition rows_from (i : Z) (l : list lockPackage) : list (string * lockPackage) :=
  reverse (imap (λ j p, (package_path (i + Z.of_nat j), p)) l).

Lemma rows_from_cons i p l : rows_from i (p :: l) = rows_from (i + 1) l ++ [(package_path i, p)].
Proof.
  unfold rows_from. rewrite imap_cons, reverse_cons. f_equal.
  - f_equal. apply imap_ext. intros j q _. cbn. do 2 f_equal. lia.
  - do 2 f_equal. f_equal. lia.
Qed.

Lemma fill_ok todo i done r : ∃ l r', fill todo i (list_to_map done) r = Some (list_to_map (rows_from i l ++ done), r') ∧
  length l = todo ∧ Forall generated l.
Proof.
  revert i done r. induction todo as [|todo IH]; intros i done r; [by exists [], r|].
  destruct (random_package_ok r) as (p & r1 & E1 & Hp).
  destruct (IH (i + 1)%Z ((package_path i, p) :: done) r1) as (l & r2 & E2 & Hl & Hall).
  exists (p :: l), r2. split; [|split; [by rewrite <- Hl|by constructor]].
  rewrite rows_from_cons, <- app_assoc. cbn [fill]. unfold mbind, Gen_bind. rewrite E1. exact E2.
Qed.
End proofs.

Lemma package_path_inj i j : (0 ≤ i)%Z → (0 ≤ j)%Z → package_path i = package_path j → i = j.
Proof. intros Hi Hj Heq. unfold package_path, package_name in Heq. do 2 apply str_app_inj_l in Heq. by eapply zero_pad_inj. Qed.

Lemma rows_from_NoDup i l : (0 ≤ i)%Z → NoDup (rows_from i l ++ [("", root_package)]).*1.
Proof.
  intros Hi. rewrite fmap_app. apply NoDup_app. split_and!.
  - unfold rows_from. rewrite fmap_reverse, reverse_Permutation, fmap_imap. apply NoDup_alt. intros j k x Hj Hk.
    rewrite list_lookup_imap in Hj, Hk. apply fmap_Some in Hj as (p & _ & ->). apply fmap_Some in Hk as (q & _ & Heq).
    cbn in Heq. apply package_path_inj in Heq; lia.
  - intros x Hx ->%list_elem_of_singleton. apply list_elem_of_fmap in Hx as ([k p] & Heq & Hin). cbn in Heq. subst k.
    unfold rows_from in Hin. rewrite elem_of_reverse in Hin. apply elem_of_lookup_imap in Hin as (j & q & Heq & _).
    discriminate.
  - apply NoDup_singleton.
Qed.

(** What the parser decodes an entry to. *)
Definition lock_package (p : lockPackage) : LockPackage :=
  MkLockPackage (fp_Version p) "" (fp_Integrity p) (fp_Dev p) (fp_Optional p) (fp_Peer p) false None None None None "".

Lemma lockPackage_reads p :
  decode_struct LockPackage_tags set_LockPackage zero_LockPackage (lockPackage_json p) = Some (lock_package p).
Proof.
  destruct p as [ver integ dev opt peer]. unfold lockPackage_json, omit_empty_text. cbn [fp_Version fp_Integrity fp_Dev fp_Optional fp_Peer].
  case_bool_decide; subst; destruct dev, opt, peer; reflexivity.
Qed.

Lemma lockfile_reads f : decode_Lockfile zero_Lockfile (lockfile_json (MkFixture "synthetic" "1.0.0" 3 f))
  = Some (MkLockfile "synthetic" "1.0.0" 3 false (Some (lock_package <$> f))).
Proof.
  assert (decode_map (decode_struct LockPackage_tags set_LockPackage zero_LockPackage) None
    (marshal_map (lockPackage_json <$> f)) = Some (Some (lock_package <$> f))) as Hmap.
  { rewrite (decode_map_marshal _ (λ v, default zero_LockPackage
      (decode_struct LockPackage_tags set_LockPackage zero_LockPackage v))); [|done|].
    - do 2 f_equal. rewrite <- map_fmap_compose. apply map_fmap_ext. intros k p _. cbn -[decode_struct].
      by rewrite lockPackage_reads.
    - intros k v. rewrite lookup_fmap. destruct (f !! k) as [p|]; intros [= <-]. by rewrite lockPackage_reads. }
  transitivity (x ← decode_map (decode_struct LockPackage_tags set_LockPackage zero_LockPackage) None
    (marshal_map (lockPackage_json <$> f)); Some (MkLockfile "synthetic" "1.0.0" 3 false x)); [reflexivity|].
  by rewrite Hmap.
Qed.

Lemma version_text_ascii a b c : (0 ≤ a)%Z → (0 ≤ b)%Z → (0 ≤ c)%Z → str_forallb is_ascii (version_text a b c) = true.
Proof.
  intros Ha Hb Hc. unfold version_text. rewrite !str_forallb_app.
  by rewrite (digits_ascii (pretty a)), (digits_ascii (pretty b)), (digits_ascii (pretty c)) by (by apply pretty_digits).
Qed.

Lemma generated_version p : generated p → fp_Version p ≠ "" ∧ str_forallb is_ascii (fp_Version p) = true.
Proof.
  intros [(a & b & c & Habc & ->) _ _]. split; [|apply version_text_ascii; lia].
  unfold version_text. intros Heq. apply (f_equal String.length) in Heq. rewrite !str_length_app in Heq. simpl in Heq. lia.
Qed.

Lemma lockEntry_generated i p : (0 ≤ i)%Z → generated p →
  lockEntry (package_path i) (lock_package p) = Some (fixture_package i p).
Proof.
  intros Hi Hp. destruct (generated_version p Hp) as [Hv _].
  assert (byte_in "/" (package_name i) = false) as Hslash.
  { unfold package_name. rewrite byte_in_app. by rewrite (digits_no_slash (zero_pad 6 i)) by (by apply zero_pad_digits). }
  unfold lockEntry, shouldSkip. rewrite bool_decide_false by done. cbn [lp_Link lock_package orb].
  assert (Contains (package_path i) "node_modules/" = true) as ->.
  { apply Contains_spec. by exists "", (package_name i). }
  cbn [negb lp_Version]. rewrite bool_decide_false by done.
  change (package_path i) with (marker +:+ package_name i). by rewrite extractName_marker.
Qed.

Lemma package_path_ascii i : (0 ≤ i)%Z → str_forallb is_ascii (package_path i) = true.
Proof. intros Hi. unfold package_path, package_name. rewrite !str_forallb_app.
  by rewrite (digits_ascii (zero_pad 6 i)) by (by apply zero_pad_digits). Qed.

(** The entries of the file are flat and ASCII. *)
Lemma entries_json i l : (0 ≤ i)%Z → Forall generated l →
  map_Forall (λ k p, str_forallb is_ascii k = true ∧ ascii_json (lockPackage_json p) = true ∧
    numbers_ok (lockPackage_json p) = true ∧ (depth (lockPackage_json p) ≤ 1)%Z)
    (list_to_map (rows_from i l ++ [("", root_package)]) : gmap string lockPackage).
Proof.
  intros Hi Hall k p Hk. apply elem_of_list_to_map_2 in Hk. apply elem_of_app in Hk as [Hk|Hk].
  - unfold rows_from in Hk. rewrite elem_of_reverse in Hk. apply elem_of_lookup_imap in Hk as (j & q & [= -> ->] & Hq).
    rewrite Forall_lookup in Hall. pose proof (Hall j q Hq) as Hgen. destruct (generated_version q Hgen) as [_ Hv].
    pose proof (gn_ascii q Hgen) as Ha. split; [apply package_path_ascii; lia|].
    destruct q as [ver integ dev opt peer]. cbn [fp_Version fp_Integrity] in *. unfold lockPackage_json, omit_empty_text.
    cbn [fp_Version fp_Integrity fp_Dev fp_Optional fp_Peer].
    case_bool_decide; destruct dev, opt, peer; cbn; rewrite ?Hv, ?Ha; done.
  - apply list_elem_of_singleton in Hk. simplify_eq. done.
Qed.

Lemma map_Forall_json (P : string → json → Prop) (m : gmap string lockPackage) :
  map_Forall (λ k p, P k (lockPackage_json p)) m → map_Forall P (lockPackage_json <$> m).
Proof. intros Hm k v. rewrite lookup_fmap. destruct (m !! k) as [p|] eqn:E; intros [= <-]. by apply Hm. Qed.

Lemma fixture_json_ok (m : gmap string lockPackage) :
  map_Forall (λ k p, str_forallb is_ascii k = true ∧ ascii_json (lockPackage_json p) = true ∧
    numbers_ok (lockPackage_json p) = true ∧ (depth (lockPackage_json p) ≤ 1)%Z) m →
  let j := lockfile_json (MkFixture "synthetic" "1.0.0" 3 m) in
  numbers_ok j = true ∧ (depth j ≤ maxNestingDepth)%Z ∧ ascii_json j = true.
Proof.
  intros Hm. unfold lockfile_json. cbn [fx_Name fx_Version fx_LockfileVersion fx_Packages]. split_and!.
  - cbn [numbers_ok forallb snd]. rewrite numbers_ok_map; [done|]. intros k v. rewrite lookup_fmap.
    destruct (m !! k) as [p|] eqn:E; intros [= <-]. by apply (Hm k p).
  - assert (depth (marshal_map (lockPackage_json <$> m)) ≤ 1 + 1)%Z as Hd.
    { apply depth_map; [lia|]. apply (map_Forall_json (λ _ v, depth v ≤ 1)%Z). intros k p Hk. by apply (Hm k p). }
    revert Hd. generalize (marshal_map (lockPackage_json <$> m)). intros v Hd.
    cbn [depth map snd max_list foldr json_int]. unfold maxNestingDepth. lia.
  - cbn [ascii_json forallb fst snd]. rewrite ascii_map; [done|].
    apply (map_Forall_json (λ k v, str_forallb is_ascii k = true ∧ ascii_json v = true)).
    intros k p Hk. destruct (Hm k p Hk) as (? & ? & _). done.
Qed.

(** What the parser keeps of the entries. *)
Lemma fixture_packages i l : (0 ≤ i)%Z → Forall generated l →
  omap (λ '(path, entry), lockEntry path entry)
    (map_to_list (lock_package <$> (list_to_map (rows_from i l ++ [("", root_package)]) : gmap string lockPackage)))
  ≡ₚ imap (λ j p, fixture_package (i + Z.of_nat j) p) l.
Proof.
  intros Hi Hall. rewrite map_to_list_fmap, map_to_list_to_map by (by apply rows_from_NoDup).
  rewrite fmap_app, omap_app. cbn [fmap list_fmap omap list_omap prod_map fst snd].
  change (lockEntry (id "") (lock_package root_package)) with (@None PackageVersion). rewrite app_nil_r.
  unfold rows_from. rewrite fmap_reverse, reverse_Permutation, fmap_imap.
  match goal with |- ?a ≡ₚ ?b => assert (a = b) as ->; [|done] end.
  revert i Hi. induction Hall as [|p l Hp _ IH]; intros i Hi; [done|].
  rewrite !imap_cons. cbn [omap list_omap]. unfold compose at 1. cbn [prod_map fst snd id].
  rewrite lockEntry_generated by (done || lia). f_equal.
  specialize (IH (i + 1)%Z ltac:(lia)).
  etrans; [|etrans; [exact IH|]]; [f_equal|]; apply imap_ext; intros j q _; cbn;
    replace (i + Z.of_nat (S j))%Z with (i + 1 + Z.of_nat j)%Z by lia; done.
Qed.

(** The generator makes files the parser is meant for. For every number
    of packages and whatever is drawn, the file parses, to exactly that many
    packages, pkg-000001 and so on, each with the version, the integrity and
    the scope bits that were drawn for it and none without an integrity: no
    name is generated twice, and no entry is dropped or skipped. *)
Theorem fixture_is_parsed `{Rand} k packages output r :
  ctx_Err k = None → (1 ≤ packages)%Z → output ≠ "" →
  ∃ text r' l parsed,
    main packages output None r = Some ((0%Z, Some text), r') ∧ Parse k text = Ok parsed ∧
    length l = Z.to_nat packages ∧ Forall generated l ∧
    ParsedSBOM_Packages parsed ≡ₚ imap (λ j p, fixture_package (1 + Z.of_nat j) p) l.
Proof.
  intros Hk Hn Hout. destruct (fill_ok (Z.to_nat packages) 1 [("", root_package)] r) as (l & r' & Hfill & Hl & Hall).
  set (m := list_to_map (rows_from 1 l ++ [("", root_package)]) : gmap string lockPackage) in *.
  pose proof (entries_json 1 l ltac:(done) Hall) as Hm. fold m in Hm.
  set (j := lockfile_json (MkFixture "synthetic" "1.0.0" 3 m)).
  destruct (fixture_json_ok m Hm) as (Hnum & Hd & Ha). fold j in Hnum, Hd, Ha.
  destruct (Parse_written k j (MkLockfile "synthetic" "1.0.0" 3 false (Some (lock_package <$> m))) (lock_package <$> m)
    (bytes [10]%N)) as (parsed & Hparse & Hp); try done; [by right|apply lockfile_reads|].
  exists (encode j +:+ bytes [10]%N), r', l, parsed. split_and!; [|done..|].
  - unfold main. destruct (String.eqb_spec output ""); [done|]. rewrite bool_decide_false by lia.
    unfold mbind, Gen_bind. change {["" := root_package]} with (list_to_map [("", root_package)] : gmap string lockPackage).
    by rewrite Hfill.
  - rewrite Hp. by apply fixture_packages.
Qed.

(** A generator for the witnesses: a linear congruence. *)
Definition sample_next (r : Z) : Z := ((1103515245 * r + 12345) mod 2147483648)%Z.

Definition sample_rand : Rand.
Proof.
  refine {| rng := Z; Intn n r := ((sample_next r / 65536) mod n, sample_next r)%Z;
            Float64 r := (sample_next r * 4194304, sample_next r)%Z |}.
  intros n r Hn. apply Z.mod_pos_bound, Hn.
Defined.

#[export] Existing Instance sample_rand.

Lemma fixture_is_parsed_witness :
  ∃ text r' l parsed,
    main (H := sample_rand) 3 "large.json" None 42%Z = Some ((0%Z, Some text), r') ∧ Parse (sample_call 0) text = Ok parsed ∧
    length l = 3 ∧ Forall generated l ∧
    ParsedSBOM_Packages parsed ≡ₚ imap (λ j p, fixture_package (1 + Z.of_nat j) p) l.
Proof. apply (@fixture_is_parsed sample_rand (sample_call 0) 3 "large.json" 42%Z); done. Defined.
