(* ===== verification/LoadCorpus.v ===== *)
(** * The load-test corpus (test/load/generate_fixtures.go)

    [run] as the documents it writes: the records of each file in their
    order. Creating the files is left out; each document goes to its file by
    [Encode] or, for the content of a submission, [Marshal]. The draws of
    math/rand/v2 are those of [Rand], in the order of the code. *)

From S2P Require Import Prelude GoStrings GoText Json JsonEncode GoTime GoJson Domain Storage Samples Sbom SbomNpm Wire ApiBodies Matcher Handlers PgColumns PgDecode ApiJson Lockfiles LockfileFixture.
From stdpp Require Import options.

(** ** base64.StdEncoding.EncodeToString *)

Definition base64_char (n : N) : string :=
  str_take 1 (str_drop (N.to_nat n) "ABCDEFGHIJKLMNOPQRSTUVWXYZabcdefghijklmnopqrstuvwxyz0123456789+/").

Fixpoint base64_encode (s : string) : string :=
  match s with
  | "" => ""
  | String a "" =>
      let x := N_of_ascii a in base64_char (x / 4) +:+ base64_char (x mod 4 * 16) +:+ "=="
  | String a (String b "") =>
      let x := N_of_ascii a in let y := N_of_ascii b in
      base64_char (x / 4) +:+ base64_char (x mod 4 * 16 + y / 16) +:+ base64_char (y mod 16 * 4) +:+ "="
  | String a (String b (String c rest)) =>
      let x := N_of_ascii a in let y := N_of_ascii b in let z := N_of_ascii c in
      base64_char (x / 4) +:+ base64_char (x mod 4 * 16 + y / 16) +:+ base64_char (y mod 16 * 4 + z / 64)
      +:+ base64_char (z mod 64) +:+ base64_encode rest
  end.

(** ** The generator *)

Record cfg := MkCfg {
  NumComponents : nat;
  NumIoCs : nat;
  NumSnapshots : nat;
  Seed : N;
  PackagesPerSBOM : Z;
}.

Definition obj (members : list (string * json)) : json := marshal_map (list_to_map members).

Definition prefixes : list string :=
  ["axios"; "lodash"; "react"; "vue"; "express"; "typescript"; "webpack";
   "babel"; "eslint"; "jest"; "rollup"; "vite"; "moment"; "uuid"; "yaml";
   "chalk"; "commander"; "fs-extra"; "glob"; "request"; "redux"; "next"].

Definition buildPackagePool (n : nat) : list string :=
  (λ i, nth (i mod length prefixes) prefixes "" +:+ "-" +:+ zero_pad 3 (Z.of_nat i)) <$> seq 0 n.

Definition lock_entry_json (pkg version : string) : json := obj [
  ("version", JString version);
  ("resolved", JString ("https://registry.npmjs.org/" +:+ pkg +:+ "/-/" +:+ pkg +:+ "-" +:+ version +:+ ".tgz"));
  ("integrity", JString "sha512-loadtestfakehash")].

Definition buildPackageLock (name : string) (packages : gmap string string) : json := obj [
  ("name", JString name); ("version", JString "1.0.0"); ("lockfileVersion", json_int 3); ("requires", JBool true);
  ("packages", marshal_map (<["" := obj [("name", JString name); ("version", JString "1.0.0")]]>
     (list_to_map ((λ '(pkg, version), ("node_modules/" +:+ pkg, lock_entry_json pkg version)) <$> map_to_list packages))))].

Section generator.
Context `{Rand}.

(** [l[r.IntN(len(l))]]. *)
Definition pick (l : list string) : Gen string :=
  i ← draw (Z.of_nat (length l)); mret (nth (Z.to_nat i) l "").

Fixpoint repeat_draw {A} (n : nat) (g : Gen A) : Gen (list A) :=
  match n with
  | 0 => mret []
  | S n' => x ← g; xs ← repeat_draw n' g; mret (x :: xs)
  end.

(** The loop over [i] from [i] on. *)
Fixpoint for_each {A} (n i : nat) (g : nat → Gen A) : Gen (list A) :=
  match n with
  | 0 => mret []
  | S n' => x ← g i; xs ← for_each n' (S i) g; mret (x :: xs)
  end.

Definition owners : list string := (λ i, "team-" +:+ zero_pad 2 (Z.of_nat i)) <$> seq 0 20.

(** A name is drawn, then its version; a later one replaces an earlier one. *)
Fixpoint pick_packages (n : nat) (pool : list string) (picked : gmap string string) : Gen (gmap string string) :=
  match n with
  | 0 => mret picked
  | S n' =>
      name ← pick pool;
      a ← draw 20; b ← draw 20; c ← draw 20;
      pick_packages n' pool (<[name := version_text a b c]> picked)
  end.

Definition svc (i : nat) : string := "svc-" +:+ zero_pad 5 (Z.of_nat i).

(** One lockfile in twenty gets a package an IoC names. *)
Definition inject (targets : list string) (picked : gmap string string) : Gen (gmap string string) :=
  d ← draw 100;
  if bool_decide (d < 5)%Z then target ← pick targets; mret (<[target := "1.11.0"]> picked) else mret picked.

Definition component_json (i : nat) (owner : string) : json :=
  obj [("ref", JString ("kind:Component/default/" +:+ svc i)); ("kind", JString "Component");
    ("namespace", JString "default"); ("name", JString (svc i)); ("owner", JString owner)].

Definition submission_json (body : string) : json :=
  obj [("ecosystem", JString "npm"); ("sourceFormat", JString "npm-package-lock-v3"); ("content", JString (base64_encode body))].

(** A component, what its lockfile lists, and the submission of the lockfile. *)
Definition component_and_sbom (c : cfg) (pool targets : list string) (i : nat) :
    Gen (json * gmap string string * json) :=
  owner ← pick owners;
  n ← draw (PackagesPerSBOM c);
  picked ← pick_packages (Z.to_nat (wrap64 (Z.quot (PackagesPerSBOM c) 2 + n))) pool ∅;
  picked ← inject targets picked;
  mret (component_json i owner, picked, submission_json (encode (buildPackageLock (svc i) picked))).

Definition severities : list string := ["low"; "medium"; "high"; "critical"].
Definition anomalyKinds : list string := ["new_maintainer_email"; "oidc_regression"; "version_jump"].
Definition confidences : list string := ["high"; "medium"; "low"].

(** [Format(time.RFC3339)] of an instant on a whole second, in a year of four
    digits. *)
Definition rfc3339_text (t : Time) : string := default "" (format_rfc3339 t).

Definition ioc_json (id sev : string) (published : Time) (kind body : string) (v : json) : json := obj [
  ("id", JString id); ("kind", JString kind); ("severity", JString sev); ("ecosystem", JString "npm");
  ("source", JString "load-test"); ("publishedAt", JString (rfc3339_text published)); (body, v)].

Definition generate_ioc (targets : list string) (now : Time) (i : nat) : Gen json :=
  let id := "01IOC-LOAD-" +:+ zero_pad 5 (Z.of_nat i) in
  sev ← pick severities;
  h ← draw 720;
  let published := (now - h * Hour)%Z in
  if i <? 350 then
    target ← pick targets;
    mret (ioc_json id sev published "packageVersion" "packageVersion"
      (obj [("name", JString target); ("version", JString "1.11.0"); ("purl", JString ("pkg:npm/" +:+ target +:+ "@1.11.0"))]))
  else if i <? 450 then
    target ← pick targets;
    mret (ioc_json id sev published "packageRange" "packageRange"
      (obj [("name", JString target); ("constraint", JString ">=1.11.0 <1.12.0")]))
  else
    target ← pick targets;
    kind ← pick anomalyKinds;
    confidence ← pick confidences;
    mret (ioc_json id sev published "publisherAnomaly" "anomalyBody"
      (obj [("kind", JString kind); ("confidence", JString confidence); ("explanation", JString "synthetic load-test anomaly");
            ("packageRef", JString ("npm:" +:+ target)); ("evidence", obj [("synthetic", JBool true)])])).

Definition generate_snapshot (targets : list string) (now : Time) (i : nat) : Gen json :=
  let target := nth (i mod length targets) targets "" in
  method ← pick ["oidc-trusted-publisher"; "token"; "unknown"];
  m ← draw 5;
  mret (obj [("packageRef", JString ("npm:" +:+ target));
    ("snapshotAt", JString (rfc3339_text (now + wrap64 (- Z.of_nat i * Hour))));
    ("latestVersion", JString ("1." +:+ pretty (Z.of_nat (i mod 20)) +:+ ".0"));
    ("publishMethod", JString method);
    ("maintainers", JArray [obj [("email", JString ("maint" +:+ pretty m +:+ "@example.com")); ("name", JString "Mock")]])]).

Record corpus := MkCorpus {
  manifest : json;
  components : list (json * gmap string string * json);
  iocs : list json;
  snapshots : list json;
}.

(** [now] is the clock, cut to the second. *)
Definition run (c : cfg) (now : Time) : Gen corpus :=
  let pool := buildPackagePool 200 in
  targets ← repeat_draw 50 (pick pool);
  let manifest := obj [("components", json_int (Z.of_nat (NumComponents c))); ("iocs", json_int (Z.of_nat (NumIoCs c)));
    ("snapshots", json_int (Z.of_nat (NumSnapshots c))); ("packages_per_sbom", json_int (PackagesPerSBOM c));
    ("seed", JNumber (pretty (Seed c))); ("ioc_targets", json_strings targets); ("owners", json_strings owners)] in
  comps ← for_each (NumComponents c) 0 (component_and_sbom c pool targets);
  iocs ← for_each (NumIoCs c) 0 (generate_ioc targets now);
  snaps ← for_each (NumSnapshots c) 0 (generate_snapshot targets now);
  mret (MkCorpus manifest comps iocs snaps).
End generator.

(** * Properties *)

(** ** base64 *)

Lemma base64_char_ok n : (n < 64)%N → ∃ a, base64_char n = byte1 a ∧ base64_value a = Some n ∧
  byte_is a "=" = false ∧ byte_is a (bytes [10]%N) = false ∧ byte_is a (bytes [13]%N) = false.
Proof.
  intros Hn. assert (∃ m : nat, m < 64 ∧ n = N.of_nat m) as (m & Hm & ->) by (exists (N.to_nat n); lia).
  unfold base64_char. rewrite Nat2N.id. do 64 (destruct m as [|m]; [by eexists|]). lia.
Qed.

Lemma base64_char_ascii n : (n < 64)%N → str_forallb is_ascii (base64_char n) = true.
Proof.
  intros Hn. assert (∃ m : nat, m < 64 ∧ n = N.of_nat m) as (m & Hm & ->) by (exists (N.to_nat n); lia).
  unfold base64_char. rewrite Nat2N.id. do 64 (destruct m as [|m]; [done|]). lia.
Qed.

Lemma byte_of_char a : byte_of (N_of_ascii a) = a.
Proof. unfold byte_of. rewrite N.mod_small by apply N_ascii_bounded. apply ascii_N_embedding. Qed.

(** The six-bit groups of one, two and three bytes. *)
Lemma groups x y z : (x < 256 → y < 256 → z < 256 →
  x / 4 < 64 ∧ x mod 4 * 16 + y / 16 < 64 ∧ y mod 16 * 4 + z / 64 < 64 ∧ z mod 64 < 64 ∧
  (4 * (x / 4) + (x mod 4 * 16 + y / 16) / 16) mod 256 = x ∧
  (16 * (x mod 4 * 16 + y / 16) + (y mod 16 * 4 + z / 64) / 4) mod 256 = y ∧
  (64 * (y mod 16 * 4 + z / 64) + z mod 64) mod 256 = z)%N.
Proof.
  intros Hx Hy Hz.
  pose proof (N.div_mod x 4 ltac:(done)) as Ex. pose proof (N.mod_lt x 4 ltac:(done)).
  pose proof (N.div_mod y 16 ltac:(done)) as Ey. pose proof (N.mod_lt y 16 ltac:(done)).
  pose proof (N.div_mod z 64 ltac:(done)) as Ez. pose proof (N.mod_lt z 64 ltac:(done)).
  set (x1 := (x / 4)%N) in *. set (x2 := (x mod 4)%N) in *. set (y1 := (y / 16)%N) in *. set (y2 := (y mod 16)%N) in *.
  set (z1 := (z / 64)%N) in *. set (z2 := (z mod 64)%N) in *. clearbody x1 x2 y1 y2 z1 z2.
  assert ((x2 * 16 + y1) / 16 = x2)%N as -> by (symmetry; apply (N.div_unique _ _ _ y1); lia).
  assert ((y2 * 4 + z1) / 4 = y2)%N as -> by (symmetry; apply (N.div_unique _ _ _ z1); lia).
  split_and!; try lia.
  - rewrite N.mod_small; lia.
  - symmetry. apply (N.mod_unique _ _ x2); lia.
  - symmetry. apply (N.mod_unique _ _ y2); lia.
Qed.

Ltac groups_step :=
  repeat match goal with |- context [byte1 ?c +:+ ?s] => change (byte1 c +:+ s) with (String c s) end;
  cbn [String.append byte1 drop_newlines base64_groups orb andb mbind option_bind String.eqb].

Lemma base64_roundtrip s : base64_decode (base64_encode s) = Some s.
Proof.
  unfold base64_decode. revert s. fix IH 1. intros [|a [|b [|c rest]]]; [done|..]; cbn [base64_encode].
  - pose proof (groups (N_of_ascii a) 0 0 (N_ascii_bounded a) ltac:(done) ltac:(done)) as (H1 & H2 & _ & _ & E1 & _).
    rewrite N.add_0_r in H2, E1.
    destruct (base64_char_ok _ H1) as (c1 & -> & V1 & Q1 & L1 & R1), (base64_char_ok _ H2) as (c2 & -> & V2 & Q2 & L2 & R2).
    groups_step. rewrite L1, R1, L2, R2. groups_step. rewrite V1, V2. groups_step. do 2 f_equal. unfold byte_of. rewrite E1. apply ascii_N_embedding.
  - pose proof (groups (N_of_ascii a) (N_of_ascii b) 0 (N_ascii_bounded a) (N_ascii_bounded b) ltac:(done))
      as (H1 & H2 & H3 & _ & E1 & E2 & _). rewrite N.add_0_r in H3, E2.
    destruct (base64_char_ok _ H1) as (c1 & -> & V1 & Q1 & L1 & R1), (base64_char_ok _ H2) as (c2 & -> & V2 & Q2 & L2 & R2),
      (base64_char_ok _ H3) as (c3 & -> & V3 & Q3 & L3 & R3).
    groups_step. rewrite L1, R1, L2, R2, L3, R3. groups_step. rewrite V1, V2, Q3, V3. groups_step. unfold byte_of, byte2.
    by rewrite E1, E2, !ascii_N_embedding.
  - pose proof (groups (N_of_ascii a) (N_of_ascii b) (N_of_ascii c) (N_ascii_bounded a) (N_ascii_bounded b) (N_ascii_bounded c))
      as (H1 & H2 & H3 & H4 & E1 & E2 & E3).
    destruct (base64_char_ok _ H1) as (c1 & -> & V1 & Q1 & L1 & R1), (base64_char_ok _ H2) as (c2 & -> & V2 & Q2 & L2 & R2),
      (base64_char_ok _ H3) as (c3 & -> & V3 & Q3 & L3 & R3), (base64_char_ok _ H4) as (c4 & -> & V4 & Q4 & L4 & R4).
    groups_step. rewrite L1, R1, L2, R2, L3, R3, L4, R4. groups_step.
    rewrite V1, V2, Q3, V3, Q4, V4. groups_step. rewrite (IH rest). groups_step. unfold byte_of.
    by rewrite E1, E2, E3, !ascii_N_embedding.
Qed.

(** ** Draws *)

(** A name of the pool. *)
Record good_name (s : string) : Prop := {
  good_ascii : str_forallb is_ascii s = true;
  good_slash : byte_in "/" s = false;
}.

Lemma pool_names n : Forall good_name (buildPackagePool n).
Proof.
  unfold buildPackagePool. apply Forall_fmap, Forall_true. intros i. unfold compose.
  assert (nth (i mod length prefixes) prefixes "" ∈ prefixes) as Hin.
  { apply list_elem_of_In, nth_In, Nat.mod_upper_bound. done. }
  pose proof (zero_pad_digits 3 (Z.of_nat i) ltac:(lia)) as Hd. revert Hin. generalize (nth (i mod length prefixes) prefixes "").
  intros p Hin. assert (good_name p) as [Ha Hs].
  { revert p Hin. apply Forall_forall. repeat (apply List.Forall_cons; [by split|]). constructor. }
  split.
  - rewrite !str_forallb_app, Ha. by rewrite (digits_ascii (zero_pad 3 (Z.of_nat i))).
  - rewrite !byte_in_app, Hs. by rewrite (digits_no_slash (zero_pad 3 (Z.of_nat i))).
Qed.

Section draws.
Context `{Rand}.

Lemma pick_ok l r : l ≠ [] → ∃ x r', pick l r = Some (x, r') ∧ x ∈ l.
Proof.
  intros Hl. destruct (draw_ok (Z.of_nat (length l)) r) as (d & r' & E & Hd); [destruct l; [done|simpl; lia]|].
  exists (nth (Z.to_nat d) l ""), r'. split; [unfold pick, mbind, Gen_bind; by rewrite E|].
  apply list_elem_of_In, nth_In. lia.
Qed.

Lemma repeat_draw_ok {A} (P : A → Prop) n (g : Gen A) r :
  (∀ r, ∃ x r', g r = Some (x, r') ∧ P x) → ∃ l r', repeat_draw n g r = Some (l, r') ∧ length l = n ∧ Forall P l.
Proof.
  intros Hg. revert r. induction n as [|n IH]; intros r; [by exists [], r|].
  destruct (Hg r) as (x & r1 & E1 & Hx). destruct (IH r1) as (l & r2 & E2 & Hl & Hall).
  exists (x :: l), r2. cbn [repeat_draw]. unfold mbind, Gen_bind. rewrite E1. cbn. rewrite E2. cbn.
  split_and!; [done|by rewrite Hl|by constructor].
Qed.

Lemma for_each_ok {A} (P : nat → A → Prop) n i (g : nat → Gen A) r :
  (∀ j r, ∃ x r', g j r = Some (x, r') ∧ P j x) →
  ∃ l r', for_each n i g r = Some (l, r') ∧ length l = n ∧ ∀ j x, l !! j = Some x → P (i + j) x.
Proof.
  intros Hg. revert i r. induction n as [|n IH]; intros i r; [by exists [], r|].
  destruct (Hg i r) as (x & r1 & E1 & Hx). destruct (IH (S i) r1) as (l & r2 & E2 & Hl & Hall).
  exists (x :: l), r2. cbn [for_each]. unfold mbind, Gen_bind. rewrite E1. cbn. rewrite E2. cbn.
  split_and!; [done|by rewrite Hl|]. intros [|j] y.
  - intros [= <-]. by rewrite Nat.add_0_r.
  - intros Hy. rewrite <- Nat.add_succ_comm. by apply Hall.
Qed.

(** What a submission's lockfile may list. *)
Definition good_packages (m : gmap string string) : Prop :=
  map_Forall (λ name v, good_name name ∧ str_forallb is_ascii v = true ∧ v ≠ "") m.

Lemma version_ok a b c : (0 ≤ a)%Z → (0 ≤ b)%Z → (0 ≤ c)%Z →
  str_forallb is_ascii (version_text a b c) = true ∧ version_text a b c ≠ "".
Proof.
  intros Ha Hb Hc. split; [by apply version_text_ascii|]. unfold version_text. intros Heq.
  apply (f_equal String.length) in Heq. rewrite !str_length_app in Heq. simpl in Heq. lia.
Qed.

Lemma pick_packages_ok n pool picked r : pool ≠ [] → Forall good_name pool → good_packages picked →
  ∃ m r', pick_packages n pool picked r = Some (m, r') ∧ good_packages m.
Proof.
  intros Hne Hpool. revert picked r. induction n as [|n IH]; intros picked r Hgood; [by exists picked, r|].
  destruct (pick_ok pool r Hne) as (name & r0 & E0 & Hin).
  destruct (draw_ok 20 r0) as (a & r1 & E1 & Ha); [done|]. destruct (draw_ok 20 r1) as (b & r2 & E2 & Hb); [done|].
  destruct (draw_ok 20 r2) as (c & r3 & E3 & Hc); [done|].
  destruct (IH (<[name := version_text a b c]> picked) r3) as (m & r4 & E4 & Hm).
  { apply map_Forall_insert_2; [|done]. rewrite Forall_forall in Hpool. split; [by apply Hpool|]. apply version_ok; lia. }
  exists m, r4. split; [|done]. cbn [pick_packages]. unfold mbind, Gen_bind. rewrite E0. cbn. rewrite E1. cbn. rewrite E2. cbn.
  rewrite E3. exact E4.
Qed.
End draws.

(** ** Lockfiles *)

Lemma lock_obj a b c d e :
  obj [("name", a); ("version", b); ("lockfileVersion", c); ("requires", d); ("packages", e)]
  = JObject [("lockfileVersion", c); ("name", a); ("packages", e); ("requires", d); ("version", b)].
Proof. vm_compute. reflexivity. Qed.

Lemma entry_obj a b c :
  obj [("version", a); ("resolved", b); ("integrity", c)] = JObject [("integrity", c); ("resolved", b); ("version", a)].
Proof. vm_compute. reflexivity. Qed.

Lemma root_obj a b : obj [("name", a); ("version", b)] = JObject [("name", a); ("version", b)].
Proof. vm_compute. reflexivity. Qed.

Definition registry_url (pkg version : string) : string :=
  "https://registry.npmjs.org/" +:+ pkg +:+ "/-/" +:+ pkg +:+ "-" +:+ version +:+ ".tgz".

(** An entry as the parser decodes it. *)
Definition decoded_entry (pkg version : string) : LockPackage :=
  MkLockPackage version (registry_url pkg version) "sha512-loadtestfakehash" false false false false None None None None "".

Definition decoded_root : LockPackage := MkLockPackage "1.0.0" "" "" false false false false None None None None "".

Definition decode_entry : json → option LockPackage := decode_struct LockPackage_tags set_LockPackage zero_LockPackage.

Lemma entry_reads pkg v : decode_entry (lock_entry_json pkg v) = Some (decoded_entry pkg v).
Proof. unfold lock_entry_json. rewrite entry_obj. reflexivity. Qed.

Lemma root_reads name : decode_entry (obj [("name", JString name); ("version", JString "1.0.0")]) = Some decoded_root.
Proof. rewrite root_obj. reflexivity. Qed.

Definition entry_rows (picked : gmap string string) : list (string * json) :=
  (λ '(pkg, version), ("node_modules/" +:+ pkg, lock_entry_json pkg version)) <$> map_to_list picked.

Lemma entry_rows_NoDup picked : NoDup (entry_rows picked).*1.
Proof.
  unfold entry_rows. rewrite <- list_fmap_compose. apply NoDup_fmap_2_strong; [|apply NoDup_map_to_list].
  intros [p v] [q w] Hp%elem_of_map_to_list Hq%elem_of_map_to_list Heq. cbn in Heq. apply str_app_inj_l in Heq. congruence.
Qed.

Lemma entry_rows_root picked : (list_to_map (entry_rows picked) : gmap string json) !! "" = None.
Proof.
  apply not_elem_of_list_to_map_1. intros ([k v] & Heq & Hin)%list_elem_of_fmap. cbn in Heq. subst k.
  apply list_elem_of_fmap in Hin as ([p w] & Heq & _). discriminate.
Qed.

(** The members of the packages object. *)
Definition lock_members (name : string) (picked : gmap string string) : gmap string json :=
  <["" := obj [("name", JString name); ("version", JString "1.0.0")]]> (list_to_map (entry_rows picked)).

Lemma lock_members_cases (P : string → json → Prop) name picked :
  P "" (obj [("name", JString name); ("version", JString "1.0.0")]) →
  (∀ pkg v, picked !! pkg = Some v → P ("node_modules/" +:+ pkg) (lock_entry_json pkg v)) →
  map_Forall P (lock_members name picked).
Proof.
  intros Hroot Hrows. apply map_Forall_insert_2; [done|]. intros k v Hk. apply elem_of_list_to_map_2 in Hk.
  apply list_elem_of_fmap in Hk as ([pkg w] & [= -> ->] & Hin%elem_of_map_to_list). by apply Hrows.
Qed.

Definition lock_entries (name : string) (picked : gmap string string) : gmap string LockPackage :=
  (λ v, default zero_LockPackage (decode_entry v)) <$> lock_members name picked.

Lemma lock_decodes name picked : decode_Lockfile zero_Lockfile (buildPackageLock name picked)
  = Some (MkLockfile name "1.0.0" 3 true (Some (lock_entries name picked))).
Proof.
  assert (decode_map decode_entry None (marshal_map (lock_members name picked)) = Some (Some (lock_entries name picked))) as Hmap.
  { rewrite (decode_map_marshal _ (λ v, default zero_LockPackage (decode_entry v))); [done|done|]. intros k v.
    revert k v. apply lock_members_cases; [by rewrite root_reads|]. intros pkg v _. by rewrite entry_reads. }
  unfold buildPackageLock. rewrite lock_obj. change (json_int 3) with (JNumber "3").
  transitivity (x ← decode_map decode_entry None (marshal_map (lock_members name picked));
    Some (MkLockfile name "1.0.0" 3 true x)); [|by rewrite Hmap].
  unfold decode_Lockfile. cbn [decode_struct foldl].
  repeat match goal with |- context [select_field ?names ?k] =>
    let v := eval vm_compute in (select_field names k) in change (select_field names k) with v end.
  cbn [mbind option_bind]. change (set_Lockfile "lockfileVersion" zero_Lockfile (JNumber "3")) with (Some (MkLockfile "" "" 3 false None)).
  cbn [mbind option_bind]. change (set_Lockfile "name" (MkLockfile "" "" 3 false None) (JString name)) with (Some (MkLockfile name "" 3 false None)).
  cbn [mbind option_bind]. fold (entry_rows picked). fold (lock_members name picked).
  change (set_Lockfile "packages" (MkLockfile name "" 3 false None) (marshal_map (lock_members name picked)))
    with (x ← decode_map decode_entry None (marshal_map (lock_members name picked)); Some (MkLockfile name "" 3 false x)).
  by rewrite Hmap.
Qed.

(** The package the parser makes of an entry. *)
Definition corpus_package (row : string * string) : PackageVersion :=
  MkPackageVersion "npm" row.1 row.2 (CanonicalPURL "npm" row.1 row.2) [] "sha512-loadtestfakehash".

Lemma lockEntry_corpus pkg v : good_name pkg → v ≠ "" →
  lockEntry ("node_modules/" +:+ pkg) (decoded_entry pkg v) = Some (corpus_package (pkg, v)).
Proof.
  intros [_ Hs] Hv. unfold lockEntry, shouldSkip. rewrite bool_decide_false by done. cbn [lp_Link decoded_entry orb].
  assert (Contains ("node_modules/" +:+ pkg) "node_modules/" = true) as -> by (apply Contains_spec; by exists "", pkg).
  cbn [negb lp_Version]. rewrite bool_decide_false by done.
  change ("node_modules/" +:+ pkg) with (marker +:+ pkg). by rewrite extractName_marker.
Qed.

Lemma lock_packages name picked : good_packages picked →
  omap (λ '(path, entry), lockEntry path entry) (map_to_list (lock_entries name picked)) ≡ₚ corpus_package <$> map_to_list picked.
Proof.
  intros Hgood. unfold lock_entries, lock_members. rewrite map_to_list_fmap, map_to_list_insert by apply entry_rows_root.
  rewrite map_to_list_to_map by apply entry_rows_NoDup. rewrite fmap_cons. cbn [prod_map fst snd]. rewrite root_reads.
  cbn [default omap list_omap]. change (lockEntry (id "") (id decoded_root)) with (@None PackageVersion).
  unfold entry_rows. rewrite <- list_fmap_compose.
  assert (∀ l : list (string * string), (∀ row, row ∈ l → picked !! row.1 = Some row.2) →
    omap (λ '(path, entry), lockEntry path entry) ((prod_map id (λ v, default zero_LockPackage (decode_entry v)) ∘
      (λ '(pkg, version), ("node_modules/" +:+ pkg, lock_entry_json pkg version))) <$> l) = corpus_package <$> l) as Hl.
  { induction l as [|[pkg v] l IH]; intros Hin; [done|]. rewrite !fmap_cons. unfold compose at 1.
    cbn [prod_map fst snd]. rewrite entry_reads. cbn [default id omap list_omap].
    destruct (Hgood pkg v (Hin (pkg, v) (list_elem_of_here _ _))) as (Hn & _ & Hv).
    change (id (decoded_entry pkg v)) with (decoded_entry pkg v). rewrite lockEntry_corpus by done. f_equal. apply IH. intros row Hrow. by apply Hin; right. }
  rewrite Hl; [done|]. intros [p v] Hin. by apply elem_of_map_to_list in Hin.
Qed.

Lemma lock_ascii name picked : str_forallb is_ascii name = true → good_packages picked → ascii_json (buildPackageLock name picked) = true.
Proof.
  intros Hname Hgood. unfold buildPackageLock. rewrite lock_obj. fold (entry_rows picked). fold (lock_members name picked).
  cbn [ascii_json forallb fst snd json_int]. rewrite Hname. rewrite ascii_map; [done|].
  apply lock_members_cases.
  - rewrite root_obj. cbn [ascii_json forallb fst snd]. by rewrite Hname.
  - intros pkg v Hv. destruct (Hgood pkg v Hv) as ([Ha _] & Hva & _). unfold lock_entry_json. rewrite entry_obj.
    cbn [ascii_json forallb fst snd]. rewrite !str_forallb_app, Ha, Hva. done.
Qed.

Lemma lock_numbers name picked : numbers_ok (buildPackageLock name picked) = true.
Proof.
  unfold buildPackageLock. rewrite lock_obj. fold (entry_rows picked). fold (lock_members name picked).
  cbn [numbers_ok forallb snd]. rewrite (numbers_ok_map (lock_members name picked)); [done|]. intros k v. revert k v.
  apply lock_members_cases; [by rewrite root_obj|]. intros pkg v _. unfold lock_entry_json. by rewrite entry_obj.
Qed.

Lemma lock_depth name picked : (depth (buildPackageLock name picked) ≤ 3)%Z.
Proof.
  unfold buildPackageLock. rewrite lock_obj. fold (entry_rows picked). fold (lock_members name picked).
  assert (depth (marshal_map (lock_members name picked)) ≤ 1 + 1)%Z as Hd.
  { apply depth_map; [lia|]. apply lock_members_cases; [by rewrite root_obj|]. intros pkg v _. unfold lock_entry_json.
    by rewrite entry_obj. }
  revert Hd. generalize (marshal_map (lock_members name picked)). intros v Hd. cbn [depth map snd max_list foldr json_int]. lia.
Qed.

Lemma lock_parses k name picked : ctx_Err k = None → str_forallb is_ascii name = true → good_packages picked →
  ∃ parsed, SbomNpm.Parse k (encode (buildPackageLock name picked)) = Ok parsed ∧
    ParsedSBOM_Packages parsed ≡ₚ corpus_package <$> map_to_list picked.
Proof.
  intros Hk Hname Hgood.
  pose proof (lock_depth name picked) as Hd.
  destruct (Parse_written k (buildPackageLock name picked) (MkLockfile name "1.0.0" 3 true (Some (lock_entries name picked)))
    (lock_entries name picked) "") as (parsed & Hparse & Hp).
  - exact Hk.
  - by left.
  - apply lock_numbers.
  - reflexivity.
  - unfold maxNestingDepth. lia.
  - by apply lock_ascii.
  - apply lock_decodes.
  - reflexivity.
  - reflexivity.
  - rewrite str_app_nil_r in Hparse. exists parsed. split; [exact Hparse|]. rewrite Hp. by apply lock_packages.
Qed.

(** ** What the API reads *)

Lemma component_obj a b c d e :
  obj [("ref", a); ("kind", b); ("namespace", c); ("name", d); ("owner", e)]
  = JObject [("kind", b); ("name", d); ("namespace", c); ("owner", e); ("ref", a)].
Proof. vm_compute. reflexivity. Qed.

Lemma submission_obj a b c :
  obj [("ecosystem", a); ("sourceFormat", b); ("content", c)] = JObject [("content", c); ("ecosystem", a); ("sourceFormat", b)].
Proof. vm_compute. reflexivity. Qed.

Lemma version_obj a b c : obj [("name", a); ("version", b); ("purl", c)] = JObject [("name", a); ("purl", c); ("version", b)].
Proof. vm_compute. reflexivity. Qed.

Lemma range_obj a b : obj [("name", a); ("constraint", b)] = JObject [("constraint", b); ("name", a)].
Proof. vm_compute. reflexivity. Qed.

Lemma anomaly_obj a b c d e :
  obj [("kind", a); ("confidence", b); ("explanation", c); ("packageRef", d); ("evidence", e)]
  = JObject [("confidence", b); ("evidence", e); ("explanation", c); ("kind", a); ("packageRef", d)].
Proof. vm_compute. reflexivity. Qed.

Lemma ioc_obj a b c d e f body v : body ∈ ["packageVersion"; "packageRange"; "anomalyBody"] →
  obj [("id", a); ("kind", b); ("severity", c); ("ecosystem", d); ("source", e); ("publishedAt", f); (body, v)]
  = JObject (if String.eqb body "anomalyBody" then
      [(body, v); ("ecosystem", d); ("id", a); ("kind", b); ("publishedAt", f); ("severity", c); ("source", e)]
    else [("ecosystem", d); ("id", a); ("kind", b); (body, v); ("publishedAt", f); ("severity", c); ("source", e)]).
Proof.
  intros Hin. rewrite !elem_of_cons in Hin. destruct Hin as [->|[->|[->|Hin]]]; [vm_compute; reflexivity..|].
  by apply not_elem_of_nil in Hin.
Qed.

(** A line of a file, or a whole file, decoded by a handler. *)
Lemma line_reads {A} (decode : A → json → option A) zero v x :
  numbers_ok v = true → is_number v = false → (depth v ≤ maxNestingDepth)%Z → ascii_json v = true →
  decode zero v = Some x → decodeJSON decode zero (encode v +:+ bytes [10]%N) = Ok x.
Proof. intros Hn Hnum Hd Ha Hx. apply Decode_value; try done. by rewrite sanitize_ascii_json. Qed.

Lemma svc_ok i : str_forallb is_ascii (svc i) = true ∧ ref_segment (svc i).
Proof.
  unfold svc. pose proof (zero_pad_digits 5 (Z.of_nat i) ltac:(lia)) as Hd. split; [by rewrite str_forallb_app, (digits_ascii _ Hd)|].
  split; [by intros [=]|]. rewrite byte_in_app, (digits_no_slash _ Hd). done.
Qed.

(** Whose components they are. *)
Definition generated_component (i : nat) (owner : string) : gen_Component :=
  MkGenComponent None "Component" None (svc i) "default" (Some owner) ("kind:Component/default/" +:+ svc i) None None.

Lemma component_line i owner : str_forallb is_ascii owner = true →
  decodeJSON decode_gen_Component zero_Component (encode (component_json i owner) +:+ bytes [10]%N)
  = Ok (generated_component i owner).
Proof.
  intros Ho. unfold component_json. rewrite component_obj. apply line_reads; [done|done|done| |].
  - cbn [ascii_json forallb fst snd]. by rewrite str_forallb_app, (proj1 (svc_ok i)), Ho.
  - reflexivity.
Qed.

Lemma submission_line body : str_forallb is_ascii (base64_encode body) = true →
  decodeJSON decode_gen_SBOMSubmission zero_SBOMSubmission (encode (submission_json body) +:+ bytes [10]%N)
  = Ok (MkGenSBOMSubmission None body "npm" "npm-package-lock-v3").
Proof.
  intros Ha. pose proof (base64_roundtrip body) as Hb. revert Ha Hb. unfold submission_json. generalize (base64_encode body) as text.
  intros text Ha Hb. rewrite submission_obj. apply line_reads; [done|done|done| |].
  - cbn [ascii_json forallb fst snd]. by rewrite Ha.
  - unfold decode_gen_SBOMSubmission, zero_SBOMSubmission. read_fields set_gen_SBOMSubmission.
    cbn [decode_bytes]. rewrite Hb. reflexivity.
Qed.

Lemma base64_ascii s : str_forallb is_ascii (base64_encode s) = true.
Proof.
  revert s. fix IH 1. intros [|a [|b [|c rest]]]; [done|..]; cbn [base64_encode].
  - pose proof (groups (N_of_ascii a) 0 0 (N_ascii_bounded a) ltac:(done) ltac:(done)) as (H1 & H2 & _).
    rewrite N.add_0_r in H2. by rewrite !str_forallb_app, !base64_char_ascii.
  - pose proof (groups (N_of_ascii a) (N_of_ascii b) 0 (N_ascii_bounded a) (N_ascii_bounded b) ltac:(done)) as (H1 & H2 & H3 & _).
    rewrite N.add_0_r in H3. by rewrite !str_forallb_app, !base64_char_ascii.
  - pose proof (groups (N_of_ascii a) (N_of_ascii b) (N_of_ascii c) (N_ascii_bounded a) (N_ascii_bounded b) (N_ascii_bounded c))
      as (H1 & H2 & H3 & H4 & _).
    by rewrite !str_forallb_app, !base64_char_ascii, (IH rest).
Qed.

(** The IoC a line stands for, of its body. *)
Definition generated_ioc (id sev kind : string) (published : Time) ab pr pv : gen_IoC :=
  MkGenIoC ab None "npm" id kind pr pv published None sev (Some "load-test").

Lemma rfc3339_text_ok t : is_Some (format_rfc3339 t) →
  str_forallb is_ascii (rfc3339_text t) = true ∧ decode_time 0 (JString (rfc3339_text t)) = Some t.
Proof.
  intros [s Hs]. unfold rfc3339_text. rewrite Hs. split.
  - revert Hs. unfold format_rfc3339. case_bool_decide; [|done]. intros [= <-]. apply plain_ascii, format_civil_plain.
  - cbn [default]. apply (decode_time_json t). unfold time_json. by rewrite Hs.
Qed.

Section ioc_lines.
Context (id sev : string) (published : Time).
Context (Hid : str_forallb is_ascii id = true) (Hsev : str_forallb is_ascii sev = true).
Context (Hp : is_Some (format_rfc3339 published)).

Local Ltac ioc_line :=
  destruct (rfc3339_text_ok published Hp) as [Ha Ht]; unfold ioc_json; rewrite ioc_obj by set_solver;
  revert Ha Ht; generalize (rfc3339_text published); intros text Ha Ht; cbn [String.eqb Ascii.eqb Bool.eqb];
  apply line_reads; [done|done|done| |];
  [cbn [ascii_json forallb fst snd]; rewrite ?str_forallb_app, ?Hid, ?Hsev, ?Ha; cbn [andb]
  |unfold decode_gen_IoC, zero_IoC; cbn [decode_strict foldl mbind option_bind]; 
   repeat match goal with |- context [select_field ?names ?k] =>
      let v := eval vm_compute in (select_field names k) in change (select_field names k) with v end;
   cbn -[decode_time]; rewrite Ht; reflexivity].

Lemma version_line target : str_forallb is_ascii target = true →
  decodeJSON decode_gen_IoC zero_IoC (encode (ioc_json id sev published "packageVersion" "packageVersion"
    (obj [("name", JString target); ("version", JString "1.11.0"); ("purl", JString ("pkg:npm/" +:+ target +:+ "@1.11.0"))]))
    +:+ bytes [10]%N)
  = Ok (generated_ioc id sev "packageVersion" published None None
         (Some (MkGenIoCPackageVersion target ("pkg:npm/" +:+ target +:+ "@1.11.0") "1.11.0"))).
Proof using Hid Hsev Hp. intros Htg. rewrite version_obj. ioc_line. by rewrite Htg. Qed.

Lemma range_line target : str_forallb is_ascii target = true →
  decodeJSON decode_gen_IoC zero_IoC (encode (ioc_json id sev published "packageRange" "packageRange"
    (obj [("name", JString target); ("constraint", JString ">=1.11.0 <1.12.0")])) +:+ bytes [10]%N)
  = Ok (generated_ioc id sev "packageRange" published None (Some (MkGenIoCPackageRange ">=1.11.0 <1.12.0" target)) None).
Proof using Hid Hsev Hp. intros Htg. rewrite range_obj. ioc_line. by rewrite Htg. Qed.

Lemma anomaly_line target kind confidence :
  str_forallb is_ascii target = true → str_forallb is_ascii kind = true → str_forallb is_ascii confidence = true →
  decodeJSON decode_gen_IoC zero_IoC (encode (ioc_json id sev published "publisherAnomaly" "anomalyBody"
    (obj [("kind", JString kind); ("confidence", JString confidence); ("explanation", JString "synthetic load-test anomaly");
          ("packageRef", JString ("npm:" +:+ target)); ("evidence", obj [("synthetic", JBool true)])])) +:+ bytes [10]%N)
  = Ok (generated_ioc id sev "publisherAnomaly" published
         (Some (MkGenIoCBodyAnomaly confidence (Some {["synthetic" := ABool true]}) (Some "synthetic load-test anomaly") kind
           ("npm:" +:+ target))) None None).
Proof using Hid Hsev Hp.
  intros Htg Hkind Hconf. rewrite anomaly_obj. change (obj [("synthetic", JBool true)]) with (JObject [("synthetic", JBool true)]).
  ioc_line. by rewrite Htg, Hkind, Hconf.
Qed.
End ioc_lines.

(** ** The whole corpus *)

(** The constraint of the range IoCs. *)
Definition corpus_constraint : string := ">=1.11.0 <1.12.0".

(** What becomes of the line of the IoC [i] in a POST /v1/iocs: the first 450
    pass both validations, the anomalies do not, since [fromGenIoC] drops the
    body they carry. *)
Definition ioc_outcome `{Semver} (now : Time) (i : nat) (v : json) : Prop :=
  ∃ g, decodeJSON decode_gen_IoC zero_IoC (encode v +:+ bytes [10]%N) = Ok g ∧
    gen_IoC_Id g = "01IOC-LOAD-" +:+ zero_pad 5 (Z.of_nat i) ∧ (gen_IoC_PublishedAt g ≤ now)%Z ∧
    if i <? 450 then IoC_Validate (fromGenIoC g) = None ∧ constraintError (fromGenIoC g) = None
    else ∃ e, IoC_Validate (fromGenIoC g) = Some e ∧ errors_Is e ErrInvalidIoC = true.

(** The line of a component, and its file under sboms/. *)
Definition sbom_outcome (i : nat) (row : json * gmap string string * json) : Prop :=
  let '(comp, picked, sub) := row in
  (∃ owner, owner ∈ owners ∧
    decodeJSON decode_gen_Component zero_Component (encode comp +:+ bytes [10]%N) = Ok (generated_component i owner)) ∧
  good_packages picked ∧ sub = submission_json (encode (buildPackageLock (svc i) picked)).

(** Instants that have a text. *)
Definition texts_of (now : Time) : Prop := ∀ h, (0 ≤ h < 720)%Z → is_Some (format_rfc3339 (now - h * Hour)).

Lemma ascii_choice l x : forallb (str_forallb is_ascii) l = true → x ∈ l → str_forallb is_ascii x = true.
Proof. intros Hl Hx. rewrite forallb_forall in Hl. apply Hl. by apply list_elem_of_In. Qed.

Section corpus.
Context `{Rand}.

Local Ltac drawn E := unfold mbind, Gen_bind; rewrite E; cbn [mret Gen_ret mbind option_bind].

Lemma generate_ioc_ok `{Semver} targets now i r : result_error (NewConstraint corpus_constraint) = None →
  targets ≠ [] → Forall good_name targets → texts_of now →
  ∃ v r', generate_ioc targets now i r = Some (v, r') ∧ ioc_outcome now i v.
Proof.
  intros Hcon Hne Htg Hnow. unfold generate_ioc, ioc_outcome. set (id := "01IOC-LOAD-" +:+ zero_pad 5 (Z.of_nat i)).
  assert (str_forallb is_ascii id = true) as Hid.
  { unfold id. rewrite str_forallb_app, (digits_ascii _ (zero_pad_digits 5 (Z.of_nat i) ltac:(lia))). done. }
  destruct (pick_ok severities r ltac:(done)) as (sev & r1 & E1 & Hsev%ascii_choice); [|done].
  destruct (draw_ok 720 r1 ltac:(done)) as (h & r2 & E2 & Hh). specialize (Hnow h Hh).
  destruct (pick_ok targets r2 Hne) as (target & r3 & E3 & Hin). rewrite Forall_forall in Htg.
  destruct (Htg target Hin) as [Hasc _]. assert (now - h * Hour ≤ now)%Z as Hle by (change Hour with 3600000000000%Z; lia).
  destruct (i <? 350) eqn:H350; [|destruct (i <? 450) eqn:H450].
  - apply Nat.ltb_lt in H350. assert ((i <? 450) = true) as -> by (apply Nat.ltb_lt; lia).
    eexists _, r3. split; [drawn E1; drawn E2; drawn E3; reflexivity|].
    eexists. split; [apply version_line; done|]. done.
  - eexists _, r3. split; [drawn E1; drawn E2; drawn E3; reflexivity|].
    eexists. split; [apply range_line; done|]. split_and!; [done|done|done|]. exact Hcon.
  - destruct (pick_ok anomalyKinds r3 ltac:(done)) as (kind & r4 & E4 & Hkind%ascii_choice); [|done].
    destruct (pick_ok confidences r4 ltac:(done)) as (conf & r5 & E5 & Hconf%ascii_choice); [|done].
    eexists _, r5. split; [drawn E1; drawn E2; drawn E3; drawn E4; drawn E5; reflexivity|].
    eexists. split; [apply anomaly_line; done|]. split_and!; [done|done|]. eexists. split; [reflexivity|]. reflexivity.
Qed.

Lemma inject_ok targets picked r : targets ≠ [] → Forall good_name targets → good_packages picked →
  ∃ m r', inject targets picked r = Some (m, r') ∧ good_packages m.
Proof.
  intros Hne Htg Hgood. destruct (draw_ok 100 r ltac:(done)) as (d & r1 & E1 & _). unfold inject. drawn E1.
  case_bool_decide; [|by exists picked, r1]. destruct (pick_ok targets r1 Hne) as (target & r2 & E2 & Hin).
  eexists _, r2. split; [drawn E2; reflexivity|]. rewrite Forall_forall in Htg.
  apply map_Forall_insert_2; [|done]. split; [by apply Htg|done].
Qed.

Lemma component_and_sbom_ok c pool targets i r : (0 < PackagesPerSBOM c)%Z →
  pool ≠ [] → Forall good_name pool → targets ≠ [] → Forall good_name targets →
  ∃ row r', component_and_sbom c pool targets i r = Some (row, r') ∧ sbom_outcome i row.
Proof.
  intros Hn Hpool Hgp Hne Htg. unfold component_and_sbom.
  destruct (pick_ok owners r ltac:(done)) as (owner & r1 & E1 & Howner).
  assert (str_forallb is_ascii owner = true) as Ho by (apply (ascii_choice owners); [vm_compute; reflexivity|done]).
  destruct (draw_ok (PackagesPerSBOM c) r1 Hn) as (n & r2 & E2 & Hd).
  destruct (pick_packages_ok (Z.to_nat (wrap64 (Z.quot (PackagesPerSBOM c) 2 + n))) pool ∅ r2 Hpool Hgp) as (picked & r3 & E3 & Hgood); [done|].
  destruct (inject_ok targets picked r3 Hne Htg Hgood) as (m & r4 & E4 & Hm).
  eexists _, r4. split; [drawn E1; drawn E2; drawn E3; drawn E4; reflexivity|].
  split_and!; [|done|done]. exists owner. split; [done|]. by apply component_line.
Qed.

Lemma generate_snapshot_ok targets now i r : ∃ v r', generate_snapshot targets now i r = Some (v, r') ∧ True.
Proof.
  unfold generate_snapshot. destruct (pick_ok ["oidc-trusted-publisher"; "token"; "unknown"] r ltac:(done)) as (x & r1 & E1 & _).
  destruct (draw_ok 5 r1 ltac:(done)) as (m & r2 & E2 & _). eexists _, r2. split; [drawn E1; drawn E2; reflexivity|done].
Qed.
End corpus.

(** C37: the load test posts what the API takes. For every draw of the
    generator the corpus has the counts asked for; the line of each component
    decodes into that component; the file of each SBOM decodes into a
    submission whose content, base64 undone, is a lockfile the npm parser
    reads, and what it reads are exactly the packages that were picked, each
    at its version; and the first 450 IoCs pass the API's two validations,
    provided the semver library knows their constraint. The IoCs from 450 on,
    the anomalies, decode but are refused as invalid. *)
Theorem corpus_is_accepted `{Rand, Semver} c now k r :
  (0 < PackagesPerSBOM c)%Z → texts_of now → result_error (NewConstraint corpus_constraint) = None → ctx_Err k = None →
  ∃ out r', run c now r = Some (out, r') ∧
    length (components out) = NumComponents c ∧ length (iocs out) = NumIoCs c ∧ length (snapshots out) = NumSnapshots c ∧
    (∀ i comp picked sub, components out !! i = Some (comp, picked, sub) →
      (∃ owner, owner ∈ owners ∧
        decodeJSON decode_gen_Component zero_Component (encode comp +:+ bytes [10]%N) = Ok (generated_component i owner)) ∧
      ∃ content parsed,
        decodeJSON decode_gen_SBOMSubmission zero_SBOMSubmission (encode sub +:+ bytes [10]%N)
          = Ok (MkGenSBOMSubmission None content "npm" "npm-package-lock-v3") ∧
        SbomNpm.Parse k content = Ok parsed ∧ ParsedSBOM_Packages parsed ≡ₚ corpus_package <$> map_to_list picked) ∧
    ∀ i v, iocs out !! i = Some v → ioc_outcome now i v.
Proof.
  intros Hn Hnow Hcon Hk. pose proof (pool_names 200) as Hpool.
  assert (buildPackagePool 200 ≠ []) as Hne by done.
  destruct (repeat_draw_ok good_name 50 (pick (buildPackagePool 200)) r) as (targets & r1 & E1 & Hl & Htg).
  { intros r0. destruct (pick_ok _ r0 Hne) as (x & r' & E & Hin). exists x, r'. split; [done|].
    rewrite Forall_forall in Hpool. by apply Hpool. }
  assert (targets ≠ []) as Hne' by (by intros ->).
  destruct (for_each_ok sbom_outcome (NumComponents c) 0 (component_and_sbom c (buildPackagePool 200) targets) r1)
    as (comps & r2 & E2 & Hl2 & Hcomps); [intros j r0; by apply component_and_sbom_ok|].
  destruct (for_each_ok (ioc_outcome now) (NumIoCs c) 0 (generate_ioc targets now) r2)
    as (lines & r3 & E3 & Hl3 & Hiocs); [intros j r0; by apply generate_ioc_ok|].
  destruct (for_each_ok (λ _ _, True) (NumSnapshots c) 0 (generate_snapshot targets now) r3)
    as (snaps & r4 & E4 & Hl4 & _); [intros j r0; apply generate_snapshot_ok|].
  eexists (MkCorpus _ comps lines snaps), r4. split.
  { unfold run. unfold mbind, Gen_bind. rewrite E1. cbn [mbind option_bind]. rewrite E2. cbn [mbind option_bind].
    rewrite E3. cbn [mbind option_bind]. rewrite E4. reflexivity. }
  split_and!; [done..| |exact Hiocs]. intros i comp picked sub Hi.
  destruct (Hcomps _ _ Hi) as (Hc & Hgood & ->). split; [exact Hc|].
  destruct (lock_parses k (svc i) picked Hk (proj1 (svc_ok i)) Hgood) as (parsed & Hp & Hperm).
  exists (encode (buildPackageLock (svc i) picked)), parsed. split_and!; [|done|done].
  apply submission_line, base64_ascii.
Qed.

(** A semver library that knows the constraint. *)
Definition lenient_semver : Semver := {|
  Constraints := string;
  Version := string;
  NewConstraint := Ok;
  NewVersion := Some;
  Check := String.eqb;
|}.

Definition sample_cfg : cfg := MkCfg 2 460 3 1 25.

(** October 2025. *)
Lemma recent_texts : texts_of 1760000000000000000.
Proof.
  assert (forallb (λ h, bool_decide (is_Some (format_rfc3339 (1760000000000000000 - h * Hour)))) (seqZ 0 720) = true) as Hall
    by (vm_compute; reflexivity).
  intros h Hh. rewrite forallb_forall in Hall. specialize (Hall h). apply bool_decide_eq_true in Hall; [done|].
  apply list_elem_of_In, elem_of_seqZ. lia.
Qed.

Lemma corpus_is_accepted_witness :
  ∃ out r', @run sample_rand sample_cfg 1760000000000000000 42%Z = Some (out, r') ∧
    length (components out) = 2 ∧ length (iocs out) = 460 ∧ length (snapshots out) = 3 ∧
    (∀ i comp picked sub, components out !! i = Some (comp, picked, sub) →
      (∃ owner, owner ∈ owners ∧
        decodeJSON decode_gen_Component zero_Component (encode comp +:+ bytes [10]%N) = Ok (generated_component i owner)) ∧
      ∃ content parsed,
        decodeJSON decode_gen_SBOMSubmission zero_SBOMSubmission (encode sub +:+ bytes [10]%N)
          = Ok (MkGenSBOMSubmission None content "npm" "npm-package-lock-v3") ∧
        SbomNpm.Parse (sample_call 0) content = Ok parsed ∧
        ParsedSBOM_Packages parsed ≡ₚ corpus_package <$> map_to_list picked) ∧
    ∀ i v, iocs out !! i = Some v → @ioc_outcome lenient_semver 1760000000000000000 i v.
Proof.
  apply (@corpus_is_accepted sample_rand lenient_semver sample_cfg 1760000000000000000 (sample_call 0) 42%Z); [done| |done|done].
  apply recent_texts.
Defined.
