(* ===== verification/StoreScripts.v ===== *)
(** * Scripts of writes on a storage backend

    The writes of the storage contract as data, and scripts of them.
    [lawful_run]: on any backend that satisfies the contract, a script of
    values that the backend keeps as they are has exactly the abstract
    effect of the script, up to the numbers of snapshots and anomalies. What
    two backends in the same abstract state answer is the same. *)

From S2P Require Import Prelude GoStrings GoText Domain Storage MemoryStore.
From stdpp Require Import options.

(** ** Writes *)

Definition do_write {St} `{Storage St} (k : Call) (op : write_op) (s : St) : St * option error :=
  match op with
  | WComponent c => UpsertComponent k c s
  | WSBOM b => UpsertSBOM k b s
  | WIoC i => UpsertIoC k i s
  | WIncident i => UpsertIncident k i s
  | WRemediation id r => AppendRemediation k id r s
  | WPublisher p => UpsertPublisher k p s
  | WProfile p => UpsertPublisherProfile k p s
  | WSnapshot sn => SavePublisherSnapshot k sn s
  | WAnomaly a => let '(s', r) := SaveAnomaly k a s in (s', result_error r)
  end.

Fixpoint do_writes {St} `{Storage St} (ops : list (Call * write_op)) (s : St) : St * list (option error) :=
  match ops with
  | [] => (s, [])
  | (k, op) :: ops' =>
      let '(s', err) := do_write k op s in
      let '(s'', errs) := do_writes ops' s' in (s'', err :: errs)
  end.

Definition empty_view : View := MkView ∅ ∅ ∅ ∅ ∅ ∅ ∅ ∅.

(** ** Scripts *)

(** A snapshot and an anomaly as they were given, dated by the clock of the
    call where they have no date. *)
Definition plain_snapshot : Time → Z → PublisherSnapshot → PublisherSnapshot := keep_snapshot (H := memory_keeping).
Definition plain_anomaly : Time → Anomaly → Anomaly := stamped (H := memory_keeping).

(** An anomaly whose key is on record is not stored again. *)
Definition save_anomaly (a : Anomaly) (v : View) : View :=
  if decide (anomaly_key a ∈ anomaly_key <$> values (v_anomalies v)) then v
  else put_anomaly (with_id (fresh (dom (v_anomalies v))) a) v.

Definition apply_write (k : Call) (op : write_op) (v : View) : View :=
  match op with
  | WComponent c => put_component c v
  | WSBOM b => put_sbom b v
  | WIoC i => put_ioc i v
  | WIncident i => put_incident i v
  | WRemediation id r => append_remediation id r v
  | WSnapshot sn => push_snapshot (plain_snapshot (call_now k) 0 sn) v
  | WAnomaly a => save_anomaly (plain_anomaly (call_now k) a) v
  | WPublisher _ | WProfile _ => v
  end.

(** The backend takes the value and keeps it exactly; an SBOM has one
    ecosystem, as every parser's has; a remediation is a new one of an
    incident on record, and an incident is written with the audit log it
    has. The publisher tables are not written. *)
Definition faithful `{Keeping} (k : Call) (v : View) (op : write_op) : Prop :=
  match op with
  | WComponent c => accepts_component c ∧ keep_component c = c
  | WSBOM b => accepts_sbom b ∧ keep_sbom b = b ∧ sbom_wf b
  | WIoC i => accepts_ioc i ∧ keep_ioc i = i
  | WIncident i => accepts_incident i ∧ keep_incident i = i ∧
      Incident_Remediations i = stored_remediations v (Incident_ID i)
  | WRemediation id r => accepts_remediation r ∧ keep_remediation r = r ∧
      is_Some (v_incidents v !! id) ∧ Remediation_IncidentID r = id ∧ remediation_fresh v (Remediation_ID r)
  | WSnapshot sn => accepts_snapshot sn ∧
      ∀ id, keep_snapshot (call_now k) id sn = plain_snapshot (call_now k) id sn
  | WAnomaly a => accepts_anomaly a ∧ stamped (call_now k) a = plain_anomaly (call_now k) a
  | WPublisher _ | WProfile _ => False
  end.

Fixpoint faithful_script `{Keeping} (ops : list (Call * write_op)) (v : View) : Prop :=
  match ops with
  | [] => True
  | (k, op) :: ops' => faithful k v op ∧ faithful_script ops' (apply_write k op v)
  end.

(** ** The same state, up to numbers *)

Definition unnumbered (a : Anomaly) : Anomaly := with_id 0 a.

Definition unnumbered_snapshot (sn : PublisherSnapshot) : PublisherSnapshot :=
  MkPublisherSnapshot 0 (PublisherSnapshot_PackageRef sn) (PublisherSnapshot_SnapshotAt sn)
    (PublisherSnapshot_Maintainers sn) (PublisherSnapshot_LatestVersion sn)
    (PublisherSnapshot_LatestVersionPublishedAt sn) (PublisherSnapshot_PublishMethod sn)
    (PublisherSnapshot_SourceRepoURL sn) (PublisherSnapshot_RawData sn).

Definition history_at (v : View) (ref : string) : list PublisherSnapshot := default [] (v_history v !! ref).

Record same_state (v1 v2 : View) : Prop := {
  ss_components : v_components v1 = v_components v2;
  ss_sboms : v_sboms v1 = v_sboms v2;
  ss_iocs : v_iocs v1 = v_iocs v2;
  ss_incidents : v_incidents v1 = v_incidents v2;
  ss_history ref : unnumbered_snapshot <$> history_at v1 ref = unnumbered_snapshot <$> history_at v2 ref;
  ss_anomalies : unnumbered <$> values (v_anomalies v1) ≡ₚ unnumbered <$> values (v_anomalies v2);
}.

(** What a script of faithful writes leaves. *)
Record script_state (v : View) : Prop := {
  sc_sboms : sboms_wf v;
  sc_anomalies : NoDup (anomaly_key <$> values (v_anomalies v));
}.

Lemma unnumbered_keys (l : list Anomaly) : anomaly_key <$> (unnumbered <$> l) = anomaly_key <$> l.
Proof. rewrite <- list_fmap_compose. by apply list_fmap_ext. Qed.

Lemma same_keys v1 v2 : same_state v1 v2 →
  anomaly_key <$> values (v_anomalies v1) ≡ₚ anomaly_key <$> values (v_anomalies v2).
Proof.
  intros Hs. by rewrite <- (unnumbered_keys (values (v_anomalies v1))), (ss_anomalies _ _ Hs), unnumbered_keys.
Qed.

Lemma same_state_trans v1 v2 v3 : same_state v1 v2 → same_state v2 v3 → same_state v1 v3.
Proof. intros [C1 B1 I1 N1 H1 A1] [C2 B2 I2 N2 H2 A2]. split; try congruence. by rewrite A1. Qed.

Lemma same_state_sym v1 v2 : same_state v1 v2 → same_state v2 v1.
Proof. intros [C1 B1 I1 N1 H1 A1]. by split. Qed.

Lemma script_state_same v1 v2 : same_state v1 v2 → script_state v2 → script_state v1.
Proof.
  intros Hs [Hb Ha]. split.
  - intros id b. rewrite (ss_sboms _ _ Hs). apply Hb.
  - by rewrite (same_keys _ _ Hs).
Qed.

(** *** Effects on it *)

Lemma history_push sn v ref :
  history_at (push_snapshot sn v) ref =
  history_at v ref ++ (if decide (ref = PublisherSnapshot_PackageRef sn) then [sn] else []).
Proof.
  unfold history_at, push_snapshot. cbn [v_history]. case_decide as Href; subst.
  - by rewrite lookup_insert_eq.
  - by rewrite lookup_insert_ne, app_nil_r.
Qed.

Lemma values_insert {A} (m : gmap Z A) i x : m !! i = None → values (<[i := x]> m) ≡ₚ x :: values m.
Proof. intros Hi. unfold values. by rewrite map_to_list_insert. Qed.

Lemma push_same v1 v2 sn1 sn2 : same_state v1 v2 → unnumbered_snapshot sn1 = unnumbered_snapshot sn2 →
  same_state (push_snapshot sn1 v1) (push_snapshot sn2 v2).
Proof.
  intros [? ? ? ? Hh ?] Hsn. split; [done..| |done]. intros ref. rewrite !history_push, !fmap_app, Hh.
  assert (PublisherSnapshot_PackageRef sn1 = PublisherSnapshot_PackageRef sn2) as -> by (by injection Hsn).
  case_decide; simpl; by rewrite ?Hsn.
Qed.

Lemma put_anomaly_same v1 v2 id1 id2 a : same_state v1 v2 →
  v_anomalies v1 !! id1 = None → v_anomalies v2 !! id2 = None →
  same_state (put_anomaly (with_id id1 a) v1) (put_anomaly (with_id id2 a) v2).
Proof.
  intros [? ? ? ? ? Ha] H1 H2. split; [done..|]. unfold put_anomaly. cbn [v_anomalies].
  rewrite (values_insert _ _ _ H1), (values_insert _ _ _ H2), !fmap_cons. by rewrite Ha.
Qed.

(** A write of a table that holds the same on both sides. *)
Ltac same_parts Hs := destruct Hs; split; simpl; try done; f_equal.

(** ** On any backend *)

Section lawful.
Context {St : Type} `{UnicodeCase, !Storage St, !StorageLaws St}.

Lemma wrote_exactly k (acc : Prop) (s s' : St) err upd v' :
  Wrote (store_inv s') (answered k) acc (view s) (view s') err upd →
  answered k → acc → same_state (upd (view s)) v' → store_inv s' ∧ same_state (view s') v' ∧ err = None.
Proof.
  intros [Hinv Hok _ Hv _] Hk Hacc Hs. specialize (Hok Hk Hacc). split_and!; [done| |done].
  by destruct Hv as [-> |[? _]].
Qed.

Lemma lawful_anomaly k a (s : St) v : store_inv s → answered k → same_state (view s) v → faithful k v (WAnomaly a) →
  let '(s', r) := SaveAnomaly k a s in
  store_inv s' ∧ same_state (view s') (save_anomaly (plain_anomaly (call_now k) a) v) ∧ result_error r = None.
Proof.
  intros Hinv Hk Hs [Hacc Hkeep]. pose proof (SaveAnomaly_law k a s Hinv) as Hl.
  destruct (SaveAnomaly k a s) as [s' r]. simpl in Hl. rewrite Hkeep in Hl. unfold save_anomaly.
  set (b := plain_anomaly (call_now k) a) in *.
  assert (anomaly_key b ∈ anomaly_key <$> values (v_anomalies v) ↔
    ∃ id x, v_anomalies (view s) !! id = Some x ∧ anomaly_key x = anomaly_key b) as Hknown.
  { rewrite <- (same_keys _ _ Hs), list_elem_of_fmap. setoid_rewrite elem_of_values. split.
    - intros (x & Hx & id & Hid). by exists id, x.
    - intros (id & x & Hid & Hx). exists x. split; [done|by exists id]. }
  destruct Hl as [Hinv' [(id & x & Hx & Hkey & -> & Hr)|(Hnew & id & Hid & Hw & _)]].
  - rewrite decide_True by (apply Hknown; eauto). split_and!; [done..|].
    destruct r as [n|e]; [done|]. by destruct Hr.
  - rewrite decide_False by (intros (id' & x & Hx & Hkey)%Hknown; by apply (Hnew id' x)).
    apply (wrote_exactly k _ s s' _ _ _ Hw Hk Hacc). apply put_anomaly_same; [done|done|].
    apply not_elem_of_dom, is_fresh.
Qed.

Lemma lawful_write k op (s : St) v : store_inv s → answered k → same_state (view s) v → faithful k v op →
  let '(s', err) := do_write k op s in
  store_inv s' ∧ same_state (view s') (apply_write k op v) ∧ err = None.
Proof.
  intros Hinv Hk Hs Hop.
  destruct op as [c|b|i|i|id r|p|p|sn|a]; try done; cbn [do_write apply_write].
  - pose proof (UpsertComponent_law k c s Hinv) as Hw. destruct (UpsertComponent k c s), Hop as [? Hkeep].
    eapply wrote_exactly; [exact Hw|done..|]. rewrite Hkeep. by same_parts Hs.
  - pose proof (UpsertSBOM_law k b s Hinv) as Hw. destruct (UpsertSBOM k b s), Hop as (? & Hkeep & _).
    eapply wrote_exactly; [exact Hw|done..|]. rewrite Hkeep. by same_parts Hs.
  - pose proof (UpsertIoC_law k i s Hinv) as Hw. destruct (UpsertIoC k i s), Hop as [? Hkeep].
    eapply wrote_exactly; [exact Hw|done..|]. rewrite Hkeep. by same_parts Hs.
  - destruct Hop as (? & Hkeep & Hlog).
    assert (Incident_Remediations i = stored_remediations (view s) (Incident_ID i)) as Hlog'.
    { rewrite Hlog. unfold stored_remediations. by rewrite (ss_incidents _ _ Hs). }
    pose proof (UpsertIncident_law k i s Hinv Hlog') as Hw.
    destruct (UpsertIncident k i s). eapply wrote_exactly; [exact Hw|done..|]. rewrite Hkeep.
    by same_parts Hs.
  - destruct Hop as (? & Hkeep & [inc Hinc] & Hid & Hf). rewrite <- (ss_incidents _ _ Hs) in Hinc.
    assert (remediation_fresh (view s) (Remediation_ID r)) as Hf'.
    { intros id' i' r'. rewrite (ss_incidents _ _ Hs). apply Hf. }
    pose proof (AppendRemediation_law k id r s Hinv Hid Hf') as Hw.
    destruct (AppendRemediation k id r s). rewrite Hinc in Hw.
    eapply wrote_exactly; [exact Hw|done..|]. rewrite Hkeep. by same_parts Hs.
  - destruct Hop as [? Hkeep]. pose proof (SavePublisherSnapshot_law k sn s Hinv) as Hw.
    destruct (SavePublisherSnapshot k sn s). destruct Hw as [id Hw].
    eapply wrote_exactly; [exact Hw|done..|]. rewrite Hkeep. by apply push_same.
  - pose proof (lawful_anomaly k a s v Hinv Hk Hs Hop) as Hw. by destruct (SaveAnomaly k a s).
Qed.

Lemma lawful_run ops (s : St) v : store_inv s → Forall (λ c, answered c.1) ops → same_state (view s) v →
  faithful_script ops v →
  let '(s', errs) := do_writes ops s in
  store_inv s' ∧ same_state (view s') (foldl (λ v c, apply_write c.1 c.2 v) v ops) ∧ errs = (λ _, None) <$> ops.
Proof.
  intros Hinv Hans. revert s v Hinv. induction Hans as [|[k op] ops Hk _ IH]; intros s v Hinv Hs Hops; [done|].
  cbn [do_writes faithful_script] in *. destruct Hops as [Hop Hops].
  pose proof (lawful_write k op s v Hinv Hk Hs Hop) as Hw. destruct (do_write k op s) as [s1 err].
  destruct Hw as (Hinv1 & Hv & ->). specialize (IH s1 _ Hinv1 Hv Hops).
  destruct (do_writes ops s1) as [s2 errs]. destruct IH as (? & ? & ->). done.
Qed.
End lawful.

(** The abstract run keeps what the reads rely on. *)
Lemma apply_write_state `{Keeping} k op v : faithful k v op → script_state v → script_state (apply_write k op v).
Proof.
  intros Hop [Hb Ha]. destruct op as [c|b|i|i|id r|p|p|sn|a]; try done; cbn [apply_write]; try (by split).
  - split; [|done]. destruct Hop as (_ & _ & Hwf). intros id b'. cbn [put_sbom v_sboms].
    rewrite lookup_insert_Some. intros [[_ <-]|[_ Hb']]; [done|by apply (Hb id)].
  - unfold save_anomaly. case_decide as Hkey; [by split|]. split; [done|]. cbn [put_anomaly v_anomalies].
    rewrite values_insert by (apply not_elem_of_dom, is_fresh). rewrite fmap_cons. by apply NoDup_cons.
Qed.

Lemma script_keeps_state `{Keeping} ops v : faithful_script ops v → script_state v →
  script_state (foldl (λ v c, apply_write c.1 c.2 v) v ops).
Proof.
  revert v. induction ops as [|[k op] ops IH]; intros v; [done|]. intros [Hop Hops] Hv.
  by apply IH, apply_write_state.
Qed.
(** ** What reads show *)

Definition same_answer {A} (r1 r2 : result A) : Prop :=
  match r1, r2 with
  | Ok a, Ok b => a = b
  | Err e1, Err e2 => errors_Is e1 ErrNotFound = true ∧ errors_Is e2 ErrNotFound = true
  | _, _ => False
  end.

(** The same records, as far as [g] shows them, in any order. *)
Definition same_up_to {A B} (g : A → B) (r1 r2 : result (list A)) : Prop :=
  match r1, r2 with Ok l1, Ok l2 => g <$> l1 ≡ₚ g <$> l2 | _, _ => False end.

Definition same_records {A} : result (list A) → result (list A) → Prop := same_up_to id.

(** Listings with a limit: neither fails, and when the first does not reach
    the limit the records are the same. *)
Definition same_below {A B} (g : A → B) (limit : Z) (r1 r2 : result (list A)) : Prop :=
  match r1, r2 with
  | Ok l1, Ok l2 => (Z.of_nat (length l1) < limit)%Z → g <$> l1 ≡ₚ g <$> l2
  | _, _ => False
  end.

Lemma Looks_same {A} (a1 a2 : Prop) (r1 r2 : result A) found1 found2 :
  Looks a1 r1 found1 → Looks a2 r2 found2 → found1 = found2 → a1 → a2 → same_answer r1 r2.
Proof.
  intros H1 H2 -> Ha1 Ha2. destruct r1 as [x|e1], r2 as [y|e2]; simpl in *; [congruence|naive_solver..].
Qed.

Lemma Returns_same {A B} (g : A → B) (a1 a2 : Prop) (r1 r2 : result (list A)) (P1 P2 : list A → Prop) full1 full2 :
  Returns a1 r1 P1 → Returns a2 r2 P2 → a1 → a2 →
  (∀ l, P1 l → l ≡ₚ full1) → (∀ l, P2 l → l ≡ₚ full2) → g <$> full1 ≡ₚ g <$> full2 → same_up_to g r1 r2.
Proof.
  intros H1 H2 Ha1 Ha2 Hp1 Hp2 Hp. destruct r1 as [x|e1], r2 as [y|e2]; simpl in *; [|by destruct H2 || by destruct H1..].
  by rewrite (Hp1 x), (Hp2 y).
Qed.

(** A listing that stays below its limit is all there is. *)
Lemma limited_below `{Keeping} {A} (limit : Z) (full : list A) :
  (Z.of_nat (length (limited limit full)) < limit)%Z → limited limit full = full.
Proof.
  unfold limited. case_bool_decide as Hlim; [|intros ?; lia]. rewrite length_take. intros Hl.
  apply take_ge. lia.
Qed.

Lemma limited_short `{Keeping} {A} (limit : Z) (full : list A) :
  (Z.of_nat (length full) < limit)%Z → limited limit full = full.
Proof. intros Hl. apply limited_below. unfold limited. case_bool_decide; [rewrite length_take|]; lia. Qed.

Lemma below_same {A B} {K1 K2 : Keeping} (g : A → B) limit (full1 full2 : list A) :
  g <$> full1 ≡ₚ g <$> full2 →
  same_below g limit (Ok (limited (H := K1) limit full1)) (Ok (limited (H := K2) limit full2)).
Proof.
  intros Hp Hl. rewrite (limited_below (H := K1)) in Hl |- * by done.
  rewrite (limited_short (H := K2)); [done|]. apply Permutation_length in Hp. rewrite !length_fmap in Hp. lia.
Qed.

Lemma submseteq_NoDup {A} (l k : list A) : l ⊆+ k → NoDup k → NoDup l.
Proof. intros [k' ->]%submseteq_Permutation. by intros [? _]%NoDup_app. Qed.

(** Two listings of the records that match, as far as [g] shows them. *)
Lemma matching_same {A B} (g : A → B) (P1 P2 : A → Prop) (recs1 recs2 full1 full2 : list A) :
  (∀ x y, x ∈ recs1 → y ∈ recs2 → g x = g y → P1 x ↔ P2 y) →
  NoDup (g <$> recs1) → g <$> recs1 ≡ₚ g <$> recs2 →
  (∀ x, x ∈ full1 ↔ x ∈ recs1 ∧ P1 x) → full1 ⊆+ recs1 →
  (∀ x, x ∈ full2 ↔ x ∈ recs2 ∧ P2 x) → full2 ⊆+ recs2 →
  g <$> full1 ≡ₚ g <$> full2.
Proof.
  intros HP Hnd Hrecs H1 S1 H2 S2. apply NoDup_Permutation.
  - eapply submseteq_NoDup; [by apply (fmap_submseteq g)|done].
  - eapply submseteq_NoDup; [by apply (fmap_submseteq g)|]. by rewrite <- Hrecs.
  - intros y. split; intros (x & -> & Hx)%list_elem_of_fmap.
    + apply H1 in Hx as [Hx Px]. assert (g x ∈ g <$> recs2) as (x' & Heq & Hx')%list_elem_of_fmap.
      { rewrite <- Hrecs. by apply list_elem_of_fmap_2. }
      rewrite Heq. apply list_elem_of_fmap_2, H2. split; [done|]. by apply (HP x x').
    + apply H2 in Hx as [Hx Px]. assert (g x ∈ g <$> recs1) as (x' & Heq & Hx')%list_elem_of_fmap.
      { rewrite Hrecs. by apply list_elem_of_fmap_2. }
      rewrite Heq. apply list_elem_of_fmap_2, H1. split; [done|]. by apply (HP x' x).
Qed.

(** A listing of incidents may leave out the audit logs. *)
Definition without_log (i : Incident) : Incident :=
  MkIncident (Incident_ID i) (Incident_IoCID i) (Incident_State i) (Incident_OpenedAt i)
    (Incident_LastTransitionedAt i) (Incident_AffectedComponentsSnapshot i) [].

(** What two backends answer: every lookup and listing but those of the
    publisher tables and of an anomaly by its number. [ok] are the texts and
    [exact] the instants that may be asked for. *)
Record answer_alike {S1 S2} `{Storage S1, Storage S2} (ok : string → Prop) (exact_time : Time → Prop)
    (k : Call) (name : string) (s1 : S1) (s2 : S2) : Prop := {
  alike_GetComponent : same_answer (GetComponent k name s1) (GetComponent k name s2);
  alike_GetSBOM : same_answer (GetSBOM k name s1) (GetSBOM k name s2);
  alike_GetIoC : same_answer (GetIoC k name s1) (GetIoC k name s2);
  alike_GetIncident : same_answer (GetIncident k name s1) (GetIncident k name s2);
  alike_ListRemediations : same_answer (ListRemediations k name s1) (ListRemediations k name s2);
  alike_ListComponents : same_records (ListComponents k s1) (ListComponents k s2);
  alike_ListSBOMs : same_records (ListSBOMsByComponent k name s1) (ListSBOMsByComponent k name s2);
  alike_ListSBOMPackages eco : ok eco →
    same_records (ListSBOMPackages k eco name s1) (ListSBOMPackages k eco name s2);
  alike_ListIoCs : same_records (ListIoCs k s1) (ListIoCs k s2);
  alike_ListIncidents : same_up_to without_log (ListIncidents k s1) (ListIncidents k s2);
  alike_ListIncidentsFiltered f : Forall ok (IncidentFilter_States f) →
    (∀ t, IncidentFilter_From f = Some t ∨ IncidentFilter_To f = Some t → exact_time t) →
    same_below without_log (IncidentFilter_Limit f) (ListIncidentsFiltered k f s1) (ListIncidentsFiltered k f s2);
  alike_Matched : same_records (MatchedComponentRefsByIoC k name s1) (MatchedComponentRefsByIoC k name s2);
  alike_GetPublisherHistory limit :
    same_below unnumbered_snapshot limit (GetPublisherHistory k name limit s1) (GetPublisherHistory k name limit s2);
  alike_ListPackagesNeedingRefresh olderThan limit : exact_time olderThan →
    same_below id limit (ListPackagesNeedingRefresh k olderThan limit s1)
      (ListPackagesNeedingRefresh k olderThan limit s2);
  alike_ListAnomalies f : ok (AnomalyFilter_PackageRef f) → ok (AnomalyFilter_Kind f) →
    (∀ t, AnomalyFilter_From f = Some t ∨ AnomalyFilter_To f = Some t → exact_time t) →
    same_below unnumbered (AnomalyFilter_Limit f) (ListAnomalies k f s1) (ListAnomalies k f s2);
}.

Lemma incident_filter_kept {K : Keeping} f :
  (∀ t, IncidentFilter_From f = Some t ∨ IncidentFilter_To f = Some t → keep_time t = t) →
  keep_incident_filter f = f.
Proof.
  destruct f as [sts ecos [from|] [to|] search owner limit]; intros Ht; unfold keep_incident_filter; simpl in *;
    rewrite ?(Ht from), ?(Ht to) by auto; done.
Qed.

Lemma anomaly_filter_kept {K : Keeping} f :
  (∀ t, AnomalyFilter_From f = Some t ∨ AnomalyFilter_To f = Some t → keep_time t = t) →
  keep_anomaly_filter f = f.
Proof.
  destruct f as [ref kind [from|] [to|] limit]; intros Ht; unfold keep_anomaly_filter; simpl in *;
    rewrite ?(Ht from), ?(Ht to) by auto; done.
Qed.

Lemma matches_without_log `{UnicodeCase} v1 v2 f i j :
  v_iocs v1 = v_iocs v2 → v_components v1 = v_components v2 → without_log i = without_log j →
  incident_matches v1 f i → incident_matches v2 f j.
Proof.
  intros Hi Hc Hij. destruct i as [id ioc st op tr snap log], j. unfold without_log in Hij. simpl in Hij.
  injection Hij as <- <- <- <- <- <-. intros [? ? ? ? ? ?]. split; simpl in *; try done; by rewrite <- ?Hi, <- ?Hc.
Qed.

Lemma anomaly_matches_unnumbered f a b : unnumbered a = unnumbered b → anomaly_matches f a → anomaly_matches f b.
Proof.
  destruct a, b. unfold unnumbered, with_id. simpl. intros Heq. injection Heq as <- <- <- <- <- <-.
  intros [? ? ? ?]. by split.
Qed.

(** Incidents are told apart by their ids, also without their logs. *)
Lemma incidents_NoDup v (g : Incident → Incident) : view_wf v → (∀ i, Incident_ID (g i) = Incident_ID i) →
  NoDup (g <$> values (v_incidents v)).
Proof.
  intros Hwf Hg. apply (NoDup_fmap_1 Incident_ID). unfold values.
  assert (Incident_ID <$> (g <$> (map_to_list (v_incidents v)).*2) = (map_to_list (v_incidents v)).*1) as ->.
  { rewrite <- !list_fmap_compose. apply list_fmap_ext. intros n [id i] Hn. simpl. rewrite Hg.
    apply list_elem_of_lookup_2, elem_of_map_to_list in Hn. by apply (wf_incidents v Hwf). }
  apply NoDup_fst_map_to_list.
Qed.

Section alike.
Context {S1 S2 : Type} `{UnicodeCase, !Storage S1, !Storage S2, L1 : !StorageLaws S1, L2 : !StorageLaws S2}.

Lemma listed_without_log `{Keeping} (l : list Incident) : without_log <$> (listed_incident <$> l) = without_log <$> l.
Proof. rewrite <- list_fmap_compose. by apply list_fmap_ext. Qed.

Lemma same_ListIncidents (s1 : S1) (s2 : S2) k :
  v_incidents (view s1) = v_incidents (view s2) → store_inv s1 → store_inv s2 →
  answered (StorageLaws := L1) k → answered (StorageLaws := L2) k →
  same_up_to without_log (ListIncidents k s1) (ListIncidents k s2).
Proof.
  intros Hv I1 I2 K1 K2. eapply Returns_same; [by apply ListIncidents_law|by apply ListIncidents_law|done|done|
    by intros l [? _]|by intros l [? _]|]. by rewrite !listed_without_log, Hv.
Qed.

Lemma same_ListIncidentsFiltered (s1 : S1) (s2 : S2) k f :
  same_state (view s1) (view s2) → store_inv s1 → store_inv s2 →
  answered (StorageLaws := L1) k → answered (StorageLaws := L2) k →
  Forall (accepts_text (Keeping := store_keeping (StorageLaws := L1))) (IncidentFilter_States f) →
  Forall (accepts_text (Keeping := store_keeping (StorageLaws := L2))) (IncidentFilter_States f) →
  keep_incident_filter (H := store_keeping (StorageLaws := L1)) f = f →
  keep_incident_filter (H := store_keeping (StorageLaws := L2)) f = f →
  same_below without_log (IncidentFilter_Limit f) (ListIncidentsFiltered k f s1) (ListIncidentsFiltered k f s2).
Proof.
  intros Hs I1 I2 K1 K2 A1 A2 F1 F2.
  destruct (ListIncidentsFiltered_law k f s1 I1 A1 K1) as (l1 & -> & full1 & H1 & Sub1 & _ & ->).
  destruct (ListIncidentsFiltered_law k f s2 I2 A2 K2) as (l2 & -> & full2 & H2 & Sub2 & _ & ->).
  rewrite F1 in H1. rewrite F2 in H2. apply below_same.
  eapply matching_same; [| | |exact H1|exact Sub1|exact H2|exact Sub2].
  - intros x y _ _ Hxy. split; apply matches_without_log; by destruct Hs.
  - rewrite listed_without_log. apply incidents_NoDup; [by apply store_inv_wf|done].
  - by rewrite !listed_without_log, (ss_incidents _ _ Hs).
Qed.

Lemma same_Matched (s1 : S1) (s2 : S2) k name :
  v_incidents (view s1) = v_incidents (view s2) → store_inv s1 → store_inv s2 →
  answered (StorageLaws := L1) k → answered (StorageLaws := L2) k →
  accepts_text (Keeping := store_keeping (StorageLaws := L1)) name →
  accepts_text (Keeping := store_keeping (StorageLaws := L2)) name →
  same_records (MatchedComponentRefsByIoC k name s1) (MatchedComponentRefsByIoC k name s2).
Proof.
  intros Hv I1 I2 K1 K2 A1 A2. unfold same_records.
  pose proof (MatchedComponentRefsByIoC_law k name s1 I1) as H1. pose proof (MatchedComponentRefsByIoC_law k name s2 I2) as H2.
  destruct (MatchedComponentRefsByIoC k name s1) as [l1|e1], (MatchedComponentRefsByIoC k name s2) as [l2|e2];
    simpl in *; [|tauto..].
  destruct H1 as (N1 & _ & E1), H2 as (N2 & _ & E2). rewrite !list_fmap_id. apply NoDup_Permutation; [done..|].
  intros ref. by rewrite E1, E2, Hv.
Qed.

Lemma same_GetPublisherHistory (s1 : S1) (s2 : S2) k name limit :
  same_state (view s1) (view s2) → store_inv s1 → store_inv s2 →
  answered (StorageLaws := L1) k → answered (StorageLaws := L2) k →
  accepts_text (Keeping := store_keeping (StorageLaws := L1)) name →
  accepts_text (Keeping := store_keeping (StorageLaws := L2)) name →
  same_below unnumbered_snapshot limit (GetPublisherHistory k name limit s1) (GetPublisherHistory k name limit s2).
Proof.
  intros Hs I1 I2 K1 K2 A1 A2.
  pose proof (GetPublisherHistory_law k name limit s1 I1) as H1.
  pose proof (GetPublisherHistory_law k name limit s2 I2) as H2.
  destruct (GetPublisherHistory k name limit s1) as [l1|e1], (GetPublisherHistory k name limit s2) as [l2|e2];
    cbn [Returns] in *; [|exfalso; tauto..].
  destruct H1 as (full1 & P1 & _ & ->), H2 as (full2 & P2 & _ & ->). apply below_same. rewrite P1, P2.
  pose proof (ss_history _ _ Hs name) as Hh. unfold history_at in Hh. by rewrite Hh.
Qed.

Lemma newest_unnumbered h1 h2 t : unnumbered_snapshot <$> h1 = unnumbered_snapshot <$> h2 →
  newest_snapshot h1 t → newest_snapshot h2 t.
Proof.
  intros Hh. assert (PublisherSnapshot_SnapshotAt <$> h1 = PublisherSnapshot_SnapshotAt <$> h2) as Ht.
  { apply (f_equal (fmap PublisherSnapshot_SnapshotAt)) in Hh. by rewrite <- !list_fmap_compose in Hh. }
  assert (∀ u, (∃ sn, sn ∈ h1 ∧ PublisherSnapshot_SnapshotAt sn = u) ↔
               (∃ sn, sn ∈ h2 ∧ PublisherSnapshot_SnapshotAt sn = u)) as Hu.
  { intros u. transitivity (u ∈ PublisherSnapshot_SnapshotAt <$> h1); [|rewrite Ht];
      rewrite list_elem_of_fmap; naive_solver. }
  intros [Hin Hmax]. split; [by apply Hu|]. intros sn Hsn.
  destruct (proj2 (Hu (PublisherSnapshot_SnapshotAt sn))) as (sn' & Hsn' & <-); [by eauto|]. by apply Hmax.
Qed.

Lemma history_newest v h ref t : v_history v !! ref = Some h ∧ newest_snapshot h t → newest_snapshot (history_at v ref) t.
Proof. unfold history_at. by intros [-> ?]. Qed.

Lemma newest_history v ref t : newest_snapshot (history_at v ref) t → ∃ h, v_history v !! ref = Some h ∧ newest_snapshot h t.
Proof.
  unfold history_at. destruct (v_history v !! ref) as [h|]; [by eauto|].
  intros [(sn & Hsn%not_elem_of_nil & _) _]. done.
Qed.

Lemma stale_rows v1 v2 olderThan (full1 full2 : list (string * Time)) : same_state v1 v2 →
  NoDup full1.*1 → NoDup full2.*1 →
  (∀ ref t, (ref, t) ∈ full1 ↔ ∃ h, v_history v1 !! ref = Some h ∧ newest_snapshot h t ∧ (t < olderThan)%Z) →
  (∀ ref t, (ref, t) ∈ full2 ↔ ∃ h, v_history v2 !! ref = Some h ∧ newest_snapshot h t ∧ (t < olderThan)%Z) →
  full1 ≡ₚ full2.
Proof.
  intros Hs N1 N2 H1 H2. apply NoDup_Permutation; [by apply (NoDup_fmap_1 fst)..|]. intros [ref t].
  assert (∀ u u', same_state u u' → (∃ h, v_history u !! ref = Some h ∧ newest_snapshot h t ∧ (t < olderThan)%Z) →
    ∃ h, v_history u' !! ref = Some h ∧ newest_snapshot h t ∧ (t < olderThan)%Z) as Hgo.
  { intros u u' Hu (h & Hh & Hn & Ht). destruct (newest_history u' ref t) as (h' & ? & ?); [|by eauto].
    eapply newest_unnumbered; [apply (ss_history _ _ Hu)|]. by apply (history_newest _ h). }
  rewrite H1, H2. split; apply Hgo; [done|by apply same_state_sym].
Qed.

Lemma same_ListPackagesNeedingRefresh (s1 : S1) (s2 : S2) k olderThan limit :
  same_state (view s1) (view s2) → store_inv s1 → store_inv s2 →
  answered (StorageLaws := L1) k → answered (StorageLaws := L2) k →
  keep_time (Keeping := store_keeping (StorageLaws := L1)) olderThan = olderThan →
  keep_time (Keeping := store_keeping (StorageLaws := L2)) olderThan = olderThan →
  same_below id limit (ListPackagesNeedingRefresh k olderThan limit s1) (ListPackagesNeedingRefresh k olderThan limit s2).
Proof.
  intros Hs I1 I2 K1 K2 T1 T2.
  pose proof (ListPackagesNeedingRefresh_law k olderThan limit s1 I1) as H1.
  pose proof (ListPackagesNeedingRefresh_law k olderThan limit s2 I2) as H2.
  destruct (ListPackagesNeedingRefresh k olderThan limit s1) as [l1|e1],
    (ListPackagesNeedingRefresh k olderThan limit s2) as [l2|e2]; cbn [Returns] in *; [|exfalso; tauto..].
  rewrite T1 in H1. rewrite T2 in H2.
  destruct H1 as (full1 & N1 & E1 & _ & ->), H2 as (full2 & N2 & E2 & _ & ->). apply below_same.
  rewrite !list_fmap_id. by rewrite (stale_rows _ _ _ _ _ Hs N1 N2 E1 E2).
Qed.

Lemma same_ListAnomalies (s1 : S1) (s2 : S2) k f :
  same_state (view s1) (view s2) → script_state (view s1) → store_inv s1 → store_inv s2 →
  answered (StorageLaws := L1) k ∧ accepts_text (Keeping := store_keeping (StorageLaws := L1)) (AnomalyFilter_PackageRef f)
    ∧ accepts_text (Keeping := store_keeping (StorageLaws := L1)) (AnomalyFilter_Kind f) →
  answered (StorageLaws := L2) k ∧ accepts_text (Keeping := store_keeping (StorageLaws := L2)) (AnomalyFilter_PackageRef f)
    ∧ accepts_text (Keeping := store_keeping (StorageLaws := L2)) (AnomalyFilter_Kind f) →
  keep_anomaly_filter (H := store_keeping (StorageLaws := L1)) f = f →
  keep_anomaly_filter (H := store_keeping (StorageLaws := L2)) f = f →
  same_below unnumbered (AnomalyFilter_Limit f) (ListAnomalies k f s1) (ListAnomalies k f s2).
Proof.
  intros Hs Hsc I1 I2 K1 K2 F1 F2.
  pose proof (ListAnomalies_law k f s1 I1) as H1. pose proof (ListAnomalies_law k f s2 I2) as H2.
  destruct (ListAnomalies k f s1) as [l1|e1], (ListAnomalies k f s2) as [l2|e2]; cbn [Returns] in *; [|exfalso; tauto..].
  rewrite F1 in H1. rewrite F2 in H2.
  destruct H1 as (full1 & E1 & Sub1 & _ & ->), H2 as (full2 & E2 & Sub2 & _ & ->). apply below_same.
  eapply matching_same; [| | |exact E1|exact Sub1|exact E2|exact Sub2].
  - intros x y _ _ Hxy. split; by apply anomaly_matches_unnumbered.
  - apply (NoDup_fmap_1 anomaly_key). rewrite unnumbered_keys. by apply sc_anomalies.
  - by apply ss_anomalies.
Qed.

Lemma same_state_alike (ok : string → Prop) (exact_time : Time → Prop) (s1 : S1) (s2 : S2) k name :
  same_state (view s1) (view s2) → script_state (view s1) → store_inv s1 → store_inv s2 →
  answered (StorageLaws := L1) k → answered (StorageLaws := L2) k →
  (∀ s, ok s → accepts_text (Keeping := store_keeping (StorageLaws := L1)) s
             ∧ accepts_text (Keeping := store_keeping (StorageLaws := L2)) s) →
  (∀ t, exact_time t → keep_time (Keeping := store_keeping (StorageLaws := L1)) t = t
                     ∧ keep_time (Keeping := store_keeping (StorageLaws := L2)) t = t) →
  ok name → answer_alike ok exact_time k name s1 s2.
Proof.
  intros Hs Hsc I1 I2 K1 K2 Hok Hexact Hname. destruct (Hok name Hname) as [A1 A2].
  assert (sboms_wf (view s2)) as Hb2. { intros id b. rewrite <- (ss_sboms _ _ Hs). by apply (sc_sboms _ Hsc). }
  split.
  - eapply Looks_same; [by apply GetComponent_law|by apply GetComponent_law|by rewrite (ss_components _ _ Hs)|done|done].
  - eapply Looks_same; [by apply GetSBOM_law|by apply GetSBOM_law|by rewrite (ss_sboms _ _ Hs)|done|done].
  - eapply Looks_same; [by apply GetIoC_law|by apply GetIoC_law|by rewrite (ss_iocs _ _ Hs)|done|done].
  - eapply Looks_same; [by apply GetIncident_law|by apply GetIncident_law|by rewrite (ss_incidents _ _ Hs)|done|done].
  - eapply Looks_same; [by apply ListRemediations_law|by apply ListRemediations_law|by rewrite (ss_incidents _ _ Hs)|done|done].
  - eapply Returns_same; [by apply ListComponents_law|by apply ListComponents_law|done|done|by intros l [? _]|by intros l [? _]|].
    by rewrite (ss_components _ _ Hs).
  - eapply Returns_same; [by apply ListSBOMsByComponent_law|by apply ListSBOMsByComponent_law|done|done|by intros l [? _]|by intros l [? _]|].
    by rewrite (ss_sboms _ _ Hs).
  - intros eco [E1 E2]%Hok. eapply Returns_same; [apply ListSBOMPackages_law; [done|by apply sc_sboms]|
      by apply ListSBOMPackages_law|done|done|intros l Hl; exact Hl|intros l Hl; exact Hl|].
    by rewrite (ss_sboms _ _ Hs).
  - eapply Returns_same; [by apply ListIoCs_law|by apply ListIoCs_law|done|done|by intros l [? _]|by intros l [? _]|].
    by rewrite (ss_iocs _ _ Hs).
  - apply same_ListIncidents; [by destruct Hs|done..].
  - intros f Hsts Ht. apply same_ListIncidentsFiltered; try done.
    + eapply Forall_impl; [exact Hsts|]. by intros ? [? _]%Hok.
    + eapply Forall_impl; [exact Hsts|]. by intros ? [_ ?]%Hok.
    + apply incident_filter_kept. by intros t [? _]%Ht%Hexact.
    + apply incident_filter_kept. by intros t [_ ?]%Ht%Hexact.
  - apply same_Matched; try done. by destruct Hs.
  - intros limit. by apply same_GetPublisherHistory.
  - intros olderThan limit [? ?]%Hexact. by apply same_ListPackagesNeedingRefresh.
  - intros f [? ?]%Hok [? ?]%Hok Ht. apply same_ListAnomalies; try done.
    + apply anomaly_filter_kept. by intros t [? _]%Ht%Hexact.
    + apply anomaly_filter_kept. by intros t [_ ?]%Ht%Hexact.
Qed.
End alike.
