(* ===== verification/PgPublishers.v ===== *)
(** * The publisher tables of the Postgres backend

    Publishers and their profiles, which no handler and no tick writes: a
    profile is stored with its publisher by two statements that are not one
    transaction. When both succeed the profile is read back, in
    microseconds; when the second is refused, the first stays. *)

From S2P Require Import Prelude GoStrings GoText Json JsonEncode Domain GoJson Storage MemoryStore Engine Samples PgColumns PgDecode Postgres PgLogic PgView PgReads PgSamples.
From stdpp Require Import options.
Unset Default Proof Using.

Definition keep_publisher (p : Publisher) : Publisher :=
  MkPublisher (Publisher_Ecosystem p) (Publisher_Name p) (pg_time (Publisher_FirstSeen p))
    (pg_time (Publisher_LastSeen p)).

Definition keep_profile (pf : PublisherProfile) : PublisherProfile :=
  MkPublisherProfile (keep_publisher (PublisherProfile_Publisher pf)) (PublisherProfile_PackageCount pf)
    (PublisherProfile_PublishCount pf) (PublisherProfile_Last30DayPublishes pf) (PublisherProfile_UsesOIDC pf)
    (PublisherProfile_HasGitTags pf) (PublisherProfile_MaintainerEmails pf)
    (pg_time <$> PublisherProfile_LastEmailChange pf).

Definition publisher_key (p : Publisher) : string * string := (Publisher_Ecosystem p, Publisher_Name p).

Definition publisher_as_row (p : Publisher) : publisher_row :=
  MkPublisherRow (pg_time (Publisher_FirstSeen p)) (pg_time (Publisher_LastSeen p)).

Definition profile_as_row (pf : PublisherProfile) : profile_row :=
  MkProfileRow (PublisherProfile_PackageCount pf) (PublisherProfile_PublishCount pf)
    (PublisherProfile_Last30DayPublishes pf) (PublisherProfile_UsesOIDC pf) (PublisherProfile_HasGitTags pf)
    (PublisherProfile_MaintainerEmails pf) ((λ t, pg_time (UTC t)) <$> PublisherProfile_LastEmailChange pf).

Section publishers.
Context `{FloatText, !Jsonb, !Collation, !Refusals, !UnicodeCase}.

(** What the two statements can be refused for. *)
Definition publisher_ok (p : Publisher) : bool := text_ok (Publisher_Ecosystem p) && text_ok (Publisher_Name p).

Definition counts_ok (pf : PublisherProfile) : bool :=
  int4_ok (PublisherProfile_PackageCount pf) && int4_ok (PublisherProfile_PublishCount pf)
  && int4_ok (PublisherProfile_Last30DayPublishes pf)
  && forallb text_ok (PublisherProfile_MaintainerEmails pf).

(** ** Statements that are answered *)

Lemma exec_answered h ps (eff : GoRuntime → Db → db_error + () * Db) k n d d' :
  pg_answered k → params_ok ps = true → (∀ rt, eff rt d = inr ((), d')) →
  ∃ n', or_else h (Exec (with_params ps eff)) k n d = (Ok (), n', d').
Proof.
  intros Hk Hps Heff. destruct (exec_cases h ps eff k n d) as (r & n' & d2 & -> & Hc). exists n'.
  destruct Hc as [(rt & _ & He & Hr)|(-> & _ & Hr)].
  - rewrite Heff in He. injection He as <-. by rewrite Hr.
  - destruct (Hr Hk) as [?|(rt & e & He)]; [congruence|]. by rewrite Heff in He.
Qed.

Lemma exec_refused h ps (eff : GoRuntime → Db → db_error + () * Db) k n d :
  params_ok ps = false → ∃ e n', or_else h (Exec (with_params ps eff)) k n d = (Err e, n', d).
Proof.
  intros Hps. destruct (exec_cases h ps eff k n d) as (r & n' & d2 & -> & Hc).
  destruct Hc as [(rt & ? & _)|(-> & [e ->] & _)]; [congruence|]. eauto.
Qed.

Lemma row_answered {R} ps (f : GoRuntime → Db → option R) k n d r :
  pg_answered k → params_ok ps = true → (∀ rt, f rt d = Some r) →
  ∃ n', QueryRow (with_params ps (select f)) k n d = (Ok r, n', d).
Proof.
  intros Hk Hps Hf. pose proof (reads_row ps f True d (λ _, Hps) k n) as Hr.
  destruct (QueryRow _ k n d) as [[[x|e] n'] d']; destruct Hr as [-> Hr]; exists n'.
  - destruct Hr as [rt Hx]. rewrite Hf in Hx. by injection Hx as <-.
  - destruct Hr as [(_ & _ & Hf')|[_ [rt Hn]]]; [tauto|]. by rewrite Hf in Hn.
Qed.

(** ** The two statements *)

Lemma UpsertPublisher_answered k n p d : pg_answered k → publisher_ok p = true →
  ∃ n', Pg_UpsertPublisher p k n d = (Ok (), n', set_publishers (<[publisher_key p := publisher_as_row p]>) d).
Proof.
  intros Hk [He Hn]%andb_true_iff. apply exec_answered; [done| |done]. unfold params_ok. simpl. by rewrite He, Hn.
Qed.

Definition profile_params (pf : PublisherProfile) : list param :=
  let p := PublisherProfile_Publisher pf in
  [PText (Publisher_Ecosystem p); PText (Publisher_Name p); PInt4 (PublisherProfile_PackageCount pf);
   PInt4 (PublisherProfile_PublishCount pf); PInt4 (PublisherProfile_Last30DayPublishes pf);
   PTexts (PublisherProfile_MaintainerEmails pf)].

Lemma profile_params_ok pf : publisher_ok (PublisherProfile_Publisher pf) = true →
  params_ok (profile_params pf) = counts_ok pf.
Proof.
  intros [He Hn]%andb_true_iff. unfold params_ok, counts_ok. simpl. rewrite He, Hn. simpl.
  by rewrite andb_true_r, !andb_assoc.
Qed.

Definition profile_effect (pf : PublisherProfile) : GoRuntime → Db → db_error + () * Db := λ _ d,
  let key := publisher_key (PublisherProfile_Publisher pf) in
  if bool_decide (key ∈ dom (t_publishers d)) then inr ((), set_profiles (<[key := profile_as_row pf]>) d)
  else inl foreign_key_error.

(** The tables with the publisher written, and with both. *)
Definition with_publisher (pf : PublisherProfile) (d : Db) : Db :=
  let p := PublisherProfile_Publisher pf in set_publishers (<[publisher_key p := publisher_as_row p]>) d.

Definition with_profile (pf : PublisherProfile) (d : Db) : Db :=
  set_profiles (<[publisher_key (PublisherProfile_Publisher pf) := profile_as_row pf]>) (with_publisher pf d).

Lemma profile_effect_written pf rt d :
  profile_effect pf rt (with_publisher pf d) = inr ((), with_profile pf d).
Proof.
  unfold profile_effect. rewrite bool_decide_eq_true_2; [done|]. simpl. rewrite dom_insert_L. set_solver.
Qed.

Lemma UpsertPublisherProfile_cases k pf d :
  pg_answered k → publisher_ok (PublisherProfile_Publisher pf) = true →
  if counts_ok pf then executing (Pg_UpsertPublisherProfile pf) k d = (with_profile pf d, None)
  else ∃ e, executing (Pg_UpsertPublisherProfile pf) k d = (with_publisher pf d, Some e).
Proof.
  intros Hk Hp. unfold executing, writing.
  destruct (UpsertPublisher_answered k 0 (PublisherProfile_Publisher pf) d Hk Hp) as [n1 Heq].
  change (Pg_UpsertPublisherProfile pf k 0 d) with
    (match Pg_UpsertPublisher (PublisherProfile_Publisher pf) k 0 d with
     | (Ok _, n', d') => or_else (wrapPgErr "UpsertPublisherProfile")
         (Exec (with_params (profile_params pf) (profile_effect pf))) k n' d'
     | (Err e, n', d') => (Err e, n', d')
     end).
  rewrite Heq. fold (with_publisher pf d). pose proof (profile_params_ok pf Hp) as Hps.
  destruct (counts_ok pf).
  - destruct (exec_answered (wrapPgErr "UpsertPublisherProfile") (profile_params pf) (profile_effect pf) k n1
      (with_publisher pf d) (with_profile pf d)) as [n2 Heq2]; [done|done| |by rewrite Heq2].
    intros rt. apply profile_effect_written.
  - destruct (exec_refused (wrapPgErr "UpsertPublisherProfile") (profile_params pf) (profile_effect pf) k n1
      (with_publisher pf d) Hps) as (e & n2 & Heq2). rewrite Heq2. by exists e.
Qed.

(** ** Reading back *)

Lemma GetPublisher_found k p r d : pg_answered k → publisher_ok p = true →
  t_publishers d !! publisher_key p = Some r →
  reading (Pg_GetPublisher (Publisher_Ecosystem p) (Publisher_Name p)) k d = Ok (scan_publisher (publisher_key p, r)).
Proof.
  intros Hk [He Hn]%andb_true_iff Hr. unfold reading, Pg_GetPublisher, or_else, mbind, Pg_bind.
  destruct (row_answered [PText (Publisher_Ecosystem p); PText (Publisher_Name p)]
    (λ _ d, pair (publisher_key p) <$> t_publishers d !! publisher_key p) k 0 d (publisher_key p, r)) as [n Hq].
  - done.
  - unfold params_ok. simpl. by rewrite He, Hn.
  - intros _. by rewrite Hr.
  - unfold publisher_key in Hq. by rewrite Hq.
Qed.

Lemma GetPublisherProfile_found k p r pp d : pg_answered k → publisher_ok p = true →
  t_publishers d !! publisher_key p = Some r → t_profiles d !! publisher_key p = Some pp →
  reading (Pg_GetPublisherProfile (Publisher_Ecosystem p) (Publisher_Name p)) k d
  = Ok (scan_profile ((publisher_key p, r), pp)).
Proof.
  intros Hk [He Hn]%andb_true_iff Hr Hpp. unfold reading, Pg_GetPublisherProfile, or_else, mbind, Pg_bind.
  destruct (row_answered [PText (Publisher_Ecosystem p); PText (Publisher_Name p)]
    (λ _ d, pp ← t_profiles d !! publisher_key p; p' ← t_publishers d !! publisher_key p;
            Some ((publisher_key p, p'), pp)) k 0 d ((publisher_key p, r), pp)) as [n Hq].
  - done.
  - unfold params_ok. simpl. by rewrite He, Hn.
  - intros _. by rewrite Hpp, Hr.
  - unfold publisher_key, mbind in Hq. by rewrite Hq.
Qed.

(** C23: a publisher profile that is written is read back: the same counts,
    flags and addresses, instants in microseconds, and the publisher with
    it, while every other publisher and profile stays. But the two
    statements are no transaction: when a count does not fit the integer
    column or an address is refused, the call fails and the publisher has
    been overwritten all the same. *)
Theorem publisher_profile_roundtrip k k' pf d :
  let p := PublisherProfile_Publisher pf in
  pg_answered k → pg_answered k' → publisher_ok p = true →
  let '(d', err) := executing (Pg_UpsertPublisherProfile pf) k d in
  reading (Pg_GetPublisher (Publisher_Ecosystem p) (Publisher_Name p)) k' d' = Ok (keep_publisher p) ∧
  (∀ key, key ≠ publisher_key p →
     t_publishers d' !! key = t_publishers d !! key ∧ t_profiles d' !! key = t_profiles d !! key) ∧
  if counts_ok pf then
    err = None ∧
    reading (Pg_GetPublisherProfile (Publisher_Ecosystem p) (Publisher_Name p)) k' d' = Ok (keep_profile pf)
  else err ≠ None ∧ t_profiles d' = t_profiles d.
Proof.
  intros p Hk Hk' Hp. pose proof (UpsertPublisherProfile_cases k pf d Hk Hp) as Hc.
  assert (t_publishers (with_publisher pf d) !! publisher_key p = Some (publisher_as_row p)) as Hrow
    by apply lookup_insert_eq.
  destruct (counts_ok pf).
  - rewrite Hc. split_and!.
    + by rewrite (GetPublisher_found k' p (publisher_as_row p)).
    + intros key Hkey. simpl. by rewrite !lookup_insert_ne by done.
    + done.
    + rewrite (GetPublisherProfile_found k' p (publisher_as_row p) (profile_as_row pf)); [|done..|apply lookup_insert_eq].
      simpl. unfold keep_profile, UTC. by rewrite option_fmap_id.
  - destruct Hc as [e ->]. split_and!; [by rewrite (GetPublisher_found k' p (publisher_as_row p))| |done|done].
    intros key Hkey. simpl. by rewrite !lookup_insert_ne by done.
Qed.
End publishers.

Definition sample_publisher : Publisher := MkPublisher "npm" "alice" 1500 2500.
Definition small_profile : PublisherProfile :=
  MkPublisherProfile sample_publisher 3 40 2 true false ["alice@example.org"] (Some 7700%Z).
Definition large_profile : PublisherProfile :=
  MkPublisherProfile sample_publisher 3 (2 ^ 31) 2 true false [] None.

Lemma publisher_profile_roundtrip_witness :
  (let '(d', err) := executing (Pg_UpsertPublisherProfile small_profile) (sample_call 0) migrated in
   err = None ∧ reading (Pg_GetPublisherProfile "npm" "alice") (sample_call 1) d' = Ok (keep_profile small_profile)) ∧
  let '(d', err) := executing (Pg_UpsertPublisherProfile large_profile) (sample_call 0) migrated in
  reading (Pg_GetPublisher "npm" "alice") (sample_call 1) d' = Ok (keep_publisher sample_publisher) ∧ err ≠ None.
Proof.
  pose proof (publisher_profile_roundtrip (sample_call 0) (sample_call 1) small_profile migrated
    (conj eq_refl (λ _, eq_refl)) (conj eq_refl (λ _, eq_refl)) eq_refl) as Hs.
  pose proof (publisher_profile_roundtrip (sample_call 0) (sample_call 1) large_profile migrated
    (conj eq_refl (λ _, eq_refl)) (conj eq_refl (λ _, eq_refl)) eq_refl) as Hl.
  split.
  - destruct (executing (Pg_UpsertPublisherProfile small_profile) _ _). apply Hs.
  - destruct (executing (Pg_UpsertPublisherProfile large_profile) _ _). split; apply Hl.
Defined.
