(* ===== verification/PgRefinement.v ===== *)
(** * The Postgres backend along a history of writes

    The nine writes of the contract. [pg_effect] is what each of them means
    on the abstract state; a history of calls, any of which may fail or lose
    its answer, is a history of effects, of writes without effect, and of two
    exceptions that have definitions of their own because no document of the
    contract grants them: [pg_rewrites], a remediation whose id is on record,
    which changes that record of an append-only log, and [pg_half], a
    publisher profile of which the publisher alone was written. *)

From S2P Require Import Prelude GoStrings GoText Json JsonEncode Domain GoJson Matcher Storage MemoryStore StoreScripts Engine Samples PgColumns PgDecode Postgres PgLogic PgView PgReads PgFilter PgWrites PostgresLaws PgSamples PgPublishers.
From stdpp Require Import options.
Unset Default Proof Using.

(** ** The effects on Postgres *)

Definition with_log (log : list Remediation) (i : Incident) : Incident :=
  MkIncident (Incident_ID i) (Incident_IoCID i) (Incident_State i) (Incident_OpenedAt i)
    (Incident_LastTransitionedAt i) (Incident_AffectedComponentsSnapshot i) log.

Definition of_incident (id : string) (r : Remediation) : Remediation :=
  MkRemediation (Remediation_ID r) id (Remediation_Kind r) (Remediation_ExecutedAt r)
    (Remediation_ActorRef r) (Remediation_Details r).

(** The record that has the id of [r] takes over its other fields. *)
Definition amend (r x : Remediation) : Remediation :=
  if decide (Remediation_ID x = Remediation_ID r)
  then MkRemediation (Remediation_ID x) (Remediation_IncidentID x) (Remediation_Kind r)
         (Remediation_ExecutedAt r) (Remediation_ActorRef r) (Remediation_Details r)
  else x.

Definition amend_remediation (r : Remediation) (v : View) : View :=
  MkView (v_components v) (v_sboms v) (v_iocs v)
    ((λ i, with_log (amend r <$> Incident_Remediations i) i) <$> v_incidents v)
    (v_publishers v) (v_profiles v) (v_history v) (v_anomalies v).

(** A publisher is stored, and every profile of it shows it. *)
Definition show_publisher (p : Publisher) (pf : PublisherProfile) : PublisherProfile :=
  MkPublisherProfile p (PublisherProfile_PackageCount pf) (PublisherProfile_PublishCount pf)
    (PublisherProfile_Last30DayPublishes pf) (PublisherProfile_UsesOIDC pf) (PublisherProfile_HasGitTags pf)
    (PublisherProfile_MaintainerEmails pf) (PublisherProfile_LastEmailChange pf).

Definition store_publisher (p : Publisher) (v : View) : View :=
  MkView (v_components v) (v_sboms v) (v_iocs v) (v_incidents v)
    (<[publisher_key p := p]> (v_publishers v))
    (alter (show_publisher p) (publisher_key p) (v_profiles v))
    (v_history v) (v_anomalies v).

Section refinement.
Context `{FloatText, !Jsonb, !JsonbLaws, !Collation, !Refusals, !UnicodeCase}.

Inductive pg_effect (k : Call) : write_op → View → View → Prop :=
  | pg_component c v : pg_effect k (WComponent c) v (put_component (keep_component c) v)
  | pg_sbom b v : pg_effect k (WSBOM b) v (put_sbom (keep_sbom b) v)
  | pg_ioc i v : pg_effect k (WIoC i) v (put_ioc (keep_ioc i) v)
  | pg_incident i v :
      pg_effect k (WIncident i) v
        (put_incident (keep_incident (with_log (stored_remediations v (Incident_ID i)) i)) v)
  | pg_append id r v :
      remediation_fresh v (Remediation_ID r) →
      pg_effect k (WRemediation id r) v (append_remediation id (keep_remediation (of_incident id r)) v)
  | pg_publisher p v : pg_effect k (WPublisher p) v (store_publisher (keep_publisher p) v)
  | pg_profile pf v :
      pg_effect k (WProfile pf) v
        (put_profile (keep_profile pf) (store_publisher (keep_publisher (PublisherProfile_Publisher pf)) v))
  | pg_snapshot sn id v : pg_effect k (WSnapshot sn) v (push_snapshot (keep_snapshot (call_now k) id sn) v)
  | pg_anomaly_known a id x v :
      v_anomalies v !! id = Some x → anomaly_key x = anomaly_key (stamped (call_now k) a) →
      pg_effect k (WAnomaly a) v v
  | pg_anomaly_new a id v :
      (∀ id' x, v_anomalies v !! id' = Some x → anomaly_key x ≠ anomaly_key (stamped (call_now k) a)) →
      v_anomalies v !! id = None →
      pg_effect k (WAnomaly a) v (put_anomaly (with_id id (stamped (call_now k) a)) v).

(** Where the backend leaves the contract: a remediation with the id of a
    record, of whichever incident, rewrites that record. *)
Inductive pg_rewrites : write_op → View → View → Prop :=
  | pg_amend id r v :
      ¬ remediation_fresh v (Remediation_ID r) →
      pg_rewrites (WRemediation id r) v (amend_remediation (keep_remediation r) v).

(** The publisher of a profile is written, the profile is not. *)
Inductive pg_half : write_op → View → View → Prop :=
  | pg_publisher_alone pf v :
      pg_half (WProfile pf) v (store_publisher (keep_publisher (PublisherProfile_Publisher pf)) v).

(** The values the server takes. *)
Definition pg_accepts (v : View) (op : write_op) : Prop :=
  match op with
  | WComponent c => accepts_component c
  | WSBOM b => accepts_sbom b
  | WIoC i => accepts_ioc i
  | WIncident i => accepts_incident i
  | WRemediation id r => is_Some (v_incidents v !! id) ∧ params_ok (remediation_params id r) = true
  | WPublisher p => publisher_ok p = true
  | WProfile pf => publisher_ok (PublisherProfile_Publisher pf) = true ∧ counts_ok pf = true
  | WSnapshot sn => accepts_snapshot sn
  | WAnomaly a => accepts_anomaly a
  end.

(** One call. It succeeds, and the value was accepted and took effect (or
    rewrote a record); or it returns an error, and then the write may have
    taken effect, in full or by half, or not, but a call that was answered
    only fails for a value that the server refuses, and leaves everything as
    it was, a half-written profile excepted. *)
Definition pg_step (k : Call) (op : write_op) (err : option error) (v v' : View) : Prop :=
  err = None ∧ pg_accepts v op ∧ (pg_effect k op v v' ∨ pg_rewrites op v v') ∨
  err ≠ None ∧ (pg_effect k op v v' ∨ pg_rewrites op v v' ∨ pg_half op v v' ∨ v' = v) ∧
    (pg_answered k → (v' = v ∨ pg_half op v v') ∧ ¬ pg_accepts v op).

Inductive pg_history : list (Call * write_op) → list (option error) → View → View → Prop :=
  | pg_history_nil v : pg_history [] [] v v
  | pg_history_cons k op ops err errs v1 v2 v3 :
      pg_step k op err v1 v2 → pg_history ops errs v2 v3 →
      pg_history ((k, op) :: ops) (err :: errs) v1 v3.

(** [Wrote] as a step. *)
Lemma wrote_step k op (acc : Prop) d d' err upd :
  Wrote (pg_inv d') (pg_answered k) acc (pg_view d) (pg_view d') err upd →
  (acc ↔ pg_accepts (pg_view d) op) →
  pg_effect k op (pg_view d) (upd (pg_view d)) ∨ pg_rewrites op (pg_view d) (upd (pg_view d)) →
  pg_inv d' ∧ pg_step k op err (pg_view d) (pg_view d').
Proof.
  intros [Hinv Hok Hacc Hv Hr] Hiff Heff. split; [done|]. destruct err as [e|].
  - right. split; [done|]. split; [destruct Hv as [-> |[_ ->]]; tauto|].
    intros Ha. split; [left; by apply Hr|]. rewrite <- Hiff. intros Hac. by specialize (Hok Ha Hac).
  - left. split; [done|]. rewrite <- Hiff. split; [by apply Hacc|]. destruct Hv as [-> |[? _]]; done.
Qed.

(** ** Amending a record *)

Lemma scan_amended new r old x :
  scan_remediation new = Ok r → scan_remediation old = Ok x →
  scan_remediation (if bool_decide (re_id old = re_id new)
    then MkRemediationRow (re_id old) (re_incident_id old) (re_kind new) (re_executed_at new)
           (re_actor_ref new) (re_details new) (re_seq old)
    else old) = Ok (amend r x).
Proof.
  intros Hr Hx. unfold amend. rewrite (bool_decide_decide (re_id old = re_id new)).
  assert (Remediation_ID r = re_id new ∧ Remediation_ID x = re_id old ∧ Remediation_IncidentID x = re_incident_id old)
    as (-> & -> & Hi).
  { unfold scan_remediation in *. destruct (unmarshalJSON _ _ (re_details new)); [|done].
    destruct (unmarshalJSON _ _ (re_details old)); [|done]. by simplify_eq/=. }
  destruct (decide _) as [Heq|Hne]; [|done]. unfold scan_remediation in *. simpl.
  destruct (unmarshalJSON _ _ (re_details new)); [|done].
  destruct (unmarshalJSON _ _ (re_details old)); [|done]. by simplify_eq/=.
Qed.

Lemma remediations_of_amended new r rows id :
  re_id new ∈ re_id <$> rows → scan_remediation new = Ok r →
  (∀ row, row ∈ rows → readable_row scan_remediation row) →
  remediations_of (upsert_remediation new rows) id = amend r <$> remediations_of rows id.
Proof.
  intros Hin Hr Hread. unfold upsert_remediation. rewrite bool_decide_eq_true_2 by done. clear Hin.
  unfold remediations_of. induction rows as [|old rows IH]; [done|].
  destruct (Hread old) as [x Hx]; [by left|]. pose proof (scan_amended new r old x Hr Hx) as Ha.
  specialize (IH (λ row Hrow, Hread row (list_elem_of_further _ _ _ Hrow))).
  rewrite fmap_cons, !filter_cons. cbv beta. destruct (bool_decide (re_id old = re_id new)); simpl;
    (case_decide; [|done]); simpl.
  - rewrite Ha, Hx. simpl. by f_equal.
  - rewrite Hx in Ha |- *. injection Ha as Ha. simpl. rewrite <- Ha. by f_equal.
Qed.

Lemma amended_view d id r : pg_inv d → params_ok (remediation_params id r) = true →
  Remediation_ID r ∈ re_id <$> t_remediations d →
  pg_view (set_remediations (upsert_remediation (remediation_as_row (remediations_seq d) id r)) d)
  = amend_remediation (keep_remediation (of_incident id r)) (pg_view d).
Proof.
  intros Hinv Hps Hin. unfold pg_view at 1, amend_remediation. f_equal. cbn [v_incidents pg_view t_incidents set_remediations].
  apply map_eq. intros id'. rewrite lookup_fmap, !map_lookup_imap. destruct (t_incidents d !! id') as [ir|]; [|done].
  simpl. f_equal. unfold incident_of, with_log. simpl. f_equal.
  apply remediations_of_amended; [done|exact (remediation_row_scan _ id r Hps)|].
  intros row Hrow. by apply (inv_remediations d Hinv).
Qed.

(** ** The calls *)

Lemma incident_step k i d : pg_inv d →
  let '(d', err) := executing (Pg_UpsertIncident i) k d in
  pg_inv d' ∧ pg_step k (WIncident i) err (pg_view d) (pg_view d').
Proof.
  intros Hinv.
  pose proof (UpsertIncident_Wrote k (with_log (stored_remediations (pg_view d) (Incident_ID i)) i) d Hinv eq_refl) as Hw.
  change (executing (Pg_UpsertIncident (with_log _ i)) k d) with (executing (Pg_UpsertIncident i) k d) in Hw.
  destruct (executing _ k d) as [d' err]. eapply wrote_step; [exact Hw|done|left; constructor].
Qed.

Lemma fresh_dec d rid : pg_inv d →
  rid ∈ re_id <$> t_remediations d ∧ ¬ remediation_fresh (pg_view d) rid ∨ remediation_fresh (pg_view d) rid.
Proof.
  intros Hinv. destruct (decide (rid ∈ re_id <$> t_remediations d)) as [Hin|Hin].
  - left. split; [done|]. intros Hf. by apply (fresh_row d rid).
  - right. intros id i r Hi Hr <-. apply Hin. cbn [v_incidents pg_view] in Hi. rewrite map_lookup_imap in Hi.
    destruct (t_incidents d !! id) as [ir|]; [|done]. injection Hi as <-. simpl in Hr.
    apply list_elem_of_omap in Hr as (row & [_ Hrow]%list_elem_of_filter & Hs).
    apply list_elem_of_fmap. exists row. split; [|done]. unfold scan_remediation in Hs.
    destruct (unmarshalJSON _ _ _); [|done]. by injection Hs as <-.
Qed.

Lemma append_step k id r d : pg_inv d →
  let '(d', err) := executing (Pg_AppendRemediation id r) k d in
  pg_inv d' ∧ pg_step k (WRemediation id r) err (pg_view d) (pg_view d').
Proof.
  intros Hinv.
  assert (is_Some (v_incidents (pg_view d) !! id) ↔ is_Some (t_incidents d !! id)) as Hid.
  { cbn [v_incidents pg_view]. rewrite map_lookup_imap. destruct (t_incidents d !! id); simpl; split; by intros []. }
  destruct (append_cases k id r d Hinv) as [(e & -> & He)|(Hir & n & ->)].
  { split; [done|]. right. split; [done|]. split; [tauto|]. intros Ha. split; [by left|].
    intros [[ir Hir]%Hid Hps]. destruct He as [(_ & _ & Hf)|[_ ?]]; [|congruence]. apply Hf. split; [done|].
    eapply params_ok_text; [exact Hps|]. unfold remediation_params. set_solver. }
  set (upd v := if decide (Remediation_ID r ∈ re_id <$> t_remediations d)
    then amend_remediation (keep_remediation (of_incident id r)) v
    else append_remediation id (keep_remediation (of_incident id r)) v).
  pose proof (exec_Wrote pg_inv pg_view (wrapPgErr "AppendRemediation") (remediation_params id r)
    (remediation_effect id r) d k n (params_ok (remediation_params id r) = true) upd Hinv) as Hw.
  destruct (or_else _ _ k n d) as [[res n'] d']. eapply wrote_step; [apply Hw; [done|]|simpl; tauto|].
  - intros Hps rt. rewrite remediation_effect_known by done. eexists. split; [done|].
    split; [by apply remediation_upsert_inv|]. unfold upd. case_decide as Hin; [by apply amended_view|].
    destruct (fresh_dec d (Remediation_ID r) Hinv) as [[? _]|Hf]; [done|].
    by apply (append_view d id (of_incident id r)).
  - unfold upd. destruct (fresh_dec d (Remediation_ID r) Hinv) as [[Hin Hf]|Hf].
    + right. rewrite decide_True by done. exact (pg_amend id r _ Hf).
    + left. rewrite decide_False by (by apply fresh_row). by apply pg_append.
Qed.

Lemma anomaly_step k a d : pg_inv d →
  let '(d', r) := writing (Pg_SaveAnomaly a) k d in
  pg_inv d' ∧ pg_step k (WAnomaly a) (result_error r) (pg_view d) (pg_view d').
Proof.
  intros Hinv. pose proof (SaveAnomaly_Wrote k a d Hinv) as Hl. simpl in Hl.
  assert (∀ n, (writing (Pg_SaveAnomaly a) k d).2 = Ok n → accepts_anomaly a) as Hacc.
  { intros n. destruct (anomaly_cases k a d) as [(id & d' & r & -> & Hps & _)|(e & -> & _)]; done. }
  destruct (writing _ k d) as [d' r]. destruct Hl as [Hinv' [(id & x & Hx & Hkey & Hv & Hr)|(Hnew & id & Hid & Hw & _)]].
  - split; [done|]. assert (pg_effect k (WAnomaly a) (pg_view d) (pg_view d')) as Heff.
    { rewrite Hv. by apply (pg_anomaly_known k a id x). }
    destruct r as [n|e]; simpl in *.
    + left. split; [done|]. split; [by apply (Hacc n)|by left].
    + right. split; [done|]. split; [by left|]. intros Ha. split; [by left|]. tauto.
  - eapply wrote_step; [exact Hw|done|left; by constructor].
Qed.

(** *** The publisher tables *)

Lemma publisher_inv p d : pg_inv d →
  pg_inv (set_publishers (<[publisher_key p := publisher_as_row p]>) d).
Proof.
  intros Hinv. inv_keep Hinv. intros key r Hr. simpl. destruct (decide (key = publisher_key p)) as [->|Hkey].
  - by rewrite lookup_insert_eq.
  - rewrite lookup_insert_ne by done. by apply (inv_profiles d Hinv key r).
Qed.

Lemma publisher_view p d : pg_inv d →
  pg_view (set_publishers (<[publisher_key p := publisher_as_row p]>) d)
  = store_publisher (keep_publisher p) (pg_view d).
Proof.
  intros Hinv. unfold store_publisher, pg_view. f_equal.
  - cbn [v_publishers t_publishers set_publishers]. by apply imap_insert.
  - cbn [v_profiles t_profiles t_publishers set_publishers]. apply map_eq. intros key.
    change (publisher_key (keep_publisher p)) with (publisher_key p). rewrite map_lookup_imap.
    destruct (decide (key = publisher_key p)) as [->|Hkey].
    + rewrite lookup_alter_eq, map_lookup_imap, lookup_insert_eq.
      destruct (t_profiles d !! publisher_key p) as [r|] eqn:Hr; [|done].
      destruct (inv_profiles d Hinv _ r Hr) as [pr Hpr]. cbn [mbind option_bind fmap option_fmap option_map].
      by rewrite Hpr.
    + by rewrite lookup_alter_ne, map_lookup_imap, lookup_insert_ne by done.
Qed.

Lemma profile_inv pf d : pg_inv d → pg_inv (with_profile pf d).
Proof.
  intros Hinv%(publisher_inv (PublisherProfile_Publisher pf)). inv_keep Hinv. intros key r. simpl.
  destruct (decide (key = publisher_key (PublisherProfile_Publisher pf))) as [->|Hkey].
  - rewrite (lookup_insert_eq (t_publishers d)). by eexists.
  - rewrite lookup_insert_ne by done. intros Hr. by apply (inv_profiles _ Hinv key r).
Qed.

Lemma profile_view pf d : pg_inv d →
  pg_view (with_profile pf d)
  = put_profile (keep_profile pf) (store_publisher (keep_publisher (PublisherProfile_Publisher pf)) (pg_view d)).
Proof.
  intros Hinv. rewrite <- publisher_view by done. fold (with_publisher pf d).
  unfold with_profile, put_profile, pg_view. f_equal.
  cbn [v_profiles t_profiles t_publishers set_profiles]. apply imap_insert.
  cbn [with_publisher t_publishers set_publishers]. rewrite lookup_insert_eq. simpl. unfold keep_profile, UTC.
  by rewrite option_fmap_id.
Qed.

Lemma publisher_params_ok p :
  params_ok [PText (Publisher_Ecosystem p); PText (Publisher_Name p)] = publisher_ok p.
Proof. unfold params_ok, publisher_ok. simpl. by rewrite andb_true_r. Qed.

Lemma publisher_wrote k n p d : pg_inv d →
  let '(r, n', d') := Pg_UpsertPublisher p k n d in
  Wrote (pg_inv d') (pg_answered k) (publisher_ok p = true) (pg_view d) (pg_view d') (result_error r)
    (store_publisher (keep_publisher p)).
Proof.
  intros Hinv. apply exec_Wrote; [done|by rewrite <- publisher_params_ok|]. intros _ rt.
  eexists. split; [done|]. split; [by apply publisher_inv|by apply publisher_view].
Qed.

Lemma publisher_step k p d : pg_inv d →
  let '(d', err) := executing (Pg_UpsertPublisher p) k d in
  pg_inv d' ∧ pg_step k (WPublisher p) err (pg_view d) (pg_view d').
Proof.
  intros Hinv. pose proof (publisher_wrote k 0 p d Hinv) as Hw. unfold executing, writing.
  destruct (Pg_UpsertPublisher p k 0 d) as [[r n'] d']. eapply wrote_step; [exact Hw|done|left; constructor].
Qed.

(** Two statements and no transaction. *)
Lemma profile_step k pf d : pg_inv d →
  let '(d', err) := executing (Pg_UpsertPublisherProfile pf) k d in
  pg_inv d' ∧ pg_step k (WProfile pf) err (pg_view d) (pg_view d').
Proof.
  intros Hinv. set (p := PublisherProfile_Publisher pf). unfold executing, writing.
  change (Pg_UpsertPublisherProfile pf k 0 d) with
    (match Pg_UpsertPublisher p k 0 d with
     | (Ok _, n', d') => or_else (wrapPgErr "UpsertPublisherProfile")
         (Exec (with_params (profile_params pf) (profile_effect pf))) k n' d'
     | (Err e, n', d') => (Err e, n', d')
     end).
  assert (pg_inv (with_publisher pf d)) as Hinv1 by by apply publisher_inv.
  assert (pg_half (WProfile pf) (pg_view d) (pg_view (with_publisher pf d))) as Hhalf.
  { unfold with_publisher. rewrite publisher_view by done. constructor. }
  destruct (exec_cases (wrapPgErr "UpsertPublisher") [PText (Publisher_Ecosystem p); PText (Publisher_Name p)]
    (update (set_publishers (<[publisher_key p := publisher_as_row p]>))) k 0 d) as (r & n1 & d1 & Heq & Hc).
  change (Pg_UpsertPublisher p k 0 d = (r, n1, d1)) in Heq. rewrite Heq. rewrite publisher_params_ok in Hc.
  destruct Hc as [(rt & Hp & [= <-] & Hk)|(-> & [e ->] & Hk)].
  - change (set_publishers _ d) with (with_publisher pf d). destruct r as [[]|e].
    + destruct (exec_cases (wrapPgErr "UpsertPublisherProfile") (profile_params pf) (profile_effect pf) k n1
        (with_publisher pf d)) as (r2 & n2 & d2 & -> & Hc). rewrite profile_params_ok in Hc by done.
      destruct Hc as [(rt2 & Hcounts & He & Hk2)|(-> & [e2 ->] & Hk2)].
      * rewrite profile_effect_written in He. injection He as <-. split; [by apply profile_inv|].
        assert (pg_effect k (WProfile pf) (pg_view d) (pg_view (with_profile pf d))) as Heff.
        { rewrite profile_view by done. constructor. }
        destruct r2 as [[]|e2]; [left; split; [done|]; split; [by split|by left]|]. right. split; [done|]. split; [by left|].
        intros Ha. by specialize (Hk2 Ha).
      * split; [done|]. right. split; [done|]. split; [tauto|]. intros Ha. split; [by right|]. intros [_ Hcounts].
        destruct (Hk2 Ha) as [?|(rt2 & e & He)]; [congruence|]. by rewrite profile_effect_written in He.
    + split; [done|]. right. split; [done|]. split; [tauto|]. intros Ha. by specialize (Hk Ha).
  - split; [done|]. right. split; [done|]. split; [tauto|]. intros Ha. split; [by left|]. intros [Hp _].
    destruct (Hk Ha) as [?|(rt & e2 & He)]; [fold p in Hp; congruence|done].
Qed.

(** Every write is a step. *)
Lemma do_write_step k op d : pg_inv d →
  let '(d', err) := do_write k op d in
  pg_inv d' ∧ pg_step k op err (pg_view d) (pg_view d').
Proof.
  intros Hinv. destruct op as [c|b|i|i|id r|p|pf|sn|a]; cbn [do_write Db_Storage
    UpsertComponent UpsertSBOM UpsertIoC UpsertIncident AppendRemediation UpsertPublisher UpsertPublisherProfile
    SavePublisherSnapshot SaveAnomaly].
  - pose proof (UpsertComponent_Wrote k c d Hinv) as Hw. destruct (executing _ k d).
    by eapply wrote_step; [exact Hw|done|left; constructor].
  - pose proof (UpsertSBOM_Wrote k b d Hinv) as Hw. destruct (executing _ k d).
    by eapply wrote_step; [exact Hw|done|left; constructor].
  - pose proof (UpsertIoC_Wrote k i d Hinv) as Hw. destruct (executing _ k d).
    by eapply wrote_step; [exact Hw|done|left; constructor].
  - by apply incident_step.
  - by apply append_step.
  - by apply publisher_step.
  - by apply profile_step.
  - pose proof (SavePublisherSnapshot_Wrote k sn d Hinv) as Hw. destruct (executing _ k d). destruct Hw as [id Hw].
    by eapply wrote_step; [exact Hw|done|left; constructor].
  - pose proof (anomaly_step k a d Hinv) as Hw. by destruct (writing _ k d).
Qed.

Lemma do_writes_history ops d : pg_inv d →
  let '(d', errs) := do_writes ops d in
  pg_inv d' ∧ pg_history ops errs (pg_view d) (pg_view d').
Proof.
  revert d. induction ops as [|[k op] ops IH]; intros d Hinv; cbn [do_writes]; [split; [done|constructor]|].
  pose proof (do_write_step k op d Hinv) as Hs. destruct (do_write k op d) as [d1 err].
  destruct Hs as [Hinv1 Hs]. specialize (IH d1 Hinv1). destruct (do_writes ops d1) as [d2 errs].
  destruct IH as [Hinv2 Hh]. split; [done|]. by econstructor.
Qed.

Lemma migrated_view : pg_view migrated = empty_view.
Proof. unfold pg_view, empty_view. simpl. by rewrite !map_imap_empty. Qed.

(** C9: any history of calls of the nine writes of the contract on the
    Postgres backend, starting from a migrated database and whatever becomes
    of the statements, is a history of steps on the abstract state. A call
    that returns no error had a value the server takes and has exactly the
    effect of [pg_effect]: the record is put as Postgres keeps it (instants
    in microseconds, documents as jsonb returns them; an incident with the
    audit log on record; a publisher shown by its profile; an anomaly on
    record left alone), with one exception that the contract, which calls
    the remediations an append-only log, does not grant: appending a
    remediation whose id is on record rewrites that record. A call that
    returns an error has such an effect, or none, or has written the
    publisher of a profile and not the profile; and when the database
    answered, the value is one the server refuses and nothing has changed,
    but for a refused profile, which may leave its publisher written. *)
Theorem postgres_refines_contract ops :
  let '(d, errs) := do_writes ops migrated in
  pg_inv d ∧ pg_history ops errs empty_view (pg_view d).
Proof. rewrite <- migrated_view. apply do_writes_history, migrated_inv. Qed.
End refinement.

(** ** A concrete history *)

(** A script with a connection that loses the answer of its first statement,
    one that fails before it, and a profile that the server refuses. *)
Definition lost_call : Call := MkCall reference_runtime None 100
  (λ _, MkDbAnswer reference_runtime (DbLost 0 (DriverError "unexpected EOF"))).
Definition failed_call : Call := MkCall reference_runtime None 100
  (λ _, MkDbAnswer reference_runtime (DbFailed (DriverError "connection refused"))).

Definition sample_incident : Incident :=
  MkIncident "INC1" "IOC1" "pending" 20500 20500 [sample_ref] [].
Definition sample_remediation : Remediation :=
  MkRemediation "REM1" "INC1" "notify" 30500 "alice" ∅.

Definition sample_script : list (Call * write_op) := [
  (sample_call 0, WComponent sample_component);
  (sample_call 1, WSBOM sample_sbom);
  (sample_call 2, WIoC sample_ioc);
  (failed_call, WIncident sample_incident);
  (sample_call 3, WIncident sample_incident);
  (lost_call, WRemediation "INC1" sample_remediation);
  (sample_call 4, WRemediation "INC1" sample_remediation);
  (sample_call 5, WRemediation "INC2" sample_remediation);
  (sample_call 6, WProfile small_profile);
  (sample_call 7, WProfile large_profile)].

Lemma sample_script_run :
  let '(d, errs) := do_writes sample_script migrated in
  take 9 errs = [None; None; None; Some (wrapPgErr "UpsertIncident" (EText "connection refused" [])); None;
          Some (wrapped "postgres: AppendRemediation exists: %w" (EText "unexpected EOF" [])); None;
          Some (ESentinel ErrNotFound); None] ∧
  match errs !! 9 with Some (Some _) => True | _ => False end ∧
  v_incidents (pg_view d) !! "INC1"
  = Some (MkIncident "INC1" "IOC1" "pending" 20000 20000 [sample_ref]
      [MkRemediation "REM1" "INC1" "notify" 30000 "alice" ∅]).
Proof. vm_compute. done. Qed.

Lemma postgres_refines_contract_witness :
  let '(d, errs) := do_writes sample_script migrated in
  pg_inv d ∧ pg_history sample_script errs empty_view (pg_view d).
Proof. apply (postgres_refines_contract sample_script). Defined.
