(* ===== verification/Backends.v ===== *)
(** * The two backends side by side

    Both backends satisfy the storage contract, so after the same script of
    values that Postgres keeps exactly (instants of whole microseconds,
    documents that jsonb returns as they were, text it accepts) they answer
    alike, whatever order of records SQL and Go leave open and whatever
    numbers they give to snapshots and anomalies. Scripts leave out what the
    backends are known to differ in: the publisher tables (PgPublishers.v)
    and the reuse of a remediation's id (PgBehaviours.v). *)

From S2P Require Import Prelude GoStrings GoText Json JsonEncode Domain GoJson Matcher Storage MemoryStore StoreScripts Engine Samples PgColumns PgDecode Postgres PgLogic PgView PgReads PgFilter PgWrites PostgresLaws PgSamples PgRefinement.
From stdpp Require Import options.
Unset Default Proof Using.

(** What Postgres takes, the in-memory store takes. *)
Lemma memory_faithful {K : Keeping} k v op : @faithful K k v op → @faithful memory_keeping k v op.
Proof.
  destruct op; simpl; try done.
  - by rewrite keep_component_id.
  - intros (_ & _ & ?). by rewrite keep_sbom_id.
  - intros (_ & _ & ?). rewrite keep_incident_id. split; [by apply Forall_forall|done].
  - intros (_ & _ & ?). by rewrite keep_remediation_id.
Qed.

Lemma memory_faithful_script {K : Keeping} ops v :
  @faithful_script K ops v → @faithful_script memory_keeping ops v.
Proof.
  revert v. induction ops as [|[k op] ops IH]; intros v; [done|]. simpl. intros [Hop Hops].
  split; [by apply (memory_faithful (K := K))|by apply IH].
Qed.

(** Both backends, each after the script. *)
Definition side_by_side `{FloatText, !Jsonb, !Collation, !Refusals, !UnicodeCase} (ops : list (Call * write_op)) :
    (Store * list (option error)) * (Db * list (option error)) :=
  (do_writes ops New, do_writes ops migrated).

Section agree.
Context `{FloatText, !Jsonb, !JsonbLaws, !Collation, !Refusals, !UnicodeCase}.

(** C10: the two backends agree after the same script of writes, each call
    answered by the database. A script writes values that Postgres accepts
    and keeps exactly: components, SBOMs whose packages share the SBOM's
    ecosystem, IoCs, incidents together with the audit log they have on
    record, remediations of an incident on record under an id not used
    before, snapshots and anomalies. (It does not write publishers or
    profiles, nor the id of a remediation again; there the backends differ,
    see [publisher_profile_roundtrip] and
    [remediation_overwrites_other_incident].) Then both have returned the
    same errors (none), and to a call that is answered, for texts that
    Postgres takes and instants it represents, they answer alike: a component, SBOM, IoC, incident or audit
    log looked up by id is the same or [ErrNotFound] from both; the listings
    of components, SBOMs, packages by name, IoCs, incidents and matched
    components have the same records; and so have filtered incidents,
    histories, packages due for refresh and filtered anomalies as long as
    the answer of the in-memory store stays below the limit that was asked
    for. Listings are compared up to their order, without the audit logs of
    listed incidents, which Postgres leaves out, and without the numbers of
    snapshots and anomalies. Not compared: the reads of the publisher
    tables, and an anomaly looked up by its number. *)
Theorem backends_agree ops k name :
  Forall (λ c, pg_answered c.1) ops → faithful_script ops empty_view →
  pg_answered k → text_ok name = true →
  let '((s, errs1), (d, errs2)) := side_by_side ops in
  errs1 = ((λ _, None) <$> ops) ∧ errs2 = errs1 ∧
  answer_alike (λ s, text_ok s = true) (λ t, pg_time t = t) k name s d.
Proof.
  intros Hans Hops Hk Hname. unfold side_by_side.
  pose proof (lawful_run (St := Store) ops New empty_view New_inv) as R1.
  pose proof (lawful_run (St := Db) ops migrated empty_view migrated_inv Hans) as R2.
  pose proof (script_keeps_state ops empty_view Hops) as Hstate.
  destruct (do_writes ops New) as [s errs1]. destruct (do_writes ops migrated) as [d errs2].
  destruct R1 as (I1 & V1 & ->).
  { eapply Forall_impl; [exact Hans|]. intros c [? _]. done. }
  { by split. }
  { by apply (memory_faithful_script (K := pg_keeping)). }
  destruct R2 as (I2 & V2 & ->); [|done|].
  { change (view migrated) with (pg_view migrated). rewrite migrated_view. by split. }
  split_and!; [done..|]. apply same_state_alike; [| |done|done|by destruct Hk|done| |by split|done].
  - eapply same_state_trans; [exact V1|]. by apply same_state_sym.
  - eapply script_state_same; [exact V1|]. apply Hstate. split; [by intros ? ?|]. constructor.
  - by split.
Qed.
End agree.

(** ** A script *)

Definition exact_sbom : SBOM :=
  MkSBOM "SBOM1" sample_ref "abc" "npm" 10000 (SBOM_Packages sample_sbom) "npm-package-lock-v3" 512.
Definition exact_ioc : IoC :=
  MkIoC "IOC1" IoCKindPackageVersion SeverityHigh "npm" "feed" 5000 "" (IoC_PackageVersion sample_ioc) None None None.
Definition exact_incident : Incident := MkIncident "INC1" "IOC1" "pending" 20000 20000 [sample_ref] [].
Definition exact_remediation : Remediation := MkRemediation "REM1" "INC1" "notify" 30000 "alice" ∅.
Definition closed_incident : Incident :=
  MkIncident "INC1" "IOC1" "closed" 20000 40000 [sample_ref] [exact_remediation].

Definition exact_snapshot : PublisherSnapshot := MkPublisherSnapshot 0 "npm:lodash" 60000
  [MkMaintainer "ana@acme.io" "ana" "ana"] "4.17.21" (Some 50000%Z) "token" None "".
Definition exact_anomaly : Anomaly :=
  MkAnomaly 0 AnomalyKindVersionJump "npm:lodash" 70000 ConfidenceHigh "major version jump" ∅.

Definition exact_script : list (Call * write_op) := [
  (sample_call 0, WComponent sample_component);
  (sample_call 1, WSBOM exact_sbom);
  (sample_call 2, WIoC exact_ioc);
  (sample_call 3, WIncident exact_incident);
  (sample_call 4, WRemediation "INC1" exact_remediation);
  (sample_call 5, WIncident closed_incident);
  (sample_call 6, WSnapshot exact_snapshot);
  (sample_call 7, WAnomaly exact_anomaly)].

Lemma sample_pg_answered n : pg_answered (sample_call n).
Proof. done. Qed.

Lemma exact_ioc_accepted : accepts_ioc exact_ioc.
Proof. eexists. split; [vm_compute; reflexivity|vm_compute; reflexivity]. Qed.

Lemma exact_sbom_accepted : accepts_sbom exact_sbom.
Proof.
  split; [vm_compute; reflexivity|]. intros [|n] p; [|done]. intros [= <-]. vm_compute. reflexivity.
Qed.

Lemma exact_sbom_wf : sbom_wf exact_sbom.
Proof. split_and!; [done|done|]. apply Forall_forall. vm_compute. repeat constructor. Qed.

Lemma exact_fresh v : values (v_incidents v) = [exact_incident] → remediation_fresh v "REM1".
Proof.
  intros Hv id i r Hi Hr. assert (i ∈ values (v_incidents v)) as Hin by (apply elem_of_values; by exists id).
  rewrite Hv in Hin. apply list_elem_of_singleton in Hin as ->. by apply not_elem_of_nil in Hr.
Qed.

Lemma exact_script_faithful : faithful_script exact_script empty_view.
Proof.
  split; [split; vm_compute; reflexivity|].
  split; [split_and!; [exact exact_sbom_accepted|vm_compute; reflexivity|exact exact_sbom_wf]|].
  split; [split; [exact exact_ioc_accepted|vm_compute; reflexivity]|].
  split; [split_and!; [by repeat constructor|vm_compute; reflexivity|done]|].
  split; [split_and!; [vm_compute; reflexivity|vm_compute; reflexivity|by eexists|done|by apply exact_fresh]|].
  split; [split_and!; [by repeat constructor|vm_compute; reflexivity|done]|].
  split; [split; [vm_compute; reflexivity|intros id; vm_compute; reflexivity]|].
  split; [split; vm_compute; reflexivity|done].
Qed.

Lemma backends_agree_witness :
  pg_answered (sample_call 8) ∧
  let '((s, errs1), (d, errs2)) := side_by_side exact_script in
  errs1 = ((λ _, None) <$> exact_script) ∧ errs2 = errs1 ∧ answer_alike (λ s, text_ok s = true) (λ t, pg_time t = t) (sample_call 8) "INC1" s d.
Proof.
  split; [apply sample_pg_answered|].
  apply (backends_agree exact_script (sample_call 8) "INC1").
  - repeat constructor; apply sample_pg_answered.
  - exact exact_script_faithful.
  - apply sample_pg_answered.
  - reflexivity.
Defined.
