(* ===== verification/PgBehaviours.v ===== *)
(** * Behaviours of the Postgres backend that the code does not intend

    Where the backend differs from the in-memory store or from what its
    callers expect, shown by theorems or by runs on a concrete database. *)

From S2P Require Import Prelude GoStrings GoText Json JsonEncode Domain GoJson Matcher Storage MemoryStore StoreScripts Engine Samples PgColumns PgDecode Postgres PgLogic PgView PgReads PgFilter PgWrites PostgresLaws PgSamples PgRefinement Backends.
From stdpp Require Import options.
Unset Default Proof Using.

Section behaviours.
Context `{FloatText, !Jsonb, !JsonbLaws, !Collation, !Refusals, !UnicodeCase}.

(** The listing shows no audit log, whatever the incidents have: the
    response of the list endpoint differs from the one of the incident. *)
Theorem postgres_listing_omits_remediations k d l :
  pg_inv d → reading Pg_ListIncidents k d = Ok l → Forall (λ i, Incident_Remediations i = []) l.
Proof.
  intros Hinv Hl. pose proof (ListIncidents_law (St := Db) k d Hinv) as Hlaw.
  change (ListIncidents k d) with (reading Pg_ListIncidents k d) in Hlaw. rewrite Hl in Hlaw. destruct Hlaw as [Hp _].
  rewrite Hp. apply Forall_fmap, Forall_forall. done.
Qed.

(** A registry document with an escaped NUL in a text is valid JSON and
    refused by the database. A snapshot that carries the document as its raw
    data is not stored, however often the package is fetched. *)
Theorem nul_document_never_stored k sn d ms name text :
  PublisherSnapshot_RawData sn = encode (JObject ms) → numbers_ok (JObject ms) = true →
  (name, JString text) ∈ ms → byte_in NUL (sanitize_string text) = true →
  (∀ k2 e2, (k2, e2) ∈ ms → sanitize_string k2 = sanitize_string name → e2 = JString text) →
  ∃ e, executing (Pg_SavePublisherSnapshot sn) k d = (d, Some e).
Proof.
  intros Hraw Hnum Hin Hnul Huniq.
  assert (jsonb (encode (JObject ms)) = None) as Hno.
  { destruct (jsonb (encode (JObject ms))) as [t|] eqn:Ht; [|done]. exfalso.
    destruct (column_reads (JObject ms) t Hnum Ht) as (v' & _ & Hr & Hz).
    destruct (reads_as_member v' ms name (JString text) Hr Hz Hin Huniq) as (e' & ->%reads_as_string & He).
    simpl in He. rewrite Hnul in He. done. }
  assert (params_ok (snapshot_params sn) = false) as Hps.
  { apply not_true_iff_false. intros Hps. assert (is_Some (jsonb (encode (JObject ms)))) as [? ?]; [|congruence].
    apply (params_ok_json _ _ Hps). unfold snapshot_params, raw_document. rewrite Hraw.
    rewrite bool_decide_eq_false_2 by done. set_solver. }
  unfold executing, writing.
  destruct (exec_cases (wrapPgErr "SavePublisherSnapshot") (snapshot_params sn)
    (λ _ d, inr ((), set_history (λ rows, rows ++ [snapshot_as_row (history_seq d) (call_now k) sn]) d)) k 0 d)
    as (r & n' & d' & Heq & Hc).
  change (Pg_SavePublisherSnapshot sn k 0 d = (r, n', d')) in Heq. rewrite Heq.
  destruct Hc as [(rt & ? & _)|(-> & [e ->] & _)]; [congruence|]. by exists e.
Qed.
End behaviours.

(** ** Runs *)

(** A remediation whose id is on record is taken for an update: the call for
    the second incident succeeds, the second incident has no log, and the
    record of the first one has changed. *)
Definition second_incident : Incident := MkIncident "INC2" "IOC1" "pending" 50000 50000 [sample_ref] [].
Definition other_remediation : Remediation := MkRemediation "REM1" "INC2" "rollback" 60000 "bob" ∅.

Theorem remediation_overwrites_other_incident :
  let '(d, errs) := do_writes [(sample_call 0, WIncident exact_incident); (sample_call 1, WIncident second_incident);
    (sample_call 2, WRemediation "INC1" exact_remediation); (sample_call 3, WRemediation "INC2" other_remediation)] migrated in
  errs = [None; None; None; None] ∧
  reading (Pg_ListRemediations "INC2") (sample_call 4) d = Ok [] ∧
  reading (Pg_ListRemediations "INC1") (sample_call 4) d
  = Ok [MkRemediation "REM1" "INC1" "rollback" 60000 "bob" ∅].
Proof. vm_compute. done. Qed.

(** A listing filtered by ecosystem whose lookup of the IoC fails answers
    with an empty list and no error. *)
Definition second_lost : Call := MkCall reference_runtime None 100 (λ n, MkDbAnswer reference_runtime
  (if bool_decide (n = 1) then DbFailed (DriverError "connection refused") else DbExecuted)).

Definition npm_filter : IncidentFilter := MkIncidentFilter [] ["npm"] None None "" "" 0.

Theorem filtered_listing_hides_errors :
  let '(d, errs) := do_writes [(sample_call 0, WIoC exact_ioc); (sample_call 1, WIncident exact_incident)] migrated in
  reading (Pg_ListIncidentsFiltered npm_filter) (sample_call 2) d = Ok [exact_incident] ∧
  reading (Pg_ListIncidentsFiltered npm_filter) second_lost d = Ok [] ∧
  ∃ e, reading (Pg_GetIoC "IOC1") (MkCall reference_runtime None 100 (λ n, call_db second_lost (n + 1))) d = Err e.
Proof. vm_compute. split_and!; [done..|by eexists]. Qed.

(** An id that is not UTF-8 is an error of the database, not a missing
    record; the in-memory store answers [ErrNotFound]. *)
Definition invalid_id : string := bytes [255]%N.

Theorem invalid_id_is_an_error :
  result_error (GetIncident (sample_call 0) invalid_id New) = Some (ESentinel ErrNotFound) ∧
  ∃ e, reading (Pg_GetIncident invalid_id) (sample_call 0) migrated = Err e ∧ errors_Is e ErrNotFound = false.
Proof. vm_compute. split; [done|]. by eexists. Qed.

(** Saving an anomaly that is on record spends a number of the sequence. *)
Definition pg_anomaly : Anomaly := MkAnomaly 0 "maintainer_drift" "npm:axios" 7000 "high" "" ∅.
Definition pg_anomaly2 : Anomaly := MkAnomaly 0 "maintainer_drift" "npm:left-pad" 7000 "high" "" ∅.

Theorem anomaly_ids_have_gaps :
  let '(d1, r1) := writing (Pg_SaveAnomaly pg_anomaly) (sample_call 0) migrated in
  let '(d2, r2) := writing (Pg_SaveAnomaly pg_anomaly) (sample_call 1) d1 in
  let '(d3, r3) := writing (Pg_SaveAnomaly pg_anomaly2) (sample_call 2) d2 in
  r1 = Ok 1%Z ∧ r2 = Ok 1%Z ∧ r3 = Ok 3%Z.
Proof. vm_compute. done. Qed.
