(* ===== verification/PostgresEngine.v ===== *)
(** * The engine on Postgres

    The whole engine (handlers, orchestrator, detectors, matching) over the
    tables of the Postgres backend. The backend satisfies the storage
    contract, so the invariant of System.v holds of every run; here it is
    stated of a freshly migrated database and read back with the backend's
    own query. *)

From S2P Require Import Prelude GoStrings GoText Json JsonEncode Domain GoJson Matcher Storage MemoryStore Wire Engine Samples Sbom SbomNpm Matching IocForward Detector MaintainerDrift OidcRegression VersionJump Orchestrator Handlers EngineInvariant System PgColumns PgDecode Postgres PgLogic PgView PgReads PgFilter PgWrites PostgresLaws PgSamples.
From stdpp Require Import options.
Unset Default Proof Using.

Definition migrated_world : World Db := MkWorld migrated [] 0.

Section engine.
Context `{FloatText, !Jsonb, !JsonbLaws, !Collation, !Refusals, !UnicodeCase}.
Context `{Env, Semver, SBOMParser, !SBOMParserLaws, ULIDTime}.

Lemma migrated_pristine : pristine migrated_world.
Proof. split_and!; [apply migrated_inv|apply map_imap_empty..]. Qed.

(** The query that lists the components of an IoC finds every incident. *)
Lemma matched_lists_incident k d ioc ref : pg_inv d → pg_answered k → text_ok ioc = true →
  incident_for (pg_view d) ioc ref →
  ∃ l, reading (Pg_MatchedComponentRefsByIoC ioc) k d = Ok l ∧ ref ∈ l.
Proof.
  intros Hinv Hk Hid (id & inc & Hinc & Hioc & Href).
  pose proof (MatchedComponentRefsByIoC_law (St := Db) k ioc d Hinv) as Hl.
  change (MatchedComponentRefsByIoC k ioc d) with (reading (Pg_MatchedComponentRefsByIoC ioc) k d) in Hl.
  destruct (reading _ k d) as [l|e]; [|by destruct Hl]. destruct Hl as (_ & _ & Hl).
  exists l. split; [done|]. apply Hl. by exists id, inc.
Qed.

(** C4: on Postgres no compromise goes undetected. After any sequence of
    requests and orchestrator ticks on a freshly migrated database that
    answers, for every stored IoC that names its ecosystem and every
    component with a stored SBOM on which the IoC fires, the backend's
    query for the components matched by the IoC returns that component. *)
Theorem postgres_detects_compromises o actions :
  ulids_ok → o_bus o = true → Forall Pure (o_detectors o) → Forall (action_storable (St := Db)) actions →
  (∀ n, pg_answered (call_at n)) →
  wp (run o actions) (λ _ w', ∀ key ioc ref k,
    v_iocs (pg_view (w_store w')) !! key = Some ioc → ioc_keyed ioc →
    affected (pg_view (w_store w')) ioc ref → pg_answered k →
    ∃ l, reading (Pg_MatchedComponentRefsByIoC (IoC_ID ioc)) k (w_store w') = Ok l ∧ ref ∈ l) migrated_world.
Proof.
  intros Hulid Hbus Hpure Hacts Hans.
  eapply wp_mono; [apply (run_ok Hulid); [done|done|done|apply pristine_ok, migrated_pristine]|].
  intros resps w' Hok key ioc ref k Hioc Hkeyed Haff Hk. pose proof (ok_store _ Hok) as Hinv.
  apply matched_lists_incident; [done|done| |exact (ok_detected _ Hok Hans key ioc ref Hioc Hkeyed Haff)].
  rewrite (wf_iocs _ (store_inv_wf _ Hinv) _ _ Hioc). exact (store_iocs_accepted _ key ioc Hinv Hioc).
Qed.
End engine.

(** ** A run *)

#[local] Existing Instance npm_parser.
#[local] Existing Instance npm_parser_laws.

#[local] Instance tick_ulids : ULIDTime := {| ulid_MustNew ms := "TICK" +:+ pretty ms |}.

#[local] Instance exact_fields : SemverFields := {|
  Major _ := 1%Z; Minor _ := 0%Z; Prerelease _ := ""; Equal u v := bool_decide (u = v); Original v := v;
|}.

Definition pg_orchestrator : Orchestrator Db :=
  MkOrchestrator true [MaintainerDrift.New; OidcRegression.New; VersionJump.New] Hour 200 50.

Lemma pg_detectors_pure : Forall Pure (o_detectors pg_orchestrator).
Proof. repeat constructor; apply Detect_pure. Qed.

Definition pg_actions : list Action := (Serve <$> sample_requests) ++ [AnomalyTick].

Lemma pg_actions_storable : Forall (action_storable (St := Db)) pg_actions.
Proof. repeat constructor. Qed.

Definition pg_world_after : World Db := (run pg_orchestrator pg_actions migrated_world).2.

Lemma pg_responses : map (option_map resp_status) (run pg_orchestrator pg_actions migrated_world).1
  = [Some 201%Z; Some 201%Z; Some 201%Z; None].
Proof. vm_compute. reflexivity. Qed.

Definition pg_stored_ioc : IoC := Eval vm_compute in
  default sample_ioc (v_iocs (pg_view (w_store pg_world_after)) !! "IOC1").

Definition pg_stored_sbom : SBOM := Eval vm_compute in
  default sample_sbom (v_sboms (pg_view (w_store pg_world_after)) !! "ULID-IIII").

Lemma pg_run_stored :
  v_iocs (pg_view (w_store pg_world_after)) !! "IOC1" = Some pg_stored_ioc ∧
  v_sboms (pg_view (w_store pg_world_after)) !! "ULID-IIII" = Some pg_stored_sbom ∧
  IoC_PackageVersion pg_stored_ioc = IoC_PackageVersion sample_ioc.
Proof. split_and!; vm_compute; reflexivity. Qed.

Lemma pg_stored_ioc_keyed : ioc_keyed pg_stored_ioc.
Proof. done. Qed.

Lemma pg_run_affected : affected (pg_view (w_store pg_world_after)) pg_stored_ioc sample_ref.
Proof. exists "ULID-IIII", pg_stored_sbom. split_and!; vm_compute; reflexivity. Qed.

Lemma postgres_detects_compromises_witness :
  v_iocs (pg_view (w_store pg_world_after)) !! "IOC1" = Some pg_stored_ioc ∧
  ∃ l, reading (Pg_MatchedComponentRefsByIoC (IoC_ID pg_stored_ioc)) (sample_call 9) (w_store pg_world_after) = Ok l ∧
    sample_ref ∈ l.
Proof.
  split; [apply pg_run_stored|].
  pose proof (postgres_detects_compromises pg_orchestrator pg_actions sample_ulids_ok eq_refl pg_detectors_pure
    pg_actions_storable) as Hdetected.
  unfold wp in Hdetected. fold pg_world_after in Hdetected.
  apply (Hdetected (λ n, conj eq_refl (λ m, eq_refl)) "IOC1" pg_stored_ioc sample_ref (sample_call 9)).
  - apply pg_run_stored.
  - apply pg_stored_ioc_keyed.
  - apply pg_run_affected.
  - done.
Defined.
