(* ===== verification/PgPool.v ===== *)
(** * Concurrent listings and the connection pool

    [ListSBOMsByComponent] (storage.go) reads the packages of an SBOM while
    the rows of the listing are open: the call holds one connection of the
    pool and takes a second one for [hydrateSBOMPackages]. The pool (pgxpool)
    has a fixed number of connections and [Query] waits for a free one. This
    file is the step system of such calls. *)

From S2P Require Import Prelude.
From stdpp Require Import options.

(** Where a call is, with the number of SBOMs that are still to be read. *)
Inductive phase :=
  | Listing (sboms : nat)      (* [s.pool.Query] of the listing waits for a connection *)
  | RowsOpen (left : nat)      (* at [rows.Next()] *)
  | Hydrating (left : nat)     (* [s.pool.Query] of the packages waits for a connection *)
  | PackagesOpen (left : nat)  (* both sets of rows open *)
  | Returned.

(** The connections a call holds. *)
Definition held (p : phase) : nat :=
  match p with
  | Listing _ | Returned => 0
  | RowsOpen _ | Hydrating _ => 1
  | PackagesOpen _ => 2
  end.

Definition in_use (ps : list phase) : nat := sum_list_with held ps.

(** The next step of a call when [free] connections are free; [None] when it
    has to wait, or has returned. Exhausted rows give their connection
    back. *)
Definition advance (free : nat) (p : phase) : option phase :=
  match p with
  | Listing n => if bool_decide (0 < free) then Some (RowsOpen n) else None
  | RowsOpen 0 => Some Returned
  | RowsOpen (S n) => Some (Hydrating n)
  | Hydrating n => if bool_decide (0 < free) then Some (PackagesOpen n) else None
  | PackagesOpen n => Some (RowsOpen n)
  | Returned => None
  end.

Inductive pool_step (max : nat) : list phase → list phase → Prop :=
  | pool_step_call ps i p p' :
      ps !! i = Some p → advance (max - in_use ps) p = Some p' → pool_step max ps (<[i := p']> ps).

(** Calls for components with these numbers of SBOMs. *)
Definition calls (sizes : list nat) : list phase := Listing <$> sizes.

Definition stuck (max : nat) (ps : list phase) : Prop := ∀ ps', ¬ pool_step max ps ps'.
Definition served (ps : list phase) : Prop := Forall (λ p, p = Returned) ps.

(** ** Every call takes finitely many steps *)

Definition steps_left (p : phase) : nat :=
  match p with
  | Listing n => 3 * n + 2
  | RowsOpen n => 3 * n + 1
  | Hydrating n => 3 * n + 3
  | PackagesOpen n => 3 * n + 2
  | Returned => 0
  end.

Definition work (ps : list phase) : nat := sum_list_with steps_left ps.

Lemma advance_steps free p p' : advance free p = Some p' → steps_left p' < steps_left p.
Proof. destruct p as [n|[|n]|n|n|]; simpl; try case_bool_decide; intros; simplify_eq; simpl; lia. Qed.

Lemma sum_insert {A} (f : A → nat) (l : list A) i x y : l !! i = Some x →
  sum_list_with f (<[i := y]> l) + f x = sum_list_with f l + f y.
Proof.
  revert i. induction l as [|z l IH]; intros [|i]; try done.
  - intros [= ->]. simpl. lia.
  - intros Hi. specialize (IH i Hi). simpl. lia.
Qed.

Lemma pool_step_work max ps ps' : pool_step max ps ps' → work ps' < work ps.
Proof.
  intros [qs i p p' Hi Ha]. apply advance_steps in Ha. unfold work.
  pose proof (sum_insert steps_left qs i p p' Hi). lia.
Qed.

Lemma pool_step_length max ps ps' : pool_step max ps ps' → length ps' = length ps.
Proof. intros [qs i p p' Hi Ha]. apply length_insert. Qed.

Lemma pool_run_length max ps ps' : rtc (pool_step max) ps ps' → length ps' = length ps.
Proof. induction 1 as [|ps1 ps2 ps3 Hs _ IH]; [done|]. rewrite IH. by eapply pool_step_length. Qed.

(** A call that can step, or everything waits for the pool. *)
Lemma stuck_blocked max ps p : stuck max ps → p ∈ ps → advance (max - in_use ps) p = None.
Proof.
  intros Hs [i Hi]%list_elem_of_lookup. destruct (advance _ p) as [p'|] eqn:Ha; [|done].
  by destruct (Hs (<[i := p']> ps)); econstructor.
Qed.

Lemma stuck_held max ps : stuck max ps → in_use ps ≤ length ps.
Proof.
  intros Hs. assert (∀ p, p ∈ ps → held p ≤ 1) as Hheld.
  { intros p Hp. pose proof (stuck_blocked max ps p Hs Hp) as Ha. destruct p as [n|[|n]|n|n|]; simpl in *; try lia; done. }
  clear Hs. unfold in_use. induction ps as [|p ps IH]; [done|]. simpl.
  pose proof (Hheld p (list_elem_of_here _ _)). pose proof (IH (λ q Hq, Hheld q (list_elem_of_further _ _ _ Hq))). lia.
Qed.

Lemma stuck_full max ps : stuck max ps → served ps ∨ max ≤ in_use ps.
Proof.
  intros Hs. destruct (decide (Forall (λ p, steps_left p = 0) ps)) as [Hall|Hex].
  - left. eapply Forall_impl; [exact Hall|]. intros [n|n|n|n|]; simpl; [lia..|done].
  - right. apply not_Forall_Exists in Hex; [|apply _]. apply Exists_exists in Hex as (p & Hp & Hne).
    pose proof (stuck_blocked max ps p Hs Hp) as Ha. destruct p as [n|[|n]|n|n|]; simpl in *; try done;
      case_bool_decide; try done; lia.
Qed.

(** ** The way into the deadlock *)

(** The first [j] calls hold a connection each and wait for a second one. *)
Definition entangled (sizes : list nat) (j : nat) : list phase :=
  ((λ n, Hydrating (n - 1)) <$> take j sizes) ++ (Listing <$> drop j sizes).

Lemma in_use_app ps qs : in_use (ps ++ qs) = in_use ps + in_use qs.
Proof. induction ps as [|p ps IH]; [done|]. unfold in_use in *. simpl in *. lia. Qed.

Lemma in_use_listing sizes : in_use (Listing <$> sizes) = 0.
Proof. by induction sizes. Qed.

Lemma in_use_hydrating sizes : in_use ((λ n, Hydrating (n - 1)) <$> sizes) = length sizes.
Proof. induction sizes as [|n sizes IH]; [done|]. rewrite fmap_cons. unfold in_use in *.
  cbn [sum_list_with held length]. lia. Qed.

Lemma entangled_in_use sizes j : j ≤ length sizes → in_use (entangled sizes j) = j.
Proof.
  intros Hj. unfold entangled. rewrite in_use_app, in_use_hydrating, in_use_listing, length_take. lia.
Qed.

(** One more call takes its first connection and finds an SBOM. *)
Lemma entangle max sizes j n : sizes !! j = Some (S n) → j < max →
  rtc (pool_step max) (entangled sizes j) (entangled sizes (S j)).
Proof.
  intros Hn Hj. pose proof (lookup_lt_Some _ _ _ Hn) as Hlen.
  assert (length ((λ n, Hydrating (n - 1)) <$> take j sizes) = j) as Hpre.
  { rewrite length_fmap, length_take. lia. }
  assert (entangled sizes j = ((λ n, Hydrating (n - 1)) <$> take j sizes) ++ Listing (S n) :: (Listing <$> drop (S j) sizes)) as Hfrom.
  { unfold entangled. by rewrite (drop_S _ _ _ Hn). }
  assert (entangled sizes (S j) = ((λ n, Hydrating (n - 1)) <$> take j sizes) ++ Hydrating n :: (Listing <$> drop (S j) sizes)) as Hto.
  { unfold entangled. rewrite (take_S_r _ _ _ Hn), fmap_app, <- (assoc_L (++)). simpl. by rewrite Nat.sub_0_r. }
  pose proof (entangled_in_use sizes j ltac:(lia)) as Huse. rewrite Hfrom in Huse |- *. rewrite Hto. clear Hfrom Hto.
  set (pre := _ <$> take j sizes) in *. set (post := Listing <$> drop (S j) sizes) in *.
  assert (∀ p q, <[j := q]> (pre ++ p :: post) = pre ++ q :: post) as Hins.
  { intros p q. rewrite insert_app_r_alt by lia. by rewrite Hpre, Nat.sub_diag. }
  assert (∀ p, (pre ++ p :: post) !! j = Some p) as Hat.
  { intros p. rewrite lookup_app_r by lia. by rewrite Hpre, Nat.sub_diag. }
  apply rtc_l with (pre ++ RowsOpen (S n) :: post); [|apply rtc_once].
  - rewrite <- (Hins (Listing (S n)) (RowsOpen (S n))). econstructor; [apply Hat|].
    cbn [advance]. rewrite bool_decide_eq_true_2 by lia. done.
  - rewrite <- (Hins (RowsOpen (S n)) (Hydrating n)). econstructor; [apply Hat|done].
Qed.

Lemma entangle_all max sizes j : Forall (λ n, 0 < n) sizes → j ≤ max → j ≤ length sizes →
  rtc (pool_step max) (calls sizes) (entangled sizes j).
Proof.
  intros Hpos Hmax Hlen. induction j as [|j IH].
  { unfold entangled, calls. by rewrite take_0, drop_0. }
  etrans; [apply IH; lia|]. destruct (lookup_lt_is_Some_2 sizes j) as [n Hn]; [lia|].
  pose proof (Forall_lookup_1 _ _ _ _ Hpos Hn) as Hp. destruct n as [|n]; [lia|]. apply (entangle max sizes j n); [done|lia].
Qed.

Lemma entangled_stuck sizes j : j ≤ length sizes → stuck j (entangled sizes j).
Proof.
  intros Hj ps' Hs. inversion Hs as [ps i p p' Hi Ha]; subst. rewrite entangled_in_use, Nat.sub_diag in Ha by done.
  assert (p ∈ entangled sizes j) as Hp by by eapply list_elem_of_lookup_2.
  unfold entangled in Hp. rewrite elem_of_app, !list_elem_of_fmap in Hp. naive_solver.
Qed.

(** C26: concurrent SBOM listings can exhaust the connection pool, and
    exactly when there are as many of them as connections. With [max] > 0
    connections and calls for components that have SBOMs, some interleaving
    reaches a state in which no call can continue and not all have returned
    if and only if there are at least [max] calls. *)
Theorem pool_deadlock_iff max sizes : 0 < max → Forall (λ n, 0 < n) sizes →
  (∃ ps, rtc (pool_step max) (calls sizes) ps ∧ stuck max ps ∧ ¬ served ps) ↔ max ≤ length sizes.
Proof.
  intros Hmax Hpos. split.
  - intros (ps & Hrun & Hs & Hn). apply pool_run_length in Hrun. unfold calls in Hrun. rewrite length_fmap in Hrun.
    destruct (stuck_full max ps Hs) as [?|Hfull]; [done|]. pose proof (stuck_held max ps Hs). lia.
  - intros Hlen. exists (entangled sizes max). split_and!; [by apply entangle_all|by apply entangled_stuck|].
    intros Hall. destruct sizes as [|n sizes]; [simpl in Hlen; lia|]. destruct max as [|m]; [lia|].
    unfold served, entangled in Hall. simpl in Hall. apply Forall_cons in Hall as [? _]. done.
Qed.

Lemma pool_deadlock_iff_witness :
  (∃ ps, rtc (pool_step 2) (calls [1; 3]) ps ∧ stuck 2 ps ∧ ¬ served ps) ∧
  ¬ ∃ ps, rtc (pool_step 3) (calls [1; 3]) ps ∧ stuck 3 ps ∧ ¬ served ps.
Proof.
  split.
  - apply (pool_deadlock_iff 2 [1; 3]); [lia|repeat constructor; lia|simpl; lia].
  - intros Hd%(pool_deadlock_iff 3 [1; 3]); [simpl in Hd; lia|lia|repeat constructor; lia].
Defined.

(** ** With a connection to spare *)

(** Some call can always step. *)
Lemma can_step max ps : length ps < max → served ps ∨ ∃ ps', pool_step max ps ps'.
Proof.
  intros Hlen. destruct (decide (Forall (λ p, advance (max - in_use ps) p = None) ps)) as [Hall|Hex].
  - assert (stuck max ps) as Hs.
    { intros ps' Hs. inversion Hs as [qs i p p' Hi Ha]; subst.
      pose proof (Forall_lookup_1 _ _ _ _ Hall Hi). simpl in *. congruence. }
    destruct (stuck_full max ps Hs) as [?|Hfull]; [by left|]. pose proof (stuck_held max ps Hs). lia.
  - right. apply not_Forall_Exists in Hex; [|apply _]. apply Exists_exists in Hex as (p & [i Hi]%list_elem_of_lookup & Ha).
    simpl in Ha. destruct (advance (max - in_use ps) p) as [p'|] eqn:Ha'; [|done]. by exists (<[i := p']> ps); econstructor.
Qed.

(** With more connections than calls every call returns, however the calls
    are interleaved: no run goes on for ever, and every run can be continued
    until all calls have returned. *)
Theorem pool_serves_all max sizes ps : length sizes < max → rtc (pool_step max) (calls sizes) ps →
  Acc (flip (pool_step max)) ps ∧ ∃ ps', rtc (pool_step max) ps ps' ∧ served ps'.
Proof.
  intros Hlen Hrun. apply pool_run_length in Hrun. unfold calls in Hrun. rewrite length_fmap in Hrun.
  remember (work ps) as w eqn:Hw. revert ps Hrun Hw. induction w as [w IH] using lt_wf_ind. intros ps Hl ->.
  assert (∀ ps', pool_step max ps ps' →
    Acc (flip (pool_step max)) ps' ∧ ∃ ps2, rtc (pool_step max) ps' ps2 ∧ served ps2) as Hnext.
  { intros ps' Hs. pose proof (pool_step_work _ _ _ Hs). pose proof (pool_step_length _ _ _ Hs).
    by apply (IH (work ps')); [|lia|]. }
  split; [constructor; intros ps' Hs; by apply Hnext|].
  destruct (can_step max ps) as [Hd|[ps' Hs]]; [lia|by exists ps|].
  destruct (Hnext ps' Hs) as [_ (ps2 & Hr & Hd)]. exists ps2. split; [|done]. by eapply rtc_l.
Qed.
