(* ===== verification/Scheduler.v ===== *)
(** * The publisher scheduler

    engine/publisher/scheduler.go: a tick asks the store for the packages
    whose newest snapshot is older than the refresh interval, stalest first,
    at most a batch of them, fetches each with the ingestor of its prefix
    and saves the snapshot. The counters of a tick, which the code logs, are
    returned. [Run] is a tick at the start and one per firing of the ticker,
    until the context is done.

    An ingestor is what it answers when it is asked; NpmIngestor.v and
    GithubIngestor.v are two of them, and [IngestorLaws] is what the
    scheduler needs of them. *)

From S2P Require Import Prelude GoStrings GoText Json JsonEncode GoTime Domain Storage MemoryStore Engine Samples Httpx NpmIngestor GithubIngestor Orchestrator.
From stdpp Require Import options.

(** [publisher.Ingestor]: the answer for a reference at a moment. *)
Definition Ingestor : Type := nat → string → result PublisherSnapshot.

Record SchedulerConfig := MkSchedulerConfig {
  sc_Storage : bool;
  sc_Ingestors : gmap string Ingestor;
  sc_RefreshInterval : Duration;
  sc_BatchSize : Z;
}.

Record Scheduler := MkScheduler {
  s_ingestors : gmap string Ingestor;
  s_refreshInterval : Duration;
  s_batchSize : Z;
}.

Definition NewScheduler `{GoRuntime} (cfg : SchedulerConfig) : result Scheduler :=
  if negb (sc_Storage cfg) then Err (EText "publisher scheduler: Storage is required" [])
  else if bool_decide (size (sc_Ingestors cfg) = 0) then
    Err (EText "publisher scheduler: at least one ingestor required" [])
  else
    match List.find (λ prefix, negb (HasSuffix prefix ":")) (map_range (sc_Ingestors cfg)).*1 with
    | Some prefix => Err (EText "publisher scheduler: ingestor key %q must end with ':'" [prefix])
    | None =>
        let interval := if bool_decide (sc_RefreshInterval cfg ≤ 0)%Z then Hour else sc_RefreshInterval cfg in
        let batch := if bool_decide (sc_BatchSize cfg ≤ 0)%Z then 50%Z else sc_BatchSize cfg in
        Ok (MkScheduler (sc_Ingestors cfg) interval batch)
    end.

(** The counters of a tick. *)
Record Tally := MkTally { t_ok : nat; t_missing : nat; t_throttled : nat; t_failed : nat }.

Definition add_ok (t : Tally) : Tally := MkTally (S (t_ok t)) (t_missing t) (t_throttled t) (t_failed t).
Definition add_missing (t : Tally) : Tally := MkTally (t_ok t) (S (t_missing t)) (t_throttled t) (t_failed t).
Definition add_throttled (t : Tally) : Tally := MkTally (t_ok t) (t_missing t) (S (t_throttled t)) (t_failed t).
Definition add_failed (t : Tally) : Tally := MkTally (t_ok t) (t_missing t) (t_throttled t) (S (t_failed t)).

Definition count_error (e : error) (t : Tally) : Tally :=
  if errors_Is e httpx_ErrNotFound then add_missing t
  else if errors_Is e httpx_ErrRateLimited then add_throttled t
  else if errors_Is e httpx_ErrServerFailure then add_failed t
  else add_failed t.

Section scheduler.
Context {St : Type} `{Env, UnicodeCase, !Storage St}.

Fixpoint find_prefix (ref : string) (order : list (string * Ingestor)) : option Ingestor :=
  match order with
  | [] => None
  | (prefix, ing) :: order' => if HasPrefix ref prefix then Some ing else find_prefix ref order'
  end.

Definition dispatch (s : Scheduler) (packageRef : string) : M St (option Ingestor) :=
  order ← range_order (s_ingestors s);
  mret (find_prefix packageRef order).

Definition ask (ing : Ingestor) (ref : string) : M St (result PublisherSnapshot) := λ w,
  (ing (w_tick w) ref, tick w).

Fixpoint refreshLoop (s : Scheduler) (refs : list string) (t : Tally) : M St (option error * Tally) :=
  match refs with
  | [] => mret (None, t)
  | ref :: refs' =>
      err ← ctx_check;
      match err with
      | Some e => mret (Some e, t)
      | None =>
          ing ← dispatch s ref;
          match ing with
          | None => refreshLoop s refs' (add_failed t)
          | Some ing =>
              got ← ask ing ref;
              match got with
              | Err e => refreshLoop s refs' (count_error e t)
              | Ok snap =>
                  err ← st_write (λ k, SavePublisherSnapshot k snap);
                  match err with
                  | Some _ => refreshLoop s refs' (add_failed t)
                  | None => refreshLoop s refs' (add_ok t)
                  end
              end
          end
      end
  end.

Definition RefreshTick (s : Scheduler) : M St (option error * Tally) :=
  now ← time_Now;
  refs ← st_read (λ k, ListPackagesNeedingRefresh k (Add now (- s_refreshInterval s)) (s_batchSize s));
  match refs with
  | Err e => mret (Some (EWrap "list candidates: %w" [] e), MkTally 0 0 0 0)
  | Ok refs =>
      if bool_decide (length refs = 0) then mret (None, MkTally 0 0 0 0)
      else refreshLoop s refs (MkTally 0 0 0 0)
  end.

Fixpoint runLoop (s : Scheduler) (cases : list run_case) : M St (option error) :=
  match cases with
  | [] => mret None
  | CtxDone err :: _ => mret (Some err)
  | TickerFires :: cases' => RefreshTick s;; runLoop s cases'
  end.

Definition Run (s : Scheduler) (cases : list run_case) : M St (option error) :=
  RefreshTick s;; runLoop s cases.
End scheduler.

(** ** What the scheduler needs of an ingestor *)

(** A snapshot is of the package that was asked for, and its time is left to
    the storage layer. *)
Class IngestorLaws (ing : Ingestor) : Prop := {
  ingestor_snapshot n ref snap : ing n ref = Ok snap →
    PublisherSnapshot_PackageRef snap = ref ∧ PublisherSnapshot_SnapshotAt snap = 0%Z;
}.

(** The two ingestors, on a network that may answer differently each time. *)
Definition npm_ingestor (newRequest : string → option error) (i : NpmIngestor.Ingestor)
    (net : nat → Z → Exchange) : Ingestor := λ n ref, (Ingest newRequest i ref (net n)).1.

Definition github_ingestor (newRequest : string → option error) (i : GithubIngestor.GithubIngestor)
    (net : nat → Z → Exchange) : Ingestor := λ n ref, (GithubIngest newRequest i ref (net n)).1.

Instance npm_ingestor_laws newRequest i net : IngestorLaws (npm_ingestor newRequest i net).
Proof.
  split. intros n ref snap. unfold npm_ingestor, Ingest, CutPrefix.
  destruct (HasPrefix ref PackageRefPrefix); [|done]. cbn [negb]. case_bool_decide; [done|].
  destruct (Get _ _ _ _) as [[body|e] acts]; [|done]. destruct (Unmarshal _ _ _) as [resp|e]; [|done].
  intros [= <-]. unfold snapshotOf. by destruct (latestTag resp).
Qed.

Instance github_ingestor_laws newRequest i net : IngestorLaws (github_ingestor newRequest i net).
Proof.
  split. intros n ref snap. unfold github_ingestor, GithubIngest.
  destruct (ParseGithubRef ref) as [[owner repo]|e]; [|done].
  destruct (LatestRelease _ _ _ _ _) as [[[rel raw]|e] acts]; [|done]. by intros [= <-].
Qed.

Definition lawful (s : Scheduler) : Prop :=
  ∀ prefix ing, s_ingestors s !! prefix = Some ing → IngestorLaws ing.

(** A package every ingestor that may be picked for it fetches, with a
    snapshot the backend takes, and one that none does: unpublished, say, or
    of an ecosystem without ingestor, or with a payload the backend
    refuses. *)
Definition reliable `{Keeping} (s : Scheduler) (ref : string) : Prop :=
  (∃ prefix ing, s_ingestors s !! prefix = Some ing ∧ HasPrefix ref prefix = true) ∧
  ∀ prefix ing n, s_ingestors s !! prefix = Some ing → HasPrefix ref prefix = true →
    ∃ snap, ing n ref = Ok snap ∧ accepts_snapshot snap.

Definition hopeless `{Keeping} (s : Scheduler) (ref : string) : Prop :=
  ∀ prefix ing n snap, s_ingestors s !! prefix = Some ing → HasPrefix ref prefix = true →
    ing n ref = Ok snap → ¬ accepts_snapshot snap.

Abbreviation histories := (gmap string (list PublisherSnapshot)).

(** The package's history gains one snapshot, taken at [lo] or later. *)
Definition snapshot_added (lo : Time) (h h' : histories) (ref : string) : Prop :=
  ∃ snap, PublisherSnapshot_PackageRef snap = ref ∧ (lo ≤ PublisherSnapshot_SnapshotAt snap)%Z ∧
    h' !! ref = Some (default [] (h !! ref) ++ [snap]).

Definition total (t : Tally) : nat := t_ok t + t_missing t + t_throttled t + t_failed t.

Lemma total_count_error e t : total (count_error e t) = S (total t) ∧ t_ok (count_error e t) = t_ok t.
Proof. unfold count_error, total. repeat case_match; simpl; split; lia. Qed.

Lemma find_prefix_Some ref order ing :
  find_prefix ref order = Some ing → ∃ prefix, (prefix, ing) ∈ order ∧ HasPrefix ref prefix = true.
Proof.
  induction order as [|[p i] order IH]; cbn [find_prefix]; [done|]. destruct (HasPrefix ref p) eqn:Hp.
  - intros [= ->]. exists p. split; [by left|done].
  - intros (p' & ? & ?)%IH. exists p'. split; [by right|done].
Qed.

Lemma find_prefix_None ref order p i :
  find_prefix ref order = None → (p, i) ∈ order → HasPrefix ref p = false.
Proof.
  induction order as [|[p' i'] order IH]; cbn [find_prefix]; [by intros _ ?%not_elem_of_nil|].
  destruct (HasPrefix ref p') eqn:Hp; [done|]. intros Hf [[= -> ->]|?]%elem_of_cons; auto.
Qed.

(** ** A tick *)

Section tick.
Context {St : Type} `{Env, UnicodeCase, !Storage St, !StorageLaws St}.
Context (s : Scheduler) (lo : Time).
Context (Hlaw : lawful s) (Hans : ∀ k, answered (call_at k)) (Hctx : ∀ k, ctx_Err (call_at k) = None).
Context (Hclock : ∀ k, (lo ≤ call_now (call_at k))%Z).
Implicit Types w : World St.

Definition hist (w : World St) : histories := v_history (view (w_store w)).

Lemma wp_dispatch ref Φ w :
  (∀ ing, (∀ i, ing = Some i → ∃ prefix, s_ingestors s !! prefix = Some i ∧ HasPrefix ref prefix = true) →
     (ing = None → ∀ prefix i, s_ingestors s !! prefix = Some i → HasPrefix ref prefix = false) →
     Φ ing (tick w)) →
  wp (dispatch s ref) Φ w.
Proof.
  intros HΦ. unfold dispatch. apply wp_bind, wp_range_order. intros order Horder. apply wp_ret, HΦ.
  - intros i (prefix & Hin & Hp)%find_prefix_Some. exists prefix. split; [|done].
    by rewrite Horder, elem_of_map_to_list in Hin.
  - intros Hnone prefix i Hi. eapply find_prefix_None; [exact Hnone|].
    by rewrite Horder, elem_of_map_to_list.
Qed.

Lemma wp_save ref snap Φ w :
  store_inv (w_store w) → PublisherSnapshot_PackageRef snap = ref →
  PublisherSnapshot_SnapshotAt snap = 0%Z →
  (∀ w' snap', store_inv (w_store w') → accepts_snapshot snap → PublisherSnapshot_PackageRef snap' = ref →
     (keep_time lo ≤ PublisherSnapshot_SnapshotAt snap')%Z →
     hist w' = <[ref := default [] (hist w !! ref) ++ [snap']]> (hist w) → Φ None w') →
  (∀ w' e, store_inv (w_store w') → ¬ accepts_snapshot snap → hist w' = hist w → Φ (Some e) w') →
  wp (st_write (λ k, SavePublisherSnapshot k snap)) Φ w.
Proof using Hans Hclock.
  intros Hs Href Hat HΦ HΦe. pose proof (SavePublisherSnapshot_law (this_call w) snap (w_store w) Hs) as Hl.
  unfold wp, st_write. destruct (SavePublisherSnapshot _ _ _) as [s' err]. cbn [fst snd].
  destruct Hl as (id & [Hs' Hok Hacc Hview Hno]). destruct err as [e|].
  - apply HΦe; [done| |unfold hist; cbn [w_store]; by rewrite Hno; [|apply Hans|]].
    intros Ha. by specialize (Hok (Hans _) Ha).
  - destruct Hview as [Hview|[? _]]; [|done].
    eapply HΦ; [exact Hs'|by apply Hacc| | |unfold hist; cbn [w_store]; rewrite Hview]; simpl.
    3: by rewrite Href. all: simpl. { done. }
    rewrite Hat. apply keep_time_mono, Hclock.
Qed.

(** What a round over the due packages leaves: each package of [added] has a
    new snapshot, all other histories are as before, and the counters add
    up. *)
Record refreshed (refs added : list string) (t t' : Tally) (h h' : histories) : Prop := {
  rf_added ref : ref ∈ added → ref ∈ refs ∧ snapshot_added (keep_time lo) h h' ref;
  rf_others ref : ref ∉ added → h' !! ref = h !! ref;
  rf_reliable ref : ref ∈ refs → reliable s ref → ref ∈ added;
  rf_hopeless ref : hopeless s ref → ref ∉ added;
  rf_ok : t_ok t' = t_ok t + length added;
  rf_total : total t' = total t + length refs;
}.

Lemma refreshed_skip ref refs added t t1 t' h h' :
  ref ∉ refs → ¬ reliable s ref → t_ok t1 = t_ok t → total t1 = S (total t) →
  refreshed refs added t1 t' h h' → refreshed (ref :: refs) added t t' h h'.
Proof.
  intros Hnin Hrel Hok Htot [Ha Ho Hr Hh Hk Ht]. split; [|done| |done|lia|simpl; lia].
  - intros r Hin. destruct (Ha r Hin). split; [by right|done].
  - intros r [->|Hin]%elem_of_cons ?; [done|auto].
Qed.

Lemma refreshed_add ref refs added t t' h h' snap :
  ref ∉ refs → ¬ hopeless s ref →
  PublisherSnapshot_PackageRef snap = ref → (keep_time lo ≤ PublisherSnapshot_SnapshotAt snap)%Z →
  refreshed refs added (add_ok t) t' (<[ref := default [] (h !! ref) ++ [snap]]> h) h' →
  refreshed (ref :: refs) (ref :: added) t t' h h'.
Proof.
  intros Hnin Hhope Href Hat [Ha Ho Hr Hh Hk Ht].
  assert (ref ∉ added) as Hnad by (intros [? _]%Ha; done).
  split; simpl in *; [| | | |lia|unfold total in *; simpl in *; lia].
  - intros r [->|Hin]%elem_of_cons.
    + split; [by left|]. exists snap. rewrite (Ho ref) by done. by rewrite lookup_insert_eq.
    + destruct (Ha r Hin) as [Hin' (sn & ? & ? & Hl)]. split; [by right|]. exists sn. split_and!; [done..|].
      rewrite Hl, lookup_insert_ne; [done|]. intros ->. done.
  - intros r [Hne Hin]%not_elem_of_cons. rewrite Ho by done. by apply lookup_insert_ne.
  - intros r [->|Hin]%elem_of_cons ?; [by left|right; auto].
  - intros r Hr' [->|Hin]%elem_of_cons; [done|]. by apply (Hh r).
Qed.

Lemma refreshLoop_spec refs t w :
  NoDup refs → store_inv (w_store w) →
  wp (refreshLoop s refs t) (λ r w', r.1 = None ∧ store_inv (w_store w') ∧
    ∃ added, refreshed refs added t r.2 (hist w) (hist w')) w.
Proof using Hlaw Hans Hctx Hclock.
  revert t w. induction refs as [|ref refs IH]; intros t w Hnd Hs; cbn [refreshLoop].
  { apply wp_ret. split_and!; [done..|]. exists []. split; simpl; try lia; set_solver. }
  apply NoDup_cons in Hnd as [Hnin Hnd]. apply wp_bind. unfold wp at 1, ctx_check. cbn [fst snd].
  unfold this_call. rewrite Hctx. apply wp_bind, wp_dispatch. intros [ing|] Hsome Hnone.
  2:{ eapply wp_mono; [by apply IH|]. intros [err t'] w' (? & ? & added & Href). split_and!; [done..|].
      exists added. eapply refreshed_skip; [done| |..|exact Href]; [|done|unfold total; simpl; lia].
      intros [(prefix & i & Hi & Hp) _]. specialize (Hnone eq_refl prefix i Hi). congruence. }
  destruct (Hsome ing eq_refl) as (prefix & Hing & Hp). apply wp_bind. unfold wp at 1, ask. cbn [fst snd].
  set (n := w_tick _). destruct (ing n ref) as [snap|e] eqn:Hask.
  2:{ destruct (total_count_error e t) as [Htot Hok].
      eapply wp_mono; [by apply IH|]. intros [err t'] w' (? & ? & added & Href). split_and!; [done..|].
      exists added. eapply refreshed_skip; [done| |done|done|exact Href].
      intros [_ Hrel]. destruct (Hrel prefix ing n) as (? & ? & ?); [done..|]. congruence. }
  destruct (Hlaw prefix ing Hing) as [Hsnap]. destruct (Hsnap n ref snap Hask) as [Href0 Hat].
  apply wp_bind, (wp_save ref); [done..| |].
  2:{ intros w' e Hs' Hno Hh'. eapply wp_mono; [by apply IH|].
      intros [err t'] w'' (? & ? & added & Href). split_and!; [done..|]. rewrite Hh' in Href.
      exists added. eapply refreshed_skip; [done| |..|exact Href]; [|done|unfold total; simpl; lia].
      intros [_ Hrel]. destruct (Hrel prefix ing n) as (? & ? & ?); [done..|]. congruence. }
  intros w' snap' Hs' Hacc Hr' Hat' Hh'.
  eapply wp_mono; [by apply IH|]. intros [err t'] w'' (? & ? & added & Href). split_and!; [done..|].
  exists (ref :: added). rewrite Hh' in Href. eapply refreshed_add; [done| |exact Hr'|exact Hat'|exact Href].
  intros Hhope. by destruct (Hhope prefix ing n snap).
Qed.

Definition tally0 : Tally := MkTally 0 0 0 0.

Lemma stale_first_NoDup v olderThan limit l : stale_first v olderThan limit l → NoDup l.
Proof.
  intros (full & Hnd & _ & _ & ->). eapply sublist_NoDup; [done|apply limited_sublist].
Qed.

Lemma RefreshTick_spec w :
  store_inv (w_store w) →
  wp (RefreshTick s) (λ r w', r.1 = None ∧ store_inv (w_store w') ∧
    ∃ now refs added, (lo ≤ now)%Z ∧
      stale_first (view (w_store w)) (keep_time (now - s_refreshInterval s)) (s_batchSize s) refs ∧
      refreshed refs added tally0 r.2 (hist w) (hist w')) w.
Proof using Hlaw Hans Hctx Hclock.
  intros Hs. unfold RefreshTick. apply wp_bind, wp_time_Now.
  set (now := UTC _). assert (lo ≤ now)%Z as Hnow by apply Hclock. clearbody now.
  apply wp_bind. eapply wp_read_ok; [by apply ListPackagesNeedingRefresh_law|apply Hans|].
  intros refs Hstale. pose proof (stale_first_NoDup _ _ _ _ Hstale) as Hnd. case_bool_decide as Hlen.
  - apply wp_ret. split_and!; [done..|]. exists now, refs, []. split_and!; [done..|].
    apply nil_length_inv in Hlen as ->. split; simpl; try lia; set_solver.
  - eapply wp_mono; [by apply refreshLoop_spec|]. intros [err t'] w' (? & ? & added & Href).
    split_and!; [done..|]. by exists now, refs, added.
Qed.
End tick.

(** ** Progress *)

(** Every snapshot of the package is older than [T]. *)
Definition outdated (T : Time) (l : list PublisherSnapshot) : Prop :=
  l ≠ [] ∧ Forall (λ sn, (PublisherSnapshot_SnapshotAt sn < T)%Z) l.

Instance outdated_dec T l : Decision (outdated T l).
Proof. unfold outdated. apply _. Defined.

Definition outdated_refs (T : Time) (h : histories) : gset string :=
  dom (filter (λ kv, outdated T kv.2) h).

Lemma elem_of_outdated T h ref :
  ref ∈ outdated_refs T h ↔ ∃ l, h !! ref = Some l ∧ outdated T l.
Proof.
  unfold outdated_refs. rewrite elem_of_dom. split.
  - intros [l [Hl Ho]%map_lookup_filter_Some]. eauto.
  - intros (l & Hl & Ho). exists l. by apply map_lookup_filter_Some.
Qed.

Lemma newest_exists l : l ≠ [] → ∃ t, newest_snapshot l t.
Proof.
  induction l as [|sn l IH]; [done|]. intros _. destruct (decide (l = [])) as [->|Hne].
  { exists (PublisherSnapshot_SnapshotAt sn). split; [exists sn; split; [by left|done]|].
    intros s' ->%list_elem_of_singleton. lia. }
  destruct (IH Hne) as (t & (s' & Hin & Hat) & Hmax).
  exists (Z.max t (PublisherSnapshot_SnapshotAt sn)). split.
  - destruct (decide (PublisherSnapshot_SnapshotAt sn ≤ t)%Z).
    + exists s'. split; [by right|]. lia.
    + exists sn. split; [by left|]. lia.
  - intros x [->|Hx]%elem_of_cons; [lia|]. specialize (Hmax x Hx). lia.
Qed.

Lemma outdated_newest T l t : newest_snapshot l t → outdated T l ↔ (t < T)%Z.
Proof.
  intros [(sn & Hin & Hat) Hmax]. split.
  - intros [_ Hall]. rewrite Forall_forall in Hall. specialize (Hall sn Hin). simpl in Hall. lia.
  - intros Ht. split; [by intros ->; apply not_elem_of_nil in Hin|]. apply Forall_forall. intros x Hx.
    specialize (Hmax x Hx). simpl. lia.
Qed.

Lemma stale_sorted (full : list (string * Time)) i j (x y : string * Time) :
  SortedBy (λ x y, Before x.2 y.2) full → full !! i = Some x → full !! j = Some y → i ≤ j → (x.2 ≤ y.2)%Z.
Proof.
  intros Hsort Hx Hy Hij.
  assert (StronglySorted (λ a b : string * Time, Before b.2 a.2 = false) full) as Hss.
  { apply Sorted_StronglySorted; [|exact Hsort]. unfold Before.
    intros a b c Hab%bool_decide_eq_false Hbc%bool_decide_eq_false. apply bool_decide_eq_false. lia. }
  clear Hsort. revert i j Hx Hy Hij. induction Hss as [|a l Hss IH Hall]; intros i j Hx Hy Hij; [done|].
  destruct i as [|i], j as [|j]; simplify_eq/=; [lia| |lia|].
  - rewrite Forall_forall in Hall. specialize (Hall y (list_elem_of_lookup_2 _ _ _ Hy)).
    apply bool_decide_eq_false in Hall. lia.
  - apply (IH i j); [done..|lia].
Qed.

(** The due list either holds every outdated package, or is a full batch of
    outdated ones. *)
Lemma due_outdated `{Keeping} v olderThan limit l T :
  stale_first v olderThan limit l → (0 < limit)%Z → (T ≤ olderThan)%Z →
  (∀ ref, ref ∈ outdated_refs T (v_history v) → ref ∈ l) ∨
  (length l = Z.to_nat limit ∧ ∀ ref, ref ∈ l → ref ∈ outdated_refs T (v_history v)).
Proof.
  intros (full & Hnd & Hfull & Hsort & ->) Hlim HT. unfold limited. rewrite bool_decide_eq_true_2 by done.
  set (l := take (Z.to_nat limit) full.*1). set (O := outdated_refs T (v_history v)).
  destruct (decide (O ⊆ list_to_set l)) as [Hsub|Hnot]; [left|right].
  { intros ref Hin%Hsub. by apply elem_of_list_to_set in Hin. }
  assert (∃ ref, ref ∈ O ∧ ref ∉ l) as (ref & Hin & Hnin).
  { destruct (set_choose_or_empty (O ∖ list_to_set l)) as [[ref Hr]|He]; [exists ref; set_solver|].
    destruct Hnot. set_solver. }
  apply elem_of_outdated in Hin as (hs & Hhs & Hout). destruct (newest_exists hs) as [t Ht]; [apply Hout|].
  pose proof (proj1 (outdated_newest _ _ _ Ht) Hout) as HtT.
  assert ((ref, t) ∈ full) as [i Hi]%list_elem_of_lookup by (apply Hfull; exists hs; split_and!; [done..|lia]).
  assert (full.*1 !! i = Some ref) as Hi1 by (by rewrite list_lookup_fmap, Hi).
  assert (Z.to_nat limit ≤ i) as Hlim'.
  { destruct (decide (i < Z.to_nat limit)) as [Hlt|]; [|lia]. destruct Hnin.
    apply list_elem_of_lookup. exists i. unfold l. by rewrite lookup_take_lt. }
  split.
  { unfold l. rewrite length_take. apply lookup_lt_Some in Hi1. lia. }
  intros r [j Hj]%list_elem_of_lookup.
  assert (j < Z.to_nat limit) as Hjlim by (apply lookup_lt_Some in Hj; unfold l in Hj; rewrite length_take in Hj; lia).
  unfold l in Hj. rewrite lookup_take_lt in Hj by done. apply list_lookup_fmap_Some in Hj as ([r' t'] & -> & Hj).
  assert ((r', t') ∈ full) as Hin' by (by eapply list_elem_of_lookup_2).
  apply Hfull in Hin' as (hs' & Hhs' & Hnew & _). apply elem_of_outdated. exists hs'. split; [done|].
  apply (outdated_newest _ _ _ Hnew). pose proof (stale_sorted full j i _ _ Hsort Hj Hi ltac:(lia)). simpl in *. lia.
Qed.

Section progress.
Context {St : Type} `{Env, UnicodeCase, !Storage St, !StorageLaws St}.
Context (s : Scheduler) (T : Time).
Context (Hlaw : lawful s) (Hans : ∀ k, answered (call_at k)) (Hctx : ∀ k, ctx_Err (call_at k) = None).
Context (Hinterval : (0 < s_refreshInterval s)%Z) (Hbatch : (0 < s_batchSize s)%Z).
Context (Hclock : ∀ k, (T + s_refreshInterval s ≤ call_now (call_at k))%Z) (HT : keep_time T = T).
Implicit Types w : World St.

(** When every due package is refreshed, the outdated ones among them are
    no longer. *)
Lemma refreshed_outdated refs added t t' h h' :
  refreshed s (T + s_refreshInterval s) refs added t t' h h' →
  (∀ ref, ref ∈ refs → reliable s ref) →
  outdated_refs T h' ⊆ outdated_refs T h ∖ list_to_set refs.
Proof using Hinterval HT.
  pose proof (keep_time_mono T (T + s_refreshInterval s) ltac:(lia)) as Hmono. rewrite HT in Hmono.
  intros [Ha Ho Hr _ _ _] Hrel ref (l & Hl & Hout)%elem_of_outdated.
  destruct (decide (ref ∈ added)) as [Hin|Hnin].
  - destruct (Ha ref Hin) as [_ (sn & _ & Hat & Heq)]. rewrite Heq in Hl. simplify_eq.
    destruct Hout as [_ Hall]. rewrite Forall_app, Forall_singleton in Hall. destruct Hall as [_ Hlt]. simpl in Hlt. lia.
  - apply elem_of_difference. split; [apply elem_of_outdated; exists l; by rewrite <-Ho|].
    rewrite elem_of_list_to_set. intros Hin. by destruct Hnin; auto.
Qed.

Lemma refreshed_dom refs added t t' h h' :
  refreshed s (T + s_refreshInterval s) refs added t t' h h' →
  (∀ ref, ref ∈ refs → ref ∈ dom h) → dom h' = dom h.
Proof.
  intros [Ha Ho _ _ _ _] Hknown. apply set_eq. intros ref. destruct (decide (ref ∈ added)) as [Hin|Hnin].
  - destruct (Ha ref Hin) as [Hrefs (sn & _ & _ & Heq)]. rewrite !elem_of_dom, Heq.
    apply Hknown, elem_of_dom in Hrefs. done.
  - by rewrite !elem_of_dom, Ho.
Qed.

Lemma RefreshTick_progress w :
  store_inv (w_store w) → (∀ ref, ref ∈ dom (hist w) → reliable s ref) →
  wp (RefreshTick s) (λ r w', store_inv (w_store w') ∧ dom (hist w') = dom (hist w) ∧
    size (outdated_refs T (hist w')) ≤ size (outdated_refs T (hist w)) - Z.to_nat (s_batchSize s)) w.
Proof using Hlaw Hans Hctx Hinterval Hbatch Hclock HT.
  intros Hs Hrel. eapply wp_mono; [by apply (RefreshTick_spec s (T + s_refreshInterval s) Hlaw Hans Hctx Hclock)|].
  intros r w' (_ & Hs' & now & refs & added & Hnow & Hstale & Href). split; [done|].
  assert (∀ ref, ref ∈ refs → ref ∈ dom (hist w)) as Hknown by (intros ref; by eapply stale_known).
  split; [by eapply refreshed_dom|].
  pose proof (refreshed_outdated _ _ _ _ _ _ Href (λ ref Hin, Hrel ref (Hknown ref Hin))) as Hsub.
  apply subseteq_size in Hsub. destruct (due_outdated _ _ _ _ T Hstale Hbatch) as [Hall|[Hlen Hall]].
  { pose proof (keep_time_mono T (now - s_refreshInterval s) ltac:(lia)). rewrite HT in *. lia. }
  - assert (outdated_refs T (hist w) ∖ list_to_set refs = ∅) as He.
    { apply set_eq. intros ref. rewrite elem_of_difference, elem_of_list_to_set. set_solver. }
    rewrite He, size_empty in Hsub. lia.
  - rewrite size_difference in Hsub by (intros ref Hin%elem_of_list_to_set; by apply Hall).
    rewrite size_list_to_set, Hlen in Hsub by (by eapply stale_first_NoDup). done.
Qed.

Lemma runLoop_progress n w :
  store_inv (w_store w) → (∀ ref, ref ∈ dom (hist w) → reliable s ref) →
  wp (runLoop s (replicate n TickerFires)) (λ _ w', store_inv (w_store w') ∧ dom (hist w') = dom (hist w) ∧
    size (outdated_refs T (hist w')) ≤ size (outdated_refs T (hist w)) - n * Z.to_nat (s_batchSize s)) w.
Proof using Hlaw Hans Hctx Hinterval Hbatch Hclock HT.
  revert w. induction n as [|n IH]; intros w Hs Hrel; cbn [replicate runLoop].
  { apply wp_ret. split_and!; [done..|lia]. }
  apply wp_bind. eapply wp_mono; [by apply RefreshTick_progress|]. intros r w1 (Hs1 & Hdom1 & Hsize1).
  eapply wp_mono; [apply IH; [done|by rewrite Hdom1]|]. intros rs w2 (Hs2 & Hdom2 & Hsize2).
  split_and!; [done|congruence|lia].
Qed.
End progress.

(** C19: the scheduler keeps up, one refresh interval behind. Let [T] be an
    instant the backend can represent that lies at least one refresh
    interval before every clock reading of the run. With a positive interval
    and batch size, on a storage that answers every call, with no context
    cancelled, and with ingestors that fetch every watched package (a
    snapshot the backend takes), [Run] leaves no watched package without a
    snapshot from [T] or later once it has ticked as often as there are
    batches in the number of packages without one, whatever the order in
    which maps are ranged over and whatever else is due. For a later [T] this
    is not claimed: a snapshot younger than the interval is not due, and is
    left as it is. *)
Theorem stale_packages_are_refreshed {St} `{Env, UnicodeCase, !Storage St, !StorageLaws St} s T n (w : World St) :
  lawful s → (0 < s_refreshInterval s)%Z → (0 < s_batchSize s)%Z → keep_time T = T →
  (∀ k, answered (call_at k)) → (∀ k, ctx_Err (call_at k) = None) →
  (∀ k, (T + s_refreshInterval s ≤ call_now (call_at k))%Z) →
  store_inv (w_store w) → (∀ ref, ref ∈ dom (hist w) → reliable s ref) →
  size (outdated_refs T (hist w)) ≤ S n * Z.to_nat (s_batchSize s) →
  wp (Run s (replicate n TickerFires)) (λ _ w', ∀ ref l, hist w' !! ref = Some l → ¬ outdated T l) w.
Proof.
  intros Hlaw Hi Hb HT Hans Hctx Hclock Hs Hrel Hn.
  change (Run s (replicate n TickerFires)) with (runLoop s (replicate (S n) TickerFires)).
  eapply wp_mono; [by apply (runLoop_progress s T)|]. intros rs w' (_ & _ & Hsize) ref l Hl Hout.
  assert (ref ∈ outdated_refs T (hist w')) as Hin by (apply elem_of_outdated; eauto).
  assert (outdated_refs T (hist w') ≡ ∅) as He by (apply size_empty_inv; lia). set_solver.
Qed.

(** ** Starvation *)

(** The packages of [B] are staler than every other. *)
Definition stalest (B : gset string) (h : histories) : Prop :=
  ∀ b l t, b ∈ B → h !! b = Some l → newest_snapshot l t →
    ∀ ref l' t', ref ∉ B → h !! ref = Some l' → newest_snapshot l' t' → (t < t')%Z.

Lemma due_stalest `{Keeping} v olderThan limit l (B : gset string) :
  stale_first v olderThan limit l → (0 < limit)%Z → Z.to_nat limit ≤ size B →
  stalest B (v_history v) → (∀ b, b ∈ B → ∃ l, v_history v !! b = Some l ∧ l ≠ []) →
  ∀ ref, ref ∈ l → ref ∈ B.
Proof.
  intros (full & Hnd & Hfull & Hsort & ->) Hlim Hsize Hstalest HB ref.
  unfold limited. rewrite bool_decide_eq_true_2 by done. intros [i Hi]%list_elem_of_lookup.
  assert (i < Z.to_nat limit) as Hilim by (apply lookup_lt_Some in Hi; rewrite length_take in Hi; lia).
  rewrite lookup_take_lt in Hi by done. apply list_lookup_fmap_Some in Hi as ([r t] & -> & Hi).
  destruct (decide (r ∈ B)) as [|Hnin]; [done|]. exfalso. cbn [fst] in Hnin.
  assert ((r, t) ∈ full) as (l & Hl & Hnew & Hold)%Hfull by (by eapply list_elem_of_lookup_2).
  assert (B ⊆ list_to_set (take i full.*1)) as Hsub.
  { intros b Hb. destruct (HB b Hb) as (lb & Hlb & Hne). destruct (newest_exists lb Hne) as [tb Htb].
    pose proof (Hstalest b lb tb Hb Hlb Htb r l t Hnin Hl Hnew) as Hlt.
    assert ((b, tb) ∈ full) as [j Hj]%list_elem_of_lookup by (apply Hfull; exists lb; split_and!; [done..|lia]).
    assert (j < i) as Hji.
    { destruct (decide (j < i)); [done|]. pose proof (stale_sorted full i j _ _ Hsort Hi Hj ltac:(lia)). simpl in *. lia. }
    apply elem_of_list_to_set, list_elem_of_lookup. exists j. rewrite lookup_take_lt by done.
    by rewrite list_lookup_fmap, Hj. }
  apply subseteq_size in Hsub. rewrite size_list_to_set in Hsub.
  - rewrite length_take in Hsub. lia.
  - eapply sublist_NoDup; [exact Hnd|apply sublist_take].
Qed.

(** A batch of packages that cannot be fetched stops the scheduler for
    good. As long as the stalest packages, a batch of them or more, always
    fail (withdrawn upstream, of an ecosystem without ingestor, or refused by
    the backend), [Run]
    never saves a snapshot of any package, however often it ticks and
    although every other package could be fetched. *)
Theorem failing_packages_starve_the_rest {St} `{Env, UnicodeCase, !Storage St, !StorageLaws St} s B cases (w : World St) :
  lawful s → (∀ k, answered (call_at k)) → (∀ k, ctx_Err (call_at k) = None) →
  (∀ k, (0 ≤ call_now (call_at k))%Z) → (0 < s_batchSize s)%Z → store_inv (w_store w) →
  Z.to_nat (s_batchSize s) ≤ size B → stalest B (hist w) →
  (∀ b, b ∈ B → hopeless s b ∧ ∃ l, hist w !! b = Some l ∧ l ≠ []) →
  wp (Run s cases) (λ _ w', hist w' = hist w) w.
Proof.
  intros Hlaw Hans Hctx Hclock Hbatch Hs Hsize Hstalest HB.
  assert (∀ w, store_inv (w_store w) → stalest B (hist w) →
    (∀ b, b ∈ B → hopeless s b ∧ ∃ l, hist w !! b = Some l ∧ l ≠ []) →
    wp (RefreshTick s) (λ _ w', store_inv (w_store w') ∧ hist w' = hist w) w) as Hstep.
  { clear w Hs Hstalest HB. intros w Hs Hstalest HB.
    eapply wp_mono; [by apply (RefreshTick_spec s 0 Hlaw Hans Hctx Hclock)|].
    intros r w' (_ & Hs' & now & refs & added & _ & Hstale & [Ha Ho _ Hh _ _]). split; [done|].
    apply map_eq. intros ref. apply Ho. intros Hin. destruct (Ha ref Hin) as [Hrefs _].
    apply (Hh ref); [|done]. apply HB. eapply due_stalest; [exact Hstale|done..| |exact Hrefs].
    intros b Hb. by apply HB. }
  change (Run s cases) with (runLoop s (TickerFires :: cases)). generalize (TickerFires :: cases). clear cases.
  intros cases. revert w Hs Hstalest HB.
  induction cases as [|[err|] cases IH]; intros w Hs Hstalest HB; cbn [runLoop]; [by apply wp_ret..|].
  apply wp_bind. eapply wp_mono; [by apply Hstep|]. intros r w1 (Hs1 & Heq1).
  eapply wp_mono; [apply IH; [done|rewrite Heq1; done..]|]. intros rs w2 Heq2. congruence.
Qed.

(** ** Examples *)

Definition plain_snapshot (ref : string) (at_ : Time) : PublisherSnapshot :=
  MkPublisherSnapshot 0 ref at_ [] "1.0.0" None "token" None "{}".

(** A registry that knows every package but one. *)
Definition sample_registry : Ingestor := λ _ ref,
  if String.eqb ref "npm:gone" then Err (EWrap "%w: %s" [ref] (ESentinel httpx_ErrNotFound))
  else Ok (plain_snapshot ref 0).

Definition sample_scheduler : Scheduler := MkScheduler {[ "npm:" := sample_registry ]} 10 1.

Lemma sample_ingestor prefix ing :
  s_ingestors sample_scheduler !! prefix = Some ing → prefix = "npm:" ∧ ing = sample_registry.
Proof. unfold sample_scheduler. cbn [s_ingestors]. by intros [<- <-]%lookup_singleton_Some. Qed.

Lemma sample_lawful : lawful sample_scheduler.
Proof.
  intros prefix ing [-> ->]%sample_ingestor. split. intros n ref snap. unfold sample_registry.
  destruct (String.eqb _ _); [done|]. by intros [= <-].
Qed.

Definition snapshot_store (snaps : list PublisherSnapshot) : Store :=
  foldl (λ s snap, (Store_SavePublisherSnapshot (sample_call 0) snap s).1) MemoryStore.New snaps.

Lemma snapshot_store_inv snaps : Store_inv (snapshot_store snaps).
Proof.
  unfold snapshot_store. generalize New_inv. generalize MemoryStore.New.
  induction snaps as [|snap snaps IH]; intros s Hs; [done|]. apply IH. by apply Store_SavePublisherSnapshot_inv.
Qed.

Definition sample_world (snaps : list PublisherSnapshot) : World Store := MkWorld (snapshot_store snaps) [] 0.

Lemma sample_reliable ref :
  HasPrefix ref "npm:" = true → ref ≠ "npm:gone" → @reliable memory_keeping sample_scheduler ref.
Proof.
  intros Hp Hne. split; [by exists "npm:", sample_registry|].
  intros prefix ing n [-> ->]%sample_ingestor _. unfold sample_registry.
  apply String.eqb_neq in Hne as ->. by eexists.
Qed.

Definition two_packages : World Store := sample_world [plain_snapshot "npm:a" 5; plain_snapshot "npm:b" 6].

Lemma stale_packages_are_refreshed_witness :
  size (outdated_refs 90 (v_history (Store_view (w_store two_packages)))) = 2 ∧
  (∀ ref l, v_history (Store_view (w_store (Run sample_scheduler [TickerFires] two_packages).2)) !! ref = Some l →
    ¬ outdated 90 l).
Proof.
  split; [vm_compute; reflexivity|].
  apply (stale_packages_are_refreshed (StorageLaws0 := Store_StorageLaws) sample_scheduler 90 1 two_packages).
  - apply sample_lawful.
  - done.
  - done.
  - done.
  - apply sample_answered.
  - done.
  - intros k. cbn. lia.
  - apply snapshot_store_inv.
  - intros ref Hin. assert (ref ∈ ({["npm:a"; "npm:b"]} : gset string)) as Hr by exact Hin.
    apply elem_of_union in Hr as [->%elem_of_singleton| ->%elem_of_singleton]; by apply sample_reliable.
  - vm_compute. lia.
Defined.

Definition gone_and_alive : World Store := sample_world [plain_snapshot "npm:gone" 5; plain_snapshot "npm:a" 6].

Lemma gone_lookup ref l :
  v_history (Store_view (w_store gone_and_alive)) !! ref = Some l →
  ref = "npm:gone" ∧ PublisherSnapshot_SnapshotAt <$> l = [5%Z] ∨
  ref = "npm:a" ∧ PublisherSnapshot_SnapshotAt <$> l = [6%Z].
Proof.
  intros Hl. apply elem_of_map_to_list in Hl. vm_compute in Hl.
  repeat (apply elem_of_cons in Hl as [Hl|Hl]; [injection Hl as -> ->; vm_compute; auto|]).
  by apply not_elem_of_nil in Hl.
Qed.

Lemma failing_packages_starve_the_rest_witness :
  v_history (Store_view (w_store (Run sample_scheduler (replicate 5 TickerFires) gone_and_alive).2)) =
    v_history (Store_view (w_store gone_and_alive)) ∧ @reliable memory_keeping sample_scheduler "npm:a".
Proof.
  split; [|by apply sample_reliable].
  apply (failing_packages_starve_the_rest (StorageLaws0 := Store_StorageLaws) sample_scheduler {["npm:gone"]}
    (replicate 5 TickerFires) gone_and_alive).
  - apply sample_lawful.
  - apply sample_answered.
  - done.
  - intros k. cbn. lia.
  - done.
  - apply snapshot_store_inv.
  - vm_compute. lia.
  - intros b l t ->%elem_of_singleton Hl [(sn & Hsn & Hat) _] ref l' t' Hne%not_elem_of_singleton Hl' [(sn' & Hsn' & Hat') _].
    apply gone_lookup in Hl as [[_ Hl]|[? _]]; [|done]. apply gone_lookup in Hl' as [[? _]|[_ Hl']]; [done|].
    apply (list_elem_of_fmap_2 PublisherSnapshot_SnapshotAt) in Hsn, Hsn'. rewrite Hl in Hsn. rewrite Hl' in Hsn'.
    apply list_elem_of_singleton in Hsn, Hsn'. lia.
  - intros b ->%elem_of_singleton. split.
    + intros prefix ing n snap [-> ->]%sample_ingestor _ [=].
    + eexists. split; [vm_compute; reflexivity|done].
Defined.
