(* ===== verification/Monitoring.v ===== *)
(** * The whole engine: requests, refresh ticks and anomaly ticks

    The publisher scheduler fills the snapshot histories that the anomaly
    orchestrator reads. This file interleaves requests with both ticks and
    shows what the composition does from a fresh start: the list of packages
    to refresh is made of the packages that already have a snapshot, and
    nothing but a refresh saves one. *)

From S2P Require Import Prelude GoStrings GoText Json Domain Matcher Storage MemoryStore Wire Engine Samples Sbom SbomNpm Matching Detector Orchestrator Handlers EngineInvariant HandlerSpecs System Scheduler.
From stdpp Require Import options.

Inductive Step :=
  | SServe (req : Request)
  | SAnomalyTick
  | SRefreshTick.

Definition take_step {St} `{Env, UnicodeCase, !Storage St, Semver, SBOMParser, ULIDTime}
    (o : Orchestrator St) (s : Scheduler) (a : Step) : M St unit :=
  match a with
  | SServe req => serve req;; mret ()
  | SAnomalyTick => Tick o;; mret ()
  | SRefreshTick => RefreshTick s;; mret ()
  end.

Fixpoint take_steps {St} `{Env, UnicodeCase, !Storage St, Semver, SBOMParser, ULIDTime}
    (o : Orchestrator St) (s : Scheduler) (steps : list Step) : M St unit :=
  match steps with
  | [] => mret ()
  | a :: steps' => take_step o s a;; take_steps o s steps'
  end.

(** ** Requests leave the publisher tables alone *)

Section requests.
Context {St : Type} `{Env, UnicodeCase, !Storage St, !StorageLaws St}.
Implicit Types w : World St.

Definition untouched (v v' : View) : Prop :=
  v_history v' = v_history v ∧ v_anomalies v' = v_anomalies v.

Definition LeavesPublishers {A} (m : M St A) : Prop := ∀ w, store_inv (w_store w) →
  wp m (λ _ w', store_inv (w_store w') ∧ untouched (view (w_store w)) (view (w_store w'))) w.

Lemma leaves_reads {A} (m : M St A) : ReadsOnly m → LeavesPublishers m.
Proof. intros Hm w Hs. destruct (Hm w) as (Heq & _ & _). unfold wp. by rewrite Heq. Qed.

Lemma leaves_ret {A} (a : A) : LeavesPublishers (mret a).
Proof. intros w Hs. by apply wp_ret. Qed.

Lemma leaves_bind {A B} (m : M St A) (f : A → M St B) :
  LeavesPublishers m → (∀ a, LeavesPublishers (f a)) → LeavesPublishers (m ≫= f).
Proof.
  intros Hm Hf w Hs. apply wp_bind. eapply wp_mono; [by apply Hm|]. intros a w1 (Hs1 & Hh1 & Ha1).
  eapply wp_mono; [by apply Hf|]. intros b w2 (Hs2 & Hh2 & Ha2). split; [done|]. split; congruence.
Qed.

Lemma leaves_publish e : LeavesPublishers (publish e).
Proof. intros w Hs. by apply wp_publish. Qed.

Lemma leaves_write (op : Call → St → St * option error) (upd : View → View) accepted :
  (∀ v, untouched v (upd v)) →
  (∀ k s, store_inv s → let '(s', err) := op k s in
     Wrote (store_inv s') (answered k) accepted (view s) (view s') err upd) →
  LeavesPublishers (st_write op).
Proof.
  intros Hupd Hop w Hs. eapply (wp_write op upd); [by apply Hop|..].
  - intros s' Hs' _ Hv. cbn [w_store]. by rewrite Hv.
  - intros s' e Hs' _ [Hv|Hv]; cbn [w_store]; by rewrite Hv.
Qed.

Lemma leaves_incidents {A} (op : Call → St → St * A) :
  (∀ k s, store_inv s → store_inv (op k s).1 ∧ only_incidents (view s) (view (op k s).1)) →
  LeavesPublishers (st_write op).
Proof.
  intros Hop w Hs. destruct (Hop (this_call w) (w_store w) Hs) as [Hs' Ho]. unfold wp, st_write.
  destruct (op _ _) as [s' err]. cbn [fst snd w_store] in *. split; [done|]. by destruct Ho.
Qed.

Lemma leaves_UpsertComponent c : LeavesPublishers (st_write (λ k, UpsertComponent k c)).
Proof. eapply leaves_write; [|intros k s; apply UpsertComponent_law]. done. Qed.

Lemma leaves_UpsertSBOM b : LeavesPublishers (st_write (λ k, UpsertSBOM k b)).
Proof. eapply leaves_write; [|intros k s; apply UpsertSBOM_law]. done. Qed.

Lemma leaves_UpsertIoC i : LeavesPublishers (st_write (λ k, UpsertIoC k i)).
Proof. eapply leaves_write; [|intros k s; apply UpsertIoC_law]. done. Qed.

Lemma leaves_UpsertIncident i : LeavesPublishers (st_write (λ k, UpsertIncident k i)).
Proof. apply leaves_incidents. intros k s. apply UpsertIncident_other. Qed.

Lemma leaves_AppendRemediation id r : LeavesPublishers (st_write (λ k, AppendRemediation k id r)).
Proof. apply leaves_incidents. intros k s. apply AppendRemediation_other. Qed.
End requests.

Create HintDb go_leaves.
#[export] Hint Resolve leaves_ret leaves_publish leaves_UpsertComponent leaves_UpsertSBOM leaves_UpsertIoC
  leaves_UpsertIncident leaves_AppendRemediation : go_leaves.

Ltac leaves :=
  repeat first
    [ progress intros
    | apply leaves_bind
    | solve [eauto with go_leaves]
    | solve [apply leaves_reads; eauto with go_reads]
    | case_match ].

Section handlers.
Context {St : Type} `{Env, UnicodeCase, !Storage St, !StorageLaws St, Semver, SBOMParser}.

Lemma leaves_publishMatched ref ids : LeavesPublishers (publishMatched (St := St) ref ids).
Proof. induction ids as [|id ids IH]; cbn [publishMatched]; leaves. Qed.

Lemma leaves_openLoop now pairs open opened : LeavesPublishers (openLoop (St := St) now pairs open opened).
Proof.
  revert open opened. induction pairs as [|p pairs IH]; intros open opened; cbn [openLoop]; leaves.
Qed.
#[local] Hint Resolve leaves_publishMatched leaves_openLoop : go_leaves.

Lemma leaves_openIncidents pairs : LeavesPublishers (openIncidentsForMatches (St := St) pairs).
Proof. unfold openIncidentsForMatches. leaves. Qed.
#[local] Hint Resolve leaves_openIncidents : go_leaves.

Lemma leaves_serve req : LeavesPublishers (serve (St := St) req).
Proof.
  destruct (read_request req) eqn:Hread; [by apply leaves_reads, serve_ReadsOnly|].
  destruct req; try done; cbn [serve];
    unfold Server_UpsertComponent, SubmitSBOM, SubmitIoC, TransitionIncident, applyTransition, AddRemediation,
      retroactiveMatch, forwardMatch, incidentError, storageError, writeError, writeJSON; leaves.
Qed.
End handlers.

(** ** From a fresh start *)

Section fresh.
Context {St : Type} `{Env, UnicodeCase, !Storage St, !StorageLaws St, Semver, SBOMParser, ULIDTime}.
Implicit Types w : World St.

(** No snapshot and no anomaly. *)
Definition no_publishers (v : View) : Prop := v_history v = ∅ ∧ v_anomalies v = ∅.

Lemma due_empty v olderThan limit l : v_history v = ∅ → stale_first v olderThan limit l → l = [].
Proof.
  intros Hempty Hl. destruct l as [|ref l]; [done|].
  pose proof (stale_known _ _ _ _ ref Hl ltac:(by left)) as Hin. rewrite Hempty in Hin. set_solver.
Qed.

(** Without a history neither tick does anything. *)
Lemma Tick_idle o w :
  store_inv (w_store w) → v_history (view (w_store w)) = ∅ →
  wp (Tick o) (λ _ w', w_store w' = w_store w) w.
Proof.
  intros Hs Hempty. unfold Tick. apply wp_bind, wp_time_Now, wp_bind.
  eapply wp_read; [by apply ListPackagesNeedingRefresh_law| |intros e _; by apply wp_ret].
  intros refs ->%due_empty; [|done]. by apply wp_ret.
Qed.

Lemma RefreshTick_idle s w :
  store_inv (w_store w) → v_history (view (w_store w)) = ∅ →
  wp (RefreshTick s) (λ _ w', w_store w' = w_store w) w.
Proof.
  intros Hs Hempty. unfold RefreshTick. apply wp_bind, wp_time_Now, wp_bind.
  eapply wp_read; [by apply ListPackagesNeedingRefresh_law| |intros e _; by apply wp_ret].
  intros refs ->%due_empty; [|done]. by apply wp_ret.
Qed.

(** C20: publisher monitoring never starts. An engine without snapshots stays
    without snapshots and without anomalies, whatever it is asked, however
    many SBOMs name packages, and however often the refresh scheduler and
    the anomaly orchestrator tick: the scheduler refreshes only packages
    that have a snapshot already, and nothing else saves one. *)
Theorem publisher_monitoring_never_starts o s steps w :
  store_inv (w_store w) → no_publishers (view (w_store w)) →
  wp (take_steps o s steps) (λ _ w', no_publishers (view (w_store w'))) w.
Proof.
  intros Hs Hno. apply (wp_mono _ (λ _ w', store_inv (w_store w') ∧ no_publishers (view (w_store w')))); [|naive_solver].
  revert w Hs Hno. induction steps as [|a steps IH]; intros w Hs Hno; cbn [take_steps]; [by apply wp_ret|].
  apply wp_bind. apply (wp_mono _ (λ _ w', store_inv (w_store w') ∧ no_publishers (view (w_store w'))));
    [|intros _ w' [? ?]; by apply IH].
  destruct Hno as [Hh Ha]. destruct a as [req| |]; cbn [take_step]; apply wp_bind.
  - eapply wp_mono; [by apply leaves_serve|]. intros resp w' (Hs' & Hh' & Ha'). apply wp_ret.
    split; [done|]. split; congruence.
  - eapply wp_mono; [by apply Tick_idle|]. intros r w' Heq. apply wp_ret. rewrite Heq. done.
  - eapply wp_mono; [by apply RefreshTick_idle|]. intros r w' Heq. apply wp_ret. rewrite Heq. done.
Qed.
End fresh.

#[local] Existing Instance npm_parser.
#[local] Instance sample_tick_ulids : ULIDTime := {| ulid_MustNew ms := "TICK" +:+ pretty ms |}.

Definition fresh_world : World Store := MkWorld MemoryStore.New [] 0.

Definition sample_steps : list Step := SRefreshTick :: (SServe <$> sample_requests) ++ [SRefreshTick; SAnomalyTick].

Lemma publisher_monitoring_never_starts_witness :
  let w := (take_steps (MkOrchestrator true [] Hour 200 50) sample_scheduler sample_steps fresh_world).2 in
  no_publishers (Store_view (w_store w)) ∧ ¬ sboms (w_store w) = ∅.
Proof.
  split.
  - apply (publisher_monitoring_never_starts (StorageLaws0 := Store_StorageLaws)); [apply New_inv|done].
  - vm_compute. done.
Defined.
