(* ===== verification/Config.v ===== *)
(** * Configuration

    engine/internal/config/config.go: the defaults, and what the environment
    overrides. The process environment is a finite map. *)

From S2P Require Import Prelude GoStrings GoText Json JsonEncode GoParse.
From stdpp Require Import options.

Record Config := MkConfig {
  HTTPAddr : string;
  LogLevel : string;
  TrustEngine : string;
  ParserStrategy : string;
  NativeSocketPath : string;
  SSEHeartbeatInterval : Duration;
  SSESubscriberBuffer : Z;
  StorageBackend : string;
  DBDSN : string;
  DBMaxConns : Z;
  AuthEnabled : bool;
  AuthSigningKey : string;
  AuthAlgorithm : string;
  AuthAudience : string;
  CORSOrigins : list string;
  CORSAllowAll : bool;
  PublisherEnabled : bool;
  PublisherRefreshInterval : Duration;
  PublisherBatchSize : Z;
  GithubToken : string;
  AnomalyEnabled : bool;
  AnomalyDetectInterval : Duration;
  AnomalyBatchSize : Z;
}.

Definition Default : Config := {|
  HTTPAddr := ":8080";
  LogLevel := "info";
  TrustEngine := "always_trust";
  ParserStrategy := "go";
  NativeSocketPath := "/var/run/rampart/native.sock";
  SSEHeartbeatInterval := 15 * Second;
  SSESubscriberBuffer := 256;
  StorageBackend := "postgres";
  DBDSN := "";
  DBMaxConns := 10;
  AuthEnabled := false;
  AuthSigningKey := "";
  AuthAlgorithm := "HS256";
  AuthAudience := "";
  CORSOrigins := [];
  CORSAllowAll := true;
  PublisherEnabled := false;
  PublisherRefreshInterval := Hour;
  PublisherBatchSize := 50;
  GithubToken := "";
  AnomalyEnabled := false;
  AnomalyDetectInterval := Hour;
  AnomalyBatchSize := 200;
|}.

Definition splitAndTrim (s : string) : list string :=
  if bool_decide (s = "") then []
  else filter (λ t, t ≠ "") (TrimSpace <$> Split s ","%char).

Definition Environ : Type := gmap string string.

(** [os.Getenv]. *)
Definition Getenv (env : Environ) (key : string) : string := default "" (env !! key).

(** The override patterns: a text, a switch, a positive count, a positive
    duration. An empty value and a value that does not read keep the
    default. *)
Definition text_var (env : Environ) (key old : string) : string :=
  let v := Getenv env key in if bool_decide (v = "") then old else v.

Definition truthy (v : string) : bool := EqualFold_true v || String.eqb v "1".

Definition bool_var (env : Environ) (key : string) (old : bool) : bool :=
  let v := Getenv env key in if bool_decide (v = "") then old else truthy v.

Definition positive (o : option Z) (old : Z) : Z :=
  match o with Some n => if bool_decide (0 < n)%Z then n else old | None => old end.

Definition count_var (bits : Z) (env : Environ) (key : string) (old : Z) : Z :=
  let v := Getenv env key in if bool_decide (v = "") then old else positive (Sscanf_d bits v) old.

Definition duration_var (env : Environ) (key : string) (old : Duration) : Duration :=
  let v := Getenv env key in if bool_decide (v = "") then old else positive (ParseDuration v) old.

Definition FromEnv (env : Environ) : Config :=
  let c := Default in {|
  HTTPAddr := HTTPAddr c;
  LogLevel := LogLevel c;
  TrustEngine := TrustEngine c;
  ParserStrategy := text_var env "RAMPART_PARSER_STRATEGY" (ParserStrategy c);
  NativeSocketPath := text_var env "RAMPART_NATIVE_SOCKET" (NativeSocketPath c);
  SSEHeartbeatInterval := SSEHeartbeatInterval c;
  SSESubscriberBuffer := SSESubscriberBuffer c;
  StorageBackend := text_var env "RAMPART_STORAGE" (StorageBackend c);
  DBDSN := text_var env "RAMPART_DB_DSN" (DBDSN c);
  DBMaxConns := count_var 32 env "RAMPART_DB_MAX_CONNS" (DBMaxConns c);
  AuthEnabled := bool_var env "RAMPART_AUTH_ENABLED" (AuthEnabled c);
  AuthSigningKey := text_var env "RAMPART_AUTH_SIGNING_KEY" (AuthSigningKey c);
  AuthAlgorithm := text_var env "RAMPART_AUTH_ALGORITHM" (AuthAlgorithm c);
  AuthAudience := text_var env "RAMPART_AUTH_AUDIENCE" (AuthAudience c);
  CORSOrigins :=
    match env !! "RAMPART_CORS_ORIGINS" with Some v => splitAndTrim v | None => CORSOrigins c end;
  CORSAllowAll :=
    bool_var env "RAMPART_CORS_ALLOW_ALL"
      (match env !! "RAMPART_CORS_ORIGINS" with Some _ => false | None => CORSAllowAll c end);
  PublisherEnabled := bool_var env "RAMPART_PUBLISHER_ENABLED" (PublisherEnabled c);
  PublisherRefreshInterval := duration_var env "RAMPART_PUBLISHER_REFRESH_INTERVAL" (PublisherRefreshInterval c);
  PublisherBatchSize := count_var 64 env "RAMPART_PUBLISHER_BATCH_SIZE" (PublisherBatchSize c);
  GithubToken := text_var env "GITHUB_TOKEN" (GithubToken c);
  AnomalyEnabled := bool_var env "RAMPART_ANOMALY_ENABLED" (AnomalyEnabled c);
  AnomalyDetectInterval := duration_var env "RAMPART_ANOMALY_DETECT_INTERVAL" (AnomalyDetectInterval c);
  AnomalyBatchSize := count_var 64 env "RAMPART_ANOMALY_BATCH_SIZE" (AnomalyBatchSize c);
|}.

(** * Properties *)

Lemma positive_bounds o old hi :
  (0 < old ≤ hi)%Z → (∀ n, o = Some n → (n ≤ hi)%Z) → (0 < positive o old ≤ hi)%Z.
Proof.
  intros Hold Ho. unfold positive. destruct o as [n|]; [|done]. case_bool_decide; [|done].
  specialize (Ho n eq_refl). lia.
Qed.

Lemma count_var_bounds bits env key old :
  (0 < old < 2 ^ (bits - 1))%Z → (0 < count_var bits env key old < 2 ^ (bits - 1))%Z.
Proof.
  intros Hold. unfold count_var. case_bool_decide; [done|].
  assert (0 < positive (Sscanf_d bits (Getenv env key)) old ≤ 2 ^ (bits - 1) - 1)%Z; [|lia].
  apply positive_bounds; [lia|]. intros n Hn%Sscanf_d_range. lia.
Qed.

Lemma duration_var_bounds env key old :
  (0 < old ≤ MaxInt64)%Z → (0 < duration_var env key old ≤ MaxInt64)%Z.
Proof.
  intros Hold. unfold duration_var. case_bool_decide; [done|]. apply positive_bounds; [done|].
  intros n Hn%ParseDuration_range. apply Hn.
Qed.

(** C33: no environment makes the engine start with an unusable number. The
    intervals are positive durations (a ticker panics on any other), the
    batch sizes and the connection limit are positive and fit their types,
    and the address, strategy, backend and algorithm are not empty. *)
Theorem FromEnv_bounds env :
  let c := FromEnv env in
  (0 < DBMaxConns c < 2 ^ 31)%Z ∧
  (0 < PublisherRefreshInterval c ≤ MaxInt64)%Z ∧ (0 < AnomalyDetectInterval c ≤ MaxInt64)%Z ∧
  (0 < PublisherBatchSize c ≤ MaxInt64)%Z ∧ (0 < AnomalyBatchSize c ≤ MaxInt64)%Z ∧
  (0 < SSEHeartbeatInterval c)%Z ∧ (0 < SSESubscriberBuffer c)%Z ∧
  HTTPAddr c ≠ "" ∧ ParserStrategy c ≠ "" ∧ StorageBackend c ≠ "" ∧ AuthAlgorithm c ≠ "".
Proof.
  assert (∀ key old, old ≠ "" → text_var env key old ≠ "") as Htext.
  { intros key old Hold. unfold text_var. by case_bool_decide. }
  pose proof (count_var_bounds 32 env "RAMPART_DB_MAX_CONNS" 10 ltac:(done)).
  pose proof (count_var_bounds 64 env "RAMPART_PUBLISHER_BATCH_SIZE" 50 ltac:(done)).
  pose proof (count_var_bounds 64 env "RAMPART_ANOMALY_BATCH_SIZE" 200 ltac:(done)).
  pose proof (duration_var_bounds env "RAMPART_PUBLISHER_REFRESH_INTERVAL" Hour ltac:(done)).
  pose proof (duration_var_bounds env "RAMPART_ANOMALY_DETECT_INTERVAL" Hour ltac:(done)).
  unfold MaxInt64 in *. change (2 ^ (64 - 1))%Z with (2 ^ 63)%Z in *. change (2 ^ (32 - 1))%Z with (2 ^ 31)%Z in *.
  cbn [FromEnv DBMaxConns PublisherRefreshInterval AnomalyDetectInterval PublisherBatchSize AnomalyBatchSize
    SSEHeartbeatInterval SSESubscriberBuffer HTTPAddr ParserStrategy StorageBackend AuthAlgorithm Default].
  split_and!; try (unfold Second; lia); auto.
Qed.

(** ** Switches *)

Definition is_true_word (v : string) : Prop := str_map lower_byte v = "true" ∨ v = "1".

#[global] Instance is_true_word_dec v : Decision (is_true_word v).
Proof. unfold is_true_word. apply _. Defined.

Lemma truthy_spec v : truthy v = true ↔ is_true_word v.
Proof.
  unfold truthy, EqualFold_true, is_true_word. rewrite orb_true_iff, !String.eqb_eq. done.
Qed.

Lemma bool_var_spec env key old :
  bool_var env key old = true ↔
  is_true_word (Getenv env key) ∨ Getenv env key = "" ∧ old = true.
Proof.
  unfold bool_var. case_bool_decide as Hv; [|rewrite truthy_spec; naive_solver].
  split; [by right|]. intros [[Hw|Hw]|[_ ?]]; [by rewrite Hv in Hw|congruence|done].
Qed.

Lemma elem_of_splitAndTrim o s :
  o ∈ splitAndTrim s ↔ o ≠ "" ∧ ∃ piece, piece ∈ Split s ","%char ∧ o = TrimSpace piece.
Proof.
  unfold splitAndTrim. case_bool_decide as Hs.
  - subst s. split; [by intros ?%not_elem_of_nil|]. intros (Ho & piece & Hp & ->).
    apply list_elem_of_singleton in Hp as ->. by destruct Ho.
  - rewrite list_elem_of_filter, list_elem_of_fmap. naive_solver.
Qed.

(** What opens and closes the engine. Authentication is on exactly when
    the switch reads 1 or true in any casing: any other word, yes or on
    included, leaves every route open. All browser origins are allowed
    exactly when the wildcard switch says so, or is not set and no list of
    origins is given; the list holds the trimmed pieces that are not
    empty. *)
Theorem FromEnv_switches env :
  let c := FromEnv env in
  (AuthEnabled c = true ↔ is_true_word (Getenv env "RAMPART_AUTH_ENABLED")) ∧
  (CORSAllowAll c = true ↔
     is_true_word (Getenv env "RAMPART_CORS_ALLOW_ALL") ∨
     Getenv env "RAMPART_CORS_ALLOW_ALL" = "" ∧ env !! "RAMPART_CORS_ORIGINS" = None) ∧
  (∀ o, o ∈ CORSOrigins c ↔ o ≠ "" ∧ ∃ v piece,
     env !! "RAMPART_CORS_ORIGINS" = Some v ∧ piece ∈ Split v ","%char ∧ o = TrimSpace piece).
Proof.
  cbn [FromEnv AuthEnabled CORSAllowAll CORSOrigins Default]. split_and!.
  - rewrite bool_var_spec. naive_solver.
  - rewrite bool_var_spec. destruct (env !! "RAMPART_CORS_ORIGINS"); naive_solver.
  - intros o. destruct (env !! "RAMPART_CORS_ORIGINS") as [v|].
    + rewrite elem_of_splitAndTrim. naive_solver.
    + split; [by intros ?%not_elem_of_nil|naive_solver].
Qed.
