(* ===== verification/Cli.v ===== *)
(** * The command line: rampart scan

    cli/internal/commands and cli/internal/output: [Dispatch] picks the
    subcommand, [Scan] reads its flags, picks the parser by the name of the
    file, parses the lockfile with the engine's parsers and prints the SBOM
    as text, JSON or SARIF. The file system is a function from paths to
    contents; the effects of [ingestion.Ingest] (a ULID, the time) are those
    of Engine.v over no store. Usage texts on standard error are left out. *)

From S2P Require Import Prelude GoStrings GoText Json JsonEncode JsonIndent GoTime GoFlag Domain Storage Engine Samples Sbom SbomNpm SbomCargo SbomGomod SbomPypi SbomMaven Handlers Native.
From stdpp Require Import options.

(** ** output/formatter.go *)

Record OutSBOM := MkOutSBOM {
  out_ID : string;
  out_ComponentRef : string;
  out_CommitSHA : string;
  out_Ecosystem : string;
  out_GeneratedAt : option Time;
  out_SourceFormat : string;
  out_SourceBytes : Z;
  out_Packages : list PackageVersion;
}.

Inductive Formatter := Text | JSON | SARIF.

Definition Get (format : string) : result Formatter :=
  if String.eqb format "" || String.eqb format "text" then Ok Text
  else if String.eqb format "json" then Ok JSON
  else if String.eqb format "sarif" then Ok SARIF
  else Err (EText "unknown format %q (text | json | sarif)" [format]).

(** ** output/text.go *)

Definition nl : string := byte1 newline.

Definition text_line (label value : string) : string := label +:+ value +:+ nl.

Definition text_package (p : PackageVersion) : string :=
  "  " +:+ PackageVersion_Name p +:+ "@" +:+ PackageVersion_Version p
  +:+ (if bool_decide (PackageVersion_Scope p = []) then ""
       else "  [" +:+ Join (PackageVersion_Scope p) "," +:+ "]")
  +:+ nl.

Definition Text_Write (s : OutSBOM) : string :=
  text_line "Ecosystem:      " (out_Ecosystem s)
  +:+ text_line "Source format:  " (out_SourceFormat s)
  +:+ text_line "Source bytes:   " (pretty (out_SourceBytes s))
  +:+ (if bool_decide (out_ComponentRef s = "") then "" else text_line "Component ref:  " (out_ComponentRef s))
  +:+ (if bool_decide (out_CommitSHA s = "") then "" else text_line "Commit SHA:     " (out_CommitSHA s))
  +:+ text_line "Packages:       " (pretty (Z.of_nat (length (out_Packages s)))) +:+ nl
  +:+ concat_str (text_package <$> out_Packages s).

(** ** output/json.go *)

(** A field with omitempty. *)
Definition omit_empty (name value : string) : list (string * json) :=
  if bool_decide (value = "") then [] else [(name, JString value)].

(** The struct; marshalling a time outside the years 0 to 9999 fails. *)
Definition sbom_json (s : OutSBOM) : option json :=
  generated ← (match out_GeneratedAt s with
               | None => Some []
               | Some t => text ← format_rfc3339 t; Some [("GeneratedAt", JString text)]
               end : option (list (string * json)));
  Some (JObject (
    omit_empty "ID" (out_ID s) ++ omit_empty "ComponentRef" (out_ComponentRef s)
    ++ omit_empty "CommitSHA" (out_CommitSHA s)
    ++ [("Ecosystem", JString (out_Ecosystem s))] ++ generated
    ++ [("SourceFormat", JString (out_SourceFormat s)); ("SourceBytes", json_int (out_SourceBytes s));
        ("Packages", JArray (package_json <$> out_Packages s))])).

Definition JSON_Write (s : OutSBOM) : result string :=
  match sbom_json s with
  | Some v => Ok (Encode v)
  | None => Err (EText "json: error calling MarshalJSON for type *time.Time" [])
  end.

(** ** output/sarif.go *)

Definition obj (members : list (string * json)) : json := marshal_map (list_to_map members).

Definition sarif_json (s : OutSBOM) : json := obj [
  ("version", JString "2.1.0");
  ("$schema", JString "https://json.schemastore.org/sarif-2.1.0.json");
  ("runs", JArray [obj [
    ("tool", obj [("driver", obj [
      ("name", JString "rampart");
      ("version", JString "0.1.0");
      ("informationUri", JString "https://github.com/ugurcan-aytar/rampart");
      ("rules", JArray [])])]);
    ("results", JArray []);
    ("properties", obj [
      ("scanned_ecosystem", JString (out_Ecosystem s));
      ("scanned_source_format", JString (out_SourceFormat s));
      ("scanned_package_count", json_int (Z.of_nat (length (out_Packages s))));
      ("scanned_component_ref", JString (out_ComponentRef s))])]])].

Definition SARIF_Write (s : OutSBOM) : result string := Ok (Encode (sarif_json s)).

Definition Write (f : Formatter) (s : OutSBOM) : result string :=
  match f with
  | Text => Ok (Text_Write s)
  | JSON => JSON_Write s
  | SARIF => SARIF_Write s
  end.

(** ** commands/scan.go *)

Definition resolveEcosystem (explicit path : string) : result string :=
  if bool_decide (explicit ≠ "") then
    if bool_decide (explicit ∈ ["npm"; "gomod"; "cargo"; "pypi"; "maven"]) then Ok explicit
    else Err (EText "scan: unknown --ecosystem %q (want: npm | gomod | cargo | pypi | maven)" [explicit])
  else
    let base := Base path in
    if String.eqb base "go.sum" then Ok "gomod"
    else if String.eqb base "Cargo.lock" then Ok "cargo"
    else if String.eqb base "poetry.lock" || String.eqb base "uv.lock" then Ok "pypi"
    else if String.eqb base "pom.xml" then Ok "maven"
    else if String.eqb base "gradle.lockfile" then Ok "maven"
    else if String.eqb base "requirements.txt" || HasPrefix base "requirements" && HasSuffix base ".txt" then Ok "pypi"
    else Ok "npm".

Definition pypiFormatFor (path : string) : string :=
  let base := Base path in
  if String.eqb base "poetry.lock" then FormatPoetry
  else if String.eqb base "uv.lock" then FormatUV
  else FormatRequirements.

Definition mavenFormatFor (path : string) : string :=
  if String.eqb (Base path) "gradle.lockfile" then FormatGradle else FormatPom.

Definition shapeOf (p : ParsedSBOM) : OutSBOM :=
  MkOutSBOM "" "" "" (ParsedSBOM_Ecosystem p) None (ParsedSBOM_SourceFormat p) (ParsedSBOM_SourceBytes p)
    (ParsedSBOM_Packages p).

Definition withIdentity (s : OutSBOM) (full : SBOM) : OutSBOM :=
  if bool_decide (SBOM_ID full = "") then s
  else MkOutSBOM (SBOM_ID full) (SBOM_ComponentRef full) (SBOM_CommitSHA full) (out_Ecosystem s)
         (Some (SBOM_GeneratedAt full)) (out_SourceFormat s) (out_SourceBytes s) (out_Packages s).

Section scan.
Context `{UnicodeCase, CargoTOML, PypiTOML, PomXML, Env}.

(** [os.ReadFile]. *)
Definition FS : Type := string → result string.

(** The parser of the ecosystem. *)
Definition parseAs (fs : FS) (k : Call) (eco path content : string) : result ParsedSBOM :=
  let wrapped r := match r with Err e => Err (EWrap "parse %s: %w" [path] e) | Ok p => Ok p end in
  if String.eqb eco "npm" then wrapped (SbomNpm.Parse k content)
  else if String.eqb eco "gomod" then
    let gomodContent :=
      if String.eqb (Base path) "go.sum" then
        match fs (Join_path [Dir path; "go.mod"]) with Ok b => b | Err _ => "" end
      else "" in
    wrapped (SbomGomod.Parse k content gomodContent)
  else if String.eqb eco "cargo" then wrapped (SbomCargo.Parse k content)
  else if String.eqb eco "pypi" then wrapped (SbomPypi.Parse k content (pypiFormatFor path))
  else if String.eqb eco "maven" then wrapped (SbomMaven.Parse k content (mavenFormatFor path))
  else Err (EText "scan: unknown ecosystem %q" [eco]).

Definition scan_flags : Flags :=
  {["format" := "text"; "component-ref" := ""; "commit-sha" := ""; "ecosystem" := ""]}.

(** [Scan]: what is printed on standard output, and the error. *)
Definition Scan (fs : FS) (k : Call) (args : list string) : result string :=
  match FlagSet_Parse scan_flags args with
  | Err e => Err e
  | Ok (flags, []) => Err (EText "scan: missing lockfile path" [])
  | Ok (flags, path :: _) =>
      match resolveEcosystem (flag flags "ecosystem") path with
      | Err e => Err e
      | Ok eco =>
          match fs path with
          | Err e => Err (EWrap "open %s: %w" [path] e)
          | Ok content =>
              match parseAs fs k eco path content with
              | Err e => Err e
              | Ok parsed =>
                  let ref := flag flags "component-ref" in
                  let sha := flag flags "commit-sha" in
                  let shape :=
                    if bool_decide (ref ≠ "") || bool_decide (sha ≠ "") then
                      withIdentity (shapeOf parsed) (Handlers.Ingest parsed ref sha (MkWorld () [] 0)).1
                    else shapeOf parsed in
                  match Get (flag flags "format") with
                  | Err e => Err e
                  | Ok f => Write f shape
                  end
              end
          end
      end
  end.

Definition usage : string :=
  "usage: rampart <subcommand> [args]" +:+ nl +:+ nl +:+ "subcommands:" +:+ nl
  +:+ "  scan    Parse a lockfile and print the SBOM (text | json | sarif)" +:+ nl
  +:+ "  help    Print this message" +:+ nl.

(** [Dispatch]: standard output, standard error and the error. *)
Definition Dispatch (fs : FS) (k : Call) (args : list string) : string * string * option error :=
  match args with
  | [] => ("", usage, Some (EText "missing subcommand" []))
  | sub :: rest =>
      if String.eqb sub "scan" then
        match Scan fs k rest with Ok out => (out, "", None) | Err e => ("", "", Some e) end
      else if bool_decide (sub ∈ ["help"; "-h"; "--help"]) then (usage, "", None)
      else ("", usage, Some (EText "unknown subcommand: %s" [sub]))
  end.
End scan.

(** * Properties *)

(** ** JSON *)

Definition parsed_fields : list string := ["Ecosystem"; "Packages"; "SourceFormat"; "SourceBytes"].

(** Members of other names are ignored. *)
Definition ignored (ms : list (string * json)) : Prop := Forall (λ kv, select_field parsed_fields kv.1 = None) ms.

Definition decode_step (acc : option ParsedSBOM) (kv : string * json) : option ParsedSBOM :=
  x ← acc; match select_field parsed_fields kv.1 with Some n => set_ParsedSBOM n x kv.2 | None => Some x end.

Lemma decode_ParsedSBOM_steps x ms : decode_ParsedSBOM x (JObject ms) = foldl decode_step (Some x) ms.
Proof.
  unfold decode_ParsedSBOM, decode_struct. generalize (Some x). induction ms as [|[k v] ms IH]; intros acc; [done|].
  cbn [foldl]. apply IH.
Qed.

Lemma decode_ignored x ms : ignored ms → foldl decode_step (Some x) ms = Some x.
Proof.
  induction 1 as [|kv ms Hk Hms IH]; [done|]. cbn [foldl]. unfold decode_step at 2. cbn [mbind option_bind].
  by rewrite Hk.
Qed.

Lemma decode_scan_members pre g p :
  ignored pre → ignored g → (MinInt64 ≤ ParsedSBOM_SourceBytes p ≤ MaxInt64)%Z →
  decode_ParsedSBOM zero_ParsedSBOM (JObject (
    pre ++ [("Ecosystem", JString (ParsedSBOM_Ecosystem p))] ++ g
    ++ [("SourceFormat", JString (ParsedSBOM_SourceFormat p)); ("SourceBytes", json_int (ParsedSBOM_SourceBytes p));
        ("Packages", JArray (package_json <$> ParsedSBOM_Packages p))])) = Some p.
Proof.
  intros Hpre Hg Hb. destruct p as [eco pkgs fmt nbytes]. cbn [ParsedSBOM_SourceBytes] in Hb.
  assert (decode_slice decode_PackageVersion zero_PackageVersion [] (JArray (package_json <$> pkgs)) = Some pkgs) as Hp.
  { cbn [decode_slice]. rewrite (decode_elems_map _ _ package_json (λ p, p)) by (intros; apply decode_package_json).
    by rewrite list_fmap_id. }
  assert (decode_int 0 (json_int nbytes) = Some nbytes) as Hn.
  { unfold json_int, decode_int. by apply parse_int_pretty. }
  rewrite decode_ParsedSBOM_steps, foldl_app, decode_ignored, foldl_app by done.
  change (foldl decode_step (Some zero_ParsedSBOM) _) with (Some (MkParsedSBOM eco [] "" 0)).
  rewrite foldl_app, decode_ignored by done.
  cbn -[decode_slice decode_int json_int fmap decode_PackageVersion zero_PackageVersion package_json].
  rewrite Hn. cbn -[decode_slice fmap decode_PackageVersion zero_PackageVersion package_json]. by rewrite Hp.
Qed.

(** An SBOM as printed, with the identity apart. *)
Lemma sbom_json_split s v :
  sbom_json s = Some v → ∃ pre g, ignored (sanitize_member <$> pre) ∧ ignored (sanitize_member <$> g) ∧
    v = JObject (pre ++ [("Ecosystem", JString (out_Ecosystem s))] ++ g
      ++ [("SourceFormat", JString (out_SourceFormat s)); ("SourceBytes", json_int (out_SourceBytes s));
          ("Packages", JArray (package_json <$> out_Packages s))]).
Proof.
  assert (∀ name value, select_field parsed_fields (sanitize_string name) = None →
    ignored (sanitize_member <$> omit_empty name value)) as Homit.
  { intros name value Hname. unfold omit_empty. case_bool_decide; [by constructor|]. by repeat constructor. }
  unfold sbom_json. intros Hv.
  exists (omit_empty "ID" (out_ID s) ++ omit_empty "ComponentRef" (out_ComponentRef s) ++ omit_empty "CommitSHA" (out_CommitSHA s)).
  destruct (out_GeneratedAt s) as [t|]; [destruct (format_rfc3339 t) as [text|]; [|done]|];
    cbn [mbind option_bind] in Hv; injection Hv as <-;
    [exists [("GeneratedAt", JString text)]|exists []]; 
    (split_and!; [|by repeat constructor|by rewrite <-!app_assoc]);
    rewrite !fmap_app; repeat apply Forall_app_2; by apply Homit.
Qed.

(** Reading back what was printed: the identity, whatever its bytes, is no
    part of what was parsed. *)
Lemma decode_sanitized s v p :
  sbom_json s = Some v → utf8_sbom p → (MinInt64 ≤ ParsedSBOM_SourceBytes p ≤ MaxInt64)%Z →
  out_Ecosystem s = ParsedSBOM_Ecosystem p → out_SourceFormat s = ParsedSBOM_SourceFormat p →
  out_SourceBytes s = ParsedSBOM_SourceBytes p → out_Packages s = ParsedSBOM_Packages p →
  decode_ParsedSBOM zero_ParsedSBOM (sanitize v) = Some p.
Proof.
  intros Hv Hu Hb H1 H2 H3 H4. destruct (sbom_json_split s v Hv) as (pre & g & Hpre & Hg & ->).
  rewrite H1, H2, H3, H4. unfold utf8_sbom, parsed_json in Hu.
  assert (sanitize_string (ParsedSBOM_Ecosystem p) = ParsedSBOM_Ecosystem p ∧
    map sanitize (package_json <$> ParsedSBOM_Packages p) = package_json <$> ParsedSBOM_Packages p ∧
    sanitize_string (ParsedSBOM_SourceFormat p) = ParsedSBOM_SourceFormat p) as (Heco & Hpk & Hfmt).
  { by injection Hu as ? ? ?. }
  rewrite <-(decode_scan_members (sanitize_member <$> pre) (sanitize_member <$> g) p) by done. f_equal.
  change (sanitize (JObject ?ms)) with (JObject (sanitize_member <$> ms)). f_equal.
  rewrite !fmap_app. f_equal. f_equal; [unfold sanitize_member; by rewrite list_fmap_singleton; cbn [fst snd sanitize]; rewrite Heco|].
  f_equal. unfold sanitize_member. rewrite !fmap_cons. cbn [fst snd sanitize fmap list_fmap].
  change (list_fmap ?f ?l) with (f <$> l). rewrite Hfmt, Hpk. done.
Qed.

Lemma sbom_json_ok s v : sbom_json s = Some v → numbers_ok v = true ∧ (depth v ≤ 4)%Z.
Proof.
  assert (numbers_ok (JArray (package_json <$> out_Packages s)) = true ∧
    (depth (JArray (package_json <$> out_Packages s)) ≤ 3)%Z) as [Hpn Hpd].
  { destruct (parsed_json_ok (MkParsedSBOM "" (out_Packages s) "" 0)) as [Hn Hd].
    unfold parsed_json in Hn, Hd. cbn [ParsedSBOM_Packages numbers_ok depth forallb map snd max_list foldr] in Hn, Hd.
    go_bool. split; [done|]. cbn [depth]. unfold max_list in *. lia. }
  assert (∀ ms : list (string * json), Forall (λ kv, numbers_ok kv.2 = true ∧ (depth kv.2 ≤ 3)%Z) ms →
    numbers_ok (JObject ms) = true ∧ (depth (JObject ms) ≤ 4)%Z) as Hobj.
  { intros ms Hms. cbn [numbers_ok depth]. split.
    - apply Is_true_true, forallb_True. eapply Forall_impl; [exact Hms|]. intros kv [? _]. by apply Is_true_true.
    - pose proof (max_list_bound (λ kv : string * json, depth kv.2) ms 3 ltac:(done)) as Hb.
      rewrite Forall_forall in Hms. enough (max_list (map (λ kv : string * json, depth kv.2) ms) ≤ 3)%Z by lia.
      apply Hb. intros kv Hin. by apply Hms. }
  assert (∀ name value, Forall (λ kv : string * json, numbers_ok kv.2 = true ∧ (depth kv.2 ≤ 3)%Z) (omit_empty name value))
    as Homit.
  { intros name value. unfold omit_empty. case_bool_decide; repeat constructor; cbn; lia. }
  assert (numbers_ok (json_int (out_SourceBytes s)) = true) as Hint by (cbn; apply json_int_ok).
  unfold sbom_json. intros Hv.
  assert (∃ g : list (string * json), Forall (λ kv, numbers_ok kv.2 = true ∧ (depth kv.2 ≤ 3)%Z) g ∧
    v = JObject (omit_empty "ID" (out_ID s) ++ omit_empty "ComponentRef" (out_ComponentRef s)
      ++ omit_empty "CommitSHA" (out_CommitSHA s) ++ [("Ecosystem", JString (out_Ecosystem s))] ++ g
      ++ [("SourceFormat", JString (out_SourceFormat s)); ("SourceBytes", json_int (out_SourceBytes s));
          ("Packages", JArray (package_json <$> out_Packages s))])) as (g & Hg & ->).
  { destruct (out_GeneratedAt s) as [t|]; [destruct (format_rfc3339 t) as [text|]; [|done]|];
      cbn [mbind option_bind] in Hv; injection Hv as <-;
      [exists [("GeneratedAt", JString text)]|exists []]; (split; [repeat constructor; cbn; lia|done]). }
  apply Hobj. repeat apply Forall_app_2; auto; repeat constructor; cbn [snd]; done || (cbn; lia).
Qed.

Section scan_properties.
Context `{UnicodeCase, CargoTOML, PypiTOML, PomXML, Env}.

Lemma withIdentity_fields s full :
  let s' := withIdentity s full in
  out_Ecosystem s' = out_Ecosystem s ∧ out_SourceFormat s' = out_SourceFormat s ∧
  out_SourceBytes s' = out_SourceBytes s ∧ out_Packages s' = out_Packages s.
Proof. unfold withIdentity. by case_bool_decide. Qed.

(** What a successful scan did. *)
Lemma Scan_inv fs k args out :
  Scan fs k args = Ok out →
  ∃ flags path rest eco content parsed f shape,
    FlagSet_Parse scan_flags args = Ok (flags, path :: rest) ∧
    resolveEcosystem (flag flags "ecosystem") path = Ok eco ∧ fs path = Ok content ∧
    parseAs fs k eco path content = Ok parsed ∧ Get (flag flags "format") = Ok f ∧
    (out_Ecosystem shape = ParsedSBOM_Ecosystem parsed ∧ out_SourceFormat shape = ParsedSBOM_SourceFormat parsed ∧
     out_SourceBytes shape = ParsedSBOM_SourceBytes parsed ∧ out_Packages shape = ParsedSBOM_Packages parsed) ∧
    Write f shape = Ok out.
Proof.
  unfold Scan. destruct (FlagSet_Parse _ _) as [[flags [|path rest]]|e]; [done| |done].
  destruct (resolveEcosystem _ _) as [eco|e] eqn:He; [|done]. destruct (fs path) as [content|e] eqn:Hf; [|done].
  destruct (parseAs _ _ _ _ _) as [parsed|e] eqn:Hp; [|done].
  destruct (Get _) as [f|e] eqn:Hg; [|done]. intros Hw.
  match type of Hw with Write _ ?sh = _ => set (shape := sh) in Hw end.
  exists flags, path, rest, eco, content, parsed, f, shape. split_and!; try done;
    unfold shape; case_match; try done; apply withIdentity_fields.
Qed.

(** C40: what the command line prints as JSON is what the parser found. When a
    scan with the JSON format succeeds, its output reads back (as an engine
    or any Go program would decode it) as exactly the SBOM that the parser
    of the detected ecosystem returned for the file, packages in order and
    nothing lost to the layout, the omitted fields or the identity that the
    flags add, provided its strings are UTF-8. *)
Theorem scan_json_roundtrip fs k args out :
  Scan fs k args = Ok out →
  (∃ flags rest, FlagSet_Parse scan_flags args = Ok (flags, rest) ∧ flag flags "format" = "json") →
  ∃ flags path rest eco content parsed,
    FlagSet_Parse scan_flags args = Ok (flags, path :: rest) ∧
    resolveEcosystem (flag flags "ecosystem") path = Ok eco ∧ fs path = Ok content ∧
    parseAs fs k eco path content = Ok parsed ∧
    ((MinInt64 ≤ ParsedSBOM_SourceBytes parsed ≤ MaxInt64)%Z →
     utf8_sbom parsed → Unmarshal decode_ParsedSBOM zero_ParsedSBOM out = Ok parsed).
Proof.
  intros Hscan (flags' & rest' & Hflags' & Hfmt).
  destruct (Scan_inv _ _ _ _ Hscan) as (flags & path & rest & eco & content & parsed & f & shape &
    Hflags & Heco & Hfs & Hparse & Hget & (Hs1 & Hs2 & Hs3 & Hs4) & Hw).
  rewrite Hflags in Hflags'. injection Hflags' as <- <-. rewrite Hfmt in Hget. injection Hget as <-.
  exists flags, path, rest, eco, content, parsed. split_and!; [done..|]. intros Hb Hutf8.
  cbn [Write] in Hw. unfold JSON_Write in Hw. destruct (sbom_json shape) as [v|] eqn:Hv; [|done].
  injection Hw as <-. destruct (sbom_json_ok _ _ Hv) as [Hn Hd].
  unfold Unmarshal. rewrite Encode_parse; [|done|unfold maxNestingDepth; lia].
  by rewrite (decode_sanitized shape v parsed).
Qed.
End scan_properties.

(** ** Which parser *)

(** The parser is picked by the last element of the path alone, and a file
    of a requirements directory, which the comment in resolveEcosystem names
    as handled, is not: it goes to the npm parser, which refuses it. *)
Theorem requirements_directory_is_npm :
  resolveEcosystem "" "app/requirements-dev.txt" = Ok "pypi" ∧
  resolveEcosystem "" "requirements/prod.txt" = Ok "npm" ∧
  ∀ k, ∃ e, SbomNpm.Parse k ("flask==3.0.0" +:+ nl) = Err e.
Proof.
  split_and!; [done..|]. intros k. unfold SbomNpm.Parse. destruct (ctx_Err k) as [e|]; [by exists e|].
  by exists (EWrap "%w: %v" ["json: syntax error"] (ESentinel npm_ErrMalformedLockfile)).
Qed.

(** ** Examples *)

#[local] Instance no_cargo_toml : CargoTOML := {| toml_Decode _ := Err (EText "toml" []) |}.
#[local] Instance no_pypi_toml : PypiTOML := {| toml_Unmarshal _ := Err (EText "toml" []) |}.
#[local] Instance no_pom_xml : PomXML := {| xml_Unmarshal _ := Err (EText "xml" []) |}.

Definition sample_fs : FS := λ path,
  if String.eqb path "web/package-lock.json" then Ok sample_lockfile else Err (EText "no such file" []).

Definition sample_args : list string :=
  ["--format=json"; "--component-ref"; "kind:Component/default/web"; "web/package-lock.json"].

Definition sample_output : string := Eval vm_compute in
  match Scan sample_fs (sample_call 0) sample_args with Ok out => out | Err _ => "" end.

Definition sample_scanned : ParsedSBOM := Eval vm_compute in
  match SbomNpm.Parse (sample_call 0) sample_lockfile with Ok p => p | Err _ => zero_ParsedSBOM end.

Definition sample_flags : Flags :=
  <["component-ref" := "kind:Component/default/web"]> (<["format" := "json"]> scan_flags).

Lemma sample_flags_eq : FlagSet_Parse scan_flags sample_args = Ok (sample_flags, ["web/package-lock.json"]).
Proof. vm_compute. reflexivity. Qed.

Lemma sample_go_parse : SbomNpm.Parse (sample_call 0) sample_lockfile = Ok sample_scanned.
Proof. vm_compute. reflexivity. Qed.

Lemma sample_parse_eq :
  parseAs sample_fs (sample_call 0) "npm" "web/package-lock.json" sample_lockfile = Ok sample_scanned.
Proof. vm_compute. reflexivity. Qed.

Lemma sample_scan_eq : Scan sample_fs (sample_call 0) sample_args = Ok sample_output.
Proof. vm_compute. reflexivity. Qed.

Lemma sample_utf8 : utf8_sbom sample_scanned.
Proof. vm_compute. reflexivity. Qed.

Lemma scan_json_roundtrip_witness :
  Unmarshal decode_ParsedSBOM zero_ParsedSBOM sample_output = Ok sample_scanned ∧
  ParsedSBOM_Packages sample_scanned ≠ [].
Proof.
  split; [|discriminate].
  destruct (scan_json_roundtrip sample_fs (sample_call 0) sample_args sample_output) as
    (flags & path & rest & eco & content & parsed & Hflags & Heco & Hfs & Hparse & Hround).
  - exact sample_scan_eq.
  - exists sample_flags, ["web/package-lock.json"]. split; [exact sample_flags_eq|reflexivity].
  - rewrite sample_flags_eq in Hflags. injection Hflags as <- <- _.
    change (Ok "npm" = Ok eco) in Heco. injection Heco as <-.
    change (Ok sample_lockfile = Ok content) in Hfs. injection Hfs as <-.
    rewrite sample_parse_eq in Hparse. injection Hparse as <-.
    apply Hround; [split; discriminate|exact sample_utf8].
Defined.
