(* ===== verification/App.v ===== *)
(** * The application

    engine/internal/app/app.go: what the process builds from its environment
    (storage, server, scheduler, orchestrator) and the parse-sbom command.
    The Postgres backend is given by its two entry points, migrating and
    opening, and by its storage operations. [Run] is the sequence of what the
    process starts and stops; the goroutines themselves and logging are left
    out. *)

From S2P Require Import Prelude GoStrings GoText Json JsonEncode JsonIndent GoURL GoMux GoTime GoParse GoFlag Domain Matcher Bus Storage Sbom SbomNpm MemoryStore Wire Engine Samples Detector MaintainerDrift OidcRegression VersionJump Orchestrator Handlers EngineInvariant Router Auth Native Httpx NpmIngestor GithubIngestor Scheduler Config Cli.
From stdpp Require Import options.

(** ** The server *)

(** api/server.go; a parser is the one method of its interface. *)
Record Server := MkServer {
  srv_events : Bus;
  srv_heartbeatInterval : Duration;
  srv_parser : Call → string → result ParsedSBOM;
  srv_auth : AuthOptions;
  srv_cors : CORSOptions;
}.

Definition zero_AuthOptions : AuthOptions := MkAuthOptions false "" "" "" [].

Definition NewServer (bus : Bus) (heartbeat : Duration) : Server :=
  MkServer bus heartbeat SbomNpm.Parse zero_AuthOptions DefaultCORSOptions.

Definition Server_SetAuth (s : Server) (opts : AuthOptions) : Server :=
  MkServer (srv_events s) (srv_heartbeatInterval s) (srv_parser s) (SetAuth opts) (srv_cors s).

Definition SetParser (s : Server) (p : Call → string → result ParsedSBOM) : Server :=
  MkServer (srv_events s) (srv_heartbeatInterval s) p (srv_auth s) (srv_cors s).

Definition Server_SetCORS (s : Server) (opts : CORSOptions) : Server :=
  MkServer (srv_events s) (srv_heartbeatInterval s) (srv_parser s) (srv_auth s) opts.

(** The native client as the interface the npm package declares. A panic of
    the client is no value; it has none ([native_client_total]). *)
Definition native_New (sock : Socket) : NativeClient := {|
  ParseNPMLockfile _ content :=
    default (Err (EText "panic" [])) (Client_ParseNPMLockfile sock content);
  Ping _ := Client_Ping sock;
|}.

(** trust/always_trust.go. *)
Definition AlwaysTrust_Evaluate (profile : PublisherProfile) : result (list PublisherSignal) := Ok [].

(** ** Storage *)

(** The backends: [storage.Storage] holds one of them, to which its methods
    go. *)
Definition Backend (Pg : Type) : Type := (Store + Pg)%type.

Definition backend_read {Pg A} (f : Store → A) (g : Pg → A) (s : Backend Pg) : A :=
  match s with inl m => f m | inr p => g p end.

Definition backend_write {Pg A} (f : Store → Store * A) (g : Pg → Pg * A) (s : Backend Pg) : Backend Pg * A :=
  match s with
  | inl m => let '(m', x) := f m in (inl m', x)
  | inr p => let '(p', x) := g p in (inr p', x)
  end.

#[export] Instance Backend_Storage {Pg} `{UnicodeCase, !Storage Pg} : Storage (Backend Pg) := {|
  UpsertComponent a b := backend_write (UpsertComponent a b) (UpsertComponent a b);
  GetComponent a b := backend_read (GetComponent a b) (GetComponent a b);
  ListComponents a := backend_read (ListComponents a) (ListComponents a);
  UpsertSBOM a b := backend_write (UpsertSBOM a b) (UpsertSBOM a b);
  GetSBOM a b := backend_read (GetSBOM a b) (GetSBOM a b);
  ListSBOMsByComponent a b := backend_read (ListSBOMsByComponent a b) (ListSBOMsByComponent a b);
  ListSBOMPackages a b c := backend_read (ListSBOMPackages a b c) (ListSBOMPackages a b c);
  UpsertIoC a b := backend_write (UpsertIoC a b) (UpsertIoC a b);
  GetIoC a b := backend_read (GetIoC a b) (GetIoC a b);
  ListIoCs a := backend_read (ListIoCs a) (ListIoCs a);
  UpsertIncident a b := backend_write (UpsertIncident a b) (UpsertIncident a b);
  GetIncident a b := backend_read (GetIncident a b) (GetIncident a b);
  ListIncidents a := backend_read (ListIncidents a) (ListIncidents a);
  ListIncidentsFiltered a b := backend_read (ListIncidentsFiltered a b) (ListIncidentsFiltered a b);
  MatchedComponentRefsByIoC a b := backend_read (MatchedComponentRefsByIoC a b) (MatchedComponentRefsByIoC a b);
  AppendRemediation a b c := backend_write (AppendRemediation a b c) (AppendRemediation a b c);
  ListRemediations a b := backend_read (ListRemediations a b) (ListRemediations a b);
  UpsertPublisher a b := backend_write (UpsertPublisher a b) (UpsertPublisher a b);
  GetPublisher a b c := backend_read (GetPublisher a b c) (GetPublisher a b c);
  UpsertPublisherProfile a b := backend_write (UpsertPublisherProfile a b) (UpsertPublisherProfile a b);
  GetPublisherProfile a b c := backend_read (GetPublisherProfile a b c) (GetPublisherProfile a b c);
  ListPublishers a b := backend_read (ListPublishers a b) (ListPublishers a b);
  SavePublisherSnapshot a b := backend_write (SavePublisherSnapshot a b) (SavePublisherSnapshot a b);
  GetPublisherHistory a b c := backend_read (GetPublisherHistory a b c) (GetPublisherHistory a b c);
  ListPackagesNeedingRefresh a b c := backend_read (ListPackagesNeedingRefresh a b c) (ListPackagesNeedingRefresh a b c);
  SaveAnomaly a b := backend_write (SaveAnomaly a b) (SaveAnomaly a b);
  GetAnomaly a b := backend_read (GetAnomaly a b) (GetAnomaly a b);
  ListAnomalies a b := backend_read (ListAnomalies a b) (ListAnomalies a b);
|}.

Section app.
Context {Pg : Type}.
Context (MigrateUp : string → option error) (Open : string → Z → result Pg).

Definition openStorage (cfg : Config.Config) : result (Backend Pg) :=
  if bool_decide (StorageBackend cfg = "") || bool_decide (StorageBackend cfg = "memory")
  then Ok (inl MemoryStore.New)
  else if bool_decide (StorageBackend cfg = "postgres") then
    if bool_decide (DBDSN cfg = "") then Err (EText "storage=postgres but RAMPART_DB_DSN is empty" [])
    else match MigrateUp (DBDSN cfg) with
         | Some e => Err (EWrap "postgres: migrate: %w" [] e)
         | None => match Open (DBDSN cfg) (DBMaxConns cfg) with
                   | Err e => Err e
                   | Ok s => Ok (inr s)
                   end
         end
  else Err (EText "unknown RAMPART_STORAGE=%q (expected memory or postgres)" [StorageBackend cfg]).

(** ** Construction *)

Record App := MkApp {
  app_cfg : Config.Config;
  app_storage : Backend Pg;
  app_trust : PublisherProfile → result (list PublisherSignal);
  app_server : Server;
  app_effectiveStrategy : string;
}.

(** [dial]: what listens at a socket path. *)
Definition New (dial : string → Socket) (k : Call) (cfg : Config.Config) : result App :=
  match openStorage cfg with
  | Err e => Err e
  | Ok store =>
      let bus := NewBus (SSESubscriberBuffer cfg) in
      let effective :=
        EffectiveStrategy k (ParserStrategy cfg) (Some (native_New (dial (NativeSocketPath cfg)))) in
      let apiServer := NewServer bus (SSEHeartbeatInterval cfg) in
      let apiServer := Server_SetAuth apiServer
        (MkAuthOptions (AuthEnabled cfg) (AuthSigningKey cfg) (AuthAlgorithm cfg) (AuthAudience cfg)
           DefaultExemptPaths) in
      let d := DefaultCORSOptions in
      let apiServer := Server_SetCORS apiServer
        (MkCORSOptions (CORSAllowAll cfg) (CORSOrigins cfg) (AllowedMethods d) (AllowedHeaders d)
           (ExposedHeaders d)) in
      Ok (MkApp cfg store AlwaysTrust_Evaluate apiServer effective)
  end.

(** [runServer] up to [Run]. *)
Definition runServer (dial : string → Socket) (k : Call) (env : Environ) : result App :=
  match New dial k (FromEnv env) with
  | Err e => Err (EWrap "new app: %w" [] e)
  | Ok a => Ok a
  end.

(** ** Background loops *)

Definition wiredIngestors (newRequest : string → option error) (net : nat → Z → Exchange)
    (cfg : Config.Config) : gmap string Scheduler.Ingestor :=
  let github := github_ingestor newRequest (GithubNew (MkGithubConfig "" (GithubToken cfg) "")) net in
  {[ "npm:" := npm_ingestor newRequest (NpmIngestor.New (NpmIngestor.MkConfig "" "")) net;
     "gomod:" := github;
     "github:" := github ]}.

(** The scheduler whose loop is started, if one is. *)
Definition startPublisherScheduler `{GoRuntime} (newRequest : string → option error)
    (net : nat → Z → Exchange) (cfg : Config.Config) : option Scheduler :=
  if negb (PublisherEnabled cfg) then None
  else match NewScheduler (MkSchedulerConfig true (wiredIngestors newRequest net cfg)
               (PublisherRefreshInterval cfg) (PublisherBatchSize cfg)) with
       | Err _ => None
       | Ok sch => Some sch
       end.

Definition startAnomalyOrchestrator {St} `{Env, SemverFields} (cfg : Config.Config) :
    option (Orchestrator St) :=
  if negb (AnomalyEnabled cfg) then None
  else match NewOrchestrator (MkOrchestratorConfig true true
               [MaintainerDrift.New; OidcRegression.New; VersionJump.New]
               (AnomalyDetectInterval cfg) (AnomalyBatchSize cfg) 0) with
       | Err _ => None
       | Ok orch => Some orch
       end.

(** ** parse-sbom *)

Definition defaultNativeSocket (env : Environ) : string :=
  text_var env "RAMPART_NATIVE_SOCKET" "/tmp/rampart-native.sock".

Definition parse_flags (env : Environ) : Flags :=
  {["parser" := "go"; "component-ref" := ""; "commit-sha" := "";
    "native-socket" := defaultNativeSocket env]}.

(** A [domain.SBOM] as encoding/json writes it. *)
Definition full_sbom_json (s : SBOM) : option json :=
  text ← format_rfc3339 (SBOM_GeneratedAt s);
  Some (JObject [
    ("ID", JString (SBOM_ID s)); ("ComponentRef", JString (SBOM_ComponentRef s));
    ("CommitSHA", JString (SBOM_CommitSHA s)); ("Ecosystem", JString (SBOM_Ecosystem s));
    ("GeneratedAt", JString text); ("Packages", JArray (package_json <$> SBOM_Packages s));
    ("SourceFormat", JString (SBOM_SourceFormat s)); ("SourceBytes", json_int (SBOM_SourceBytes s))]).

(** [os.Open] and [io.ReadAll]: a file that cannot be opened, or read. *)
Inductive File := CannotOpen (e : error) | CannotRead (e : error) | Content (s : string).

Definition runParseSBOM `{Env} (dial : string → Socket) (fs : string → File) (env : Environ)
    (k : Call) (args : list string) : result string :=
  match FlagSet_Parse (parse_flags env) args with
  | Err e => Err e
  | Ok (flags, []) => Err (EText "parse-sbom: missing lockfile path" [])
  | Ok (flags, path :: _) =>
      match fs path with
      | CannotOpen e => Err (EWrap "open %s: %w" [path] e)
      | CannotRead e => Err (EWrap "read %s: %w" [path] e)
      | Content content =>
          let sp := MkStrategyParser (flag flags "parser")
            (Some (native_New (dial (flag flags "native-socket")))) in
          match StrategyParser_Parse sp k content with
          | Err e => Err (EWrap "parse %s: %w" [path] e)
          | Ok parsed =>
              let ref := flag flags "component-ref" in
              let sha := flag flags "commit-sha" in
              if bool_decide (ref = "") && bool_decide (sha = "") then Ok (Encode (parsed_json parsed))
              else match full_sbom_json (Handlers.Ingest parsed ref sha (MkWorld () [] 0)).1 with
                   | Some v => Ok (Encode v)
                   | None => Err (EText "json: error calling MarshalJSON for type time.Time" [])
                   end
          end
      end
  end.

(** [apiServer.Handler()]: the parser is the one the server holds, and the
    response writer of net/http can flush. *)
Definition app_handler `{UnicodeCase, UnicodeUpper, PublicKeys, JWT, ParamRuntime, Env, !Storage Pg, Semver}
    (a : App) : HttpHandler (St := Backend Pg) :=
  let parser : SBOMParser := {| Parse := srv_parser (app_server a) |} in
  ServerHandler (srv_auth (app_server a)) (srv_cors (app_server a)) true.

(** ** Run *)

(** What the process does that outlives a call: the two loops, the listener
    and the storage handles. *)
Inductive loop := PublisherLoop | AnomalyLoop.

Inductive action := Listens (addr : string) | Starts (l : loop) | Serves | ShutsDown | Stops (l : loop) | Closes.

(** How serving ends: [Serve] fails, returns [ErrServerClosed], or the context
    is cancelled first and [Shutdown] returns. *)
Inductive served := ServeFailed (e : error) | ServerClosed | Cancelled (shutdown : option error).

(** [App.Run]: the deferred stops run in reverse order. *)
Definition Run `{Env, SemverFields, GoRuntime} (newRequest : string → option error) (net : nat → Z → Exchange)
    (listen : string → option error) (ends : served) (a : App) : list action * option error :=
  let cfg := app_cfg a in
  match listen (HTTPAddr cfg) with
  | Some e => ([], Some (EWrap "listen %s: %w" [HTTPAddr cfg] e))
  | None =>
      let publisher := if startPublisherScheduler newRequest net cfg is Some _ then true else false in
      let anomaly := if startAnomalyOrchestrator (St := Backend Pg) cfg is Some _ then true else false in
      let when (b : bool) (x : action) : list action := if b then [x] else [] in
      ([Listens (HTTPAddr cfg)] ++ when publisher (Starts PublisherLoop) ++ when anomaly (Starts AnomalyLoop) ++ [Serves]
         ++ (if ends is Cancelled _ then [ShutsDown] else [])
         ++ when anomaly (Stops AnomalyLoop) ++ when publisher (Stops PublisherLoop),
       match ends with ServeFailed e => Some e | ServerClosed => None | Cancelled err => err end)
  end.

(** [runServer] with the deferred [Close]. *)
Definition runProcess `{Env, SemverFields, GoRuntime} (newRequest : string → option error) (net : nat → Z → Exchange)
    (listen : string → option error) (ends : served) (dial : string → Socket) (k : Call) (env : Environ) :
    list action * option error :=
  match runServer dial k env with
  | Err e => ([], Some e)
  | Ok a => let '(actions, err) := Run newRequest net listen ends a in (actions ++ [Closes], err)
  end.

(** What the process goes on with. *)
Inductive Started := Serving (a : App) | Printed (out : string).

Definition Main `{Env} (dial : string → Socket) (fs : string → File) (env : Environ) (k : Call)
    (args : list string) : result Started :=
  match args with
  | "parse-sbom" :: args' =>
      match runParseSBOM dial fs env k args' with Ok out => Ok (Printed out) | Err e => Err e end
  | _ => match runServer dial k env with Ok a => Ok (Serving a) | Err e => Err e end
  end.
End app.

Arguments App : clear implicits.
Arguments Started : clear implicits.

(** * Properties *)

Lemma native_client_total sock k content :
  Client_ParseNPMLockfile sock content = Some (ParseNPMLockfile (native_New sock) k content).
Proof.
  cbn [native_New ParseNPMLockfile]. unfold Client_ParseNPMLockfile. repeat case_bool_decide; try done.
  by destruct (parseDispatch_total sock (npmFrame content)) as [r ->].
Qed.

(** ** Booting *)

Section boot.
Context {Pg : Type} (MigrateUp : string → option error) (Open : string → Z → result Pg).
Context (dial : string → Socket).

Lemma runServer_Ok k env app :
  runServer MigrateUp Open dial k env = Ok app →
  app_cfg app = FromEnv env ∧ openStorage MigrateUp Open (FromEnv env) = Ok (app_storage app) ∧
  srv_auth (app_server app) = MkAuthOptions (AuthEnabled (FromEnv env)) (AuthSigningKey (FromEnv env))
    (AuthAlgorithm (FromEnv env)) (AuthAudience (FromEnv env)) DefaultExemptPaths.
Proof.
  unfold runServer, New. destruct (openStorage _ _ _) as [store|e]; [|done].
  by intros [= <-].
Qed.

Lemma openStorage_Ok cfg :
  (∃ s, openStorage MigrateUp Open cfg = Ok s) ↔
  StorageBackend cfg = "" ∨ StorageBackend cfg = "memory" ∨
  StorageBackend cfg = "postgres" ∧ DBDSN cfg ≠ "" ∧ MigrateUp (DBDSN cfg) = None ∧
  ∃ s, Open (DBDSN cfg) (DBMaxConns cfg) = Ok s.
Proof.
  unfold openStorage. case_bool_decide as H1; [naive_solver|]. case_bool_decide as H2; [naive_solver|].
  case_bool_decide as H3; [|naive_solver]. case_bool_decide as H4; [naive_solver|]. cbn [orb].
  destruct (MigrateUp _); [naive_solver|]. destruct (Open _ _); naive_solver.
Qed.

Lemma runServer_boots k env :
  (∃ app, runServer MigrateUp Open dial k env = Ok app) ↔ ∃ s, openStorage MigrateUp Open (FromEnv env) = Ok s.
Proof. unfold runServer, New. destruct (openStorage _ _ _); naive_solver. Qed.

(** When the engine starts. It starts exactly when the memory backend is
    asked for, or the Postgres backend (which is the default) with a
    connection string under which migrating and opening succeed. In
    particular no other setting, however malformed, keeps it from starting,
    and with an empty environment it does not start. *)
Theorem engine_boots_exactly k env :
  let backend := Getenv env "RAMPART_STORAGE" in
  let dsn := Getenv env "RAMPART_DB_DSN" in
  (∃ app, runServer MigrateUp Open dial k env = Ok app) ↔
  backend = "memory" ∨
  (backend = "" ∨ backend = "postgres") ∧ dsn ≠ "" ∧ MigrateUp dsn = None ∧
  ∃ s, Open dsn (DBMaxConns (FromEnv env)) = Ok s.
Proof.
  intros backend dsn. rewrite runServer_boots, openStorage_Ok.
  assert (StorageBackend (FromEnv env) = if bool_decide (backend = "") then "postgres" else backend) as -> by done.
  assert (DBDSN (FromEnv env) = dsn) as ->.
  { cbn [FromEnv DBDSN Default]. unfold text_var. fold dsn. by case_bool_decide. }
  clearbody backend dsn. case_bool_decide; naive_solver.
Qed.
End boot.

(** ** Starting and stopping *)

(** Loops are stopped in the reverse order of their start, and none runs when
    the storage is closed. *)
Fixpoint bracketed (running : list loop) (actions : list action) : bool :=
  match actions with
  | [] => bool_decide (length running = 0)
  | Starts l :: rest => bracketed (l :: running) rest
  | Stops l :: rest =>
      match running, l with
      | PublisherLoop :: running, PublisherLoop | AnomalyLoop :: running, AnomalyLoop => bracketed running rest
      | _, _ => false
      end
  | Closes :: rest => bool_decide (length running = 0) && bracketed running rest
  | _ :: rest => bracketed running rest
  end.

(** However the process ends, each loop it started has been stopped, the one
    started last first, before the storage is closed, which is the last
    thing it does; when it cannot listen it starts nothing and closes the
    storage; an engine that was not built does nothing. *)
Theorem process_cleans_up {Pg} `{Env, SemverFields, GoRuntime} (MigrateUp : string → option error)
    (Open : string → Z → result Pg) newRequest net listen ends dial k env :
  let '(actions, err) := runProcess MigrateUp Open newRequest net listen ends dial k env in
  bracketed [] actions = true ∧
  match runServer MigrateUp Open dial k env with
  | Ok a => last actions = Some Closes ∧
      (is_Some (listen (HTTPAddr (app_cfg a))) → actions = [Closes] ∧ is_Some err) ∧
      (listen (HTTPAddr (app_cfg a)) = None → Serves ∈ actions)
  | Err _ => actions = [] ∧ is_Some err
  end.
Proof.
  unfold runProcess. destruct (runServer _ _ _ _ _) as [a|e]; [|done]. unfold Run.
  destruct (listen _) as [e|] eqn:Hl; [split_and!; try done; naive_solver|].
  destruct (startPublisherScheduler _ _ _), (startAnomalyOrchestrator _), ends;
    (split_and!; [done|done|by intros [? ?]|intros _; set_solver]).
Qed.

(** ** Access *)

Section access.
Context `{UnicodeCase, UnicodeUpper, PublicKeys, JWT, ParamRuntime} {laws : JWTLaws} `{Env}.
Context {Pg : Type} `{!Storage Pg, Semver} (MigrateUp : string → option error) (Open : string → Z → result Pg).
Context (dial : string → Socket).

(** The generated handler of a server. *)
Definition app_routes (a : App Pg) : HttpHandler (St := Backend Pg) :=
  let parser : SBOMParser := {| Parse := srv_parser (app_server a) |} in
  genHandler (srv_auth (app_server a)) true.

Lemma no_key_no_principal opts raw now p :
  validate raw opts now = Ok p → SigningKey opts ≠ "".
Proof using laws.
  intros (c & Hc & _)%validate_Ok Hk. destruct (parse_sound _ _ _ _ Hc) as [_ [key Hkey]].
  unfold keyFunc in Hkey. by rewrite Hk in Hkey.
Qed.

(** C5: the environment alone decides who gets in. In an engine that has
    started, a request to a route that is not exempt reaches its handler
    without a principal when the authentication switch does not read true;
    when it does, the request is answered with 401 and changes nothing,
    unless a signing key is configured and the verifier accepts its bearer
    token under that key, before its expiry and for the configured audience.
    So an engine switched to authenticate without a key starts (the
    configuration's comment says it does not) and refuses every caller. *)
Theorem environment_decides_access k env app r w :
  runServer MigrateUp Open dial k env = Ok app →
  isExempt (rq_Path r) DefaultExemptPaths = false → rq_Method r ≠ "OPTIONS" →
  let '(resp, w') := app_handler app r None w in
  let reaches ctx w := ∃ resp', app_routes app r ctx w = (resp', w') ∧
    hr_Status resp = hr_Status resp' ∧ hr_Body resp = hr_Body resp' in
  if decide (is_true_word (Getenv env "RAMPART_AUTH_ENABLED")) then
    (hr_Status resp = StatusUnauthorized ∧ w_store w' = w_store w ∧ w_events w' = w_events w) ∨
    Getenv env "RAMPART_AUTH_SIGNING_KEY" ≠ "" ∧
    ∃ c exp scope,
      ParseWithClaims (parserOptions (srv_auth (app_server app)) (call_now (this_call w)))
        (bearerToken (rq_Authorization r)) (keyFunc (srv_auth (app_server app))) = Ok c ∧
      cl_ExpiresAt c = Some exp ∧ (call_now (this_call w) < exp)%Z ∧
      (Getenv env "RAMPART_AUTH_AUDIENCE" ≠ "" → Getenv env "RAMPART_AUTH_AUDIENCE" ∈ cl_Audience c) ∧
      cl_Subject c ≠ "" ∧ reaches (Some (MkPrincipal (cl_Subject c) scope)) (tick w)
  else reaches None w.
Proof using laws.
  intros (_ & _ & Hauth)%runServer_Ok Hex Hm. unfold app_handler, ServerHandler.
  change (genHandler (srv_auth (app_server app)) true) with (app_routes app).
  generalize (app_routes app). intros routes. rewrite Hauth. clear Hauth.
  assert (∀ key, text_var env key "" = Getenv env key) as Htext.
  { intros key. unfold text_var. by case_bool_decide. }
  cbn [FromEnv AuthEnabled AuthSigningKey AuthAlgorithm AuthAudience Default]. rewrite !Htext.
  set (opts := MkAuthOptions _ _ _ _ _). unfold Handler. rewrite CORS_run by done.
  case_decide as Hen.
  - assert (Enabled opts = true) as Hon by (apply bool_var_spec; by left).
    destruct (Auth_cases opts routes r None w Hon Hex)
      as [[_ ->]|[(_ & e & _ & ->)|(p & Hp & _ & ->)]]; [by left|by left|].
    pose proof (no_key_no_principal _ _ _ _ Hp) as Hkey.
    apply validate_Ok in Hp as (c & Hc & Hsub & ->).
    destruct (parse_sound _ _ _ _ Hc) as [((exp & Hexp & Hlt) & _ & Haud) _].
    destruct (routes r _ (tick w)) as [resp' w'] eqn:Hr. right. split; [done|].
    exists c, exp, (normaliseScope (cl_Scope c)). split_and!; [done|done|done| |done|by exists resp'].
    intros Ha. apply Haud. simpl. by rewrite bool_decide_eq_false_2.
  - assert (Enabled opts = false) as Hoff.
    { apply not_true_iff_false. intros [?|[_ ?]]%bool_var_spec; done. }
    unfold Auth. rewrite Hoff. cbn [negb orb].
    destruct (routes r None w) as [resp' w'] eqn:Hr. by exists resp'.
Qed.
End access.

(** ** The background loops *)

Section loops.
Context `{Env} (newRequest : string → option error) (net : nat → Z → Exchange).

(** The ingestor a package reference is meant for: npm packages go to the
    registry, Go modules and repositories to GitHub, the rest to none. *)
Definition route (cfg : Config.Config) (ref : string) : option Scheduler.Ingestor :=
  if HasPrefix ref "npm:" then wiredIngestors newRequest net cfg !! "npm:"
  else if HasPrefix ref "gomod:" || HasPrefix ref "github:" then wiredIngestors newRequest net cfg !! "github:"
  else None.

Lemma wired_prefix cfg prefix ing :
  wiredIngestors newRequest net cfg !! prefix = Some ing →
  (prefix = "npm:" ∨ prefix = "gomod:" ∨ prefix = "github:") ∧ IngestorLaws ing ∧
  ∀ ref, HasPrefix ref prefix = true → route cfg ref = Some ing.
Proof.
  unfold route, wiredIngestors. intros Hp.
  apply lookup_insert_Some in Hp as [[<- <-]|[_ Hp]];
    [|apply lookup_insert_Some in Hp as [[<- <-]|[_ [<- <-]%lookup_singleton_Some]]];
    (split_and!; [by auto|apply _|]); intros ref (t & ->)%HasPrefix_spec; reflexivity.
Qed.

Lemma wired_accepted `{GoRuntime} cfg interval batch :
  (0 < interval)%Z → (0 < batch)%Z →
  NewScheduler (MkSchedulerConfig true (wiredIngestors newRequest net cfg) interval batch)
    = Ok (MkScheduler (wiredIngestors newRequest net cfg) interval batch).
Proof.
  intros Hi Hb. unfold NewScheduler. cbn [sc_Storage sc_Ingestors sc_RefreshInterval sc_BatchSize negb].
  rewrite bool_decide_eq_false_2 by (by vm_compute).
  destruct (List.find _ _) as [prefix|] eqn:Hf.
  - apply find_some in Hf as [Hin Hsuf]. apply list_elem_of_In, list_elem_of_fmap in Hin as ([p ing] & -> & Hin).
    rewrite map_range_perm, elem_of_map_to_list in Hin.
    by destruct (wired_prefix _ _ _ Hin) as [[->|[->| ->]] _].
  - by rewrite !bool_decide_eq_false_2 by lia.
Qed.

Lemma dispatch_wired {St : Type} cfg interval batch ref (w : World St) :
  dispatch (MkScheduler (wiredIngestors newRequest net cfg) interval batch) ref w = (route cfg ref, tick w).
Proof.
  set (order := @map_range (call_rt (this_call w)) _ _ _ _ (wiredIngestors newRequest net cfg)).
  change (dispatch _ ref w) with (find_prefix ref order, tick w). f_equal.
  assert (order ≡ₚ map_to_list (wiredIngestors newRequest net cfg)) as Ho by apply map_range_perm.
  clearbody order. destruct (find_prefix ref order) as [ing|] eqn:Hf.
  - apply find_prefix_Some in Hf as (prefix & Hin & Hp). rewrite Ho, elem_of_map_to_list in Hin.
    symmetry. by apply (wired_prefix cfg prefix ing Hin).
  - assert (∀ prefix, is_Some (wiredIngestors newRequest net cfg !! prefix) → HasPrefix ref prefix = false) as Hno.
    { intros prefix [ing Hing]. eapply find_prefix_None; [done|]. by rewrite Ho, elem_of_map_to_list. }
    unfold route. by rewrite !Hno by (eexists; reflexivity).
Qed.

(** Each switch starts its loop and nothing else does. With the publisher
    switch on, the engine always has a scheduler to run, with a positive
    interval and batch, ingestors that obey their laws, and a dispatch that
    does not depend on the order in which the ingestor map is ranged over:
    npm references go to the registry, gomod and github references to GitHub,
    and every other reference to no ingestor. With the anomaly switch on, it
    always has an orchestrator, over the three detectors and fifty snapshots
    of history. With a switch off its loop is not there. *)
Theorem loops_are_wired `{GoRuntime, SemverFields} {St : Type} env :
  let cfg := FromEnv env in
  (if PublisherEnabled cfg then
     ∃ s, startPublisherScheduler newRequest net cfg = Some s ∧ lawful s ∧
     (0 < s_refreshInterval s)%Z ∧ (0 < s_batchSize s)%Z ∧
     ∀ ref (w : World St), dispatch s ref w = (route cfg ref, tick w)
   else startPublisherScheduler newRequest net cfg = None) ∧
  startAnomalyOrchestrator (St := St) cfg =
    if AnomalyEnabled cfg then
      Some (MkOrchestrator true [MaintainerDrift.New; OidcRegression.New; VersionJump.New]
              (AnomalyDetectInterval cfg) (AnomalyBatchSize cfg) 50)
    else None.
Proof.
  intros cfg. unfold startPublisherScheduler, startAnomalyOrchestrator. split.
  - destruct (PublisherEnabled cfg); [|done]. cbn [negb].
    assert (0 < PublisherRefreshInterval cfg)%Z by (by apply duration_var_bounds).
    assert (0 < PublisherBatchSize cfg)%Z by (by apply (count_var_bounds 64)).
    rewrite wired_accepted by done. eexists. split; [done|].
    split_and!; [|done|done|intros; apply dispatch_wired].
    intros prefix ing Hing. apply (wired_prefix _ _ _ Hing).
  - destruct (AnomalyEnabled cfg); [|done]. unfold NewOrchestrator.
    cbn [cfg_Storage cfg_EventBus cfg_Detectors cfg_TickInterval cfg_BatchSize cfg_HistoryDepth negb].
    assert (0 < AnomalyDetectInterval cfg)%Z by (by apply duration_var_bounds).
    assert (0 < AnomalyBatchSize cfg)%Z by (by apply (count_var_bounds 64)).
    rewrite (bool_decide_eq_false_2 (length _ = 0)) by done.
    rewrite (bool_decide_eq_false_2 (AnomalyDetectInterval _ ≤ 0)%Z) by lia.
    by rewrite (bool_decide_eq_false_2 (AnomalyBatchSize _ ≤ 0)%Z) by lia.
Qed.
End loops.

(** ** parse-sbom *)

Section parse_sbom.
Context `{SidecarParsers, Env}.
Context (dial : string → Socket) (fs : string → File) (env : Environ) (k : Call).
Hypothesis to_vec_json : ∀ p, utf8_sbom p → json_parse (to_vec p) = Some (parsed_json p).

Lemma native_parses content parsed :
  (9 + slen content ≤ MaxFrameBytes)%Z → rs_npm content = inr parsed → fits (inr parsed) →
  ParseNPMLockfile (native_New sidecar) k content = Ok parsed.
Proof using to_vec_json.
  intros Hlen Hrs Hfits. destruct (sidecar_result to_vec_json content "") as [Hnpm _].
  { change (slen "") with 0%Z. lia. }
  rewrite Hrs in Hnpm. specialize (Hnpm Hfits). rewrite (native_client_total sidecar k) in Hnpm.
  by injection Hnpm.
Qed.

(** For the parse-sbom command the two backends are interchangeable. When
    the Go parser and the sidecar's parser read a lockfile as the same SBOM,
    the command prints byte for byte the same for --parser=native with the
    sidecar listening at the socket as for --parser=go, whatever the other
    flags; and without identity flags what it prints reads back as that
    SBOM. *)
Theorem parse_sbom_backends_agree args args' flags path rest rest' content parsed :
  FlagSet_Parse (parse_flags env) args = Ok (<["parser" := "native"]> flags, path :: rest) →
  FlagSet_Parse (parse_flags env) args' = Ok (<["parser" := "go"]> flags, path :: rest') →
  dial (flag flags "native-socket") = sidecar → fs path = Content content →
  (9 + slen content ≤ MaxFrameBytes)%Z → fits (inr parsed) →
  SbomNpm.Parse k content = Ok parsed → rs_npm content = inr parsed →
  runParseSBOM dial fs env k args = runParseSBOM dial fs env k args' ∧
  (flag flags "component-ref" = "" → flag flags "commit-sha" = "" →
   ∃ out, runParseSBOM dial fs env k args = Ok out ∧
     Unmarshal decode_ParsedSBOM zero_ParsedSBOM out = Ok parsed).
Proof using to_vec_json.
  intros Hargs Hargs' Hdial Hfs Hlen Hfits Hgo Hrs.
  unfold runParseSBOM. rewrite Hargs, Hargs', Hfs.
  rewrite !flag_insert_eq, !flag_insert_ne, Hdial by done.
  unfold StrategyParser_Parse. cbn [sp_strategy sp_native].
  change (bool_decide ("native" = StrategyNative)) with true. change (bool_decide ("go" = StrategyNative)) with false.
  change (bool_decide ("go" = StrategyGo)) with true. cbn [orb].
  rewrite (native_parses content parsed), Hgo by done. split; [done|]. intros -> ->.
  eexists. split; [done|]. destruct (parsed_json_ok parsed) as [Hn Hd]. destruct Hfits as (_ & Hint & Hu).
  unfold Unmarshal. rewrite Encode_parse by (done || (unfold maxNestingDepth; lia)).
  by rewrite Hu, decode_parsed_json.
Qed.
End parse_sbom.

(** ** Witnesses *)

#[local] Existing Instance digit_jwt.
#[local] Existing Instance digit_jwt_laws.
#[local] Existing Instance sample_upper.
#[local] Existing Instance no_public_keys.

Definition keyless_env : Environ := {["RAMPART_STORAGE" := "memory"; "RAMPART_AUTH_ENABLED" := "1"]}.

Definition keyless_app : App Empty_set :=
  let cfg := FromEnv keyless_env in
  MkApp cfg (inl MemoryStore.New) AlwaysTrust_Evaluate
    (MkServer (NewBus 256) (15 * Second) SbomNpm.Parse
       (MkAuthOptions true "" "HS256" "" DefaultExemptPaths) DefaultCORSOptions) "go".

(** No database is ever opened. *)
#[local] Instance no_database : Storage Empty_set.
Proof. split; intros; match goal with s : Empty_set |- _ => destruct s end. Defined.

#[local] Existing Instance sample_runtime.

Lemma environment_decides_access_witness :
  let w := MkWorld (inl MemoryStore.New) [] 0 in
  let r := sample_http "Bearer 12" in
  runServer (λ _, None) (λ _ _, Err (EText "closed" [])) (λ _, None) (sample_call 0) keyless_env
    = Ok keyless_app ∧
  hr_Status (app_handler keyless_app r None w).1 = StatusUnauthorized.
Proof.
  intros w r. split; [reflexivity|].
  pose proof (environment_decides_access (λ _, None) (λ _ _, Err (EText "closed" [])) (λ _, None)
    (sample_call 0) keyless_env keyless_app r w eq_refl eq_refl ltac:(discriminate)) as Hacc.
  destruct (app_handler _ _ _ _) as [resp w'].
  destruct (decide _) as [Ht|Hf]; [|destruct Hf; right; reflexivity].
  destruct Hacc as [[Hs _]|[Hk _]]; [exact Hs|destruct Hk; reflexivity].
Defined.

(** A sidecar that answers with what the Go parser finds. *)
Definition agreeing_sidecar : SidecarParsers := {|
  rs_npm _ := inr sample_scanned;
  rs_gomod _ _ := inl (PEEmpty "empty");
  rs_cargo _ := inl (PEMalformed "bad");
  to_vec p := encode (parsed_json p);
  decode_error_text _ := "";
|}.

Lemma agreeing_to_vec_json p :
  utf8_sbom p → json_parse (@to_vec agreeing_sidecar p) = Some (parsed_json p).
Proof. exact (sample_to_vec_json p). Qed.

Definition lockfile_args (parser : string) : list string :=
  ["--parser"; parser; "web/package-lock.json"].

Lemma lockfile_args_native :
  FlagSet_Parse (parse_flags ∅) (lockfile_args "native")
    = Ok (<["parser" := "native"]> (parse_flags ∅), ["web/package-lock.json"]).
Proof. vm_compute. reflexivity. Qed.

Lemma lockfile_args_go :
  FlagSet_Parse (parse_flags ∅) (lockfile_args "go")
    = Ok (<["parser" := "go"]> (parse_flags ∅), ["web/package-lock.json"]).
Proof. vm_compute. reflexivity. Qed.

Lemma sample_fits : @fits agreeing_sidecar (inr sample_scanned).
Proof. split_and!; vm_compute; (reflexivity || discriminate). Qed.

Lemma parse_sbom_backends_agree_witness :
  let run := runParseSBOM (λ _, @sidecar agreeing_sidecar) (λ _, Content sample_lockfile) ∅ (sample_call 0) in
  run (lockfile_args "native") = run (lockfile_args "go") ∧
  ∃ out, run (lockfile_args "native") = Ok out ∧
    Unmarshal decode_ParsedSBOM zero_ParsedSBOM out = Ok sample_scanned.
Proof.
  destruct (@parse_sbom_backends_agree agreeing_sidecar _ (λ _, @sidecar agreeing_sidecar)
    (λ _, Content sample_lockfile) ∅ (sample_call 0) agreeing_to_vec_json _ _ _ _ _ _ sample_lockfile sample_scanned
    lockfile_args_native lockfile_args_go eq_refl eq_refl ltac:(vm_compute; discriminate) sample_fits
    sample_go_parse eq_refl) as [Heq Hout].
  split; [exact Heq|]. apply Hout; reflexivity.
Defined.
