(* ===== verification/Precommit.v ===== *)
(** * The pre-commit hook

    integrations/precommit-hook: checks staged lockfiles before a commit, so
    that none lands that the engine's parser refuses. The contents of the
    named files are given by [fs]; what is written on standard error is left
    out. *)

From S2P Require Import Prelude GoStrings GoText Json JsonEncode Domain Storage MemoryStore Engine Matcher Samples Sbom SbomNpm Cli.
From stdpp Require Import options.

(** [minimalLockfile], whose one field is an int. *)
Definition set_minimalLockfile (_ : string) (old : Z) (v : json) : option Z := decode_int old v.

Definition decode_minimalLockfile : Z → json → option Z :=
  decode_struct ["lockfileVersion"] set_minimalLockfile.

Definition check (fs : FS) (path : string) : option error :=
  match fs path with
  | Err e => Some e
  | Ok body =>
      match Unmarshal decode_minimalLockfile 0%Z body with
      | Err e => Some (EWrap "malformed JSON: %w" [] e)
      | Ok version =>
          if bool_decide (version ≠ 3%Z) then
            Some (EText "lockfileVersion is %d, expected 3" [pretty version])
          else None
      end
  end.

(** [main]: the exit status. *)
Definition precommit (fs : FS) (paths : list string) : Z :=
  let fail := foldl (λ n path, if check fs path is Some _ then S n else n) 0 paths in
  if bool_decide (0 < fail) then 1%Z else 0%Z.

(** * Properties *)

(** The hook's one field is selected by the keys that select the parser's
    field of that name, and by no others. *)
Lemma select_minimal key :
  select_field ["lockfileVersion"] key =
    match select_field Lockfile_tags key with
    | Some n => if String.eqb n "lockfileVersion" then Some n else None
    | None => None
    end.
Proof.
  unfold select_field, Lockfile_tags. cbn [find].
  destruct (String.eqb_spec key "name") as [->|]; [done|].
  destruct (String.eqb_spec key "version") as [->|]; [done|].
  destruct (String.eqb_spec key "lockfileVersion") as [->|]; [done|].
  destruct (String.eqb_spec key "requires") as [->|]; [done|].
  destruct (String.eqb_spec key "packages") as [->|]; [done|].
  generalize (fold_name key). intros f.
  destruct (String.eqb_spec (fold_name "name") f) as [<-|]; [vm_compute; reflexivity|].
  destruct (String.eqb_spec (fold_name "version") f) as [<-|]; [vm_compute; reflexivity|].
  destruct (String.eqb_spec (fold_name "lockfileVersion") f) as [<-|]; [vm_compute; reflexivity|].
  destruct (String.eqb_spec (fold_name "requires") f) as [<-|]; [done|].
  by destruct (String.eqb_spec (fold_name "packages") f) as [<-|].
Qed.

Lemma set_Lockfile_version tag f v f' :
  set_Lockfile tag f v = Some f' →
  if String.eqb tag "lockfileVersion"
  then decode_int (lf_LockfileVersion f) v = Some (lf_LockfileVersion f')
  else lf_LockfileVersion f' = lf_LockfileVersion f.
Proof.
  destruct f as [name ver lver req pkgs]. unfold set_Lockfile.
  destruct (String.eqb_spec tag "name") as [->|]; [intros (x & _ & [= <-])%bind_Some; done|].
  destruct (String.eqb_spec tag "version") as [->|]; [intros (x & _ & [= <-])%bind_Some; done|].
  destruct (String.eqb_spec tag "lockfileVersion") as [->|]; [intros (x & Hx & [= <-])%bind_Some; done|].
  destruct (String.eqb_spec tag "requires") as [->|]; intros (x & _ & [= <-])%bind_Some; done.
Qed.

Lemma decode_minimal_agrees f v f' :
  decode_Lockfile f v = Some f' →
  decode_minimalLockfile (lf_LockfileVersion f) v = Some (lf_LockfileVersion f').
Proof.
  unfold decode_Lockfile, decode_minimalLockfile, decode_struct.
  destruct v as [| | | | |ms]; try done; [by intros [= <-]|].
  revert f'. induction ms as [|[key e] ms IH] using rev_ind; intros f'; [by intros [= <-]|].
  rewrite !foldl_app. cbn [foldl]. intros (f1 & H1 & Hset)%bind_Some.
  rewrite (IH f1 H1), select_minimal. cbn [mbind option_bind].
  destruct (select_field Lockfile_tags key) as [n|]; [|by injection Hset as <-].
  apply set_Lockfile_version in Hset. destruct (String.eqb n "lockfileVersion"); [done|by rewrite Hset].
Qed.

Lemma check_passes fs path k content parsed :
  fs path = Ok content → SbomNpm.Parse k content = Ok parsed → check fs path = None.
Proof.
  intros Hfs. unfold SbomNpm.Parse, check. rewrite Hfs. destruct (ctx_Err k); [done|].
  unfold Unmarshal. destruct (json_parse content) as [v|]; [|done].
  destruct (decode_Lockfile zero_Lockfile v) as [lf|] eqn:Hlf; [|done].
  apply decode_minimal_agrees in Hlf. change (lf_LockfileVersion zero_Lockfile) with 0%Z in Hlf.
  rewrite Hlf. by case_bool_decide.
Qed.

Lemma precommit_zero fs paths : precommit fs paths = 0%Z ↔ ∀ path, path ∈ paths → check fs path = None.
Proof.
  unfold precommit. set (count := foldl _ 0 paths).
  assert (count = 0 ↔ ∀ path, path ∈ paths → check fs path = None) as Hc.
  { subst count. induction paths as [|path paths IH] using rev_ind; [set_solver|].
    rewrite foldl_app. cbn [foldl]. destruct (check fs path) as [e|] eqn:He.
    - split; [done|]. intros Hall. rewrite Hall in He; [done|set_solver].
    - rewrite IH. set_solver. }
  rewrite <- Hc. case_bool_decide; split; try done; lia.
Qed.

(** Lockfiles of the right version: one without packages, and one whose
    packages are a list. *)
Definition no_packages : string := "{" +:+ quote "lockfileVersion" +:+ ":3}".
Definition list_packages : string := "{" +:+ quote "lockfileVersion" +:+ ":3," +:+ quote "packages" +:+ ":[]}".

(** The hook blocks no lockfile that the engine reads: if the parser
    accepts every staged file, the hook exits with 0. The converse, which is
    what the hook is for, does not hold: it looks at the version alone, and
    passes a lockfile without packages, and one whose packages are of the
    wrong type, both of which the parser refuses. *)
Theorem precommit_against_parser fs paths k :
  ((∀ path, path ∈ paths → ∃ content parsed, fs path = Ok content ∧ SbomNpm.Parse k content = Ok parsed) →
   precommit fs paths = 0%Z) ∧
  (∀ content, content ∈ [no_packages; list_packages] →
   precommit (λ _, Ok content) ["package-lock.json"] = 0%Z ∧ ∃ e, SbomNpm.Parse k content = Err e).
Proof.
  split.
  - intros Hall. apply precommit_zero. intros path (content & parsed & Hfs & Hp)%Hall. by eapply check_passes.
  - intros content Hin. split.
    + by repeat (apply elem_of_cons in Hin as [->|Hin]; [vm_compute; reflexivity|]); apply not_elem_of_nil in Hin.
    + unfold SbomNpm.Parse. destruct (ctx_Err k) as [e|]; [by exists e|].
      repeat (apply elem_of_cons in Hin as [->|Hin]); [| |by apply not_elem_of_nil in Hin].
      * by exists (ESentinel npm_ErrEmptyLockfile).
      * by exists (EWrap "%w: %v" ["json: type error"] (ESentinel npm_ErrMalformedLockfile)).
Qed.

Lemma precommit_against_parser_witness :
  precommit sample_fs ["web/package-lock.json"] = 0%Z.
Proof.
  apply (precommit_against_parser sample_fs ["web/package-lock.json"] (sample_call 0)).
  intros path Hin. exists sample_lockfile, sample_scanned.
  apply list_elem_of_singleton in Hin. subst path. split; [reflexivity|exact sample_go_parse].
Defined.
